(** * dumpstate-py: a shallow embedding of the section parsers

    The Python package [dumpstate] extracts structured records from an
    Android bug report.  This development embeds the parsers that the
    specification makes claims about and proves (or refutes) those claims.

    Conventions of the embedding:
    - Python [bytes] is a list of 8-bit characters ([list ascii]); the
      literal [b'...'] is written [b"..."].
    - Python [str] (only used by the USB parser, after decoding) is modelled
      on the same type; the classes [\s], [\w], [\d] of [str] patterns are
      given their meaning on the ASCII range.
    - a call that may raise returns an [outcome]: [Ok v] or [Raise e].
    - [re] is modelled by a backtracking matcher over the pattern syntax
      used in the sources (repetition only occurs over character classes
      there).  Where a pattern of the source is quoted, DQ stands for the
      double quote and a space separates a star from a closing bracket. *)

From Stdlib Require Import ZArith Ascii String List Bool Lia.
From stdpp Require Import base option list gmap strings.

Set Default Proof Using "Type".
Set Warnings "-register-all".
Local Open Scope Z_scope.
Local Open Scope list_scope.

(** ** Bytes *)

Abbreviation bytes := (list ascii).

Definition b (s : string) : bytes := list_ascii_of_string s.

Definition code (c : ascii) : N := N_of_ascii c.

Definition in_range (lo hi : ascii) (c : ascii) : bool :=
  ((code lo <=? code c) && (code c <=? code hi))%N.

Definition is_digit (c : ascii) : bool := in_range "0" "9" c.
Definition is_upper (c : ascii) : bool := in_range "A" "Z" c.
Definition is_lower (c : ascii) : bool := in_range "a" "z" c.
Definition is_alpha (c : ascii) : bool := is_upper c || is_lower c.
Definition is_char (x : ascii) (c : ascii) : bool := Ascii.eqb x c.

(** ASCII whitespace, as used by [bytes.strip], [bytes.split] and by [\s]
    in a bytes pattern: space, \t, \n, \v, \f, \r. *)
Definition is_space (c : ascii) : bool :=
  ((code c =? 32) || ((9 <=? code c) && (code c <=? 13)))%N.

(** [\w] on bytes: [a-zA-Z0-9_]. *)
Definition is_word (c : ascii) : bool :=
  is_alpha c || is_digit c || is_char "_" c.

Definition is_hex (c : ascii) : bool :=
  is_digit c || in_range "a" "f" c || in_range "A" "F" c.

Definition newline : ascii := "010"%char.

(** Whitespace of a [str]: the ASCII whitespace and the separators
    0x1c..0x1f, which [str.isspace] and [\s] in a [str] pattern accept. *)
Definition is_uspace (c : ascii) : bool :=
  is_space c || ((28 <=? code c) && (code c <=? 31))%N.

Definition bytes_eqb (x y : bytes) : bool := bool_decide (x = y).

(** [x.startswith(p)] *)
Fixpoint startswith (p s : bytes) : bool :=
  match p, s with
  | [], _ => true
  | _ :: _, [] => false
  | c :: p', d :: s' => Ascii.eqb c d && startswith p' s'
  end.

(** [sub in s] *)
Fixpoint contains (sub s : bytes) : bool :=
  startswith sub s ||
  match s with
  | [] => false
  | _ :: s' => contains sub s'
  end.

Fixpoint lstrip_by (p : ascii -> bool) (s : bytes) : bytes :=
  match s with
  | c :: s' => if p c then lstrip_by p s' else s
  | [] => []
  end.

Definition rstrip_by (p : ascii -> bool) (s : bytes) : bytes :=
  rev (lstrip_by p (rev s)).

Definition strip_by (p : ascii -> bool) (s : bytes) : bytes :=
  rstrip_by p (lstrip_by p s).

(** [x.strip()] on bytes *)
Definition strip (s : bytes) : bytes := strip_by is_space s.

(** [x.strip()] on str *)
Definition ustrip (s : bytes) : bytes := strip_by is_uspace s.

(** [x.split(sep)] for a one-byte separator: always at least one field. *)
Fixpoint split_on (sep : ascii) (s : bytes) : list bytes :=
  match s with
  | [] => [[]]
  | c :: s' =>
      if Ascii.eqb c sep then [] :: split_on sep s'
      else match split_on sep s' with
           | f :: fs => (c :: f) :: fs
           | [] => [[c]]
           end
  end.

(** [x.split(sep, 1)] for a one-byte separator. *)
Fixpoint split_once (sep : ascii) (s : bytes) : list bytes :=
  match s with
  | [] => [[]]
  | c :: s' =>
      if Ascii.eqb c sep then [[]; s']
      else match split_once sep s' with
           | f :: fs => (c :: f) :: fs
           | [] => [[c]]
           end
  end.

(** [x.split()] : fields separated by runs of whitespace, none empty.
    [cur] is the field being read, reversed. *)
Fixpoint split_ws_go (cur : bytes) (s : bytes) : list bytes :=
  match s with
  | [] => match cur with [] => [] | _ => [rev cur] end
  | c :: s' =>
      if is_space c
      then match cur with
           | [] => split_ws_go [] s'
           | _ => rev cur :: split_ws_go [] s'
           end
      else split_ws_go (c :: cur) s'
  end.

Definition split_ws (s : bytes) : list bytes := split_ws_go [] s.

(** [x.split(sep)] and [x.split(sep, 1)] for a separator of several bytes
    (non-empty).  [skip] counts the bytes of a separator still to drop. *)
Fixpoint split_str_go (sep : bytes) (once : bool) (skip : nat) (cur : bytes)
    (s : bytes) {struct s} : list bytes :=
  match s with
  | [] => [rev cur]
  | c :: s' =>
      match skip with
      | S n => split_str_go sep once n cur s'
      | O =>
          if startswith sep s
          then if once
               then [rev cur; List.skipn (length sep) s]
               else rev cur :: split_str_go sep once (length sep - 1) [] s'
          else split_str_go sep once 0 (c :: cur) s'
      end
  end.

Definition split_str (sep s : bytes) : list bytes := split_str_go sep false 0 [] s.

(** [sep.join(xs)] *)
Fixpoint join (sep : bytes) (xs : list bytes) : bytes :=
  match xs with
  | [] => []
  | [x] => x
  | x :: rest => x ++ sep ++ join sep rest
  end.

(** [x.replace(old, new)] for a non-empty [old]. *)
Fixpoint replace_go (old new : bytes) (skip : nat) (s : bytes) : bytes :=
  match s with
  | [] => []
  | c :: s' =>
      match skip with
      | S n => replace_go old new n s'
      | O =>
          if startswith old s
          then new ++ replace_go old new (length old - 1) s'
          else c :: replace_go old new 0 s'
      end
  end.

Definition replace (old new s : bytes) : bytes := replace_go old new 0 s.

(** [x.lower()] *)
Definition lower_char (c : ascii) : ascii :=
  if is_upper c then ascii_of_N (code c + 32) else c.

Definition lower (s : bytes) : bytes := map lower_char s.

(** ** Outcomes of calls that may raise *)

Inductive exn : Type :=
| ValueError
| TypeError
| AttributeError
| IndexError
| OverflowError
| UnicodeDecodeError
| KeyError
| OutOfModel.      (* not a Python exception: the input leaves the model *)

Inductive outcome (A : Type) : Type :=
| Ok (a : A)
| Raise (e : exn).
Arguments Ok {A} a.
Arguments Raise {A} e.

Definition obind {A B} (x : outcome A) (f : A -> outcome B) : outcome B :=
  match x with
  | Ok a => f a
  | Raise e => Raise e
  end.

#[global] Instance outcome_ret : MRet outcome := fun A a => Ok a.
#[global] Instance outcome_bind : MBind outcome := fun A B f x => obind x f.

(** [xs[i]] : IndexError out of range. *)
Definition index {A} (xs : list A) (i : nat) : outcome A :=
  match nth_error xs i with
  | Some x => Ok x
  | None => Raise IndexError
  end.

(** [int(x)] on bytes: optional surrounding whitespace, an optional sign,
    then decimal digits, where single underscores may separate digits. *)
Definition digit_val (c : ascii) : Z := Z.of_N (code c) - 48.

Fixpoint int_digits (acc : Z) (after_digit : bool) (s : bytes) : option Z :=
  match s with
  | [] => if after_digit then Some acc else None
  | c :: s' =>
      if is_digit c then int_digits (10 * acc + digit_val c) true s'
      else if is_char "_" c && after_digit
           then match s' with
                | d :: _ => if is_digit d then int_digits acc false s' else None
                | [] => None
                end
           else None
  end.

Definition py_int_with (sp : ascii -> bool) (s : bytes) : outcome Z :=
  let t := strip_by sp s in
  let r := match t with
           | "-"%char :: t' => option_map Z.opp (int_digits 0 false t')
           | "+"%char :: t' => int_digits 0 false t'
           | _ => int_digits 0 false t
           end in
  match r with
  | Some z => Ok z
  | None => Raise ValueError
  end.

Definition py_int (s : bytes) : outcome Z := py_int_with is_space s.

(** [helper.RawData]: the raw buffer and its lines. *)
Record RawData : Type := mkRawData { raw : bytes; lines : list bytes }.

Definition RawData_init (r : bytes) : RawData :=
  {| raw := r; lines := split_on newline (strip r) |}.


(** ** Regular expressions ([re])

    The syntax covers what the patterns of the sources use.  Repetition is
    over a character class, with a minimum count, greedy or lazy.  Groups
    are numbered as in the pattern. *)

Inductive regex : Type :=
| Eps
| Lit (l : bytes)                       (* a literal text *)
| Cls (p : ascii -> bool)               (* one character of a class *)
| Rep (greedy : bool) (min : nat) (p : ascii -> bool)
                                        (* p{min,} and p{min,}? *)
| Seq (r1 r2 : regex)
| Alt (r1 r2 : regex)                   (* r1|r2, r1 tried first *)
| Group (n : nat) (r : regex)           (* capturing group number n *)
| Bol                                   (* ^ without re.MULTILINE *)
| BolM                                  (* ^ with re.MULTILINE *)
| Eol                                   (* $ without re.MULTILINE *)
| EolM                                  (* $ with re.MULTILINE *)
| EndZ                                  (* \Z *)
| Look (r : regex).                     (* (?=r) *)

Declare Scope regex_scope.
Delimit Scope regex_scope with re.
Bind Scope regex_scope with regex.
Infix "+++" := Seq (at level 60, right associativity) : regex_scope.
Infix "<|>" := Alt (at level 65, right associativity) : regex_scope.

Definition Star (p : ascii -> bool) : regex := Rep true 0 p.    (* p*  *)
Definition Plus (p : ascii -> bool) : regex := Rep true 1 p.    (* p+  *)
Definition StarLazy (p : ascii -> bool) : regex := Rep false 0 p. (* p*? *)
Definition PlusLazy (p : ascii -> bool) : regex := Rep false 1 p. (* p+? *)
Definition Opt (r : regex) : regex := Alt r Eps.                 (* r?  *)
Definition any_char : ascii -> bool := fun _ => true.            (* . with re.DOTALL *)
Definition not_in (cs : bytes) : ascii -> bool :=
  fun c => negb (existsb (Ascii.eqb c) cs).
Definition one_of (cs : bytes) : ascii -> bool :=
  fun c => existsb (Ascii.eqb c) cs.

(** The position of the matcher in the subject: the character before it
    (for [^]), its index, and the text still to read. *)
Record cursor : Type := mkCursor {
  prev : option ascii;
  idx : nat;
  rest : bytes
}.

Definition start_cursor (s : bytes) : cursor :=
  {| prev := None; idx := 0; rest := s |}.

Definition advance (c : ascii) (s : bytes) (cu : cursor) : cursor :=
  {| prev := Some c; idx := S (idx cu); rest := s |}.

Fixpoint advance_by (l : bytes) (cu : cursor) : option cursor :=
  match l with
  | [] => Some cu
  | c :: l' =>
      match rest cu with
      | d :: s => if Ascii.eqb c d then advance_by l' (advance d s cu) else None
      | [] => None
      end
  end.

(** Captured groups, the most recent binding first. *)
Definition captures : Type := list (nat * bytes).

Fixpoint capture (n : nat) (cs : captures) : option bytes :=
  match cs with
  | [] => None
  | (k, v) :: cs' => if Nat.eqb k n then Some v else capture n cs'
  end.

Section Matcher.
Context {R : Type}.

(** [p{min,}] greedy: take as many as possible, give back one at a time. *)
Fixpoint rep_greedy (p : ascii -> bool) (min : nat) (pv : option ascii)
    (i : nat) (s : bytes) (k : cursor -> option R) : option R :=
  let here := match min with
              | O => k {| prev := pv; idx := i; rest := s |}
              | S _ => None
              end in
  match s with
  | c :: s' =>
      if p c
      then match rep_greedy p (Nat.pred min) (Some c) (S i) s' k with
           | Some r => Some r
           | None => here
           end
      else here
  | [] => here
  end.

(** [p{min,}?] lazy: take as few as possible. *)
Fixpoint rep_lazy (p : ascii -> bool) (min : nat) (pv : option ascii)
    (i : nat) (s : bytes) (k : cursor -> option R) : option R :=
  let more := match s with
              | c :: s' =>
                  if p c then rep_lazy p (Nat.pred min) (Some c) (S i) s' k
                  else None
              | [] => None
              end in
  match min with
  | O => match k {| prev := pv; idx := i; rest := s |} with
         | Some r => Some r
         | None => more
         end
  | S _ => more
  end.
End Matcher.

Definition at_bol_m (cu : cursor) : bool :=
  match prev cu with
  | None => true
  | Some c => Ascii.eqb c newline
  end.

Definition at_eol_m (cu : cursor) : bool :=
  match rest cu with
  | [] => true
  | c :: _ => Ascii.eqb c newline
  end.

Definition at_eol (cu : cursor) : bool :=
  match rest cu with
  | [] => true
  | [c] => Ascii.eqb c newline
  | _ => false
  end.

Definition at_end (cu : cursor) : bool :=
  match rest cu with
  | [] => true
  | _ => false
  end.

(** The backtracking matcher, in continuation-passing style: [k] is what
    remains to be matched after [r]. *)
Fixpoint rmatch {R : Type} (r : regex) (cu : cursor) (cs : captures)
    (k : cursor -> captures -> option R) : option R :=
  match r with
  | Eps => k cu cs
  | Lit l =>
      match advance_by l cu with
      | Some cu' => k cu' cs
      | None => None
      end
  | Cls p =>
      match rest cu with
      | c :: s => if p c then k (advance c s cu) cs else None
      | [] => None
      end
  | Rep true n p => rep_greedy p n (prev cu) (idx cu) (rest cu) (fun cu' => k cu' cs)
  | Rep false n p => rep_lazy p n (prev cu) (idx cu) (rest cu) (fun cu' => k cu' cs)
  | Seq r1 r2 => rmatch r1 cu cs (fun cu' cs' => rmatch r2 cu' cs' k)
  | Alt r1 r2 =>
      match rmatch r1 cu cs k with
      | Some x => Some x
      | None => rmatch r2 cu cs k
      end
  | Group n r1 =>
      rmatch r1 cu cs
        (fun cu' cs' => k cu' ((n, take (idx cu' - idx cu) (rest cu)) :: cs'))
  | Bol => if bool_decide (idx cu = 0%nat) then k cu cs else None
  | BolM => if at_bol_m cu then k cu cs else None
  | Eol => if at_eol cu then k cu cs else None
  | EolM => if at_eol_m cu then k cu cs else None
  | EndZ => if at_end cu then k cu cs else None
  | Look r1 =>
      match rmatch r1 cu cs (fun _ cs' => Some cs') with
      | Some cs' => k cu cs'
      | None => None
      end
  end.

(** A match object: [start()], [end()] and the groups. *)
Record rmatch_result : Type := mkMatch {
  m_start : nat;
  m_end : nat;
  m_caps : captures
}.

Definition group (m : rmatch_result) (n : nat) : option bytes := capture n (m_caps m).

Definition match_at (r : regex) (cu : cursor) : option rmatch_result :=
  rmatch r cu []
    (fun cu' cs =>
       Some {| m_start := idx cu; m_end := idx cu';
               m_caps := (0%nat, take (idx cu' - idx cu) (rest cu)) :: cs |}).

(** [re.match(r, s)] *)
Definition re_match (r : regex) (s : bytes) : option rmatch_result :=
  match_at r (start_cursor s).

(** [re.fullmatch(r, s)] *)
Definition re_fullmatch (r : regex) (s : bytes) : option rmatch_result :=
  match_at (Seq r EndZ) (start_cursor s).

(** [re.search(r, s)]: the first position, from the left, with a match. *)
Fixpoint search_from (r : regex) (pv : option ascii) (i : nat) (s : bytes)
    : option rmatch_result :=
  match match_at r {| prev := pv; idx := i; rest := s |} with
  | Some m => Some m
  | None =>
      match s with
      | [] => None
      | c :: s' => search_from r (Some c) (S i) s'
      end
  end.

Definition re_search (r : regex) (s : bytes) : option rmatch_result :=
  search_from r None 0 s.

(** [re.sub(r, repl, s)] for a pattern that matches no empty text:
    matches are found from the left and do not overlap.  [skip] counts the
    characters of the last match still to be passed. *)
Fixpoint sub_from (r : regex) (repl : rmatch_result -> bytes)
    (pv : option ascii) (i : nat) (skip : nat) (s : bytes) : bytes :=
  match skip with
  | S n =>
      match s with
      | [] => []
      | c :: s' => sub_from r repl (Some c) (S i) n s'
      end
  | O =>
      match match_at r {| prev := pv; idx := i; rest := s |} with
      | Some m =>
          repl m ++
          match s with
          | [] => []
          | c :: s' =>
              match (m_end m - m_start m)%nat with
              | O => c :: sub_from r repl (Some c) (S i) 0 s'
              | S n => sub_from r repl (Some c) (S i) n s'
              end
          end
      | None =>
          match s with
          | [] => []
          | c :: s' => c :: sub_from r repl (Some c) (S i) 0 s'
          end
      end
  end.

Definition re_sub (r : regex) (repl : rmatch_result -> bytes) (s : bytes) : bytes :=
  sub_from r repl None 0 0 s.

(** [re.findall(r, s)], as the list of match objects. *)
Fixpoint findall_from (r : regex) (pv : option ascii) (i : nat) (skip : nat)
    (s : bytes) : list rmatch_result :=
  match skip with
  | S n =>
      match s with
      | [] => []
      | c :: s' => findall_from r (Some c) (S i) n s'
      end
  | O =>
      match match_at r {| prev := pv; idx := i; rest := s |} with
      | Some m =>
          m ::
          match s with
          | [] => []
          | c :: s' => findall_from r (Some c) (S i) (Nat.pred (m_end m - m_start m)) s'
          end
      | None =>
          match s with
          | [] => []
          | c :: s' => findall_from r (Some c) (S i) 0 s'
          end
      end
  end.

Definition re_findall (r : regex) (s : bytes) : list rmatch_result :=
  findall_from r None 0 0 s.

(** The text of group [n], or [b''] when the group took no part. *)
Definition group_or_empty (m : rmatch_result) (n : nat) : bytes :=
  default [] (group m n).

(** ** Logging

    Modelled from the spec: the logger [LOGGER] of [dumpstate.helper.logging]
    is not among the sources.  The spec describes it as a side reporting
    sink, so a parser returns, next to its result, the events it emitted:
    [LOGGER.info] gives an [LogInfo], [LOGGER.warning] a [LogWarning].
    The double quotes inside a message are written as single quotes. *)

Inductive log_event : Type :=
| LogInfo (msg : string)
| LogWarning (msg : string).

Definition is_diagnostic (e : log_event) : bool :=
  match e with
  | LogInfo _ => false
  | LogWarning _ => true
  end.

Definition nl : bytes := [newline].
Definition not_space (c : ascii) : bool := negb (is_space c).
Definition not_newline (c : ascii) : bool := negb (Ascii.eqb c newline).
(** [if x:] on bytes *)
Definition nonblank (line : bytes) : bool :=
  match strip line with
  | [] => false
  | _ => true
  end.

(** ** kernel/lsmod.py *)

Module lsmod.

Record LoadedModule : Type := mkLoadedModule {
  name : bytes;
  size : Z;
  used_by : list bytes
}.

Definition LoadedModule_default : LoadedModule :=
  {| name := []; size := 0; used_by := [] |}.

(** [LoadedModule.parse], on a fresh record. *)
Definition LoadedModule_parse (self : LoadedModule) (line : bytes)
    : outcome LoadedModule :=
  match line with
  | [] => Ok self
  | _ =>
      let parts := split_ws (strip line) in
      if (length parts <? 3)%nat then Ok self
      else
        p0 ← index parts 0;
        p1 ← index parts 1;
        sz ← py_int p1;
        let self := {| name := p0; size := sz; used_by := used_by self |} in
        if (3 <? length parts)%nat
        then Ok {| name := name self; size := size self;
                   used_by := map (strip_by (is_char ",")) (drop 3 parts) |}
        else Ok self
  end.

(** [------ LSMOD \(lsmod\) ------\n(.*?)\n------] with [re.DOTALL] *)
Definition anchor : bytes := b"------ LSMOD (lsmod) ------" ++ nl.

Definition section_re : regex :=
  (Lit anchor +++ Group 1 (StarLazy any_char) +++ Lit (nl ++ b"------"))%re.

Definition banner : log_event := LogInfo "Parsing 'LSMOD' section...".

Fixpoint parse_lines (ls : list bytes) : outcome (list LoadedModule) :=
  match ls with
  | [] => Ok []
  | line :: ls' =>
      if nonblank line && negb (startswith (b"Module") line)
      then lm ← LoadedModule_parse LoadedModule_default line;
           rest ← parse_lines ls';
           Ok (lm :: rest)
      else parse_lines ls'
  end.

Definition parse_lsmod (lines : RawData)
    : list log_event * outcome (option (list LoadedModule)) :=
  ([banner],
   match re_search section_re (raw lines) with
   | None => Ok None
   | Some m =>
       let lsmod_content := group_or_empty m 1 in
       mods ← parse_lines (split_on newline (strip lsmod_content));
       Ok (Some mods)
   end).

End lsmod.

(** ** mount/__init__.py *)

Module mount.

Record MountPoint : Type := mkMountPoint {
  device : bytes;
  path : bytes;
  mount_type : bytes;
  options : list bytes
}.

Definition MountPoint_default : MountPoint :=
  {| device := []; path := []; mount_type := []; options := [] |}.

(** [(\S+)\s+on\s+(\S+)\s+type\s+(\S+)\s+\((.*?)\)] *)
Definition line_re : regex :=
  (Group 1 (Plus not_space) +++ Plus is_space +++ Lit (b"on") +++ Plus is_space +++
   Group 2 (Plus not_space) +++ Plus is_space +++ Lit (b"type") +++ Plus is_space +++
   Group 3 (Plus not_space) +++ Plus is_space +++
   Lit (b"(") +++ Group 4 (StarLazy not_newline) +++ Lit (b")"))%re.

(** [MountPoint.parse] *)
Definition MountPoint_parse (self : MountPoint) (line : bytes) : MountPoint :=
  let line := strip line in
  match re_match line_re line with
  | Some m =>
      {| device := group_or_empty m 1;
         path := group_or_empty m 2;
         mount_type := group_or_empty m 3;
         options := map strip (split_on "," (group_or_empty m 4)) |}
  | None => self
  end.

(** [------ MOUNT POINT DUMP \(mount\) ------\n(.*?)\n------] with [re.DOTALL] *)
Definition anchor : bytes := b"------ MOUNT POINT DUMP (mount) ------" ++ nl.

Definition section_re : regex :=
  (Lit anchor +++ Group 1 (StarLazy any_char) +++ Lit (nl ++ b"------"))%re.

Definition banner : log_event := LogInfo "Parsing 'MOUNT POINT DUMP' section...".

(** The lines of the located section, as the loop sees them. *)
Definition section_lines (mount_content : bytes) : list bytes :=
  split_on newline (strip mount_content).

Fixpoint parse_lines (ls : list bytes) : list MountPoint :=
  match ls with
  | [] => []
  | line :: ls' =>
      if nonblank line
      then MountPoint_parse MountPoint_default line :: parse_lines ls'
      else parse_lines ls'
  end.

Definition parse_mount_points (dumpstate_content : RawData)
    : list log_event * option (list MountPoint) :=
  ([banner],
   match re_search section_re (raw dumpstate_content) with
   | None => None
   | Some m => Some (parse_lines (section_lines (group_or_empty m 1)))
   end).

End mount.

(** ** Python values

    The dynamically typed values that the parsers store: attributes of an
    object, values of a parsed JSON text.  A [float] is kept as the literal
    it was read from; a [dict] keeps its keys in insertion order. *)

Inductive pyval : Type :=
| VNone
| VBool (v : bool)
| VInt (z : Z)
| VFloat (lit : bytes)
| VStr (s : bytes)
| VBytes (s : bytes)
| VList (l : list pyval)
| VDict (d : list (bytes * pyval))
| VParsers.                   (* the table of bound parser methods *)

(** [v is not None] *)
Definition is_not_None (v : pyval) : bool :=
  match v with
  | VNone => false
  | _ => true
  end.

(** [d.get(k)] on an insertion-ordered dict *)
Fixpoint dict_get (k : bytes) (d : list (bytes * pyval)) : option pyval :=
  match d with
  | [] => None
  | (k', v) :: d' => if bytes_eqb k' k then Some v else dict_get k d'
  end.

(** [d[k] = v] : an existing key keeps its place. *)
Fixpoint dict_set (k : bytes) (v : pyval) (d : list (bytes * pyval))
    : list (bytes * pyval) :=
  match d with
  | [] => [(k, v)]
  | (k', v') :: d' =>
      if bytes_eqb k' k then (k, v) :: d' else (k', v') :: dict_set k v d'
  end.

(** [float(x)] on bytes.  The syntax is checked; the value is kept as the
    stripped literal. *)
Fixpoint digitpart (after_digit : bool) (s : bytes) : option bytes :=
  match s with
  | c :: s' =>
      if is_digit c then digitpart true s'
      else if is_char "_" c && after_digit
           then match s' with
                | d :: _ => if is_digit d then digitpart false s'
                            else Some s
                | [] => Some s
                end
           else if after_digit then Some s else None
  | [] => if after_digit then Some s else None
  end.

Definition float_exponent (s : bytes) : bool :=
  match s with
  | [] => true
  | e :: s1 =>
      if is_char "e" e || is_char "E" e
      then let s2 := match s1 with
                     | c :: s' => if is_char "+" c || is_char "-" c then s' else s1
                     | [] => s1
                     end in
           match digitpart false s2 with
           | Some [] => true
           | _ => false
           end
      else false
  end.

Definition float_number (s : bytes) : bool :=
  match s with
  | "."%char :: s1 =>
      match digitpart false s1 with
      | Some s2 => float_exponent s2
      | None => false
      end
  | _ =>
      match digitpart false s with
      | Some ("."%char :: s1) =>
          match digitpart false s1 with
          | Some s2 => float_exponent s2
          | None => float_exponent s1
          end
      | Some s1 => float_exponent s1
      | None => false
      end
  end.

Definition float_syntax (s : bytes) : bool :=
  let s1 := match s with
            | c :: s' => if is_char "+" c || is_char "-" c then s' else s
            | [] => s
            end in
  float_number s1 ||
  existsb (bytes_eqb (lower s1)) [b"inf"; b"infinity"; b"nan"].

Definition py_float (s : bytes) : outcome pyval :=
  let t := strip s in
  if float_syntax t then Ok (VFloat t) else Raise ValueError.

(** ** process/__init__.py *)

Module process.

(** An object is its attribute dictionary ([__dict__]). *)
Abbreviation object := (gmap string pyval).

(** [ThreadInfo()] : every declared field at its default. *)
Definition ThreadInfo_init : object :=
  list_to_map
    [ ("pid", VInt 0); ("tid", VInt 0); ("user", VBytes []); ("name", VBytes []);
      ("state", VBytes []); ("cmd", VBytes []);
      ("label", VBytes []); ("ppid", VInt 0); ("vsz", VBytes []); ("rss", VBytes []);
      ("wchan", VBytes []); ("addr", VBytes []); ("pri", VBytes []); ("ni", VBytes []);
      ("rtprio", VBytes []); ("sched", VBytes []); ("pcy", VBytes []); ("time", VBytes []);
      ("cpu_percent", VFloat (b"0.0")); ("virt", VBytes []); ("res", VBytes []) ]%string.

(** [setattr(o, key, value)] *)
Definition setattr (o : object) (key : string) (value : pyval) : object :=
  <[key := value]> o.

Definition attr_int (o : object) (key : string) : Z :=
  match o !! key with
  | Some (VInt z) => z
  | _ => 0
  end.

Definition attr_bytes (o : object) (key : string) : bytes :=
  match o !! key with
  | Some (VBytes s) => s
  | _ => []
  end.

(** [ThreadInfo._parse_ps] *)
Definition _parse_ps (self : object) (raw : bytes) : outcome object :=
  let parts := split_ws raw in
  if (length parts <? 14)%nat then Ok self
  else
    match parts with
    | label :: user :: pid :: tid :: ppid :: vsz :: rss :: wchan :: addr ::
      state :: pri :: ni :: rtprio :: sched :: pcy :: time :: cmd_parts =>
        let self := setattr self "label" (VBytes label) in
        let self := setattr self "user" (VBytes user) in
        let self := setattr self "vsz" (VBytes vsz) in
        let self := setattr self "rss" (VBytes rss) in
        let self := setattr self "wchan" (VBytes wchan) in
        let self := setattr self "addr" (VBytes addr) in
        let self := setattr self "state" (VBytes state) in
        let self := setattr self "pri" (VBytes pri) in
        let self := setattr self "ni" (VBytes ni) in
        let self := setattr self "rtprio" (VBytes rtprio) in
        let self := setattr self "sched" (VBytes sched) in
        let self := setattr self "pcy" (VBytes pcy) in
        let self := setattr self "time" (VBytes time) in
        pid ← py_int pid;
        let self := setattr self "pid" (VInt pid) in
        tid ← py_int tid;
        let self := setattr self "tid" (VInt tid) in
        ppid ← py_int ppid;
        let self := setattr self "ppid" (VInt ppid) in
        Ok (setattr self "name" (VBytes (join (b" ") cmd_parts)))
    | _ => Raise ValueError     (* not enough values to unpack *)
    end.

(** [ThreadInfo._parse_top] *)
Definition _parse_top (self : object) (raw : bytes) : outcome object :=
  let parts := split_ws raw in
  if (length parts <? 12)%nat then Ok self
  else
    let part (i : nat) : bytes := nth i parts [] in
    pid ← py_int (part 0%nat);
    let self := setattr self "pid" (VInt pid) in
    tid ← py_int (part 1%nat);
    let self := setattr self "tid" (VInt tid) in
    let self := setattr self "user" (VBytes (part 2%nat)) in
    let self := setattr self "pr" (VBytes (part 3%nat)) in
    let self := setattr self "ni" (VBytes (part 4%nat)) in
    cpu ← py_float (replace (b"%") [] (part 5%nat));
    let self := setattr self "cpu_percent" cpu in
    let self := setattr self "state" (VBytes (part 6%nat)) in
    let self := setattr self "virt" (VBytes (part 7%nat)) in
    let self := setattr self "res" (VBytes (part 8%nat)) in
    let self := setattr self "pcy" (VBytes (part 9%nat)) in
    let self := setattr self "cmd" (VBytes (part 10%nat)) in
    Ok (setattr self "name" (VBytes (join (b" ") (drop 11 parts)))).

Inductive source : Type := ps | top | other_source.

(** [ThreadInfo.parse] and [ThreadInfo._parse] *)
Definition ThreadInfo_parse (self : object) (line : bytes) (src : source)
    : outcome object :=
  let self := setattr self "_parsers" VParsers in
  match src with
  | ps => _parse_ps self (strip line)
  | top => _parse_top self (strip line)
  | other_source => Ok self
  end.

Record Process : Type := mkProcess {
  pid : Z;
  user : bytes;
  name : bytes;
  threads : gmap Z object
}.

(** The merge loop of [Process.add_thread]:
    [for key, value in thread_info.__dict__.items():
       if value is not None: setattr(first, key, value)] *)
Definition merge (first thread_info : object) : object :=
  map_fold
    (fun key value acc => if is_not_None value then setattr acc key value else acc)
    first thread_info.

(** [Process.add_thread] *)
Definition add_thread (self : Process) (thread_info : object) : Process :=
  let tid := attr_int thread_info "tid" in
  match threads self !! tid with
  | None =>
      {| pid := pid self; user := user self; name := name self;
         threads := <[tid := thread_info]> (threads self) |}
  | Some first =>
      {| pid := pid self; user := user self; name := name self;
         threads := <[tid := merge first thread_info]> (threads self) |}
  end.

Record ProcessReport : Type := mkProcessReport {
  threads_summary : list (bytes * Z);
  mem_summary : list (bytes * bytes);
  swap_summary : list (bytes * bytes);
  cpu_summary : list (bytes * bytes);
  processes : gmap Z Process
}.

Definition ProcessReport_init : ProcessReport :=
  {| threads_summary := []; mem_summary := []; swap_summary := [];
     cpu_summary := []; processes := ∅ |}.

Definition set_processes (info : ProcessReport) (ps : gmap Z Process) : ProcessReport :=
  {| threads_summary := threads_summary info; mem_summary := mem_summary info;
     swap_summary := swap_summary info; cpu_summary := cpu_summary info;
     processes := ps |}.

(** The body shared by the two loops over process lines:
    build a [ThreadInfo], skip it when its pid is 0, create the process
    when it is new, then [add_thread]. *)
Definition add_line (info : ProcessReport) (line : bytes) (src : source)
    : outcome ProcessReport :=
  thread_info ← ThreadInfo_parse ThreadInfo_init line src;
  let p := attr_int thread_info "pid" in
  if (p =? 0) then Ok info
  else
    let proc := match processes info !! p with
                | Some proc => proc
                | None => {| pid := p; user := attr_bytes thread_info "user";
                             name := attr_bytes thread_info "name"; threads := ∅ |}
                end in
    Ok (set_processes info (<[p := add_thread proc thread_info]> (processes info))).

Fixpoint process_lines (header : bytes) (src : source) (started : bool)
    (info : ProcessReport) (ls : list bytes) : outcome ProcessReport :=
  match ls with
  | [] => Ok info
  | line :: ls' =>
      if startswith header (strip line)
      then process_lines header src true info ls'
      else if started
           then info ← add_line info line src;
                process_lines header src started info ls'
           else process_lines header src started info ls'
  end.

(** [(\d+)\s+(\w+)], [(\d+K)\s+(\w+)] and [(\d+%)([^%\s]+)] *)
Definition count_status_re : regex :=
  (Group 1 (Plus is_digit) +++ Plus is_space +++ Group 2 (Plus is_word))%re.
Definition size_status_re : regex :=
  (Group 1 (Plus is_digit +++ Lit (b"K")) +++ Plus is_space +++ Group 2 (Plus is_word))%re.
Definition cpu_status_re : regex :=
  (Group 1 (Plus is_digit +++ Lit (b"%")) +++
   Group 2 (Plus (fun c => negb (is_char "%" c || is_space c))))%re.

(** [{status: value for value, status in parts}] *)
Fixpoint dict_of {A} (kvs : list (bytes * A)) (acc : list (bytes * A))
    : list (bytes * A) :=
  match kvs with
  | [] => acc
  | (k, v) :: kvs' =>
      dict_of kvs'
        (if existsb (fun kv => bytes_eqb (fst kv) k) acc
         then map (fun kv => if bytes_eqb (fst kv) k then (k, v) else kv) acc
         else acc ++ [(k, v)])
  end.

Definition pairs (r : regex) (line : bytes) : list (bytes * bytes) :=
  dict_of (map (fun m => (group_or_empty m 2, group_or_empty m 1)) (re_findall r line)) [].

Fixpoint int_values (kvs : list (bytes * bytes)) : outcome (list (bytes * Z)) :=
  match kvs with
  | [] => Ok []
  | (k, v) :: kvs' =>
      z ← py_int v;
      rest ← int_values kvs';
      Ok ((k, z) :: rest)
  end.

Definition summary_line (info : ProcessReport) (line : bytes) : outcome ProcessReport :=
  if startswith (b"Threads:") line then
    ts ← int_values (pairs count_status_re line);
    Ok {| threads_summary := ts; mem_summary := mem_summary info;
          swap_summary := swap_summary info; cpu_summary := cpu_summary info;
          processes := processes info |}
  else if startswith (b"  Mem:") line then
    Ok {| threads_summary := threads_summary info;
          mem_summary := pairs size_status_re line;
          swap_summary := swap_summary info; cpu_summary := cpu_summary info;
          processes := processes info |}
  else if startswith (b" Swap:") line then
    Ok {| threads_summary := threads_summary info; mem_summary := mem_summary info;
          swap_summary := pairs size_status_re line;
          cpu_summary := cpu_summary info; processes := processes info |}
  else if startswith (b"800%cpu") line then
    Ok {| threads_summary := threads_summary info; mem_summary := mem_summary info;
          swap_summary := swap_summary info;
          cpu_summary := pairs cpu_status_re line; processes := processes info |}
  else Ok info.

Fixpoint summary_lines (info : ProcessReport) (ls : list bytes) : outcome ProcessReport :=
  match ls with
  | [] => Ok info
  | line :: ls' => info ← summary_line info line; summary_lines info ls'
  end.

(** [_parse_top_content] *)
Definition _parse_top_content (info : ProcessReport) (ls : list bytes)
    : outcome ProcessReport :=
  info ← summary_lines info ls;
  process_lines (b"PID   TID") top false info ls.

(** [_parse_ps_content] *)
Definition _parse_ps_content (info : ProcessReport) (ls : list bytes)
    : outcome ProcessReport :=
  process_lines (b"LABEL") ps false info ls.

Inductive section_name : Type := cpu_section | ps_section.

Record sections : Type := mkSections {
  current_section : option section_name;
  cpu_lines : option (list bytes);
  ps_lines : option (list bytes)
}.

(** The loop of [parse_process_info] that gathers the lines of the two
    sections. *)
Definition gather_line (st : sections) (line : bytes) : sections :=
  if startswith (b"----- CPU INFO") line then
    {| current_section := Some cpu_section; cpu_lines := Some [];
       ps_lines := ps_lines st |}
  else if startswith (b"------ PROCESSES AND THREADS") line then
    {| current_section := Some ps_section; cpu_lines := cpu_lines st;
       ps_lines := Some [] |}
  else if startswith (b"------ ") line && contains (b"was the duration of") line then
    {| current_section := None; cpu_lines := cpu_lines st; ps_lines := ps_lines st |}
  else
    match current_section st with
    | Some cpu_section =>
        {| current_section := current_section st;
           cpu_lines := Some (default [] (cpu_lines st) ++ [line]);
           ps_lines := ps_lines st |}
    | Some ps_section =>
        {| current_section := current_section st;
           cpu_lines := cpu_lines st;
           ps_lines := Some (default [] (ps_lines st) ++ [line]) |}
    | None => st
    end.

Definition banner : log_event :=
  LogInfo "Parsing 'CPU INFO and PROCESSES AND THREADS' section...".

(** [parse_process_info] *)
Definition parse_process_info (dumpstate_content : RawData)
    : list log_event * outcome (option ProcessReport) :=
  ([banner],
   let st := fold_left gather_line (lines dumpstate_content)
               {| current_section := None; cpu_lines := None; ps_lines := None |} in
   info ← match cpu_lines st with
          | Some ls => _parse_top_content ProcessReport_init ls
          | None => Ok ProcessReport_init
          end;
   info ← match ps_lines st with
          | Some ls => _parse_ps_content info ls
          | None => Ok info
          end;
   Ok (if bool_decide (processes info = ∅) then None else Some info)).

End process.

(** Insertion-ordered dicts with keys of any type with decidable equality. *)

Fixpoint assoc_get {K V : Type} `{EqDecision K} (k : K) (d : list (K * V)) : option V :=
  match d with
  | [] => None
  | (k', v) :: d' => if decide (k' = k) then Some v else assoc_get k d'
  end.

Fixpoint assoc_set {K V : Type} `{EqDecision K} (k : K) (v : V) (d : list (K * V))
    : list (K * V) :=
  match d with
  | [] => [(k, v)]
  | (k', v') :: d' =>
      if decide (k' = k) then (k, v) :: d' else (k', v') :: assoc_set k v d'
  end.

Definition dq : ascii := "034"%char.     (* the double quote *)

(** ** vm_traces/__init__.py *)

Module vm_traces.

Record StackFrame : Type := mkStackFrame {
  frame_type : bytes;
  method : bytes;
  file_loc : bytes;
  line_number : Z;
  address : bytes;
  library : bytes;
  details : bytes
}.

Definition StackFrame_init : StackFrame :=
  {| frame_type := []; method := []; file_loc := []; line_number := 0;
     address := []; library := []; details := [] |}.

(** [#\d{2}\s+pc\s+([0-9a-fA-F]+)\s+([^\(]+)\s*\((.*?)\)] *)
Definition native_re : regex :=
  (Lit (b"#") +++ Cls is_digit +++ Cls is_digit +++ Plus is_space +++ Lit (b"pc") +++
   Plus is_space +++ Group 1 (Plus is_hex) +++ Plus is_space +++
   Group 2 (Plus (not_in (b"("))) +++ Star is_space +++
   Lit (b"(") +++ Group 3 (StarLazy not_newline) +++ Lit (b")"))%re.

(** [\(([^:]+):?(\d* )\)] *)
Definition managed_re : regex :=
  (Lit (b"(") +++ Group 1 (Plus (not_in (b":"))) +++ Opt (Lit (b":")) +++
   Group 2 (Star is_digit) +++ Lit (b")"))%re.

(** [StackFrame._parse_native_frame] *)
Definition _parse_native_frame (self : StackFrame) (raw : bytes) : StackFrame :=
  match re_search native_re raw with
  | Some m =>
      {| frame_type := frame_type self; method := method self;
         file_loc := file_loc self; line_number := line_number self;
         address := group_or_empty m 1;
         library := strip (group_or_empty m 2);
         details := strip (group_or_empty m 3) |}
  | None => self
  end.

(** [StackFrame._parse_managed_frame] *)
Definition _parse_managed_frame (self : StackFrame) (raw : bytes) : outcome StackFrame :=
  let meth := replace (b"at ") [] raw in
  let self := {| frame_type := frame_type self; method := meth;
                 file_loc := file_loc self; line_number := line_number self;
                 address := address self; library := library self;
                 details := details self |} in
  match re_search managed_re meth with
  | Some m =>
      let self := {| frame_type := frame_type self; method := method self;
                     file_loc := group_or_empty m 1; line_number := line_number self;
                     address := address self; library := library self;
                     details := details self |} in
      match group_or_empty m 2 with
      | [] => Ok self
      | digits =>
          n ← py_int digits;
          Ok {| frame_type := frame_type self; method := method self;
                file_loc := file_loc self; line_number := n;
                address := address self; library := library self;
                details := details self |}
      end
  | None => Ok self
  end.

(** [StackFrame.parse(line, b'native')] *)
Definition parse_native (line : bytes) : StackFrame :=
  _parse_native_frame
    {| frame_type := b"native"; method := []; file_loc := []; line_number := 0;
       address := []; library := []; details := [] |}
    (strip line).

(** [StackFrame.parse(line, b'managed')] *)
Definition parse_managed (line : bytes) : outcome StackFrame :=
  _parse_managed_frame
    {| frame_type := b"managed"; method := []; file_loc := []; line_number := 0;
       address := []; library := []; details := [] |}
    (strip line).

(** A key of [Thread.properties]: the str ['self'] or a bytes key. *)
Inductive pkey : Type :=
| KStr (s : string)
| KBytes (s : bytes).

#[global] Instance pkey_eq_dec : EqDecision pkey.
Proof. solve_decision. Defined.

Record Thread : Type := mkThread {
  name : bytes;
  priority : Z;
  tid : Z;
  status : bytes;
  is_daemon : bool;
  properties : list (pkey * bytes);
  stack_trace : list StackFrame
}.

Definition Thread_init : Thread :=
  {| name := []; priority := 0; tid := 0; status := []; is_daemon := false;
     properties := []; stack_trace := [] |}.

Definition set_properties (t : Thread) (ps : list (pkey * bytes)) : Thread :=
  {| name := name t; priority := priority t; tid := tid t; status := status t;
     is_daemon := is_daemon t; properties := ps; stack_trace := stack_trace t |}.

(** [Thread.add_stack_frame] *)
Definition add_stack_frame (t : Thread) (frame : StackFrame) : Thread :=
  {| name := name t; priority := priority t; tid := tid t; status := status t;
     is_daemon := is_daemon t; properties := properties t;
     stack_trace := stack_trace t ++ [frame] |}.

(** [DQ([^DQ]+)DQ\s+(daemon\s+)?prio=(\d+)\s+tid=(\d+)\s+(.* )] *)
Definition header_re : regex :=
  (Lit [dq] +++ Group 1 (Plus (not_in [dq])) +++ Lit [dq] +++ Plus is_space +++
   Opt (Group 2 (Lit (b"daemon") +++ Plus is_space)) +++
   Lit (b"prio=") +++ Group 3 (Plus is_digit) +++ Plus is_space +++
   Lit (b"tid=") +++ Group 4 (Plus is_digit) +++ Plus is_space +++
   Group 5 (Star not_newline))%re.

(** [Thread.parse] with [Thread._parse_header], on a fresh thread *)
Definition Thread_parse (header_line : bytes) : outcome Thread :=
  let raw_header := strip header_line in
  let daemon := contains (b"daemon") raw_header in
  match re_search header_re raw_header with
  | Some m =>
      p ← py_int (group_or_empty m 3);
      t ← py_int (group_or_empty m 4);
      Ok {| name := group_or_empty m 1; priority := p; tid := t;
            status := strip (group_or_empty m 5); is_daemon := daemon;
            properties := []; stack_trace := [] |}
  | None =>
      Ok {| name := []; priority := 0; tid := 0; status := []; is_daemon := daemon;
            properties := []; stack_trace := [] |}
  end.

(** [(\w+)=(DQ([^DQ]* )DQ|([^\s]+))] *)
Definition property_re : regex :=
  (Group 1 (Plus is_word) +++ Lit (b"=") +++
   Group 2 ((Lit [dq] +++ Group 3 (Star (not_in [dq])) +++ Lit [dq]) <|>
            Group 4 (Plus not_space)))%re.

Definition add_pairs (ps : list (pkey * bytes)) (ms : list rmatch_result)
    : list (pkey * bytes) :=
  fold_left
    (fun ps m =>
       let quoted_val := group_or_empty m 3 in
       let unquoted_val := group_or_empty m 4 in
       assoc_set (KBytes (group_or_empty m 1))
         (match quoted_val with [] => unquoted_val | _ => quoted_val end) ps)
    ms ps.

Definition add_part (ps : list (pkey * bytes)) (part : bytes)
    : outcome (list (pkey * bytes)) :=
  ps ← (if contains (b"self=") part
        then v ← index (split_str (b"self=") part) 1;
             Ok (assoc_set (KStr "self") v ps)
        else Ok ps);
  Ok (add_pairs ps (re_findall property_re part)).

Fixpoint add_parts (ps : list (pkey * bytes)) (parts : list bytes)
    : outcome (list (pkey * bytes)) :=
  match parts with
  | [] => Ok ps
  | part :: parts' => ps ← add_part ps part; add_parts ps parts'
  end.

(** [Thread.add_property_line] *)
Definition add_property_line (t : Thread) (line : bytes) : outcome Thread :=
  let parts := map strip (List.filter nonblank (split_on "|" (strip line))) in
  ps ← add_parts (properties t) parts;
  Ok (set_properties t ps).

Record AnrTrace : Type := mkAnrTrace {
  header : list (bytes * bytes);
  process_info : list (string * pyval);
  threads : list Thread
}.

Definition AnrTrace_init : AnrTrace :=
  {| header := []; process_info := []; threads := [] |}.

Definition set_header (a : AnrTrace) (k v : bytes) : AnrTrace :=
  {| header := assoc_set k v (header a); process_info := process_info a;
     threads := threads a |}.

Definition set_info (a : AnrTrace) (k : string) (v : pyval) : AnrTrace :=
  {| header := header a; process_info := assoc_set k v (process_info a);
     threads := threads a |}.

Definition append_thread (a : AnrTrace) (t : Thread) : AnrTrace :=
  {| header := header a; process_info := process_info a;
     threads := threads a ++ [t] |}.

(** [------ VM TRACES AT LAST ANR .*? ------\n(.*?)\n----- end \d+ -----]
    with [re.DOTALL] *)
Definition anchor : bytes := b"------ VM TRACES AT LAST ANR ".

Definition section_re : regex :=
  (Lit anchor +++ StarLazy any_char +++ Lit (b" ------" ++ nl) +++
   Group 1 (StarLazy any_char) +++
   Lit (nl ++ b"----- end ") +++ Plus is_digit +++ Lit (b" -----"))%re.

(** [^[A-Za-z]+.*?:] and [pid\s+(\d+)\s+at\s+(.* )] *)
Definition header_key_re : regex :=
  (Bol +++ Plus is_alpha +++ StarLazy not_newline +++ Lit (b":"))%re.
Definition pid_re : regex :=
  (Lit (b"pid") +++ Plus is_space +++ Group 1 (Plus is_digit) +++ Plus is_space +++
   Lit (b"at") +++ Plus is_space +++ Group 2 (Star not_newline))%re.

(** [line.split(b':', 1)[1].strip()] *)
Definition after_colon (line : bytes) : outcome bytes :=
  v ← index (split_once ":" line) 1; Ok (strip v).

(** The first block of the loop body: the ANR header. *)
Definition parse_header_line (a : AnrTrace) (line : bytes) : outcome AnrTrace :=
  if startswith (b"Subject:") line then
    v ← after_colon line; Ok (set_header a (b"subject") v)
  else if contains (b":") line && negb (contains (b"pid") line)
          && negb (startswith (b"|") (strip line))
          && negb (startswith (b"at ") (strip line))
          && negb (startswith (b"native:") (strip line))
  then
    match re_match header_key_re line with
    | Some _ =>
        match map strip (split_once ":" line) with
        | [key; value] => Ok (set_header a (replace (b" ") (b"_") (lower key)) value)
        | _ => Raise ValueError
        end
    | None => Ok a
    end
  else Ok a.

(** The second block: the process information. *)
Definition parse_process_line (a : AnrTrace) (line : bytes) : outcome AnrTrace :=
  if startswith (b"----- pid") line then
    match re_search pid_re line with
    | Some m =>
        p ← py_int (group_or_empty m 1);
        Ok (set_info (set_info a "pid" (VInt p))
              "timestamp" (VBytes (strip (group_or_empty m 2))))
    | None => Ok a
    end
  else if startswith (b"Cmd line:") line then
    v ← after_colon line; Ok (set_info a "cmd_line" (VBytes v))
  else if startswith (b"Build fingerprint:") line then
    v ← after_colon line; Ok (set_info a "build_fingerprint" (VBytes v))
  else if startswith (b"ABI:") line then
    v ← after_colon line; Ok (set_info a "abi" (VBytes v))
  else Ok a.

(** [lines[j].replace(b'native:', b'').strip()] parsed as a native frame *)
Definition native_frame (line : bytes) : StackFrame :=
  parse_native (strip (replace (b"native:") [] line)).

Definition is_continuation (line : bytes) : bool :=
  startswith (b"native: #") (strip line).

(** The lookahead loop: [ls] are the lines from index [j] on. *)
Fixpoint lookahead (t : Thread) (j : nat) (ls : list bytes) : Thread * nat :=
  match ls with
  | line :: ls' =>
      if is_continuation line
      then lookahead (add_stack_frame t (native_frame line)) (S j) ls'
      else (t, j)
  | [] => (t, j)
  end.

Record state : Type := mkState {
  anr_trace : AnrTrace;
  current_thread : option Thread;
  i : nat
}.

(** The third block: threads.  Returns the state before [i += 1]. *)
Definition parse_thread_line (lines : list bytes) (st : state) (line : bytes)
    : outcome state :=
  if startswith [dq] line then
    let a := match current_thread st with
             | Some t => append_thread (anr_trace st) t
             | None => anr_trace st
             end in
    t ← Thread_parse line;
    Ok {| anr_trace := a; current_thread := Some t; i := i st |}
  else
    match current_thread st with
    | Some t =>
        if startswith (b"|") (strip line) then
          t ← add_property_line t line;
          Ok {| anr_trace := anr_trace st; current_thread := Some t; i := i st |}
        else if startswith (b"at ") (strip line) then
          sf ← parse_managed line;
          Ok {| anr_trace := anr_trace st;
                current_thread := Some (add_stack_frame t sf); i := i st |}
        else if startswith (b"native:") (strip line) then
          let t := add_stack_frame t (native_frame line) in
          let (t, j) := lookahead t (i st + 1) (drop (i st + 1) lines) in
          Ok {| anr_trace := anr_trace st; current_thread := Some t;
                i := (j - 1)%nat |}
        else if contains (b"held mutexes=") line then
          t ← add_property_line t (b"| " ++ strip line);
          Ok {| anr_trace := anr_trace st; current_thread := Some t; i := i st |}
        else Ok st
    | None => Ok st
    end.

(** One turn of the [while] loop, for [i < len(lines)]. *)
Definition step (lines : list bytes) (st : state) : outcome state :=
  let line := nth (i st) lines [] in
  a ← parse_header_line (anr_trace st) line;
  a ← parse_process_line a line;
  st ← parse_thread_line lines
          {| anr_trace := a; current_thread := current_thread st; i := i st |} line;
  Ok {| anr_trace := anr_trace st; current_thread := current_thread st;
        i := (i st + 1)%nat |}.

(** [while i < len(lines)]: a turn moves [i] forward, so [len(lines)] turns
    are enough. *)
Fixpoint loop (fuel : nat) (lines : list bytes) (st : state) : outcome state :=
  match fuel with
  | O => Ok st
  | S fuel' =>
      if (i st <? length lines)%nat
      then st ← step lines st; loop fuel' lines st
      else Ok st
  end.

Definition run (lines : list bytes) : outcome state :=
  loop (length lines) lines
    {| anr_trace := AnrTrace_init; current_thread := None; i := 0 |}.

(** After the loop: [if current_thread: anr_trace.threads.append(current_thread)] *)
Definition finish (st : state) : AnrTrace :=
  match current_thread st with
  | Some t => append_thread (anr_trace st) t
  | None => anr_trace st
  end.

Definition parse_content (anr_content : bytes) : outcome AnrTrace :=
  st ← run (split_on newline anr_content);
  Ok (finish st).

Definition banner : log_event := LogInfo "Parsing 'VM TRACES AT LAST ANR' section...".

(** [parse_anr_traces] *)
Definition parse_anr_traces (dumpstate_content : RawData)
    : list log_event * outcome (option AnrTrace) :=
  ([banner],
   match re_search section_re (raw dumpstate_content) with
   | None => Ok None
   | Some m =>
       a ← parse_content (group_or_empty m 1);
       Ok (Some a)
   end).

End vm_traces.

(** ** services/account.py *)

Module account.

Record UserAccount : Type := mkUserAccount {
  user_info_raw : bytes;
  user_id : Z;
  user_name : bytes;
  user_flag : bytes;
  accounts : list bytes;
  accounts_history : list bytes;
  active_sessions : Z;
  registered_services : list bytes;
  account_visibility : list (bytes * list bytes)
}.

Definition UserAccount_init : UserAccount :=
  {| user_info_raw := []; user_id := 0; user_name := []; user_flag := [];
     accounts := []; accounts_history := []; active_sessions := 0;
     registered_services := []; account_visibility := [] |}.

Record AccountInfo : Type := mkAccountInfo {
  service_pid : Z;
  threads_in_use : bytes;
  client_pids : list Z;
  users : list UserAccount
}.

Definition AccountInfo_init : AccountInfo :=
  {| service_pid := 0; threads_in_use := []; client_pids := []; users := [] |}.

Inductive section : Type :=
| sec_accounts | sec_history | sec_sessions | sec_services | sec_visibility.

Record state : Type := mkState {
  account_info : AccountInfo;
  current_user : option UserAccount;
  parsing_section : option section;
  current_visibility_account : option bytes
}.

Definition init_state : state :=
  {| account_info := AccountInfo_init; current_user := None;
     parsing_section := None; current_visibility_account := None |}.

(** [DUMP OF SERVICE account:\n(.*?)\n---------] with [re.DOTALL] *)
Definition anchor : bytes := b"DUMP OF SERVICE account:" ++ nl.

Definition section_re : regex :=
  (Lit anchor +++ Group 1 (StarLazy any_char) +++ Lit (nl ++ b"---------"))%re.

(** [UserInfo\{(\d+):([^:]+):([^}]+)\}] *)
Definition userinfo_re : regex :=
  (Lit (b"UserInfo{") +++ Group 1 (Plus is_digit) +++ Lit (b":") +++
   Group 2 (Plus (not_in (b":"))) +++ Lit (b":") +++
   Group 3 (Plus (not_in (b"}"))) +++ Lit (b"}"))%re.

(** [[int(p) for p in pids_str.split(b', ')]] *)
Fixpoint int_list (ps : list bytes) : outcome (list Z) :=
  match ps with
  | [] => Ok []
  | p :: ps' => z ← py_int p; zs ← int_list ps'; Ok (z :: zs)
  end.

Definition set_info (st : state) (a : AccountInfo) : state :=
  {| account_info := a; current_user := current_user st;
     parsing_section := parsing_section st;
     current_visibility_account := current_visibility_account st |}.

Definition set_section (st : state) (s : option section) : state :=
  {| account_info := account_info st; current_user := current_user st;
     parsing_section := s;
     current_visibility_account := current_visibility_account st |}.

Definition set_user (st : state) (u : UserAccount) : state :=
  {| account_info := account_info st; current_user := Some u;
     parsing_section := parsing_section st;
     current_visibility_account := current_visibility_account st |}.

(** [account_info.users.append(u)] *)
Definition append_user (a : AccountInfo) (u : UserAccount) : AccountInfo :=
  {| service_pid := service_pid a; threads_in_use := threads_in_use a;
     client_pids := client_pids a; users := users a ++ [u] |}.

(** The branch of a ['User UserInfo'] line. *)
Definition start_user (st : state) (line : bytes) : outcome state :=
  let a := match current_user st with
           | Some u => append_user (account_info st) u
           | None => account_info st
           end in
  raw_info ← index (split_once ":" line) 1;
  let u := {| user_info_raw := strip raw_info; user_id := 0; user_name := [];
              user_flag := []; accounts := []; accounts_history := [];
              active_sessions := 0; registered_services := [];
              account_visibility := [] |} in
  u ← match re_search userinfo_re line with
      | Some m =>
          n ← py_int (group_or_empty m 1);
          Ok {| user_info_raw := user_info_raw u; user_id := n;
                user_name := group_or_empty m 2; user_flag := group_or_empty m 3;
                accounts := []; accounts_history := []; active_sessions := 0;
                registered_services := []; account_visibility := [] |}
      | None => Ok u
      end;
  Ok {| account_info := a; current_user := Some u; parsing_section := None;
        current_visibility_account := None |}.

(** The lines of an open user that belong to the section being read. *)
Definition section_line (st : state) (u : UserAccount) (s : section) (line : bytes)
    : state :=
  match s with
  | sec_accounts =>
      if startswith (b"Account {") line
      then set_user st
             {| user_info_raw := user_info_raw u; user_id := user_id u;
                user_name := user_name u; user_flag := user_flag u;
                accounts := accounts u ++ [line];
                accounts_history := accounts_history u;
                active_sessions := active_sessions u;
                registered_services := registered_services u;
                account_visibility := account_visibility u |}
      else st
  | sec_history =>
      if negb (startswith (b"AccountId,") line)
      then set_user st
             {| user_info_raw := user_info_raw u; user_id := user_id u;
                user_name := user_name u; user_flag := user_flag u;
                accounts := accounts u;
                accounts_history := accounts_history u ++ [line];
                active_sessions := active_sessions u;
                registered_services := registered_services u;
                account_visibility := account_visibility u |}
      else st
  | sec_services =>
      if startswith (b"ServiceInfo:") line
      then set_user st
             {| user_info_raw := user_info_raw u; user_id := user_id u;
                user_name := user_name u; user_flag := user_flag u;
                accounts := accounts u;
                accounts_history := accounts_history u;
                active_sessions := active_sessions u;
                registered_services := registered_services u ++ [line];
                account_visibility := account_visibility u |}
      else st
  | sec_visibility =>
      let with_visibility (v : list (bytes * list bytes)) : UserAccount :=
        {| user_info_raw := user_info_raw u; user_id := user_id u;
           user_name := user_name u; user_flag := user_flag u;
           accounts := accounts u;
           accounts_history := accounts_history u;
           active_sessions := active_sessions u;
           registered_services := registered_services u;
           account_visibility := v |} in
      match current_visibility_account st with
      | Some (c :: acct) =>
          let key := c :: acct in
          set_user st
            (with_visibility
               (assoc_set key
                  (default [] (assoc_get key (account_visibility u)) ++ [strip line])
                  (account_visibility u)))
      | _ =>
          if negb (startswith (b" ") line)
          then {| account_info := account_info st;
                  current_user :=
                    Some (with_visibility
                            (assoc_set (strip line) [] (account_visibility u)));
                  parsing_section := parsing_section st;
                  current_visibility_account := Some (strip line) |}
          else st
      end
  | sec_sessions => st
  end.

(** The body of the loop, for a stripped, non-empty line. *)
Definition step (st : state) (line : bytes) : outcome state :=
  let a := account_info st in
  if startswith (b"Service host process PID:") line then
    v ← index (split_on ":" line) 1;
    n ← py_int (strip v);
    Ok (set_info st {| service_pid := n; threads_in_use := threads_in_use a;
                       client_pids := client_pids a; users := users a |})
  else if startswith (b"Threads in use:") line then
    v ← index (split_on ":" line) 1;
    Ok (set_info st {| service_pid := service_pid a; threads_in_use := strip v;
                       client_pids := client_pids a; users := users a |})
  else if startswith (b"Client PIDs:") line then
    v ← index (split_on ":" line) 1;
    pids ← int_list (split_str (b", ") (strip v));
    Ok (set_info st {| service_pid := service_pid a;
                       threads_in_use := threads_in_use a;
                       client_pids := pids; users := users a |})
  else if startswith (b"User UserInfo") line then start_user st line
  else
    match current_user st with
    | Some u =>
        if contains (b"Accounts:") line then Ok (set_section st (Some sec_accounts))
        else if contains (b"Accounts History") line
        then Ok (set_section st (Some sec_history))
        else if contains (b"Active Sessions:") line then
          v ← index (split_on ":" line) 1;
          n ← py_int (strip v);
          Ok {| account_info := account_info st;
                current_user :=
                  Some {| user_info_raw := user_info_raw u; user_id := user_id u;
                          user_name := user_name u; user_flag := user_flag u;
                          accounts := accounts u;
                          accounts_history := accounts_history u;
                          active_sessions := n;
                          registered_services := registered_services u;
                          account_visibility := account_visibility u |};
                parsing_section := Some sec_sessions;
                current_visibility_account := current_visibility_account st |}
        else if contains (b"RegisteredServicesCache:") line
        then Ok (set_section st (Some sec_services))
        else if contains (b"Account visibility:") line
        then Ok (set_section st (Some sec_visibility))
        else if startswith (b"---------") line then Ok (set_section st None)
        else
          match parsing_section st with
          | Some s => Ok (section_line st u s line)
          | None => Ok st
          end
    | None => Ok st
    end.

(** [for line in account_content.strip().split(b'\n')] *)
Fixpoint loop (st : state) (ls : list bytes) : outcome state :=
  match ls with
  | [] => Ok st
  | line :: ls' =>
      let line := strip line in
      match line with
      | [] => loop st ls'
      | _ => st ← step st line; loop st ls'
      end
  end.

(** After the loop: [if current_user: account_info.users.append(current_user)] *)
Definition finish (st : state) : AccountInfo :=
  match current_user st with
  | Some u => append_user (account_info st) u
  | None => account_info st
  end.

Definition parse_content (account_content : bytes) : outcome AccountInfo :=
  st ← loop init_state (split_on newline (strip account_content));
  Ok (finish st).

Definition banner : log_event := LogInfo "Parsing 'SERVICE account' section...".

(** [parse_account_service] *)
Definition parse_account_service (dumpstate_content : RawData)
    : list log_event * outcome (option AccountInfo) :=
  ([banner],
   match re_search section_re (raw dumpstate_content) with
   | None => Ok None
   | Some m =>
       a ← parse_content (group_or_empty m 1);
       Ok (Some a)
   end).

End account.

(** ** package/__init__.py *)

Module package.

(** A [datetime] as built by [datetime.strptime]. *)
Record datetime : Type := mkDatetime {
  year : Z; month : Z; day : Z; hour : Z; minute : Z; second : Z
}.

Record Package : Type := mkPackage {
  name : bytes;
  app_id : bytes;
  version_code : Z;
  version_name : bytes;
  data_dir : bytes;
  flags : list bytes;
  private_flags : list bytes;
  users : list (Z * bytes);                    (* user id -> the ['raw'] line *)
  runtime_permissions : list (bytes * (bool * list bytes));
                                                (* name -> granted, flags *)
  install_permissions : list (bytes * bool);   (* name -> granted *)
  declared_permissions : list (bytes * list bytes);  (* name -> prot *)
  first_install_time : bytes;
  originating_package_name : bytes;
  initiating_package_name : bytes;
  time_stamp : option datetime;
  last_update_time : option datetime;
  installer_package_uid : Z
}.

Definition Package_init : Package :=
  {| name := []; app_id := []; version_code := 0; version_name := [];
     data_dir := []; flags := []; private_flags := []; users := [];
     runtime_permissions := []; install_permissions := [];
     declared_permissions := []; first_install_time := [];
     originating_package_name := []; initiating_package_name := [];
     time_stamp := None; last_update_time := None; installer_package_uid := 0 |}.

(** The fields of [PackageInfo] that the parser assigns.  Its ten other
    fields ([permissions], [shared_users], the resolvers, ...) are never
    written and keep their empty defaults. *)
Record PackageInfo : Type := mkPackageInfo {
  service_pid : Z;
  threads_in_use : bytes;
  client_pids : list Z;
  database_versions : list (bytes * bytes);
  known_packages : list (bytes * bytes);
  verifiers : list bytes;
  domain_verifier : bytes;
  libraries : list (bytes * bytes);
  features : list bytes;
  packages : list Package
}.

Definition PackageInfo_init : PackageInfo :=
  {| service_pid := 0; threads_in_use := []; client_pids := [];
     database_versions := []; known_packages := []; verifiers := [];
     domain_verifier := []; libraries := []; features := []; packages := [] |}.

Inductive section : Type :=
| database | sec_known_packages | sec_verifiers | sec_domain_verifier
| sec_libraries | sec_features | sec_packages.

Inductive subsection : Type :=
| sub_runtime_permissions | sub_install_permissions | sub_declared_permissions.

(** The variables of the loop.  [current_package] is the index, in
    [package_info.packages], of the package object that the loop variable
    refers to: the object is appended to that list when it is created and
    is updated in place afterwards. *)
Record state : Type := mkState {
  package_info : PackageInfo;
  current_section : option section;
  current_package : option nat;
  current_package_subsection : option subsection
}.

Definition init_state : state :=
  {| package_info := PackageInfo_init; current_section := None;
     current_package := None; current_package_subsection := None |}.

Definition set_info (st : state) (p : PackageInfo) : state :=
  {| package_info := p; current_section := current_section st;
     current_package := current_package st;
     current_package_subsection := current_package_subsection st |}.

Definition set_section (st : state) (s : option section) : state :=
  {| package_info := package_info st; current_section := s;
     current_package := current_package st;
     current_package_subsection := current_package_subsection st |}.

Definition set_subsection (st : state) (s : option subsection) : state :=
  {| package_info := package_info st; current_section := current_section st;
     current_package := current_package st;
     current_package_subsection := s |}.

Definition set_packages (p : PackageInfo) (ps : list Package) : PackageInfo :=
  {| service_pid := service_pid p; threads_in_use := threads_in_use p;
     client_pids := client_pids p; database_versions := database_versions p;
     known_packages := known_packages p; verifiers := verifiers p;
     domain_verifier := domain_verifier p; libraries := libraries p;
     features := features p; packages := ps |}.

(** An assignment to a field of [current_package], the package at index [i]. *)
Definition update_package (st : state) (i : nat) (f : Package -> Package) : state :=
  set_info st (set_packages (package_info st) (alter f i (packages (package_info st)))).

(** ** The patterns *)

(** [^[A-Z][a-zA-Z\s]+:] *)
Definition other_header_re : regex :=
  (Bol +++ Cls is_upper +++ Plus (fun c => is_alpha c || is_space c) +++ Lit (b":"))%re.
(** [Package \[([^\]]+)\]] *)
Definition package_re : regex :=
  (Lit (b"Package [") +++ Group 1 (Plus (not_in (b"]"))) +++ Lit (b"]"))%re.
(** [([^:]+):\s*granted=(true|false)(?:,\s*flags=\[(.*?)\])?] *)
Definition runtime_re : regex :=
  (Group 1 (Plus (not_in (b":"))) +++ Lit (b":") +++ Star is_space +++
   Lit (b"granted=") +++ Group 2 (Lit (b"true") <|> Lit (b"false")) +++
   Opt (Lit (b",") +++ Star is_space +++ Lit (b"flags=[") +++
        Group 3 (StarLazy not_newline) +++ Lit (b"]")))%re.
(** [([^:]+): granted=(true|false)] *)
Definition install_re : regex :=
  (Group 1 (Plus (not_in (b":"))) +++ Lit (b": granted=") +++
   Group 2 (Lit (b"true") <|> Lit (b"false")))%re.
(** [([^:]+):\s*(prot=([^:]+))?] *)
Definition declared_re : regex :=
  (Group 1 (Plus (not_in (b":"))) +++ Lit (b":") +++ Star is_space +++
   Opt (Group 2 (Lit (b"prot=") +++ Group 3 (Plus (not_in (b":"))))))%re.
(** [versionCode=(\d+)], [versionName=([^\s]+)], [([A-Z_]+)], [User (\d+):] *)
Definition version_code_re : regex :=
  (Lit (b"versionCode=") +++ Group 1 (Plus is_digit))%re.
Definition version_name_re : regex :=
  (Lit (b"versionName=") +++ Group 1 (Plus not_space))%re.
Definition flag_re : regex :=
  Group 1 (Plus (fun c => is_upper c || is_char "_" c)).
Definition user_re : regex :=
  (Lit (b"User ") +++ Group 1 (Plus is_digit) +++ Lit (b":"))%re.
(** [firstInstallTime=(\d{4}-\d{2}-\d{2} \d{2}:\d{2}:\d{2})] *)
Definition two_digits : regex := (Cls is_digit +++ Cls is_digit)%re.
Definition install_time_re : regex :=
  (Lit (b"firstInstallTime=") +++
   Group 1 (two_digits +++ two_digits +++ Lit (b"-") +++ two_digits +++ Lit (b"-") +++
            two_digits +++ Lit (b" ") +++ two_digits +++ Lit (b":") +++
            two_digits +++ Lit (b":") +++ two_digits))%re.

(** [x == b'true'] *)
Definition is_true (x : bytes) : bool := bytes_eqb x (b"true").

(** [[int(p) for p in pids_str.split(b', ')]] *)
Fixpoint int_list (ps : list bytes) : outcome (list Z) :=
  match ps with
  | [] => Ok []
  | p :: ps' => z ← py_int p; zs ← int_list ps'; Ok (z :: zs)
  end.

(** [line.split(b'=')[1]] *)
Definition after_equals (line : bytes) : outcome bytes :=
  index (split_on "=" line) 1.

Section Parser.

(** The call [datetime.strptime(x.decode('utf-8'), "%Y-%m-%d %H:%M:%S")].
    It belongs to the Python library; the parser is modelled for any
    behaviour of it. *)
Variable strptime : bytes -> outcome datetime.

(** The lines of a package outside of a permission subsection. *)
Definition package_attribute (st : state) (i : nat) (line : bytes) : outcome state :=
  let upd := update_package st i in
  if startswith (b"appId=") line then
    v ← after_equals line;
    Ok (upd (fun p => {| name := name p; app_id := v; version_code := version_code p;
       version_name := version_name p; data_dir := data_dir p; flags := flags p;
       private_flags := private_flags p; users := users p;
       runtime_permissions := runtime_permissions p;
       install_permissions := install_permissions p;
       declared_permissions := declared_permissions p;
       first_install_time := first_install_time p;
       originating_package_name := originating_package_name p;
       initiating_package_name := initiating_package_name p;
       time_stamp := time_stamp p; last_update_time := last_update_time p;
       installer_package_uid := installer_package_uid p |}))
  else if contains (b"versionCode=") line then
    match re_search version_code_re line with
    | Some m =>
        n ← py_int (group_or_empty m 1);
        Ok (upd (fun p => {| name := name p; app_id := app_id p; version_code := n;
           version_name := version_name p; data_dir := data_dir p; flags := flags p;
           private_flags := private_flags p; users := users p;
           runtime_permissions := runtime_permissions p;
           install_permissions := install_permissions p;
           declared_permissions := declared_permissions p;
           first_install_time := first_install_time p;
           originating_package_name := originating_package_name p;
           initiating_package_name := initiating_package_name p;
           time_stamp := time_stamp p; last_update_time := last_update_time p;
           installer_package_uid := installer_package_uid p |}))
    | None => Ok st
    end
  else if contains (b"versionName=") line then
    match re_search version_name_re line with
    | Some m =>
        Ok (upd (fun p => {| name := name p; app_id := app_id p;
           version_code := version_code p;
           version_name := group_or_empty m 1; data_dir := data_dir p; flags := flags p;
           private_flags := private_flags p; users := users p;
           runtime_permissions := runtime_permissions p;
           install_permissions := install_permissions p;
           declared_permissions := declared_permissions p;
           first_install_time := first_install_time p;
           originating_package_name := originating_package_name p;
           initiating_package_name := initiating_package_name p;
           time_stamp := time_stamp p; last_update_time := last_update_time p;
           installer_package_uid := installer_package_uid p |}))
    | None => Ok st
    end
  else if startswith (b"dataDir=") line then
    v ← after_equals line;
    Ok (upd (fun p => {| name := name p; app_id := app_id p;
       version_code := version_code p;
       version_name := version_name p; data_dir := v; flags := flags p;
       private_flags := private_flags p; users := users p;
       runtime_permissions := runtime_permissions p;
       install_permissions := install_permissions p;
       declared_permissions := declared_permissions p;
       first_install_time := first_install_time p;
       originating_package_name := originating_package_name p;
       initiating_package_name := initiating_package_name p;
       time_stamp := time_stamp p; last_update_time := last_update_time p;
       installer_package_uid := installer_package_uid p |}))
  else if startswith (b"flags=") line then
    Ok (upd (fun p => {| name := name p; app_id := app_id p;
       version_code := version_code p;
       version_name := version_name p; data_dir := data_dir p;
       flags := map (fun m => group_or_empty m 1) (re_findall flag_re line);
       private_flags := private_flags p; users := users p;
       runtime_permissions := runtime_permissions p;
       install_permissions := install_permissions p;
       declared_permissions := declared_permissions p;
       first_install_time := first_install_time p;
       originating_package_name := originating_package_name p;
       initiating_package_name := initiating_package_name p;
       time_stamp := time_stamp p; last_update_time := last_update_time p;
       installer_package_uid := installer_package_uid p |}))
  else if startswith (b"privateFlags=") line then
    Ok (upd (fun p => {| name := name p; app_id := app_id p;
       version_code := version_code p;
       version_name := version_name p; data_dir := data_dir p; flags := flags p;
       private_flags := map (fun m => group_or_empty m 1) (re_findall flag_re line);
       users := users p;
       runtime_permissions := runtime_permissions p;
       install_permissions := install_permissions p;
       declared_permissions := declared_permissions p;
       first_install_time := first_install_time p;
       originating_package_name := originating_package_name p;
       initiating_package_name := initiating_package_name p;
       time_stamp := time_stamp p; last_update_time := last_update_time p;
       installer_package_uid := installer_package_uid p |}))
  else if startswith (b"User ") line then
    match re_search user_re line with
    | Some user_match =>
        user_id ← py_int (group_or_empty user_match 1);
        let fit (p : Package) : bytes :=
          match re_search install_time_re line with
          | Some m => group_or_empty m 1
          | None => first_install_time p
          end in
        Ok (upd (fun p => {| name := name p; app_id := app_id p;
           version_code := version_code p;
           version_name := version_name p; data_dir := data_dir p; flags := flags p;
           private_flags := private_flags p;
           users := assoc_set user_id line (users p);
           runtime_permissions := runtime_permissions p;
           install_permissions := install_permissions p;
           declared_permissions := declared_permissions p;
           first_install_time := fit p;
           originating_package_name := originating_package_name p;
           initiating_package_name := initiating_package_name p;
           time_stamp := time_stamp p; last_update_time := last_update_time p;
           installer_package_uid := installer_package_uid p |}))
    | None => Ok st
    end
  else if startswith (b"originatingPackageName") line then
    v ← after_equals line;
    Ok (upd (fun p => {| name := name p; app_id := app_id p;
       version_code := version_code p;
       version_name := version_name p; data_dir := data_dir p; flags := flags p;
       private_flags := private_flags p; users := users p;
       runtime_permissions := runtime_permissions p;
       install_permissions := install_permissions p;
       declared_permissions := declared_permissions p;
       first_install_time := first_install_time p;
       originating_package_name := v;
       initiating_package_name := initiating_package_name p;
       time_stamp := time_stamp p; last_update_time := last_update_time p;
       installer_package_uid := installer_package_uid p |}))
  else if startswith (b"initiatingPackageName") line then
    v ← after_equals line;
    Ok (upd (fun p => {| name := name p; app_id := app_id p;
       version_code := version_code p;
       version_name := version_name p; data_dir := data_dir p; flags := flags p;
       private_flags := private_flags p; users := users p;
       runtime_permissions := runtime_permissions p;
       install_permissions := install_permissions p;
       declared_permissions := declared_permissions p;
       first_install_time := first_install_time p;
       originating_package_name := originating_package_name p;
       initiating_package_name := v;
       time_stamp := time_stamp p; last_update_time := last_update_time p;
       installer_package_uid := installer_package_uid p |}))
  else if startswith (b"installerPackageUid") line then
    v ← after_equals line;
    n ← py_int v;
    Ok (upd (fun p => {| name := name p; app_id := app_id p;
       version_code := version_code p;
       version_name := version_name p; data_dir := data_dir p; flags := flags p;
       private_flags := private_flags p; users := users p;
       runtime_permissions := runtime_permissions p;
       install_permissions := install_permissions p;
       declared_permissions := declared_permissions p;
       first_install_time := first_install_time p;
       originating_package_name := originating_package_name p;
       initiating_package_name := initiating_package_name p;
       time_stamp := time_stamp p; last_update_time := last_update_time p;
       installer_package_uid := n |}))
  else if startswith (b"timeStamp") line then
    v ← after_equals line;
    d ← strptime v;
    Ok (upd (fun p => {| name := name p; app_id := app_id p;
       version_code := version_code p;
       version_name := version_name p; data_dir := data_dir p; flags := flags p;
       private_flags := private_flags p; users := users p;
       runtime_permissions := runtime_permissions p;
       install_permissions := install_permissions p;
       declared_permissions := declared_permissions p;
       first_install_time := first_install_time p;
       originating_package_name := originating_package_name p;
       initiating_package_name := initiating_package_name p;
       time_stamp := Some d; last_update_time := last_update_time p;
       installer_package_uid := installer_package_uid p |}))
  else if startswith (b"lastUpdateTime") line then
    v ← after_equals line;
    d ← strptime v;
    Ok (upd (fun p => {| name := name p; app_id := app_id p;
       version_code := version_code p;
       version_name := version_name p; data_dir := data_dir p; flags := flags p;
       private_flags := private_flags p; users := users p;
       runtime_permissions := runtime_permissions p;
       install_permissions := install_permissions p;
       declared_permissions := declared_permissions p;
       first_install_time := first_install_time p;
       originating_package_name := originating_package_name p;
       initiating_package_name := initiating_package_name p;
       time_stamp := time_stamp p; last_update_time := Some d;
       installer_package_uid := installer_package_uid p |}))
  else Ok st.

(** A line of the ['runtime permissions:'] subsection. *)
Definition runtime_permission_line (st : state) (i : nat) (line : bytes) : state :=
  match re_search runtime_re line with
  | Some m =>
      let perm_name := strip (group_or_empty m 1) in
      let granted := is_true (group_or_empty m 2) in
      let flags := match group m 3 with
                   | Some (c :: g3) => map strip (split_on "|" (c :: g3))
                   | _ => []
                   end in
      update_package st i (fun p => {| name := name p; app_id := app_id p;
         version_code := version_code p;
         version_name := version_name p; data_dir := data_dir p; flags := package.flags p;
         private_flags := private_flags p; users := users p;
         runtime_permissions :=
           assoc_set perm_name (granted, flags) (runtime_permissions p);
         install_permissions := install_permissions p;
         declared_permissions := declared_permissions p;
         first_install_time := first_install_time p;
         originating_package_name := originating_package_name p;
         initiating_package_name := initiating_package_name p;
         time_stamp := time_stamp p; last_update_time := last_update_time p;
         installer_package_uid := installer_package_uid p |})
  | None => st
  end.

(** A line of the ['install permissions:'] subsection. *)
Definition install_permission_line (st : state) (i : nat) (line : bytes) : state :=
  match re_search install_re line with
  | Some m =>
      let perm_name := strip (group_or_empty m 1) in
      let granted := is_true (group_or_empty m 2) in
      update_package st i (fun p => {| name := name p; app_id := app_id p;
         version_code := version_code p;
         version_name := version_name p; data_dir := data_dir p; flags := flags p;
         private_flags := private_flags p; users := users p;
         runtime_permissions := runtime_permissions p;
         install_permissions := assoc_set perm_name granted (install_permissions p);
         declared_permissions := declared_permissions p;
         first_install_time := first_install_time p;
         originating_package_name := originating_package_name p;
         initiating_package_name := initiating_package_name p;
         time_stamp := time_stamp p; last_update_time := last_update_time p;
         installer_package_uid := installer_package_uid p |})
  | None => st
  end.

(** A line of the ['declared permissions:'] subsection.  The group 3 of the
    pattern is optional; [match.group(3).strip()] raises AttributeError
    when it took no part in the match. *)
Definition declared_permission_line (st : state) (i : nat) (line : bytes)
    : outcome state :=
  match re_search declared_re line with
  | Some m =>
      let perm_name := strip (group_or_empty m 1) in
      match group m 3 with
      | Some g3 =>
          let prot_value := strip g3 in
          Ok (update_package st i (fun p => {| name := name p; app_id := app_id p;
             version_code := version_code p;
             version_name := version_name p; data_dir := data_dir p; flags := flags p;
             private_flags := private_flags p; users := users p;
             runtime_permissions := runtime_permissions p;
             install_permissions := install_permissions p;
             declared_permissions :=
               assoc_set perm_name (map strip (split_on "|" prot_value))
                 (declared_permissions p);
             first_install_time := first_install_time p;
             originating_package_name := originating_package_name p;
             initiating_package_name := initiating_package_name p;
             time_stamp := time_stamp p; last_update_time := last_update_time p;
             installer_package_uid := installer_package_uid p |}))
      | None => Raise AttributeError
      end
  | None => Ok st
  end.

(** A line of the ['Packages:'] section. *)
Definition packages_line (st : state) (non_stripped_line line : bytes) : outcome state :=
  if startswith (b"Package [") line then
    let p := match re_search package_re line with
             | Some m => {| name := group_or_empty m 1; app_id := []; version_code := 0;
                  version_name := []; data_dir := []; flags := []; private_flags := [];
                  users := []; runtime_permissions := []; install_permissions := [];
                  declared_permissions := []; first_install_time := [];
                  originating_package_name := []; initiating_package_name := [];
                  time_stamp := None; last_update_time := None;
                  installer_package_uid := 0 |}
             | None => Package_init
             end in
    let ps := packages (package_info st) in
    Ok {| package_info := set_packages (package_info st) (ps ++ [p]);
          current_section := current_section st;
          current_package := Some (length ps);
          current_package_subsection := None |}
  else
    match current_package st with
    | Some i =>
        if startswith (b"runtime permissions:") line
        then Ok (set_subsection st (Some sub_runtime_permissions))
        else if startswith (b"install permissions:") line
        then Ok (set_subsection st (Some sub_install_permissions))
        else if startswith (b"declared permissions:") line
        then Ok (set_subsection st (Some sub_declared_permissions))
        else
          (* a line not indented by at least 6 spaces is not part of a subsection *)
          let st := if negb (startswith (b"      ") non_stripped_line)
                    then set_subsection st None
                    else st in
          match current_package_subsection st with
          | Some sub_runtime_permissions => Ok (runtime_permission_line st i line)
          | Some sub_install_permissions => Ok (install_permission_line st i line)
          | Some sub_declared_permissions => declared_permission_line st i line
          | None => package_attribute st i line
          end
    | None => Ok st
    end.

(** A line of an ordinary section, after the header tests. *)
Definition section_line (st : state) (s : section) (non_stripped_line line : bytes)
    : outcome state :=
  let info := package_info st in
  match s with
  | database =>
      if contains (b":") line
      then match split_once ":" line with
           | [db_type; db_info] =>
               Ok (set_info st
                 {| service_pid := service_pid info; threads_in_use := threads_in_use info;
                    client_pids := client_pids info;
                    database_versions :=
                      assoc_set (strip db_type) (strip db_info) (database_versions info);
                    known_packages := known_packages info; verifiers := verifiers info;
                    domain_verifier := domain_verifier info; libraries := libraries info;
                    features := features info; packages := packages info |})
           | _ => Raise ValueError
           end
      else Ok st
  | sec_known_packages =>
      if contains (b":") line
      then match split_once ":" line with
           | [pkg_type; pkg_name] =>
               Ok (set_info st
                 {| service_pid := service_pid info; threads_in_use := threads_in_use info;
                    client_pids := client_pids info;
                    database_versions := database_versions info;
                    known_packages :=
                      assoc_set (strip pkg_type) (strip pkg_name) (known_packages info);
                    verifiers := verifiers info;
                    domain_verifier := domain_verifier info; libraries := libraries info;
                    features := features info; packages := packages info |})
           | _ => Raise ValueError
           end
      else Ok st
  | sec_verifiers =>
      if startswith (b"Required:") line
      then Ok (set_info st
             {| service_pid := service_pid info; threads_in_use := threads_in_use info;
                client_pids := client_pids info;
                database_versions := database_versions info;
                known_packages := known_packages info;
                verifiers := verifiers info ++ [strip (replace (b"Required:") [] line)];
                domain_verifier := domain_verifier info; libraries := libraries info;
                features := features info; packages := packages info |})
      else Ok st
  | sec_domain_verifier =>
      if startswith (b"Using:") line
      then Ok (set_info st
             {| service_pid := service_pid info; threads_in_use := threads_in_use info;
                client_pids := client_pids info;
                database_versions := database_versions info;
                known_packages := known_packages info; verifiers := verifiers info;
                domain_verifier := strip (replace (b"Using:") [] line);
                libraries := libraries info;
                features := features info; packages := packages info |})
      else Ok st
  | sec_libraries =>
      if contains (b"->") line
      then match split_str_go (b"->") true 0 [] line with
           | [lib_name; lib_path] =>
               Ok (set_info st
                 {| service_pid := service_pid info; threads_in_use := threads_in_use info;
                    client_pids := client_pids info;
                    database_versions := database_versions info;
                    known_packages := known_packages info; verifiers := verifiers info;
                    domain_verifier := domain_verifier info;
                    libraries := assoc_set (strip lib_name) (strip lib_path) (libraries info);
                    features := features info; packages := packages info |})
           | _ => Raise ValueError
           end
      else Ok st
  | sec_features =>
      Ok (set_info st
        {| service_pid := service_pid info; threads_in_use := threads_in_use info;
           client_pids := client_pids info;
           database_versions := database_versions info;
           known_packages := known_packages info; verifiers := verifiers info;
           domain_verifier := domain_verifier info; libraries := libraries info;
           features := features info ++ [line]; packages := packages info |})
  | sec_packages => packages_line st non_stripped_line line
  end.

(** The body of the main loop, for a line whose stripped text [line] is
    not empty. *)
Definition step (st : state) (non_stripped_line : bytes) : outcome state :=
  let line := strip non_stripped_line in
  let info := package_info st in
  if startswith (b"Service host process PID:") line then
    v ← index (split_on ":" line) 1;
    n ← py_int (strip v);
    Ok (set_info st
      {| service_pid := n; threads_in_use := threads_in_use info;
         client_pids := client_pids info;
         database_versions := database_versions info;
         known_packages := known_packages info; verifiers := verifiers info;
         domain_verifier := domain_verifier info; libraries := libraries info;
         features := features info; packages := packages info |})
  else if startswith (b"Threads in use:") line then
    v ← index (split_on ":" line) 1;
    Ok (set_info st
      {| service_pid := service_pid info; threads_in_use := strip v;
         client_pids := client_pids info;
         database_versions := database_versions info;
         known_packages := known_packages info; verifiers := verifiers info;
         domain_verifier := domain_verifier info; libraries := libraries info;
         features := features info; packages := packages info |})
  else if startswith (b"Client PIDs:") line then
    v ← index (split_on ":" line) 1;
    pids ← int_list (split_str (b", ") (strip v));
    Ok (set_info st
      {| service_pid := service_pid info; threads_in_use := threads_in_use info;
         client_pids := pids;
         database_versions := database_versions info;
         known_packages := known_packages info; verifiers := verifiers info;
         domain_verifier := domain_verifier info; libraries := libraries info;
         features := features info; packages := packages info |})
  else if startswith (b"Database versions:") line then Ok (set_section st (Some database))
  else if startswith (b"Known Packages:") line
  then Ok (set_section st (Some sec_known_packages))
  else if startswith (b"Verifiers:") line then Ok (set_section st (Some sec_verifiers))
  else if startswith (b"Domain Verifier:") line
  then Ok (set_section st (Some sec_domain_verifier))
  else if startswith (b"Libraries:") line then Ok (set_section st (Some sec_libraries))
  else if startswith (b"Features:") line then Ok (set_section st (Some sec_features))
  else if startswith (b"Packages:") line then Ok (set_section st (Some sec_packages))
  else
    match re_match other_header_re line with
    | Some _ => Ok (set_section st None)
    | None =>
        match current_section st with
        | Some s => section_line st s non_stripped_line line
        | None => Ok st
        end
    end.

(** [for line in package_content.split(b'\n')] *)
Fixpoint loop (st : state) (ls : list bytes) : outcome state :=
  match ls with
  | [] => Ok st
  | non_stripped_line :: ls' =>
      match strip non_stripped_line with
      | [] => loop st ls'
      | _ => st ← step st non_stripped_line; loop st ls'
      end
  end.

End Parser.

(** The first loop of [parse_package_info]: the lines of the section. *)
Fixpoint collect (in_package_section : bool) (ls : list bytes) : list bytes :=
  match ls with
  | [] => []
  | line :: ls' =>
      if startswith (b"DUMP OF SERVICE package:") line
      then collect true ls'
      else if in_package_section
           then if startswith (b"DUMP OF SERVICE") line || startswith (b"------") line
                then []
                else line :: collect in_package_section ls'
           else collect in_package_section ls'
  end.

Definition banner : log_event := LogInfo "Parsing 'DUMP OF SERVICE package' section...".

(** [parse_package_info] *)
Definition parse_package_info (strptime : bytes -> outcome datetime)
    (dumpstate_content : RawData) : list log_event * outcome (option PackageInfo) :=
  ([banner],
   match collect false (lines dumpstate_content) with
   | [] => Ok None
   | package_content_lines =>
       let package_content := join nl package_content_lines in
       st ← loop strptime init_state (split_on newline package_content);
       Ok (Some (package_info st))
   end).

(** An instance of [strptime] for ASCII text, after [_strptime] of the
    Python library: the pattern built from the format, the check that it
    consumed the whole text, and the validity of the date.  Text with a
    byte above 0x7f is outside of this instance. *)
Definition strptime_re : regex :=
  let d := Cls is_digit in
  (Group 1 (d +++ d +++ d +++ d) +++ Lit (b"-") +++
   Group 2 ((Lit (b"1") +++ Cls (in_range "0" "2")) <|>
            (Lit (b"0") +++ Cls (in_range "1" "9")) <|> Cls (in_range "1" "9")) +++
   Lit (b"-") +++
   Group 3 ((Lit (b"3") +++ Cls (in_range "0" "1")) <|>
            (Cls (in_range "1" "2") +++ d) <|>
            (Lit (b"0") +++ Cls (in_range "1" "9")) <|> Cls (in_range "1" "9") <|>
            (Lit (b" ") +++ Cls (in_range "1" "9"))) +++
   Plus is_uspace +++
   Group 4 ((Lit (b"2") +++ Cls (in_range "0" "3")) <|>
            (Cls (in_range "0" "1") +++ d) <|> d) +++
   Lit (b":") +++
   Group 5 ((Cls (in_range "0" "5") +++ d) <|> d) +++
   Lit (b":") +++
   Group 6 ((Lit (b"6") +++ Cls (in_range "0" "1")) <|>
            (Cls (in_range "0" "5") +++ d) <|> d))%re.

Definition is_leap (y : Z) : bool :=
  ((y mod 4 =? 0) && negb (y mod 100 =? 0)) || (y mod 400 =? 0).

Definition days_in_month (y m : Z) : Z :=
  if m =? 2 then (if is_leap y then 29 else 28)
  else if (m =? 4) || (m =? 6) || (m =? 9) || (m =? 11) then 30
  else 31.

Definition strptime_ascii (s : bytes) : outcome datetime :=
  if existsb (fun c => (127 <? code c)%N) s then Raise UnicodeDecodeError
  else
    match re_match strptime_re s with
    | Some m =>
        if negb (m_end m =? length s)%nat then Raise ValueError
        else
          y ← py_int (group_or_empty m 1);
          mo ← py_int (group_or_empty m 2);
          d ← py_int (group_or_empty m 3);
          h ← py_int (group_or_empty m 4);
          mi ← py_int (group_or_empty m 5);
          sec ← py_int (group_or_empty m 6);
          if (1 <=? y) && (d <=? days_in_month y mo) && (sec <=? 59)
          then Ok {| year := y; month := mo; day := d; hour := h; minute := mi;
                     second := sec |}
          else Raise ValueError
    | None => Raise ValueError
    end.

End package.

(** [Package.is_installed_for_user].  A value of [users] is the dict
    [{'raw': line}] that the parser builds: it is not empty and holds
    ['raw'], so the test [user_data and 'raw' in user_data] is whether the
    user id is a key. *)
Definition is_installed_for_user (self : package.Package) (user_id : Z) : bool :=
  match assoc_get user_id (package.users self) with
  | Some raw => contains (b"installed=true") raw
  | None => false
  end.

(** ** [json]: the decoder and the encoder of strings

    After [json.decoder] and [json.scanner] of the Python library.  Text is
    a list of 8-bit characters, so an escape [\uXXXX] above 0xff cannot be
    represented: the decoder then stops with [OutOfModel], which is not an
    exception of Python but the mark that the input leaves the model.  A
    [JSONDecodeError] is a [ValueError]. *)

Module json.

(** [WHITESPACE = [ \t\n\r]*] *)
Definition is_ws (c : ascii) : bool := one_of [" "; "009"; "010"; "013"]%char c.
Definition skip_ws (s : bytes) : bytes := lstrip_by is_ws s.

Definition hex_val (c : ascii) : option N :=
  if is_digit c then Some (code c - 48)%N
  else if in_range "a" "f" c then Some (code c - 87)%N
  else if in_range "A" "F" c then Some (code c - 55)%N
  else None.

Definition hex4 (h1 h2 h3 h4 : ascii) : option N :=
  match hex_val h1, hex_val h2, hex_val h3, hex_val h4 with
  | Some a, Some b1, Some c, Some d => Some (((a * 16 + b1) * 16 + c) * 16 + d)%N
  | _, _, _, _ => None
  end.

(** [scanstring], after the opening quote, in strict mode: the text of the
    string and what follows the closing quote. *)
Fixpoint scanstring (acc : bytes) (s : bytes) : outcome (bytes * bytes) :=
  match s with
  | [] => Raise ValueError                     (* unterminated string *)
  | c :: s1 =>
      if Ascii.eqb c dq then Ok (rev acc, s1)
      else if Ascii.eqb c "\" then
        match s1 with
        | [] => Raise ValueError
        | e :: s2 =>
            if Ascii.eqb e "u" then
              match s2 with
              | h1 :: h2 :: h3 :: h4 :: s3 =>
                  match hex4 h1 h2 h3 h4 with
                  | Some n =>
                      if (n <? 256)%N then scanstring (ascii_of_N n :: acc) s3
                      else Raise OutOfModel
                  | None => Raise ValueError
                  end
              | _ => Raise ValueError
              end
            else
              match (if Ascii.eqb e dq then Some dq
                     else if Ascii.eqb e "\" then Some "\"%char
                     else if Ascii.eqb e "/" then Some "/"%char
                     else if Ascii.eqb e "b" then Some "008"%char
                     else if Ascii.eqb e "f" then Some "012"%char
                     else if Ascii.eqb e "n" then Some "010"%char
                     else if Ascii.eqb e "r" then Some "013"%char
                     else if Ascii.eqb e "t" then Some "009"%char
                     else None) with
              | Some x => scanstring (x :: acc) s2
              | None => Raise ValueError        (* invalid \escape *)
              end
        end
      else if (code c <? 32)%N then Raise ValueError   (* control character *)
      else scanstring (c :: acc) s1
  end.

(** [NUMBER_RE = (-?(?:0|[1-9][0-9]* ))(\.[0-9]+)?([eE][-+]?[0-9]+)?] *)
Definition number_re : regex :=
  (Group 1 (Opt (Lit (b"-")) +++
            (Lit (b"0") <|> (Cls (in_range "1" "9") +++ Star is_digit))) +++
   Opt (Group 2 (Lit (b".") +++ Plus is_digit)) +++
   Opt (Group 3 (Cls (one_of (b"eE")) +++ Opt (Cls (one_of (b"-+"))) +++
                 Plus is_digit)))%re.

(** A number at the head of [s]: its value and what follows it. *)
Definition scan_number (s : bytes) : outcome (pyval * bytes) :=
  match re_match number_re s with
  | Some m =>
      let integer := group_or_empty m 1 in
      match group m 2, group m 3 with
      | None, None => n ← py_int integer; Ok (VInt n, drop (m_end m) s)
      | frac, exp => Ok (VFloat (integer ++ default [] frac ++ default [] exp),
                         drop (m_end m) s)
      end
  | None => Raise ValueError                   (* Expecting value *)
  end.

(** [scan_once], with the loops of [JSONObject] and [JSONArray].  [fuel]
    bounds the number of calls; the length of the text is enough. *)
Fixpoint scan_once (fuel : nat) (s : bytes) : outcome (pyval * bytes) :=
  match fuel with
  | O => Raise OutOfModel
  | S fuel =>
      match s with
      | [] => Raise ValueError
      | c :: s1 =>
          if Ascii.eqb c dq then
            r ← scanstring [] s1; Ok (VStr (fst r), snd r)
          else if Ascii.eqb c "{" then
            match skip_ws s1 with
            | c1 :: s2 =>
                if Ascii.eqb c1 "}" then Ok (VDict [], s2)
                else if Ascii.eqb c1 dq then members fuel [] s2
                else Raise ValueError
            | [] => Raise ValueError
            end
          else if Ascii.eqb c "[" then
            match skip_ws s1 with
            | c1 :: s2 =>
                if Ascii.eqb c1 "]" then Ok (VList [], s2)
                else elements fuel [] (c1 :: s2)
            | [] => Raise ValueError
            end
          else if startswith (b"null") s then Ok (VNone, drop 4 s)
          else if startswith (b"true") s then Ok (VBool true, drop 4 s)
          else if startswith (b"false") s then Ok (VBool false, drop 5 s)
          else if startswith (b"NaN") s then Ok (VFloat (b"nan"), drop 3 s)
          else if startswith (b"Infinity") s then Ok (VFloat (b"inf"), drop 8 s)
          else if startswith (b"-Infinity") s then Ok (VFloat (b"-inf"), drop 9 s)
          else scan_number s
      end
  end

(** The members of an object; [s] begins after the opening quote of a key. *)
with members (fuel : nat) (acc : list (bytes * pyval)) (s : bytes)
    : outcome (pyval * bytes) :=
  match fuel with
  | O => Raise OutOfModel
  | S fuel =>
      r ← scanstring [] s;
      let key := fst r in
      match skip_ws (snd r) with
      | c :: s1 =>
          if Ascii.eqb c ":" then
            v ← scan_once fuel (skip_ws s1);
            let acc := dict_set key (fst v) acc in
            match skip_ws (snd v) with
            | c1 :: s2 =>
                if Ascii.eqb c1 "}" then Ok (VDict acc, s2)
                else if Ascii.eqb c1 "," then
                  match skip_ws s2 with
                  | c2 :: s3 =>
                      if Ascii.eqb c2 dq then members fuel acc s3
                      else Raise ValueError
                  | [] => Raise ValueError
                  end
                else Raise ValueError
            | [] => Raise ValueError
            end
          else Raise ValueError
      | [] => Raise ValueError
      end
  end

(** The elements of an array; [s] begins with an element. *)
with elements (fuel : nat) (acc : list pyval) (s : bytes) : outcome (pyval * bytes) :=
  match fuel with
  | O => Raise OutOfModel
  | S fuel =>
      v ← scan_once fuel s;
      let acc := acc ++ [fst v] in
      match skip_ws (snd v) with
      | c1 :: s2 =>
          if Ascii.eqb c1 "]" then Ok (VList acc, s2)
          else if Ascii.eqb c1 "," then elements fuel acc (skip_ws s2)
          else Raise ValueError
      | [] => Raise ValueError
      end
  end.

(** [json.loads] *)
Definition loads (s : bytes) : outcome pyval :=
  r ← scan_once (S (length s)) (skip_ws s);
  match skip_ws (snd r) with
  | [] => Ok (fst r)
  | _ => Raise ValueError                       (* Extra data *)
  end.

Definition hex_digit (n : N) : ascii :=
  if (n <? 10)%N then ascii_of_N (48 + n) else ascii_of_N (87 + n).

(** [json.dumps] of a string (with [ensure_ascii]) *)
Definition escape_char (c : ascii) : bytes :=
  if Ascii.eqb c dq then ["\"; dq]%char
  else if Ascii.eqb c "\" then b"\\"
  else if Ascii.eqb c "010" then b"\n"
  else if Ascii.eqb c "013" then b"\r"
  else if Ascii.eqb c "009" then b"\t"
  else if Ascii.eqb c "012" then b"\f"
  else if Ascii.eqb c "008" then b"\b"
  else if in_range " " "~" c then [c]
  else b"\u00" ++ [hex_digit (code c / 16); hex_digit (code c mod 16)].

Definition dumps_str (s : bytes) : bytes :=
  [dq] ++ concat (map escape_char s) ++ [dq].

End json.

(** ** usb/__init__.py *)

Module usb.

(** *** The patterns of [clean_and_load_json] ([str] patterns) *)

(** [true|false|null|-?\d+\.?\d*] *)
Definition number_re : regex :=
  (Opt (Lit (b"-")) +++ Plus is_digit +++ Opt (Lit (b".")) +++ Star is_digit)%re.
Definition scalar_re : regex :=
  (Lit (b"true") <|> Lit (b"false") <|> Lit (b"null") <|> number_re)%re.
(** [[\w\s-]+] *)
Definition key_char (c : ascii) : bool := is_word c || is_uspace c || is_char "-" c.

(** 1. [}\s*{] *)
Definition pass1_re : regex := (Lit (b"}") +++ Star is_uspace +++ Lit (b"{"))%re.
(** 2. [(true|false|null|-?\d+\.?\d* )\s*\n\s*(true|false|null|-?\d+\.?\d* )] *)
Definition pass2_re : regex :=
  (Group 1 scalar_re +++ Star is_uspace +++ Lit nl +++ Star is_uspace +++
   Group 2 scalar_re)%re.
(** 3. [^\s*([\w\s-]+)\s*=\s*([^{[]+?)\s*$] with [re.MULTILINE] *)
Definition pass3_re : regex :=
  (BolM +++ Star is_uspace +++ Group 1 (Plus key_char) +++ Star is_uspace +++
   Lit (b"=") +++ Star is_uspace +++ Group 2 (PlusLazy (not_in (b"{["))) +++
   Star is_uspace +++ EolM)%re.
(** 4. [^\s*([\w\s-]+)\s*=\s*(true|false|null|-?\d+\.?\d* )\s*$] with [re.MULTILINE] *)
Definition pass4_re : regex :=
  (BolM +++ Star is_uspace +++ Group 1 (Plus key_char) +++ Star is_uspace +++
   Lit (b"=") +++ Star is_uspace +++ Group 2 scalar_re +++
   Star is_uspace +++ EolM)%re.
(** 5. [^\s*([\w\s-]+)\s*=\s*({|\[)] with [re.MULTILINE] *)
Definition pass5_re : regex :=
  (BolM +++ Star is_uspace +++ Group 1 (Plus key_char) +++ Star is_uspace +++
   Lit (b"=") +++ Star is_uspace +++ Group 2 (Lit (b"{") <|> Lit (b"[")))%re.
(** 6. [(["}\]]|true|false|null|-?\d+\.?\d* )\s*\n\s*"] *)
Definition pass6_re : regex :=
  (Group 1 (Cls (one_of [dq; "}"; "]"]%char) <|> scalar_re) +++
   Star is_uspace +++ Lit nl +++ Star is_uspace +++ Lit [dq])%re.
(** 7. [,\s*([}\]])] *)
Definition pass7_re : regex :=
  (Lit (b",") +++ Star is_uspace +++ Group 1 (Cls (one_of (b"}]"))))%re.

(** [quote_values_if_string] *)
Definition quote_values_if_string (m : rmatch_result) : bytes :=
  let key := ustrip (group_or_empty m 1) in
  let value := ustrip (group_or_empty m 2) in
  if existsb (bytes_eqb value) [b"true"; b"false"; b"null"]
     || bool_decide (is_Some (re_fullmatch number_re value))
  then [dq] ++ key ++ [dq] ++ b": " ++ value
  else
    let value := replace [dq] ["\"; dq]%char value in
    [dq] ++ key ++ [dq] ++ b": " ++ [dq] ++ value ++ [dq].

(** The template ["\1": \2] of passes 4 and 5. *)
Definition quoted_key_template (m : rmatch_result) : bytes :=
  [dq] ++ group_or_empty m 1 ++ [dq] ++ b": " ++ group_or_empty m 2.

(** The text after the seven rewriting passes. *)
Definition clean (text : bytes) : bytes :=
  let text := re_sub pass1_re (fun _ => b"}, {") text in
  let text := re_sub pass2_re
                (fun m => group_or_empty m 1 ++ b"," ++ nl ++ group_or_empty m 2) text in
  let text := re_sub pass3_re quote_values_if_string text in
  let text := re_sub pass4_re quoted_key_template text in
  let text := re_sub pass5_re quoted_key_template text in
  let text := re_sub pass6_re (fun m => group_or_empty m 1 ++ b"," ++ nl ++ [dq]) text in
  let text := re_sub pass7_re (fun m => group_or_empty m 1) text in
  text.

(** [clean_and_load_json]: a [JSONDecodeError] is raised again as a
    [ValueError]. *)
Definition clean_and_load_json (text : bytes) : outcome pyval :=
  let json_string := b"{" ++ clean text ++ b"}" in
  json.loads json_string.

(** *** Iteration, length and membership on values *)

(** [for x in v] *)
Definition py_iter (v : pyval) : outcome (list pyval) :=
  match v with
  | VList l => Ok l
  | VDict d => Ok (map (fun kv => VStr (fst kv)) d)
  | VStr s => Ok (map (fun c => VStr [c]) s)
  | VBytes s => Ok (map (fun c => VInt (Z.of_N (code c))) s)
  | _ => Raise TypeError
  end.

(** [k in v] for a [str] [k] *)
Definition py_contains (k : bytes) (v : pyval) : outcome bool :=
  match v with
  | VDict d => Ok (bool_decide (is_Some (dict_get k d)))
  | VList l =>
      Ok (existsb (fun x => match x with VStr s => bytes_eqb s k | _ => false end) l)
  | VStr s => Ok (contains k s)
  | _ => Raise TypeError
  end.

(** [v[k]] for a [str] [k] that is in [v] *)
Definition py_getitem (k : bytes) (v : pyval) : outcome pyval :=
  match v with
  | VDict d => match dict_get k d with Some x => Ok x | None => Raise KeyError end
  | _ => Raise TypeError
  end.

(** [v.get(k, default)] : only a dict has the method. *)
Definition py_get (k : bytes) (dflt : pyval) (v : pyval) : outcome pyval :=
  match v with
  | VDict d => Ok (default dflt (dict_get k d))
  | _ => Raise AttributeError
  end.

Section Parser.

(** Calls into the Python library whose result depends on the platform or
    on the clock; the parser is modelled for any behaviour of them:
    [decode] is [x.decode('utf-8')]; [int_of_float lit] is [int(x)] for the
    float read from [lit]; [fromtimestamp ms] is
    [datetime.fromtimestamp(ms / 1000)]; [strptime_event t] is
    [datetime.strptime(f"{datetime.now().year}-{t}", '%Y-%m-%d %H:%M:%S:%f')]. *)
Context {datetime : Type}.
Variable decode : bytes -> outcome bytes.
Variable int_of_float : bytes -> outcome Z.
Variable fromtimestamp : Z -> outcome datetime.
Variable strptime_event : bytes -> outcome datetime.

(** [int(v)] *)
Definition py_int_of (v : pyval) : outcome Z :=
  match v with
  | VInt z => Ok z
  | VBool v => Ok (if v then 1 else 0)
  | VFloat lit => int_of_float lit
  | VStr s => py_int s
  | VBytes s => py_int s
  | _ => Raise TypeError
  end.

Record UsbEvent : Type := mkUsbEvent {
  ev_timestamp : datetime;
  details : list (bytes * pyval)
}.

Record UsbDeviceManager : Type := mkUsbDeviceManager {
  handler_properties : pyval;
  events : list UsbEvent
}.

Record UsbConnection : Type := mkUsbConnection {
  device_address : pyval;
  mode : Z;
  timestamp : option datetime;
  manufacturer : pyval;
  product : pyval
}.

(** [UsbConnection()] : the declared defaults. *)
Definition UsbConnection_init : UsbConnection :=
  {| device_address := VBytes []; mode := 0; timestamp := None;
     manufacturer := VBytes []; product := VBytes [] |}.

(** [UsbConnection.parse] *)
Definition UsbConnection_parse (self : UsbConnection) (props : pyval)
    : outcome UsbConnection :=
  device_address_v ← py_get (b"device_address") VNone props;
  mode_raw ← py_get (b"mode") (VInt (-1)) props;
  mode_v ← py_int_of mode_raw;
  timestamp_raw ← py_get (b"timestamp") (VInt 0) props;
  timestamp_ms ← py_int_of timestamp_raw;
  timestamp_v ← (if timestamp_ms =? 0 then Ok None
                  else d ← fromtimestamp timestamp_ms; Ok (Some d));
  manufacturer_v ← py_get (b"manufacturer") VNone props;
  product_v ← py_get (b"product") VNone props;
  Ok {| device_address := device_address_v; mode := mode_v;
        timestamp := timestamp_v; manufacturer := manufacturer_v;
        product := product_v |}.

Record UsbHostManager : Type := mkUsbHostManager {
  num_connects : pyval;
  connections : list UsbConnection
}.

Definition UsbHostManager_init : UsbHostManager :=
  {| num_connects := VInt 0; connections := [] |}.

(** An object as an exception leaves it, or as the call returns it. *)
Definition partial (A : Type) : Type := A * option exn.

Fixpoint add_connections (self : UsbHostManager) (cs : list pyval)
    : partial UsbHostManager :=
  match cs with
  | [] => (self, None)
  | connection :: cs' =>
      match UsbConnection_parse UsbConnection_init connection with
      | Ok uc =>
          add_connections
            {| num_connects := num_connects self;
               connections := connections self ++ [uc] |} cs'
      | Raise e => (self, Some e)
      end
  end.

(** [UsbHostManager.extract_data], on a fresh object *)
Definition UsbHostManager_extract_data (parsed_json_data : pyval)
    : partial UsbHostManager :=
  let self := UsbHostManager_init in
  match py_get (b"num_connects") VNone parsed_json_data with
  | Raise e => (self, Some e)
  | Ok n =>
      let self := {| num_connects := n; connections := connections self |} in
      match py_contains (b"connections") parsed_json_data with
      | Raise e => (self, Some e)
      | Ok false => (self, None)
      | Ok true =>
          match (v ← py_getitem (b"connections") parsed_json_data; py_iter v) with
          | Raise e => (self, Some e)
          | Ok cs => add_connections self cs
          end
      end
  end.

(** [UEVENT:\s*\{(.*?)\}], [intent:\s*Intent\s*\{(.*?)\}], [(\w+)=([^\s}]+)] *)
Definition uevent_re : regex :=
  (Lit (b"UEVENT:") +++ Star is_uspace +++ Lit (b"{") +++
   Group 1 (StarLazy not_newline) +++ Lit (b"}"))%re.
Definition intent_re : regex :=
  (Lit (b"intent:") +++ Star is_uspace +++ Lit (b"Intent") +++ Star is_uspace +++
   Lit (b"{") +++ Group 1 (StarLazy not_newline) +++ Lit (b"}"))%re.
Definition intent_pair_re : regex :=
  (Group 1 (Plus is_word) +++ Lit (b"=") +++
   Group 2 (Plus (fun c => negb (is_uspace c || is_char "}" c))))%re.

(** [UsbDeviceManager._parse_event_details] *)
Definition _parse_event_details (details : bytes) : list (bytes * pyval) :=
  match re_search uevent_re details with
  | Some m =>
      fold_left
        (fun props pair =>
           if contains (b"=") pair
           then match split_once "=" pair with
                | [key; value] => dict_set (ustrip key) (VStr (ustrip value)) props
                | _ => props
                end
           else props)
        (split_on "," (group_or_empty m 1))
        [(b"event_type", VStr (b"uevent"))]
  | None =>
      match re_search intent_re details with
      | Some m =>
          let content := ustrip (group_or_empty m 1) in
          let props :=
            fold_left
              (fun props pm =>
                 dict_set (group_or_empty pm 1) (VStr (group_or_empty pm 2)) props)
              (re_findall intent_pair_re content)
              [(b"event_type", VStr (b"intent"))] in
          if contains (b"(has extras)") content
          then dict_set (b"extras") (VBool true) props
          else props
      | None => []
      end
  end.

(** [(\d{2}-\d{2}\s\d{2}:\d{2}:\d{2}:\d{3})\s(.*?)$] *)
Definition event_re : regex :=
  let d2 := (Cls is_digit +++ Cls is_digit)%re in
  (Group 1 (d2 +++ Lit (b"-") +++ d2 +++ Cls is_uspace +++ d2 +++ Lit (b":") +++ d2 +++
            Lit (b":") +++ d2 +++ Lit (b":") +++ d2 +++ Cls is_digit) +++
   Cls is_uspace +++ Group 2 (StarLazy not_newline) +++ Eol)%re.

(** The loop of [UsbDeviceManager.add_events] *)
Fixpoint add_event_list (self : UsbDeviceManager) (es : list pyval)
    : partial UsbDeviceManager :=
  match es with
  | [] => (self, None)
  | VStr usb_event :: es' =>
      match re_match event_re usb_event with
      | Some ts_match =>
          match strptime_event (group_or_empty ts_match 1) with
          | Ok ts =>
              add_event_list
                {| handler_properties := handler_properties self;
                   events := events self ++
                     [ {| ev_timestamp := ts;
                          details := _parse_event_details (group_or_empty ts_match 2) |} ] |}
                es'
          | Raise e => (self, Some e)
          end
      | None => add_event_list self es'
      end
  | _ :: _ => (self, Some TypeError)
  end.

(** [UsbDeviceManager.add_events] *)
Definition add_events (self : UsbDeviceManager) (list_events : pyval)
    : partial UsbDeviceManager :=
  match py_iter list_events with
  | Raise e => (self, Some e)         (* [len()] of a value without length *)
  | Ok [] => (self, None)
  | Ok es => add_event_list self es
  end.

(** [UsbDeviceManager.extract_data], on a fresh object *)
Definition UsbDeviceManager_extract_data (parsed_json_data : pyval)
    : partial UsbDeviceManager :=
  let self := {| handler_properties := VDict []; events := [] |} in
  match py_contains (b"handler") parsed_json_data with
  | Raise e => (self, Some e)
  | Ok has_handler =>
      let r := if has_handler
               then match py_getitem (b"handler") parsed_json_data with
                    | Ok h => ({| handler_properties := h; events := events self |}, None)
                    | Raise e => (self, Some e)
                    end
               else (self, None) in
      match r with
      | (self, Some e) => (self, Some e)
      | (self, None) =>
          match py_contains (b"USB Event") parsed_json_data with
          | Raise e => (self, Some e)
          | Ok false => (self, None)
          | Ok true =>
              match py_getitem (b"USB Event") parsed_json_data with
              | Ok evs => add_events self evs
              | Raise e => (self, Some e)
              end
          end
      end
  end.

Record UsbManagerData : Type := mkUsbManagerData {
  restrictor_state : list (bytes * bytes);
  device_manager : option UsbDeviceManager;
  host_manager : option UsbHostManager
}.

(** *** [parse_usb_manager_state] *)

(** [USB MANAGER STATE \(dumpsys usb\):\n(.*?)(?=\n\n\n|\Z)] with [re.DOTALL] *)
Definition anchor : bytes := b"USB MANAGER STATE (dumpsys usb):" ++ nl.
Definition section_re : regex :=
  (Lit anchor +++ Group 1 (StarLazy any_char) +++
   Look (Lit (nl ++ nl ++ nl) <|> EndZ))%re.

(** [(USB Event=\[\n(.*?)\n\s+\])] with [re.DOTALL] *)
Definition event_log_re : regex :=
  (Group 1 (Lit (b"USB Event=[" ++ nl) +++ Group 2 (StarLazy any_char) +++
            Lit nl +++ Plus is_uspace +++ Lit (b"]")))%re.

(** [USB Host Restrictor State:\n(.*?)(?=\n[A-Z])] with [re.DOTALL] *)
Definition restrictor_re : regex :=
  (Lit (b"USB Host Restrictor State:" ++ nl) +++ Group 1 (StarLazy any_char) +++
   Look (Lit nl +++ Cls is_upper))%re.

(** [^\s*{] with [re.MULTILINE] *)
Definition start_re : regex := (BolM +++ Star is_uspace +++ Lit (b"{"))%re.

(** The event log made a JSON array of strings, in place. *)
Definition quote_event_log (block : bytes) : bytes :=
  match re_search event_log_re block with
  | Some event_log_match =>
      let full_match_text := group_or_empty event_log_match 1 in
      let event_log_content := ustrip (group_or_empty event_log_match 2) in
      let event_lines := split_on newline event_log_content in
      let json_escaped_lines := map (fun line => json.dumps_str (ustrip line)) event_lines in
      let valid_json_events :=
        [dq] ++ b"USB Event" ++ [dq] ++ b": [" ++ join (b", ") json_escaped_lines ++ b"]" in
      replace full_match_text valid_json_events block
  | None => block
  end.

Definition parse_restrictor_state (block : bytes) : list (bytes * bytes) :=
  match re_search restrictor_re block with
  | Some m =>
      fold_left
        (fun st line =>
           if contains (b":") line
           then match split_once ":" line with
                | [key; val] => assoc_set (ustrip key) (ustrip val) st
                | _ => st
                end
           else st)
        (split_on newline (ustrip (group_or_empty m 1)))
        []
  | None => []
  end.

(** The loop that looks for the closing brace:
    [for i, char in enumerate(block[start_index:])].  [i] is the index of
    the head of [s]; the result is [end_index], or [None] for its initial
    value -1. *)
Fixpoint find_end (start_index : nat) (brace_level : Z) (i : nat) (s : bytes)
    : option nat :=
  match s with
  | [] => None
  | char :: s' =>
      let brace_level :=
        if Ascii.eqb char "{" then brace_level + 1
        else if Ascii.eqb char "}" then brace_level - 1
        else brace_level in
      if brace_level =? 0 then Some (start_index + i)%nat
      else find_end start_index brace_level (S i) s'
  end.

(** [block[lo:hi]] *)
Definition slice (lo hi : nat) (s : bytes) : bytes := take (hi - lo) (drop lo s).

(** The text between the outer braces, when the scan finds them. *)
Definition json_like_content (block : bytes) : option bytes :=
  match re_search start_re block with
  | Some start_match =>
      let start_index := m_start start_match in
      match find_end start_index 0 0 (drop start_index block) with
      | Some end_index => Some (slice (start_index + 1) end_index block)
      | None => None
      end
  | None => None
  end.

Definition banner : log_event := LogInfo "Parsing 'USB MANAGER STATE' section...".
Definition warning : log_event :=
  LogWarning "Could not parse the block as JSON after cleaning".

(** The [try] block: what it has assigned, and the exception that ended
    it, if any. *)
Definition load_managers (data : UsbManagerData) (content : bytes)
    : partial UsbManagerData :=
  match clean_and_load_json content with
  | Raise e => (data, Some e)
  | Ok parsed_json_data =>
      let r :=
        match py_contains (b"device_manager") parsed_json_data with
        | Raise e => (data, Some e)
        | Ok false => (data, None)
        | Ok true =>
            match py_getitem (b"device_manager") parsed_json_data with
            | Raise e => (data, Some e)
            | Ok v =>
                let (dm, e) := UsbDeviceManager_extract_data v in
                ({| restrictor_state := restrictor_state data;
                    device_manager := Some dm;
                    host_manager := host_manager data |}, e)
            end
        end in
      match r with
      | (data, Some e) => (data, Some e)
      | (data, None) =>
          match py_contains (b"host_manager") parsed_json_data with
          | Raise e => (data, Some e)
          | Ok false => (data, None)
          | Ok true =>
              match py_getitem (b"host_manager") parsed_json_data with
              | Raise e => (data, Some e)
              | Ok v =>
                  let (hm, e) := UsbHostManager_extract_data v in
                  ({| restrictor_state := restrictor_state data;
                      device_manager := device_manager data;
                      host_manager := Some hm |}, e)
              end
          end
      end
  end.

(** [parse_usb_manager_state] *)
Definition parse_usb_manager_state (dumpstate_content : RawData)
    : list log_event * outcome (option UsbManagerData) :=
  match re_search section_re (raw dumpstate_content) with
  | None => ([banner], Ok None)
  | Some m =>
      match decode (group_or_empty m 1) with
      | Raise e => ([banner], Raise e)
      | Ok text =>
          let block := ustrip text in
          match block with
          | [] => ([banner], Ok None)
          | _ =>
              let block := quote_event_log block in
              let data := {| restrictor_state := parse_restrictor_state block;
                             device_manager := None; host_manager := None |} in
              match json_like_content block with
              | None => ([banner], Ok (Some data))
              | Some content =>
                  match load_managers data content with
                  | (data, None) => ([banner], Ok (Some data))
                  | (data, Some ValueError) => ([banner; warning], Ok (Some data))
                  | (_, Some e) => ([banner], Raise e)
                  end
              end
          end
      end
  end.

End Parser.

End usb.

(** * Properties *)

(** ** Sanity checks of the bytes operations *)

Example split_examples :
  split_ws (b"  a bc   d ") = [b"a"; b"bc"; b"d"] /\
  split_on ":" (b"a:b:c") = [b"a"; b"b"; b"c"] /\
  split_once ":" (b"a:b:c") = [b"a"; b"b:c"] /\
  split_str (b", ") (b"1, 2, 3") = [b"1"; b"2"; b"3"] /\
  split_str (b"->") (b"a->") = [b"a"; []] /\
  strip (b"  x y  ") = b"x y" /\
  replace (b"at ") (b"") (b"at at foo") = b"foo" /\
  py_int (b" 1_000 ") = Ok 1000 /\ py_int (b"abc") = Raise ValueError /\
  py_int (b"-12") = Ok (-12) /\ py_int (b"1__0") = Raise ValueError /\ py_int (b"") = Raise ValueError.
Proof. vm_compute. repeat split. Qed.

Example mount_example :
  mount.parse_mount_points
    (RawData_init (mount.anchor ++ b"/dev/root on / type ext4 (rw,seclabel)" ++ nl ++
                   b"bogus line" ++ nl ++ b"------ 0.01s"))
  = ([mount.banner],
     Some [ {| mount.device := b"/dev/root"; mount.path := b"/";
               mount.mount_type := b"ext4"; mount.options := [b"rw"; b"seclabel"] |};
            mount.MountPoint_default ]).
Proof. vm_compute. reflexivity. Qed.

Example lsmod_example :
  lsmod.parse_lsmod
    (RawData_init (lsmod.anchor ++ b"Module Size Used by" ++ nl ++ b"foo_mod 1234 0" ++ nl ++
                   b"bar 77 2 foo_mod,baz" ++ nl ++ b"------ 0.01s"))
  = ([lsmod.banner],
     Ok (Some [ {| lsmod.name := b"foo_mod"; lsmod.size := 1234; lsmod.used_by := [] |};
                {| lsmod.name := b"bar"; lsmod.size := 77; lsmod.used_by := [b"foo_mod,baz"] |} ])).
Proof. vm_compute. reflexivity. Qed.

(** ** Facts about the matcher *)

Lemma advance_by_startswith (l : bytes) (cu : cursor) :
  startswith l (rest cu) = false -> advance_by l cu = None.
Proof.
  revert cu. induction l as [|c l IH]; intros cu H.
  - destruct (rest cu); discriminate.
  - simpl in *. destruct (rest cu) as [|d s] eqn:Hr; [reflexivity|].
    destruct (Ascii.eqb c d) eqn:Hcd; [|reflexivity].
    simpl in H. apply IH. exact H.
Qed.

Lemma contains_cons_false (a : bytes) (c : ascii) (s : bytes) :
  contains a (c :: s) = false -> startswith a (c :: s) = false /\ contains a s = false.
Proof.
  cbn [contains]. intros H. apply orb_false_iff in H. exact H.
Qed.

Lemma contains_false_startswith (a s : bytes) :
  contains a s = false -> startswith a s = false.
Proof.
  destruct s; cbn [contains]; intros H; apply orb_false_iff in H; tauto.
Qed.

(** A pattern that begins with a literal text finds nothing in a subject
    that does not contain that text. *)
Lemma search_literal_absent (a : bytes) (r : regex) (s : bytes) :
  contains a s = false ->
  forall pv i, search_from (Lit a +++ r) pv i s = None.
Proof.
  induction s as [|c s IH]; intros H pv i.
  - cbn [search_from]. unfold match_at. cbn [rmatch].
    rewrite advance_by_startswith; [reflexivity|].
    cbn [rest]. apply contains_false_startswith. exact H.
  - apply contains_cons_false in H as [H1 H2].
    cbn [search_from]. unfold match_at. cbn [rmatch].
    rewrite advance_by_startswith by exact H1.
    apply IH. exact H2.
Qed.

(** ** mount: one record per non-blank line *)

Lemma mount_parse_lines_map (ls : list bytes) :
  mount.parse_lines ls =
  map (mount.MountPoint_parse mount.MountPoint_default) (List.filter nonblank ls).
Proof.
  induction ls as [|l ls IH]; [reflexivity|].
  cbn [mount.parse_lines List.filter]. destruct (nonblank l); cbn [map]; congruence.
Qed.

Lemma mount_parse_unmatched (self : mount.MountPoint) (line : bytes) :
  re_match mount.line_re (strip line) = None ->
  mount.MountPoint_parse self line = self.
Proof. unfold mount.MountPoint_parse. intros ->. reflexivity. Qed.

(** C10. In a located MOUNT POINT DUMP section, [parse_mount_points] appends
    exactly one [MountPoint] for every non-empty line (a line is empty for
    the code when [line.strip()] is empty): the returned list is as long as
    the list of those lines, its i-th record is made from the i-th such
    line, and a line that does not have the shape
    'device on path type fstype (options)' gives the record with all fields
    at their defaults. *)
Theorem mount_one_record_per_line (r : bytes) (m : rmatch_result) :
  re_search mount.section_re r = Some m ->
  let ls := List.filter nonblank (mount.section_lines (group_or_empty m 1)) in
  exists mps : list mount.MountPoint,
    snd (mount.parse_mount_points (RawData_init r)) = Some mps /\
    length mps = length ls /\
    forall (i : nat) (line : bytes), ls !! i = Some line ->
      mps !! i = Some (mount.MountPoint_parse mount.MountPoint_default line) /\
      (re_match mount.line_re (strip line) = None ->
       mps !! i = Some mount.MountPoint_default).
Proof.
  intros Hm ls.
  exists (mount.parse_lines (mount.section_lines (group_or_empty m 1))).
  split.
  - unfold mount.parse_mount_points. cbn [snd raw RawData_init]. rewrite Hm. reflexivity.
  - rewrite mount_parse_lines_map. fold ls. split.
    + apply length_map.
    + intros i line Hi.
      assert (H : map (mount.MountPoint_parse mount.MountPoint_default) ls !! i
                  = Some (mount.MountPoint_parse mount.MountPoint_default line)).
      { rewrite list_lookup_fmap, Hi. reflexivity. }
      split; [exact H|].
      intros Hno. rewrite H. f_equal. apply mount_parse_unmatched. exact Hno.
Qed.

Definition mount_report : bytes :=
  mount.anchor ++ b"/dev/root on / type ext4 (rw,seclabel)" ++ nl ++
  b"   " ++ nl ++ b"bogus line" ++ nl ++ b"------ 0.01s".

Definition mount_report_match : rmatch_result :=
  Eval vm_compute in
    default (mkMatch 0 0 []) (re_search mount.section_re mount_report).

Lemma mount_one_record_per_line_witness :
  exists mps : list mount.MountPoint,
    snd (mount.parse_mount_points (RawData_init mount_report)) = Some mps /\
    length mps = 2%nat /\
    forall (i : nat) (line : bytes),
      [b"/dev/root on / type ext4 (rw,seclabel)"; b"bogus line"] !! i = Some line ->
      mps !! i = Some (mount.MountPoint_parse mount.MountPoint_default line) /\
      (re_match mount.line_re (strip line) = None ->
       mps !! i = Some mount.MountPoint_default).
Proof.
  apply (mount_one_record_per_line mount_report mount_report_match).
  vm_compute. reflexivity.
Defined.

(** ** process: merging two thread records *)

(** What the merge loop computes, attribute by attribute: an attribute of
    the second record replaces that of the first unless it is [None]. *)
Lemma merge_lookup (first second : gmap string pyval) (key : string) :
  process.merge first second !! key =
  match second !! key with
  | Some v => if is_not_None v then Some v else first !! key
  | None => first !! key
  end.
Proof.
  unfold process.merge. revert key.
  apply (map_fold_weak_ind
           (fun r m => forall key : string,
              r !! key = match m !! key with
                         | Some v => if is_not_None v then Some v else first !! key
                         | None => first !! key
                         end)).
  - intros key. rewrite lookup_empty. reflexivity.
  - intros i x m r Hi IH key. unfold process.setattr.
    destruct (decide (i = key)) as [->|Hne].
    + rewrite lookup_insert_eq. destruct (is_not_None x) eqn:Hx.
      * rewrite lookup_insert_eq. reflexivity.
      * rewrite IH, Hi. reflexivity.
    + rewrite (lookup_insert_ne m) by exact Hne.
      destruct (is_not_None x); [rewrite lookup_insert_ne by exact Hne|]; apply IH.
Qed.

(** No field of a freshly built [ThreadInfo] is [None]: the defaults are
    [b''], [0] and [0.0]. *)
Lemma ThreadInfo_init_not_None (key : string) (v : pyval) :
  process.ThreadInfo_init !! key = Some v -> is_not_None v = true.
Proof.
  intros H.
  assert (Hall : map_Forall (fun _ v => is_not_None v = true) process.ThreadInfo_init).
  { apply (bool_decide_unpack _). vm_compute. exact I. }
  exact (Hall key v H).
Qed.

(** A record whose attributes are all set (not [None]) replaces every
    attribute it has in the record it is merged into, empty or not. *)
Lemma merge_overwrites (first second : gmap string pyval) (key : string) (v : pyval) :
  (forall k w, second !! k = Some w -> is_not_None w = true) ->
  second !! key = Some v ->
  process.merge first second !! key = Some v.
Proof.
  intros Hall Hk. rewrite merge_lookup, Hk, (Hall key v Hk). reflexivity.
Qed.

(** A report in which thread 1234 of process 1234 is listed by top (in the
    CPU INFO section) and by ps (in PROCESSES AND THREADS). *)
Definition process_report : bytes :=
  b"----- CPU INFO (top) -----" ++ nl ++
  b"  PID   TID USER PR NI %CPU S VIRT RES PCY CMD NAME" ++ nl ++
  b" 1234  1234 root 20 0 12.5 S 10G 5M fg init init" ++ nl ++
  b"------ 0.1s was the duration of 'CPU INFO' ------" ++ nl ++
  b"------ PROCESSES AND THREADS (ps) ------" ++ nl ++
  b"LABEL USER PID TID PPID VSZ RSS WCHAN ADDR S PRI NI RTPRIO SCH PCY TIME CMD" ++ nl ++
  b"u:r:init:s0 root 1234 1234 1 100 200 0 0 S 19 0 - 0 fg 00:00:01 init" ++ nl ++
  b"------ 0.1s was the duration of 'PROCESSES AND THREADS' ------".

Definition top_record : outcome (gmap string pyval) :=
  process.ThreadInfo_parse process.ThreadInfo_init
    (b" 1234  1234 root 20 0 12.5 S 10G 5M fg init init") process.top.

Definition ps_record : outcome (gmap string pyval) :=
  process.ThreadInfo_parse process.ThreadInfo_init
    (b"u:r:init:s0 root 1234 1234 1 100 200 0 0 S 19 0 - 0 fg 00:00:01 init") process.ps.

(** The thread record of a parsed report. *)
Definition thread_of (res : outcome (option process.ProcessReport)) (p t : Z)
    : outcome (gmap string pyval) :=
  match res with
  | Ok (Some info) =>
      match process.processes info !! p with
      | Some proc =>
          match process.threads proc !! t with
          | Some o => Ok o
          | None => Raise AttributeError
          end
      | None => Raise AttributeError
      end
  | Ok None => Raise AttributeError
  | Raise e => Raise e
  end.

Definition merged_record : outcome (gmap string pyval) :=
  thread_of (snd (process.parse_process_info (RawData_init process_report))) 1234 1234.

(** [o.key] for a record that was built without an exception. *)
Definition attr_of (o : outcome (gmap string pyval)) (key : string) : option pyval :=
  match o with
  | Ok o => o !! key
  | Raise _ => None
  end.

(** C1 (fails on the code). The thread 1234 is reported by top and by ps.
    The top line gives virt = 10G, res = 5M, cmd = init and cpu_percent =
    12.5; the ps line leaves these four fields empty.  The merged record
    nevertheless has them empty (and cpu_percent 0.0): the empty fields of
    the second occurrence have overwritten the values of the first.  The
    merged record is the ps record with the one attribute [pr] that only
    top sets. *)
Theorem add_thread_overwrites_with_empty :
  attr_of top_record "virt" = Some (VBytes (b"10G")) /\
  attr_of top_record "res" = Some (VBytes (b"5M")) /\
  attr_of top_record "cmd" = Some (VBytes (b"init")) /\
  attr_of top_record "cpu_percent" = Some (VFloat (b"12.5")) /\
  attr_of ps_record "virt" = Some (VBytes []) /\
  attr_of ps_record "res" = Some (VBytes []) /\
  attr_of ps_record "cmd" = Some (VBytes []) /\
  attr_of merged_record "virt" = Some (VBytes []) /\
  attr_of merged_record "res" = Some (VBytes []) /\
  attr_of merged_record "cmd" = Some (VBytes []) /\
  attr_of merged_record "cpu_percent" = Some (VFloat (b"0.0")) /\
  merged_record = (second ← ps_record; Ok (<["pr"%string := VBytes (b"20")]> second)).
Proof.
  repeat split; vm_compute; reflexivity.
Qed.

Definition all_set (o : gmap string pyval) : Prop :=
  forall k w, o !! k = Some w -> is_not_None w = true.

Lemma all_set_setattr (o : gmap string pyval) (k : string) (v : pyval) :
  all_set o -> is_not_None v = true -> all_set (process.setattr o k v).
Proof.
  intros Ho Hv k' w. unfold process.setattr.
  destruct (decide (k = k')) as [->|Hne].
  - rewrite lookup_insert_eq. intros [= <-]. exact Hv.
  - rewrite lookup_insert_ne by exact Hne. apply Ho.
Qed.

Lemma py_float_not_None (s : bytes) (v : pyval) :
  py_float s = Ok v -> is_not_None v = true.
Proof.
  unfold py_float. destruct (float_syntax (strip s)); intros [= <-]. reflexivity.
Qed.

Lemma Ok_inj {A : Type} (x y : A) : Ok x = Ok y -> x = y.
Proof. intros H. exact (f_equal (fun o => match o with Ok a => a | Raise _ => x end) H). Qed.

Ltac bind_step H :=
  match type of H with
  | obind ?x _ = Ok _ =>
      let E := fresh "E" in
      destruct x eqn:E; cbn [obind] in H; [|discriminate H]
  end.

Ltac all_set_chain H0 :=
  repeat (apply all_set_setattr; [|reflexivity]); exact H0.

(** Every record that [ThreadInfo.parse] builds has all its attributes set:
    none is [None], so the test of the merge loop never holds a value back. *)
Lemma ThreadInfo_parse_all_set (line : bytes) (src : process.source)
    (o : gmap string pyval) :
  process.ThreadInfo_parse process.ThreadInfo_init line src = Ok o -> all_set o.
Proof.
  assert (H0 : all_set (process.setattr process.ThreadInfo_init "_parsers" VParsers)).
  { apply all_set_setattr; [|reflexivity]. intros k w. apply ThreadInfo_init_not_None. }
  unfold process.ThreadInfo_parse.
  set (self := process.setattr process.ThreadInfo_init "_parsers" VParsers) in *.
  clearbody self. destruct src.
  - unfold process._parse_ps.
    destruct (length (split_ws (strip line)) <? 14)%nat; [intros [= <-]; exact H0|].
    destruct (split_ws (strip line)) as [|? [|? [|? [|? [|? [|? [|? [|? [|? [|? [|?
              [|? [|? [|? [|? [|? ?]]]]]]]]]]]]]]]]; try discriminate.
    cbv zeta. unfold mbind, outcome_bind. intros H.
    do 3 bind_step H. apply Ok_inj in H. subst o. all_set_chain H0.
  - unfold process._parse_top.
    destruct (length (split_ws (strip line)) <? 12)%nat; [intros [= <-]; exact H0|].
    cbv zeta. unfold mbind, outcome_bind. intros H.
    do 3 bind_step H. apply Ok_inj in H. subst o.
    apply all_set_setattr; [|reflexivity].
    do 5 (apply all_set_setattr; [|reflexivity]).
    apply all_set_setattr; [|eapply py_float_not_None; eassumption].
    all_set_chain H0.
  - intros [= <-]. exact H0.
Qed.

(** ** Facts about [strip] and [startswith] *)

Lemma lstrip_by_app_last (p : ascii -> bool) (x : bytes) (d : ascii) :
  p d = false -> exists y, lstrip_by p (x ++ [d]) = y ++ [d].
Proof.
  intros Hd. induction x as [|c x IH]; cbn [lstrip_by app].
  - rewrite Hd. exists []. reflexivity.
  - destruct (p c); [exact IH|]. exists (c :: x). reflexivity.
Qed.

Lemma rstrip_by_head (p : ascii -> bool) (d : ascii) (s : bytes) :
  p d = false -> exists s', rstrip_by p (d :: s) = d :: s'.
Proof.
  intros Hd. unfold rstrip_by. cbn [rev].
  destruct (lstrip_by_app_last p (rev s) d Hd) as [y ->].
  rewrite rev_app_distr. cbn. eauto.
Qed.

Lemma strip_by_head (p : ascii -> bool) (d : ascii) (s : bytes) :
  p d = false -> exists s', strip_by p (d :: s) = d :: s'.
Proof.
  intros Hd. unfold strip_by. cbn [lstrip_by]. rewrite Hd.
  apply rstrip_by_head. exact Hd.
Qed.

(** A line whose stripped text begins with [c] cannot itself begin with a
    different character [d] that is not whitespace. *)
Lemma startswith_other_head (c d : ascii) (p q line : bytes) :
  startswith (c :: p) (strip line) = true ->
  is_space d = false -> Ascii.eqb d c = false ->
  startswith (d :: q) line = false /\ startswith (d :: q) (strip line) = false.
Proof.
  intros Hs Hd Hdc. split.
  - destruct line as [|e line]; [reflexivity|]. cbn [startswith].
    destruct (Ascii.eqb d e) eqn:Hde; [|reflexivity].
    apply Ascii.eqb_eq in Hde. subst e.
    destruct (strip_by_head is_space d line Hd) as [s' Hs'].
    unfold strip in Hs. rewrite Hs' in Hs. cbn [startswith] in Hs.
    rewrite Ascii.eqb_sym, Hdc in Hs. discriminate.
  - destruct (strip line) as [|e s]; [reflexivity|]. cbn [startswith] in *.
    apply andb_true_iff in Hs as [Hce _]. apply Ascii.eqb_eq in Hce. subst e.
    rewrite Hdc. reflexivity.
Qed.

(** ** vm_traces: the native lookahead *)

Lemma lookahead_continuations (conts post : list bytes) (t : vm_traces.Thread) (j : nat) :
  Forall (fun l => vm_traces.is_continuation l = true) conts ->
  (forall l, head post = Some l -> vm_traces.is_continuation l = false) ->
  vm_traces.lookahead t j (conts ++ post) =
  (fold_left vm_traces.add_stack_frame (map vm_traces.native_frame conts) t,
   (j + length conts)%nat).
Proof.
  intros Hc Hp. revert t j. induction Hc as [|l conts Hl _ IH]; intros t j.
  - cbn [app map fold_left length]. rewrite Nat.add_0_r.
    destruct post as [|l post]; [reflexivity|].
    cbn [vm_traces.lookahead]. rewrite (Hp l eq_refl). reflexivity.
  - cbn [app vm_traces.lookahead map fold_left length]. rewrite Hl, IH.
    f_equal. lia.
Qed.

Lemma fold_add_stack_frame (fs : list vm_traces.StackFrame) (t : vm_traces.Thread) :
  fold_left vm_traces.add_stack_frame fs t =
  {| vm_traces.name := vm_traces.name t; vm_traces.priority := vm_traces.priority t;
     vm_traces.tid := vm_traces.tid t; vm_traces.status := vm_traces.status t;
     vm_traces.is_daemon := vm_traces.is_daemon t;
     vm_traces.properties := vm_traces.properties t;
     vm_traces.stack_trace := vm_traces.stack_trace t ++ fs |}.
Proof.
  revert t. induction fs as [|f fs IH]; intros t.
  - cbn [fold_left]. rewrite app_nil_r. destruct t; reflexivity.
  - cbn [fold_left]. rewrite IH. unfold vm_traces.add_stack_frame.
    cbn. rewrite <- app_assoc. reflexivity.
Qed.

Lemma native_line_dispatch (line : bytes) :
  startswith (b"native:") (strip line) = true ->
  startswith (b"Subject:") line = false /\
  startswith (b"----- pid") line = false /\
  startswith (b"Cmd line:") line = false /\
  startswith (b"Build fingerprint:") line = false /\
  startswith (b"ABI:") line = false /\
  startswith [dq] line = false /\
  startswith (b"|") (strip line) = false /\
  startswith (b"at ") (strip line) = false.
Proof.
  intros H. unfold b in *. cbn [list_ascii_of_string] in *.
  repeat split;
    (eapply startswith_other_head; [exact H|reflexivity|reflexivity]).
Qed.


Definition anr_native_lines : list bytes :=
  [ b"  native: #00 pc 000000000004b0ac  /system/lib64/libc.so (syscall+28)";
    b"  native: #01 pc 00000000001d3a10  /system/lib64/libart.so (art::ConditionVariable::Wait+148)";
    b"  native: #02 pc 00000000004a1f3c  /system/lib64/libart.so (art::GoToRunnable+320)" ].


Example native_frame_example :
  vm_traces.native_frame
    (b"  native: #00 pc 000000000004b0ac  /system/lib64/libc.so (syscall+28)")
  = {| vm_traces.frame_type := b"native"; vm_traces.method := [];
       vm_traces.file_loc := []; vm_traces.line_number := 0;
       vm_traces.address := b"000000000004b0ac";
       vm_traces.library := b"/system/lib64/libc.so";
       vm_traces.details := b"syscall+28" |}.
Proof. vm_compute. reflexivity. Qed.

(** ** account: the user left open at the end of the section *)

(** A line opens a user when, stripped, it begins with [User UserInfo]. *)
Definition is_user_header (line : bytes) : bool :=
  startswith (b"User UserInfo") (strip line).

(** The number of users the parser has seen: those appended and the one
    still open. *)
Definition users_seen (st : account.state) : nat :=
  length (account.users (account.finish st)).

Lemma users_seen_eq (st : account.state) :
  users_seen st =
  (length (account.users (account.account_info st)) +
   match account.current_user st with Some _ => 1 | None => 0 end)%nat.
Proof.
  unfold users_seen, account.finish. destruct (account.current_user st); cbn.
  - rewrite length_app. reflexivity.
  - lia.
Qed.

Ltac obind_cases H :=
  repeat match type of H with
         | mbind _ ?x = Ok _ =>
             unfold mbind at 1, outcome_bind at 1 in H
         | obind ?x _ = Ok _ =>
             let E := fresh "E" in
             destruct x eqn:E; cbn [obind] in H; [|discriminate H]
         end.

Lemma account_section_line_seen (st : account.state) (u : account.UserAccount)
    (s : account.section) (line : bytes) :
  account.current_user st = Some u ->
  users_seen (account.section_line st u s line) = users_seen st.
Proof.
  intros Hu. rewrite !users_seen_eq, Hu.
  destruct s; cbn [account.section_line];
    repeat match goal with
           | |- context [if ?c then _ else _] =>
               match type of c with bool => destruct c end
           | |- context [match account.current_visibility_account st with _ => _ end] =>
               destruct (account.current_visibility_account st) as [[|? ?]|]
           end;
    cbn; rewrite ?Hu; reflexivity.
Qed.

Lemma account_header_first (line : bytes) :
  startswith (b"User UserInfo") line = true ->
  startswith (b"Service host process PID:") line = false /\
  startswith (b"Threads in use:") line = false /\
  startswith (b"Client PIDs:") line = false.
Proof.
  destruct line as [|c line]; [discriminate|].
  unfold b. cbn [list_ascii_of_string startswith].
  intros H. apply andb_true_iff in H as [H _]. apply Ascii.eqb_eq in H. subst c.
  repeat split; reflexivity.
Qed.

Lemma account_step_seen (st st' : account.state) (line : bytes) :
  account.step st line = Ok st' ->
  users_seen st' =
  (users_seen st + if startswith (b"User UserInfo") line then 1 else 0)%nat.
Proof.
  unfold account.step.
  destruct (startswith (b"User UserInfo") line) eqn:Hh.
  - destruct (account_header_first line Hh) as (-> & -> & ->).
    unfold account.start_user. intros H. obind_cases H.
    apply Ok_inj in H. subst st'. rewrite !users_seen_eq. cbn.
    destruct (account.current_user st); cbn; rewrite ?length_app; cbn; lia.
  - intros H. rewrite Nat.add_0_r.
    repeat match type of H with
           | (if ?c then _ else _) = Ok _ =>
               match type of c with bool => destruct c end
           | match account.current_user st with _ => _ end = Ok _ =>
               let E := fresh "Hu" in destruct (account.current_user st) eqn:E
           | match account.parsing_section st with _ => _ end = Ok _ =>
               destruct (account.parsing_section st)
           end;
      obind_cases H; apply Ok_inj in H; subst st';
      try (apply account_section_line_seen; assumption);
      rewrite !users_seen_eq; cbn; rewrite ?Hu; reflexivity.
Qed.

Lemma account_loop_seen (ls : list bytes) (st st' : account.state) :
  account.loop st ls = Ok st' ->
  users_seen st' = (users_seen st + length (List.filter is_user_header ls))%nat.
Proof.
  revert st. induction ls as [|l ls IH]; intros st H.
  - cbn in H. apply Ok_inj in H. subst st'. cbn. lia.
  - cbn [account.loop] in H. cbn [List.filter]. unfold is_user_header at 1.
    destruct (strip l) as [|c s] eqn:Hl.
    + cbn [startswith b list_ascii_of_string]. rewrite (IH st H). reflexivity.
    + obind_cases H. rewrite (IH _ H). rewrite (account_step_seen _ _ _ E).
      destruct (startswith (b"User UserInfo") (c :: s)); cbn [length]; lia.
Qed.

(** ** vm_traces: the thread left open at the end of the section *)

(** A line opens a thread when it begins with a double quote. *)
Definition is_thread_header (line : bytes) : bool := startswith [dq] line.

Definition threads_seen (st : vm_traces.state) : nat :=
  length (vm_traces.threads (vm_traces.finish st)).

Definition headers_upto (lines : list bytes) (n : nat) : nat :=
  length (List.filter is_thread_header (take n lines)).

Lemma threads_seen_eq (st : vm_traces.state) :
  threads_seen st =
  (length (vm_traces.threads (vm_traces.anr_trace st)) +
   match vm_traces.current_thread st with Some _ => 1 | None => 0 end)%nat.
Proof.
  unfold threads_seen, vm_traces.finish. destruct (vm_traces.current_thread st); cbn.
  - rewrite length_app. reflexivity.
  - lia.
Qed.

Lemma parse_header_line_threads (a a' : vm_traces.AnrTrace) (line : bytes) :
  vm_traces.parse_header_line a line = Ok a' ->
  vm_traces.threads a' = vm_traces.threads a.
Proof.
  unfold vm_traces.parse_header_line. intros H.
  repeat match type of H with
         | (if ?c then _ else _) = Ok _ =>
             match type of c with bool => destruct c end
         | match re_match ?r ?l with _ => _ end = Ok _ => destruct (re_match r l)
         | match map ?f ?l with _ => _ end = Ok _ =>
             destruct (map f l) as [|? [|? [|? ?]]]
         end;
    obind_cases H; try discriminate H; apply Ok_inj in H; subst a'; reflexivity.
Qed.

Lemma parse_process_line_threads (a a' : vm_traces.AnrTrace) (line : bytes) :
  vm_traces.parse_process_line a line = Ok a' ->
  vm_traces.threads a' = vm_traces.threads a.
Proof.
  unfold vm_traces.parse_process_line. intros H.
  repeat match type of H with
         | (if ?c then _ else _) = Ok _ =>
             match type of c with bool => destruct c end
         | match re_search ?r ?l with _ => _ end = Ok _ => destruct (re_search r l)
         end;
    obind_cases H; try discriminate H; apply Ok_inj in H; subst a'; reflexivity.
Qed.

Lemma continuation_not_header (line : bytes) :
  vm_traces.is_continuation line = true -> is_thread_header line = false.
Proof.
  unfold vm_traces.is_continuation, is_thread_header, b.
  cbn [list_ascii_of_string]. intros H.
  eapply startswith_other_head; [exact H|reflexivity|reflexivity].
Qed.

Lemma native_not_header (line : bytes) :
  startswith (b"native:") (strip line) = true -> is_thread_header line = false.
Proof.
  unfold is_thread_header, b. cbn [list_ascii_of_string]. intros H.
  eapply startswith_other_head; [exact H|reflexivity|reflexivity].
Qed.

(** The lookahead stops at an index [j'] with [j <= j' <= j + len ls]; the
    lines it has passed are continuation lines, and the thread only gains
    stack frames. *)
Lemma lookahead_spec (ls : list bytes) (t : vm_traces.Thread) (j : nat) :
  exists n : nat,
    (n <= length ls)%nat /\
    vm_traces.lookahead t j ls =
      (fold_left vm_traces.add_stack_frame
         (map vm_traces.native_frame (take n ls)) t, (j + n)%nat) /\
    Forall (fun l => vm_traces.is_continuation l = true) (take n ls).
Proof.
  revert t j. induction ls as [|l ls IH]; intros t j.
  - exists 0%nat. cbn. rewrite Nat.add_0_r. repeat split; [lia|constructor].
  - cbn [vm_traces.lookahead]. destruct (vm_traces.is_continuation l) eqn:Hl.
    + destruct (IH (vm_traces.add_stack_frame t (vm_traces.native_frame l)) (S j))
        as (n & Hn & -> & Hall).
      exists (S n). cbn [take length map fold_left]. repeat split.
      * lia.
      * f_equal. lia.
      * constructor; assumption.
    + exists 0%nat. cbn. rewrite Nat.add_0_r. repeat split; [lia|constructor].
Qed.

Lemma filter_no_header (ls : list bytes) :
  Forall (fun l => vm_traces.is_continuation l = true) ls ->
  List.filter is_thread_header ls = [].
Proof.
  induction 1 as [|l ls Hl _ IH]; [reflexivity|].
  cbn [List.filter]. rewrite (continuation_not_header l Hl). exact IH.
Qed.

Lemma headers_upto_S (lines : list bytes) (n : nat) :
  (n < length lines)%nat ->
  headers_upto lines (S n) =
  (headers_upto lines n + if is_thread_header (nth n lines []) then 1 else 0)%nat.
Proof.
  intros Hn. unfold headers_upto.
  destruct (lookup_lt_is_Some_2 lines n Hn) as [l Hl].
  rewrite (take_S_r lines n l Hl), List.filter_app, length_app.
  rewrite (nth_lookup_Some lines n [] l Hl). cbn [List.filter].
  destruct (is_thread_header l); reflexivity.
Qed.

Lemma headers_upto_skip (lines : list bytes) (i n : nat) :
  Forall (fun l => vm_traces.is_continuation l = true) (take n (drop i lines)) ->
  headers_upto lines (i + n) = headers_upto lines i.
Proof.
  intros H. unfold headers_upto.
  rewrite <- take_take_drop, List.filter_app, (filter_no_header _ H), app_nil_r.
  reflexivity.
Qed.

Lemma parse_thread_line_seen (lines : list bytes) (st s : vm_traces.state) :
  (vm_traces.i st < length lines)%nat ->
  vm_traces.parse_thread_line lines st (nth (vm_traces.i st) lines []) = Ok s ->
  (vm_traces.i st <= vm_traces.i s < length lines)%nat /\
  (threads_seen s + headers_upto lines (vm_traces.i st))%nat =
  (threads_seen st + headers_upto lines (S (vm_traces.i s)))%nat.
Proof.
  intros Hi. set (line := nth (vm_traces.i st) lines []).
  unfold vm_traces.parse_thread_line.
  destruct (startswith [dq] line) eqn:Hdq.
  - intros H. obind_cases H. apply Ok_inj in H. subst s.
    cbn [vm_traces.i]. split; [lia|].
    rewrite (headers_upto_S lines _ Hi). fold line. unfold is_thread_header.
    rewrite Hdq, !threads_seen_eq. cbn.
    destruct (vm_traces.current_thread st); cbn; rewrite ?length_app; cbn; lia.
  - assert (Hsame : forall s' : vm_traces.state,
              vm_traces.i s' = vm_traces.i st -> threads_seen s' = threads_seen st ->
              (vm_traces.i st <= vm_traces.i s' < length lines)%nat /\
              (threads_seen s' + headers_upto lines (vm_traces.i st))%nat =
              (threads_seen st + headers_upto lines (S (vm_traces.i s')))%nat).
    { intros s' Hi' Hs'. rewrite Hi', Hs'. split; [lia|].
      rewrite (headers_upto_S lines _ Hi). fold line. unfold is_thread_header.
      rewrite Hdq. lia. }
    destruct (vm_traces.current_thread st) as [t|] eqn:Ht;
      [|intros H; apply Ok_inj in H; subst s; apply Hsame; reflexivity].
    destruct (startswith (b"|") (strip line)).
    { intros H. obind_cases H. apply Ok_inj in H. subst s.
      apply Hsame; [reflexivity|]. rewrite !threads_seen_eq, Ht. reflexivity. }
    destruct (startswith (b"at ") (strip line)).
    { intros H. obind_cases H. apply Ok_inj in H. subst s.
      apply Hsame; [reflexivity|]. rewrite !threads_seen_eq, Ht. reflexivity. }
    destruct (startswith (b"native:") (strip line)) eqn:Hn.
    { destruct (lookahead_spec (drop (vm_traces.i st + 1) lines)
                  (vm_traces.add_stack_frame t (vm_traces.native_frame line))
                  (vm_traces.i st + 1)) as (n & Hlen & -> & Hall).
      intros H. apply Ok_inj in H. subst s. cbn [vm_traces.i].
      rewrite length_drop in Hlen. split; [lia|].
      replace (S (vm_traces.i st + 1 + n - 1)) with (vm_traces.i st + 1 + n)%nat by lia.
      rewrite (headers_upto_skip lines _ n Hall).
      replace (vm_traces.i st + 1)%nat with (S (vm_traces.i st)) by lia.
      rewrite (headers_upto_S lines _ Hi). fold line.
      rewrite (native_not_header line Hn), !threads_seen_eq, Ht. cbn. lia. }
    destruct (contains (b"held mutexes=") line).
    { intros H. obind_cases H. apply Ok_inj in H. subst s.
      apply Hsame; [reflexivity|]. rewrite !threads_seen_eq, Ht. reflexivity. }
    intros H. apply Ok_inj in H. subst s. apply Hsame; reflexivity.
Qed.

Lemma anr_step_seen (lines : list bytes) (st st' : vm_traces.state) :
  (vm_traces.i st < length lines)%nat ->
  vm_traces.step lines st = Ok st' ->
  (vm_traces.i st < vm_traces.i st' <= length lines)%nat /\
  (threads_seen st' + headers_upto lines (vm_traces.i st))%nat =
  (threads_seen st + headers_upto lines (vm_traces.i st'))%nat.
Proof.
  intros Hi H. unfold vm_traces.step in H. obind_cases H.
  apply Ok_inj in H. subst st'. cbn [vm_traces.i].
  pose proof (parse_header_line_threads _ _ _ E) as Ha.
  pose proof (parse_process_line_threads _ _ _ E0) as Ha0.
  apply (parse_thread_line_seen lines
           {| vm_traces.anr_trace := a0;
              vm_traces.current_thread := vm_traces.current_thread st;
              vm_traces.i := vm_traces.i st |}) in E1; [|exact Hi].
  cbn [vm_traces.i] in E1. destruct E1 as [Hle Heq]. split; [lia|].
  replace (vm_traces.i a1 + 1)%nat with (S (vm_traces.i a1)) by lia.
  rewrite !threads_seen_eq in *.
  cbn [vm_traces.anr_trace vm_traces.current_thread] in *.
  rewrite Ha0, Ha in Heq. exact Heq.
Qed.

(** The loop keeps count of the thread headers it has passed, and with
    [len(lines)] turns it reaches the end of the lines. *)
Lemma anr_loop_seen (lines : list bytes) (fuel : nat) (st st' : vm_traces.state) :
  (vm_traces.i st <= length lines)%nat ->
  (length lines <= fuel + vm_traces.i st)%nat ->
  vm_traces.loop fuel lines st = Ok st' ->
  (threads_seen st' + headers_upto lines (vm_traces.i st))%nat =
  (threads_seen st + headers_upto lines (length lines))%nat.
Proof.
  revert st. induction fuel as [|fuel IH]; intros st Hle Hfuel H.
  - cbn in H. apply Ok_inj in H. subst st'.
    replace (vm_traces.i st) with (length lines) by lia. reflexivity.
  - cbn [vm_traces.loop] in H.
    destruct (vm_traces.i st <? length lines)%nat eqn:Hlt.
    + apply Nat.ltb_lt in Hlt. obind_cases H.
      destruct (anr_step_seen lines st a Hlt E) as [Hi Heq].
      specialize (IH a ltac:(lia) ltac:(lia) H). lia.
    + apply Nat.ltb_ge in Hlt. apply Ok_inj in H. subst st'.
      replace (vm_traces.i st) with (length lines) by lia. reflexivity.
Qed.


Definition account_content : bytes :=
  b"Service host process PID: 1234" ++ nl ++
  b"User UserInfo{0:Owner:c13}:" ++ nl ++
  b"  Accounts: 1" ++ nl ++
  b"    Account {name=a@b.c, type=com.google}" ++ nl ++
  b"  Active Sessions: 0" ++ nl ++
  b"User UserInfo{10:Work:30}:" ++ nl ++
  b"  Accounts: 1" ++ nl ++
  b"    Account {name=w@b.c, type=com.google}".

Definition account_final_state : account.state :=
  Eval vm_compute in
    match account.loop account.init_state (split_on newline (strip account_content)) with
    | Ok st => st
    | Raise _ => account.init_state
    end.

Definition anr_content : bytes :=
  b"Subject: Input dispatching timed out" ++ nl ++
  b"----- pid 4242 at 2024-01-01 10:00:00 -----" ++ nl ++
  b"Cmd line: com.example.app" ++ nl ++
  [dq] ++ b"main" ++ [dq] ++ b" prio=5 tid=1 Native" ++ nl ++
  b"  | group=main sCount=1" ++ nl ++
  b"  native: #00 pc 000000000004b0ac  /system/lib64/libc.so (syscall+28)" ++ nl ++
  b"  native: #01 pc 00000000001d3a10  /system/lib64/libart.so (art::Wait+148)" ++ nl ++
  b"  at android.os.MessageQueue.nativePollOnce(Native method)" ++ nl ++
  [dq] ++ b"Signal Catcher" ++ [dq] ++ b" daemon prio=10 tid=2 Runnable" ++ nl ++
  b"  at java.lang.Thread.run(Thread.java:1012)".

Definition anr_final_state : vm_traces.state :=
  Eval vm_compute in
    match vm_traces.run (split_on newline anr_content) with
    | Ok st => st
    | Raise _ =>
        {| vm_traces.anr_trace := vm_traces.AnrTrace_init;
           vm_traces.current_thread := None; vm_traces.i := 0 |}
    end.

Example account_example :
  map (fun u => (account.user_id u, account.user_name u, account.accounts u))
      (account.users (account.finish account_final_state))
  = [ (0, b"Owner", [b"Account {name=a@b.c, type=com.google}"]);
      (10, b"Work", [b"Account {name=w@b.c, type=com.google}"]) ].
Proof. vm_compute. reflexivity. Qed.

Example anr_example :
  map (fun t => (vm_traces.name t, vm_traces.tid t, vm_traces.is_daemon t,
                 map vm_traces.frame_type (vm_traces.stack_trace t),
                 map vm_traces.line_number (vm_traces.stack_trace t)))
      (vm_traces.threads (vm_traces.finish anr_final_state))
  = [ (b"main", 1, false, [b"native"; b"native"; b"managed"], [0; 0; 0]);
      (b"Signal Catcher", 2, true, [b"managed"], [1012]) ] /\
  vm_traces.i anr_final_state = 10%nat.
Proof. vm_compute. split; reflexivity. Qed.


(** ** package: lines that abort the parse *)

(** A report whose package section holds one package and the line [l]. *)
Definition package_report (l : list bytes) : RawData :=
  RawData_init
    (join nl ([ b"DUMP OF SERVICE package:";
                b"Service host process PID: 1542";
                b"Packages:";
                b"  Package [com.example.app] (1a2b3c):";
                b"    appId=10123" ] ++ l ++
              [ b"--------- 0.5s was the duration of dumpsys package" ])).

Example package_report_ok :
  match snd (package.parse_package_info package.strptime_ascii
               (package_report [ b"    versionCode=42 minSdk=24 targetSdk=33";
                                 b"    timeStamp=2024-02-29 10:11:12";
                                 b"    installerPackageUid=10077";
                                 b"    declared permissions:";
                                 b"      com.example.app.PERM: prot=signature|privileged" ])) with
  | Ok (Some info) =>
      package.service_pid info = 1542 /\
      map (fun p => (package.name p, package.app_id p, package.version_code p,
                     package.time_stamp p, package.installer_package_uid p,
                     package.declared_permissions p))
          (package.packages info)
      = [ (b"com.example.app", b"10123", 42,
           Some (package.mkDatetime 2024 2 29 10 11 12), 10077,
           [ (b"com.example.app.PERM", [b"signature"; b"privileged"]) ]) ]
  | _ => False
  end.
Proof. vm_compute. split; reflexivity. Qed.

(** C2 (fails on the code). Each of the four reports below has a package
    section with one line that does not have the expected shape, and
    [parse_package_info] raises on each of them instead of skipping the
    line: [int] raises ValueError on ['abc'] and on ['x'], [strptime]
    raises ValueError on ['garbage'], and for the line of declared
    permissions without [prot=] the optional group is [None], so that
    [match.group(3).strip()] raises AttributeError. *)
Theorem parse_package_info_raises :
  snd (package.parse_package_info package.strptime_ascii
         (package_report [ b"    installerPackageUid=abc" ])) = Raise ValueError /\
  snd (package.parse_package_info package.strptime_ascii
         (package_report [ b"    timeStamp=garbage" ])) = Raise ValueError /\
  snd (package.parse_package_info package.strptime_ascii
         (RawData_init (join nl [ b"DUMP OF SERVICE package:";
                                  b"Client PIDs: x";
                                  b"--------- 0.5s" ]))) = Raise ValueError /\
  snd (package.parse_package_info package.strptime_ascii
         (package_report [ b"    declared permissions:";
                           b"      com.example.app.PERM: INSTALLED" ]))
    = Raise AttributeError.
Proof. repeat split; vm_compute; reflexivity. Qed.

(** The first and the last of these do not depend on what the library's
    [strptime] does. *)
Lemma parse_package_info_raises_any (strptime : bytes -> outcome package.datetime) :
  snd (package.parse_package_info strptime
         (package_report [ b"    installerPackageUid=abc" ])) = Raise ValueError /\
  snd (package.parse_package_info strptime
         (package_report [ b"    declared permissions:";
                           b"      com.example.app.PERM: INSTALLED" ]))
    = Raise AttributeError.
Proof. split; vm_compute; reflexivity. Qed.

(** ** package: the runtime permission line *)

Definition camera : bytes := b"android.permission.CAMERA".
Definition camera_line : bytes :=
  b"android.permission.CAMERA: granted=true, flags=[USER_SET]".

(** Evaluate a closed test and take the branch. *)
Ltac eval_test t :=
  let v := eval vm_compute in t in change t with v; cbv iota.

Lemma startswith_head_ne (c d : ascii) (p q line : bytes) :
  startswith (c :: p) line = true -> Ascii.eqb d c = false ->
  startswith (d :: q) line = false.
Proof.
  destruct line as [|e line]; [discriminate|]. cbn [startswith].
  intros H Hdc. apply andb_true_iff in H as [H _]. apply Ascii.eqb_eq in H.
  subst e. rewrite Hdc. reflexivity.
Qed.

Lemma loop_app (strptime : bytes -> outcome package.datetime)
    (l1 l2 : list bytes) (st : package.state) :
  package.loop strptime st (l1 ++ l2) =
  (st1 ← package.loop strptime st l1; package.loop strptime st1 l2).
Proof.
  revert st. induction l1 as [|l l1 IH]; intros st; [reflexivity|].
  cbn [app package.loop]. destruct (strip l) as [|c s].
  - apply IH.
  - unfold mbind, outcome_bind. destruct (package.step strptime st l) as [st1|e];
      cbn [obind]; [apply IH|reflexivity].
Qed.

(** The header line of the subsection: it opens the subsection and changes
    nothing else. *)
Lemma step_runtime_header (strptime : bytes -> outcome package.datetime)
    (st : package.state) (i : nat) (hdr : bytes) :
  package.current_section st = Some package.sec_packages ->
  package.current_package st = Some i ->
  startswith (b"runtime permissions:") (strip hdr) = true ->
  package.step strptime st hdr =
  Ok (package.set_subsection st (Some package.sub_runtime_permissions)).
Proof.
  intros Hsec Hpkg Hh. unfold package.step.
  assert (Hne : forall d q, Ascii.eqb d "r" = false ->
                  startswith (d :: q) (strip hdr) = false).
  { intros d q Hd. eapply startswith_head_ne; [exact Hh|exact Hd]. }
  unfold b in Hne |- *. cbn [list_ascii_of_string] in Hne |- *.
  rewrite !Hne by reflexivity.
  assert (Hre : re_match package.other_header_re (strip hdr) = None).
  { destruct (strip hdr) as [|c s]; [discriminate|].
    cbn [startswith] in Hh. apply andb_true_iff in Hh as [Hc _].
    apply Ascii.eqb_eq in Hc. subst c. reflexivity. }
  rewrite Hre, Hsec. cbn [package.section_line].
  unfold package.packages_line, b. cbn [list_ascii_of_string].
  rewrite (Hne "P"%char) by reflexivity.
  unfold b in Hh. cbn [list_ascii_of_string] in Hh. rewrite Hpkg, Hh. reflexivity.
Qed.

(** The record of a package after the permission line. *)
Definition with_camera (p : package.Package) : package.Package :=
  {| package.name := package.name p; package.app_id := package.app_id p;
     package.version_code := package.version_code p;
     package.version_name := package.version_name p;
     package.data_dir := package.data_dir p; package.flags := package.flags p;
     package.private_flags := package.private_flags p;
     package.users := package.users p;
     package.runtime_permissions :=
       assoc_set camera (true, [b"USER_SET"]) (package.runtime_permissions p);
     package.install_permissions := package.install_permissions p;
     package.declared_permissions := package.declared_permissions p;
     package.first_install_time := package.first_install_time p;
     package.originating_package_name := package.originating_package_name p;
     package.initiating_package_name := package.initiating_package_name p;
     package.time_stamp := package.time_stamp p;
     package.last_update_time := package.last_update_time p;
     package.installer_package_uid := package.installer_package_uid p |}.

(** The permission line, indented by six spaces or more, in the open
    subsection: the entry is written into the current package. *)
Lemma step_camera_line (strptime : bytes -> outcome package.datetime)
    (st : package.state) (i : nat) (pl : bytes) :
  package.current_section st = Some package.sec_packages ->
  package.current_package st = Some i ->
  package.current_package_subsection st = Some package.sub_runtime_permissions ->
  strip pl = camera_line ->
  startswith (b"      ") pl = true ->
  package.step strptime st pl = Ok (package.update_package st i with_camera).
Proof.
  intros Hsec Hpkg Hsub Hl Hind. unfold package.step. rewrite Hl.
  repeat match goal with
         | |- context [startswith ?p camera_line] => eval_test (startswith p camera_line)
         end.
  eval_test (re_match package.other_header_re camera_line).
  rewrite Hsec. cbn [package.section_line]. unfold package.packages_line.
  repeat match goal with
         | |- context [startswith ?p camera_line] => eval_test (startswith p camera_line)
         end.
  rewrite Hpkg, Hind. cbn [negb]. cbv iota. rewrite Hsub.
  unfold package.runtime_permission_line.
  eval_test (re_search package.runtime_re camera_line).
  reflexivity.
Qed.

(** The same line with less indentation closes the subsection and writes
    nothing. *)
Lemma step_camera_line_unindented (strptime : bytes -> outcome package.datetime)
    (st : package.state) (i : nat) (pl : bytes) :
  package.current_section st = Some package.sec_packages ->
  package.current_package st = Some i ->
  strip pl = camera_line ->
  startswith (b"      ") pl = false ->
  package.step strptime st pl = Ok (package.set_subsection st None).
Proof.
  intros Hsec Hpkg Hl Hind. unfold package.step. rewrite Hl.
  repeat match goal with
         | |- context [startswith ?p camera_line] => eval_test (startswith p camera_line)
         end.
  eval_test (re_match package.other_header_re camera_line).
  rewrite Hsec. cbn [package.section_line]. unfold package.packages_line.
  repeat match goal with
         | |- context [startswith ?p camera_line] => eval_test (startswith p camera_line)
         end.
  rewrite Hpkg, Hind. cbn [negb]. cbv iota.
  cbn [package.set_subsection package.current_package_subsection].
  unfold package.package_attribute.
  repeat match goal with
         | |- context [startswith ?p camera_line] => eval_test (startswith p camera_line)
         | |- context [contains ?p camera_line] => eval_test (contains p camera_line)
         end.
  reflexivity.
Qed.

(** ** Captured groups are parts of the subject *)

Definition substring (g s : bytes) : Prop := exists a c : bytes, s = a ++ g ++ c.

Lemma startswith_app (p s : bytes) : startswith p (p ++ s) = true.
Proof.
  induction p as [|c p IH]; [reflexivity|].
  cbn [app startswith]. rewrite Ascii.eqb_refl. exact IH.
Qed.

Lemma substring_contains (g s : bytes) : substring g s -> contains g s = true.
Proof.
  intros (a & c & ->). induction a as [|x a IH].
  - cbn [app]. destruct (g ++ c) eqn:E; cbn [contains]; rewrite <- ?E;
      rewrite startswith_app; reflexivity.
  - cbn [app contains]. rewrite IH. apply orb_true_r.
Qed.

Lemma substring_trans (x y z : bytes) : substring x y -> substring y z -> substring x z.
Proof.
  intros (a & c & ->) (a' & c' & ->). exists (a' ++ a), (c ++ c').
  rewrite <- !app_assoc. reflexivity.
Qed.

Lemma lstrip_by_suffix (p : ascii -> bool) (s : bytes) :
  exists a, s = a ++ lstrip_by p s.
Proof.
  induction s as [|c s [a IH]]; [exists []; reflexivity|].
  cbn [lstrip_by]. destruct (p c).
  - exists (c :: a). cbn [app]. congruence.
  - exists []. reflexivity.
Qed.

Lemma strip_by_substring (p : ascii -> bool) (s : bytes) : substring (strip_by p s) s.
Proof.
  unfold strip_by, rstrip_by.
  destruct (lstrip_by_suffix p s) as [a Ha].
  destruct (lstrip_by_suffix p (rev (lstrip_by p s))) as [c Hc].
  exists a, (rev c). rewrite Ha at 1. f_equal.
  rewrite <- (rev_involutive (lstrip_by p s)) at 1. rewrite Hc at 1.
  apply rev_app_distr.
Qed.

Section Captures.

Variable subject : bytes.

(** A cursor inside the subject: what it still has to read is a suffix. *)
Definition cursor_in (cu : cursor) : Prop := exists a, subject = a ++ rest cu.

Definition captures_in (cs : captures) : Prop :=
  forall n g, capture n cs = Some g -> substring g subject.

Lemma cursor_in_take (cu : cursor) (n : nat) :
  cursor_in cu -> substring (take n (rest cu)) subject.
Proof.
  intros [a Ha]. exists a, (drop n (rest cu)). rewrite take_drop. exact Ha.
Qed.

Lemma cursor_in_advance (cu : cursor) (c : ascii) (s : bytes) :
  cursor_in cu -> rest cu = c :: s -> cursor_in (advance c s cu).
Proof.
  intros [a Ha] Hr. exists (a ++ [c]). cbn [rest advance].
  rewrite <- app_assoc. cbn [app]. congruence.
Qed.

Lemma advance_by_in (l : bytes) (cu cu' : cursor) :
  cursor_in cu -> advance_by l cu = Some cu' -> cursor_in cu'.
Proof.
  revert cu. induction l as [|c l IH]; intros cu Hcu H.
  - cbn in H. congruence.
  - cbn [advance_by] in H. destruct (rest cu) as [|d s] eqn:Hr; [discriminate|].
    destruct (Ascii.eqb c d); [|discriminate].
    eapply IH; [|exact H]. apply cursor_in_advance; assumption.
Qed.

Lemma captures_in_cons (cs : captures) (n : nat) (g : bytes) :
  captures_in cs -> substring g subject -> captures_in ((n, g) :: cs).
Proof.
  intros Hcs Hg n' g'. cbn [capture]. destruct (Nat.eqb n n').
  - intros [= <-]. exact Hg.
  - apply Hcs.
Qed.

Lemma rep_greedy_in {R : Type} (p : ascii -> bool) (s : bytes) :
  forall (min : nat) (pv : option ascii) (i : nat) (k : cursor -> option R) (res : R),
    cursor_in {| prev := pv; idx := i; rest := s |} ->
    rep_greedy p min pv i s k = Some res ->
    exists cu', cursor_in cu' /\ k cu' = Some res.
Proof.
  induction s as [|c s IH]; intros min pv i k res Hin H; cbn [rep_greedy] in H.
  - destruct min; [|discriminate]. eauto.
  - assert (Hhere : match min with
                    | O => k {| prev := pv; idx := i; rest := c :: s |}
                    | S _ => None
                    end = Some res ->
                    exists cu', cursor_in cu' /\ k cu' = Some res).
    { destruct min; [|discriminate]. eauto. }
    destruct (p c); [|auto].
    destruct (rep_greedy p (Nat.pred min) (Some c) (S i) s k) as [r|] eqn:E; [|auto].
    injection H as ->. eapply IH; [|exact E].
    apply (cursor_in_advance {| prev := pv; idx := i; rest := c :: s |} c s Hin eq_refl).
Qed.

Lemma rep_lazy_in {R : Type} (p : ascii -> bool) (s : bytes) :
  forall (min : nat) (pv : option ascii) (i : nat) (k : cursor -> option R) (res : R),
    cursor_in {| prev := pv; idx := i; rest := s |} ->
    rep_lazy p min pv i s k = Some res ->
    exists cu', cursor_in cu' /\ k cu' = Some res.
Proof.
  induction s as [|c s IH]; intros min pv i k res Hin H; cbn [rep_lazy] in H.
  - destruct min; [|discriminate].
    destruct (k {| prev := pv; idx := i; rest := [] |}) eqn:E; [|discriminate].
    injection H as ->. eauto.
  - assert (Hmore : (if p c then rep_lazy p (Nat.pred min) (Some c) (S i) s k else None)
                    = Some res ->
                    exists cu', cursor_in cu' /\ k cu' = Some res).
    { destruct (p c); [|discriminate]. intros E. eapply IH; [|exact E].
      apply (cursor_in_advance {| prev := pv; idx := i; rest := c :: s |} c s Hin eq_refl). }
    destruct min; [|auto].
    destruct (k {| prev := pv; idx := i; rest := c :: s |}) eqn:E; [|auto].
    injection H as ->. eauto.
Qed.

(** A successful match went through its continuation, at a cursor inside
    the subject and with groups that are parts of the subject. *)
Lemma rmatch_in {R : Type} (r : regex) :
  forall (cu : cursor) (cs : captures) (k : cursor -> captures -> option R) (res : R),
    cursor_in cu -> captures_in cs ->
    rmatch r cu cs k = Some res ->
    exists cu' cs', cursor_in cu' /\ captures_in cs' /\ k cu' cs' = Some res.
Proof.
  revert R.
  induction r as [|l|p|g n p|r1 IH1 r2 IH2|r1 IH1 r2 IH2|n r1 IH1| | | | | |r1 IH1];
    intros R cu cs k res Hcu Hcs H; cbn [rmatch] in H.
  - eauto.
  - destruct (advance_by l cu) as [cu'|] eqn:E; [|discriminate].
    exists cu', cs. eauto using advance_by_in.
  - destruct (rest cu) as [|c s] eqn:Hr; [discriminate|].
    destruct (p c); [|discriminate].
    exists (advance c s cu), cs. eauto using cursor_in_advance.
  - assert (Hin : cursor_in {| prev := prev cu; idx := idx cu; rest := rest cu |}).
    { exact Hcu. }
    destruct g.
    + destruct (rep_greedy_in p _ _ _ _ _ _ Hin H) as (cu' & ? & ?). eauto.
    + destruct (rep_lazy_in p _ _ _ _ _ _ Hin H) as (cu' & ? & ?). eauto.
  - destruct (IH1 _ _ _ _ _ Hcu Hcs H) as (cu1 & cs1 & Hcu1 & Hcs1 & H1).
    exact (IH2 _ _ _ _ _ Hcu1 Hcs1 H1).
  - destruct (rmatch r1 cu cs k) as [x|] eqn:E.
    + injection H as ->. exact (IH1 _ _ _ _ _ Hcu Hcs E).
    + exact (IH2 _ _ _ _ _ Hcu Hcs H).
  - destruct (IH1 _ _ _ _ _ Hcu Hcs H) as (cu1 & cs1 & Hcu1 & Hcs1 & H1).
    exists cu1, ((n, take (idx cu1 - idx cu) (rest cu)) :: cs1).
    split; [exact Hcu1|]. split; [|exact H1].
    apply captures_in_cons; [exact Hcs1|]. apply cursor_in_take. exact Hcu.
  - destruct (bool_decide (idx cu = 0%nat)); [eauto|discriminate].
  - destruct (at_bol_m cu); [eauto|discriminate].
  - destruct (at_eol cu); [eauto|discriminate].
  - destruct (at_eol_m cu); [eauto|discriminate].
  - destruct (at_end cu); [eauto|discriminate].
  - destruct (rmatch r1 cu cs (fun _ cs' => Some cs')) as [cs1|] eqn:E; [|discriminate].
    destruct (IH1 _ _ _ _ _ Hcu Hcs E) as (cu1 & cs1' & _ & Hcs1 & [= ->]).
    eauto.
Qed.

Lemma match_at_in (r : regex) (cu : cursor) (m : rmatch_result) :
  cursor_in cu -> match_at r cu = Some m -> captures_in (m_caps m).
Proof.
  intros Hcu H. unfold match_at in H.
  apply rmatch_in in H; [|exact Hcu|intros n g; discriminate].
  destruct H as (cu' & cs' & _ & Hcs & [= <-]). cbn [m_caps].
  apply captures_in_cons; [exact Hcs|]. apply cursor_in_take. exact Hcu.
Qed.

Lemma search_from_in (r : regex) (s : bytes) :
  forall (pv : option ascii) (i : nat) (m : rmatch_result),
    cursor_in {| prev := pv; idx := i; rest := s |} ->
    search_from r pv i s = Some m -> captures_in (m_caps m).
Proof.
  induction s as [|c s IH]; intros pv i m Hin H; cbn [search_from] in H.
  - destruct (match_at r {| prev := pv; idx := i; rest := [] |}) eqn:E; [|discriminate].
    injection H as ->. eapply match_at_in; eassumption.
  - destruct (match_at r {| prev := pv; idx := i; rest := c :: s |}) eqn:E.
    + injection H as ->. eapply match_at_in; eassumption.
    + eapply IH; [|exact H].
      apply (cursor_in_advance {| prev := pv; idx := i; rest := c :: s |} c s Hin eq_refl).
Qed.

End Captures.

(** Every group of a match found by [re.search] is a part of the subject. *)
Lemma search_group_substring (r : regex) (s : bytes) (m : rmatch_result)
    (n : nat) (g : bytes) :
  re_search r s = Some m -> group m n = Some g -> substring g s.
Proof.
  intros H Hg. unfold re_search in H.
  apply (search_from_in s) in H; [|exists []; reflexivity].
  exact (H n g Hg).
Qed.

Lemma startswith_prefix (p s : bytes) :
  startswith p s = true -> exists c, s = p ++ c.
Proof.
  revert s. induction p as [|x p IH]; intros s H; [exists s; reflexivity|].
  destruct s as [|y s]; [discriminate|]. cbn [startswith] in H.
  apply andb_true_iff in H as [Hxy H]. apply Ascii.eqb_eq in Hxy. subst y.
  destruct (IH s H) as [c ->]. exists c. reflexivity.
Qed.

Lemma contains_substring (g s : bytes) : contains g s = true -> substring g s.
Proof.
  induction s as [|x s IH]; cbn [contains]; intros H.
  - rewrite orb_false_r in H. destruct (startswith_prefix g [] H) as [c Hc].
    exists [], c. exact Hc.
  - apply orb_true_iff in H as [H|H].
    + destruct (startswith_prefix g _ H) as [c Hc]. exists [], c. exact Hc.
    + destruct (IH H) as (a & c & ->). exists (x :: a), c. reflexivity.
Qed.

Lemma contains_false_part (k g s : bytes) :
  contains k s = false -> substring g s -> contains k g = false.
Proof.
  intros Hk Hg. destruct (contains k g) eqn:E; [|reflexivity].
  apply contains_substring in E.
  rewrite (substring_contains k s (substring_trans _ _ _ E Hg)) in Hk. discriminate.
Qed.

(** ** Insertion-ordered dicts *)

Lemma assoc_get_set_eq {K V : Type} `{EqDecision K} (k : K) (v : V) (d : list (K * V)) :
  assoc_get k (assoc_set k v d) = Some v.
Proof.
  induction d as [|[k' v'] d IH]; cbn [assoc_set assoc_get].
  - rewrite decide_True by reflexivity. reflexivity.
  - destruct (decide (k' = k)) as [->|Hne]; cbn [assoc_get].
    + rewrite decide_True by reflexivity. reflexivity.
    + rewrite decide_False by exact Hne. exact IH.
Qed.

Lemma assoc_get_set_ne {K V : Type} `{EqDecision K} (k k0 : K) (v : V) (d : list (K * V)) :
  k0 <> k -> assoc_get k (assoc_set k0 v d) = assoc_get k d.
Proof.
  intros Hne. induction d as [|[k' v'] d IH]; cbn [assoc_set assoc_get].
  - rewrite decide_False by exact Hne. reflexivity.
  - destruct (decide (k' = k0)) as [->|Hne']; cbn [assoc_get].
    + rewrite !decide_False by exact Hne. reflexivity.
    + destruct (decide (k' = k)); [reflexivity|exact IH].
Qed.

(** ** package: what a line leaves untouched *)

Section Keeps.

Variable strptime : bytes -> outcome package.datetime.
Variable key : bytes.

Definition pkgs (st : package.state) : list package.Package :=
  package.packages (package.package_info st).

(** The loop variable [current_package] refers to a package of the list. *)
Definition wf (st : package.state) : Prop :=
  forall i, package.current_package st = Some i -> (i < length (pkgs st))%nat.

(** The entry of permission [key] of the package at index [i]. *)
Definition entry (st : package.state) (i : nat) : option (bool * list bytes) :=
  match pkgs st !! i with
  | Some p => assoc_get key (package.runtime_permissions p)
  | None => None
  end.

Definition keeps (st st' : package.state) : Prop :=
  wf st' /\
  (length (pkgs st) <= length (pkgs st'))%nat /\
  forall i, (i < length (pkgs st))%nat -> entry st' i = entry st i.

Lemma keeps_same (st st' : package.state) :
  wf st -> pkgs st' = pkgs st ->
  package.current_package st' = package.current_package st ->
  keeps st st'.
Proof.
  intros Hwf Hp Hc. split; [|split].
  - intros i Hi. rewrite Hp. apply Hwf. congruence.
  - rewrite Hp. lia.
  - intros i _. unfold entry. rewrite Hp. reflexivity.
Qed.

Lemma keeps_update (st st2 : package.state) (j : nat)
    (f : package.Package -> package.Package) :
  wf st -> pkgs st2 = pkgs st ->
  package.current_package st2 = package.current_package st ->
  (forall p, assoc_get key (package.runtime_permissions (f p)) =
             assoc_get key (package.runtime_permissions p)) ->
  keeps st (package.update_package st2 j f).
Proof.
  intros Hwf Hp Hc Hf. split; [|split].
  - intros i Hi. unfold pkgs, package.update_package. cbn.
    rewrite length_alter. fold (pkgs st2). rewrite Hp. apply Hwf.
    cbn in Hi. congruence.
  - unfold pkgs, package.update_package in *. cbn. rewrite length_alter, Hp. lia.
  - intros i _. unfold entry, pkgs, package.update_package in *. cbn. rewrite Hp.
    destruct (decide (j = i)) as [->|Hne].
    + rewrite list_lookup_alter_eq.
      destruct (package.packages (package.package_info st) !! i); cbn;
        [apply Hf|reflexivity].
    + rewrite list_lookup_alter_ne by exact Hne. reflexivity.
Qed.

Ltac case_tests H :=
  repeat match type of H with
         | (if ?c then _ else _) = Ok _ =>
             match type of c with bool => destruct c end
         | match re_search ?r ?l with _ => _ end = Ok _ =>
             let E := fresh "Em" in destruct (re_search r l) eqn:E
         | match re_match ?r ?l with _ => _ end = Ok _ =>
             destruct (re_match r l)
         end.

Lemma package_attribute_keeps (st st2 st' : package.state) (i : nat) (line : bytes) :
  wf st -> pkgs st2 = pkgs st ->
  package.current_package st2 = package.current_package st ->
  package.package_attribute strptime st2 i line = Ok st' -> keeps st st'.
Proof.
  intros Hwf Hp Hc H. unfold package.package_attribute in H.
  case_tests H; obind_cases H; apply Ok_inj in H; subst st';
    first [ apply keeps_update; [assumption|assumption|assumption|intros p; reflexivity]
          | apply keeps_same; assumption ].
Qed.

Lemma runtime_permission_line_keeps (st st2 : package.state) (i : nat) (line : bytes) :
  wf st -> pkgs st2 = pkgs st ->
  package.current_package st2 = package.current_package st ->
  contains key line = false ->
  keeps st (package.runtime_permission_line st2 i line).
Proof.
  intros Hwf Hp Hc Hk. unfold package.runtime_permission_line.
  destruct (re_search package.runtime_re line) as [m|] eqn:Em;
    [|apply keeps_same; assumption].
  apply keeps_update; [assumption|assumption|assumption|].
  intros p. cbn [package.runtime_permissions].
  apply assoc_get_set_ne. intros Heq.
  assert (Hin : contains key (group_or_empty m 1) = false).
  { unfold group_or_empty. destruct (group m 1) as [g|] eqn:Eg; cbn [default].
    - eapply contains_false_part; [exact Hk|].
      eapply search_group_substring; eassumption.
    - eapply contains_false_part; [exact Hk|]. exists [], line. reflexivity. }
  rewrite (substring_contains key (group_or_empty m 1)) in Hin; [discriminate|].
  rewrite <- Heq. apply strip_by_substring.
Qed.

Lemma packages_line_keeps (st st' : package.state) (raw_line line : bytes) :
  wf st -> contains key line = false ->
  package.packages_line strptime st raw_line line = Ok st' -> keeps st st'.
Proof.
  intros Hwf Hk H. unfold package.packages_line in H.
  destruct (startswith (b"Package [") line).
  { apply Ok_inj in H. subst st'. split; [|split].
    - intros i [= <-]. unfold pkgs. cbn. rewrite length_app. cbn. lia.
    - unfold pkgs. cbn. rewrite length_app. lia.
    - intros i Hi. unfold entry, pkgs. cbn. fold (pkgs st).
      rewrite lookup_app_l by exact Hi. reflexivity. }
  destruct (package.current_package st) as [i|] eqn:Hi;
    [|apply Ok_inj in H; subst st'; apply keeps_same; auto].
  destruct (startswith (b"runtime permissions:") line);
    [apply Ok_inj in H; subst st'; apply keeps_same; auto|].
  destruct (startswith (b"install permissions:") line);
    [apply Ok_inj in H; subst st'; apply keeps_same; auto|].
  destruct (startswith (b"declared permissions:") line);
    [apply Ok_inj in H; subst st'; apply keeps_same; auto|].
  set (st2 := if negb (startswith (b"      ") raw_line)
              then package.set_subsection st None else st) in H.
  assert (Hp : pkgs st2 = pkgs st).
  { unfold st2. destruct (negb _); reflexivity. }
  assert (Hc : package.current_package st2 = package.current_package st).
  { unfold st2. destruct (negb _); reflexivity. }
  clearbody st2.
  destruct (package.current_package_subsection st2) as [[| |]|].
  - apply Ok_inj in H. subst st'. apply runtime_permission_line_keeps; assumption.
  - apply Ok_inj in H. subst st'. unfold package.install_permission_line.
    destruct (re_search package.install_re line);
      [apply keeps_update; [assumption|assumption|assumption|intros p; reflexivity]
      |apply keeps_same; assumption].
  - unfold package.declared_permission_line in H.
    destruct (re_search package.declared_re line) as [m|];
      [destruct (group m 3); [|discriminate H]|];
      apply Ok_inj in H; subst st';
      [apply keeps_update; [assumption|assumption|assumption|intros p; reflexivity]
      |apply keeps_same; assumption].
  - eapply package_attribute_keeps; eassumption.
Qed.

Lemma section_line_keeps (st st' : package.state) (s : package.section)
    (raw_line line : bytes) :
  wf st -> contains key line = false ->
  package.section_line strptime st s raw_line line = Ok st' -> keeps st st'.
Proof.
  intros Hwf Hk H. destruct s; cbn [package.section_line] in H;
    try (eapply packages_line_keeps; eassumption);
    repeat match type of H with
           | (if ?c then _ else _) = Ok _ =>
               match type of c with bool => destruct c end
           | match ?l with _ => _ end = Ok _ =>
               destruct l as [|? [|? [|? ?]]]
           end;
    try discriminate H; apply Ok_inj in H; subst st'; apply keeps_same; auto.
Qed.

Lemma step_keeps (st st' : package.state) (raw_line : bytes) :
  wf st -> contains key raw_line = false ->
  package.step strptime st raw_line = Ok st' -> keeps st st'.
Proof.
  intros Hwf Hk H. unfold package.step in H.
  assert (Hk' : contains key (strip raw_line) = false).
  { eapply contains_false_part; [exact Hk|apply strip_by_substring]. }
  case_tests H; obind_cases H;
    try (apply Ok_inj in H; subst st'; apply keeps_same; auto; fail).
  destruct (package.current_section st) as [s|];
    [eapply section_line_keeps; eassumption|].
  apply Ok_inj in H; subst st'; apply keeps_same; auto.
Qed.

Lemma loop_keeps (ls : list bytes) :
  forall st st' : package.state,
    wf st -> Forall (fun l => contains key l = false) ls ->
    package.loop strptime st ls = Ok st' -> keeps st st'.
Proof.
  induction ls as [|l ls IH]; intros st st' Hwf Hall H.
  - cbn in H. apply Ok_inj in H. subst st'. apply keeps_same; auto.
  - apply Forall_cons in Hall as [Hl Hall]. cbn [package.loop] in H.
    destruct (strip l) as [|c s]; [exact (IH st st' Hwf Hall H)|].
    obind_cases H.
    destruct (step_keeps st a l Hwf Hl E) as (Hwf1 & Hlen1 & He1).
    destruct (IH a st' Hwf1 Hall H) as (Hwf2 & Hlen2 & He2).
    split; [exact Hwf2|]. split; [lia|].
    intros i Hi. rewrite He2 by lia. apply He1. exact Hi.
Qed.

End Keeps.

Lemma contains_length (k l : bytes) :
  contains k l = true -> (length k <= length l)%nat.
Proof.
  intros H. destruct (contains_substring k l H) as (a & c & ->).
  rewrite !length_app. lia.
Qed.

(** The loop keeps [current_package] inside the list of packages.  (No
    line contains a text longer than all of them, so [loop_keeps] applies
    with such a text as the key.) *)
Lemma loop_wf (strptime : bytes -> outcome package.datetime) (ls : list bytes)
    (st st' : package.state) :
  wf st -> package.loop strptime st ls = Ok st' -> wf st'.
Proof.
  intros Hwf H.
  set (key := repeat "x"%char (S (list_max (map (@length ascii) ls)))).
  assert (Hall : Forall (fun l => contains key l = false) ls).
  { apply Forall_forall. intros l Hl.
    destruct (contains key l) eqn:E; [|reflexivity].
    apply contains_length in E. unfold key in E. rewrite repeat_length in E.
    assert (Hmax : (length l <= list_max (map (@length ascii) ls))%nat).
    { pose proof (proj1 (list_max_le (map (@length ascii) ls) _) (Nat.le_refl _)) as Hf.
      rewrite List.Forall_forall in Hf. apply Hf. apply in_map.
      apply list_elem_of_In. exact Hl. }
    lia. }
  exact (proj1 (loop_keeps strptime key ls st st' Hwf Hall H)).
Qed.

Lemma wf_init : wf package.init_state.
Proof. intros i. discriminate. Qed.

(** The lines of the section survive [join] and [split] unchanged. *)
Lemma split_on_join (ls : list bytes) :
  ls <> [] -> Forall (fun l => contains nl l = false) ls ->
  split_on newline (join nl ls) = ls.
Proof.
  assert (Hline : forall (l : bytes) (tl : list bytes),
            contains nl l = false ->
            split_on newline (l ++ nl ++ join nl tl) = l :: split_on newline (join nl tl)).
  { intros l tl. induction l as [|c l IH]; intros Hl.
    - cbn. reflexivity.
    - apply contains_cons_false in Hl as [Hc Hl]. cbn [app split_on].
      unfold nl in Hc. cbn [startswith] in Hc.
      rewrite andb_true_r, Ascii.eqb_sym in Hc. rewrite Hc.
      rewrite (IH Hl). reflexivity. }
  assert (Hone : forall l : bytes, contains nl l = false -> split_on newline l = [l]).
  { induction l as [|c l IH]; intros Hl; [reflexivity|].
    apply contains_cons_false in Hl as [Hc Hl]. cbn [split_on].
    unfold nl in Hc. cbn [startswith] in Hc.
    rewrite andb_true_r, Ascii.eqb_sym in Hc. rewrite Hc, (IH Hl). reflexivity. }
  induction ls as [|l ls IH]; intros Hne Hall; [congruence|].
  apply Forall_cons in Hall as [Hl Hall].
  destruct ls as [|l2 ls].
  - cbn [join]. apply Hone. exact Hl.
  - change (join nl (l :: l2 :: ls)) with (l ++ nl ++ join nl (l2 :: ls)).
    rewrite (Hline l (l2 :: ls) Hl). f_equal. apply IH; [discriminate|exact Hall].
Qed.

Lemma contains_nl_cons (c : ascii) (f : bytes) :
  Ascii.eqb c newline = false -> contains nl f = false -> contains nl (c :: f) = false.
Proof.
  intros Hc Hf. cbn [contains]. unfold nl at 1. cbn [startswith].
  rewrite Ascii.eqb_sym, Hc. exact Hf.
Qed.

Lemma split_on_no_newline (s : bytes) :
  Forall (fun l => contains nl l = false) (split_on newline s).
Proof.
  induction s as [|c s IH]; cbn [split_on].
  - repeat constructor.
  - destruct (Ascii.eqb c newline) eqn:Hc.
    + constructor; [reflexivity|exact IH].
    + destruct (split_on newline s) as [|f fs].
      * constructor; [|constructor]. apply contains_nl_cons; [exact Hc|reflexivity].
      * apply Forall_cons in IH as [Hf Hfs]. constructor; [|exact Hfs].
        apply contains_nl_cons; assumption.
Qed.

Lemma collect_sublist (ls : list bytes) (flag : bool) (P : bytes -> Prop) :
  Forall P ls -> Forall P (package.collect flag ls).
Proof.
  intros H. revert flag. induction H as [|l ls Hl _ IH]; intros flag; cbn [package.collect].
  - constructor.
  - destruct (startswith (b"DUMP OF SERVICE package:") l); [apply IH|].
    destruct flag; [|apply IH].
    destruct (startswith (b"DUMP OF SERVICE") l || startswith (b"------") l);
      [constructor|constructor; [exact Hl|apply IH]].
Qed.

Lemma loop_cons_nonblank (strptime : bytes -> outcome package.datetime)
    (st : package.state) (l : bytes) (ls : list bytes) :
  strip l <> [] ->
  package.loop strptime st (l :: ls) =
  (st1 ← package.step strptime st l; package.loop strptime st1 ls).
Proof.
  intros Hl. cbn [package.loop]. destruct (strip l); [congruence|reflexivity].
Qed.


(** A package section with the permission line behind [indent]. *)
Definition camera_section_head : list bytes :=
  [ b"Packages:"; b"  Package [com.example.app] (1a2b3c):" ].

Definition camera_report (indent : bytes) : bytes :=
  join nl ([ b"DUMP OF SERVICE package:" ] ++ camera_section_head ++
           [ b"    runtime permissions:"; indent ++ camera_line ]).


Definition camera_state : package.state :=
  Eval vm_compute in
    match package.loop package.strptime_ascii package.init_state camera_section_head with
    | Ok st => st
    | Raise _ => package.init_state
    end.

Definition camera_result : option package.PackageInfo :=
  Eval vm_compute in
    match snd (package.parse_package_info package.strptime_ascii
                 (RawData_init (camera_report (b"      ")))) with
    | Ok res => res
    | Raise _ => None
    end.


(** ** Absent sections *)

Lemma collect_absent (ls : list bytes) :
  Forall (fun l => startswith (b"DUMP OF SERVICE package:") l = false) ls ->
  package.collect false ls = [].
Proof.
  induction 1 as [|l ls Hl _ IH]; [reflexivity|].
  cbn [package.collect]. rewrite Hl. exact IH.
Qed.

Definition process_header (l : bytes) : bool :=
  startswith (b"----- CPU INFO") l || startswith (b"------ PROCESSES AND THREADS") l.

Lemma gather_absent (ls : list bytes) :
  Forall (fun l => process_header l = false) ls ->
  fold_left process.gather_line ls
    {| process.current_section := None; process.cpu_lines := None;
       process.ps_lines := None |}
  = {| process.current_section := None; process.cpu_lines := None;
       process.ps_lines := None |}.
Proof.
  induction 1 as [|l ls Hl _ IH]; [reflexivity|].
  cbn [fold_left]. unfold process.gather_line at 2.
  unfold process_header in Hl. apply orb_false_iff in Hl as [-> ->].
  cbn [process.current_section process.cpu_lines process.ps_lines].
  destruct (startswith (b"------ ") l && contains (b"was the duration of") l); exact IH.
Qed.


Definition other_report : bytes :=
  b"========================================================" ++ nl ++
  b"== dumpstate: 2024-01-01 10:00:00" ++ nl ++
  b"========================================================" ++ nl ++
  b"------ UPTIME (uptime) ------" ++ nl ++
  b" 10:00:00 up 1 day,  2:03,  0 users" ++ nl ++
  b"------ 0.01s was the duration of 'UPTIME' ------".


(** ** usb: the fields of a connection whose key is missing *)


Lemma obind_Ok {A B : Type} (x : outcome A) (f : A -> outcome B) (y : B) :
  obind x f = Ok y -> exists a, x = Ok a /\ f a = Ok y.
Proof. destruct x as [a|e]; [eauto|discriminate]. Qed.


Definition pixel_props : list (bytes * pyval) := [(b"product", VStr (b"Pixel"))].

Definition pixel_connection : usb.UsbConnection (datetime := Z) :=
  {| usb.device_address := VNone; usb.mode := -1; usb.timestamp := None;
     usb.manufacturer := VNone; usb.product := VStr (b"Pixel") |}.


(** ** usb: the scan for the closing brace *)

(** The scan as the specification describes it: from the first opening
    brace that begins a line (after optional whitespace), with a depth
    counter, up to the brace that brings the depth back to zero.  The brace
    is the last character of the match of [^\s*{]. *)
Definition matching_brace_content (block : bytes) : option bytes :=
  match re_search usb.start_re block with
  | Some start_match =>
      let brace_index := (m_end start_match - 1)%nat in
      match usb.find_end brace_index 0 0 (drop brace_index block) with
      | Some end_index => Some (usb.slice (brace_index + 1) end_index block)
      | None => None
      end
  | None => None
  end.

(** When whitespace precedes the brace, the scan of the code starts on that
    whitespace, where the depth is still zero, and stops at once: the
    extracted text is empty. *)
Lemma json_like_content_after_whitespace (block : bytes) (m : rmatch_result)
    (c : ascii) (s : bytes) :
  re_search usb.start_re block = Some m ->
  drop (m_start m) block = c :: s ->
  is_uspace c = true ->
  usb.json_like_content block = Some [].
Proof.
  intros Hm Hd Hc. unfold usb.json_like_content. rewrite Hm, Hd.
  cbn [usb.find_end].
  assert (Hb : Ascii.eqb c "{" = false /\ Ascii.eqb c "}" = false).
  { split; destruct (Ascii.eqb c _) eqn:E; try reflexivity;
      apply Ascii.eqb_eq in E; subst c; discriminate. }
  destruct Hb as [-> ->]. cbn [Z.eqb]. unfold usb.slice.
  replace (m_start m + 0 - (m_start m + 1))%nat with 0%nat by lia. reflexivity.
Qed.

(** When the brace is the first character of its line, the scan of the
    code is the scan of the specification. *)
Lemma json_like_content_at_brace (block : bytes) (m : rmatch_result) :
  re_search usb.start_re block = Some m ->
  m_end m = S (m_start m) ->
  usb.json_like_content block = matching_brace_content block.
Proof.
  intros Hm He. unfold usb.json_like_content, matching_brace_content.
  rewrite Hm, He. replace (S (m_start m) - 1)%nat with (m_start m) by lia.
  reflexivity.
Qed.

(** A USB block whose opening brace is indented. *)
Definition usb_block : bytes :=
  b"USB Host Restrictor State:" ++ nl ++
  b"  restricted: false" ++ nl ++
  b"  {" ++ nl ++
  b"    host_manager={" ++ nl ++
  b"      num_connects=1" ++ nl ++
  b"    }" ++ nl ++
  b"  }".

Definition usb_report : bytes := usb.anchor ++ usb_block ++ nl.

Definition usb_body : bytes :=
  nl ++ b"    host_manager={" ++ nl ++ b"      num_connects=1" ++ nl ++ b"    }" ++ nl ++
  b"  ".

(** C3 (fails on the code). In the block above the first brace that begins
    a line is indented by two spaces and has its matching brace at the end
    of the block.  The scan described by the claim extracts the text
    between the two, from which the host manager is read.  The scan of the
    code starts at the beginning of the match of the start pattern, which
    is the whitespace before the brace: its end index is that same
    position, the extracted text is empty, and the parser returns a record
    without host manager. *)
Theorem usb_scan_ends_before_the_brace :
  option_map m_start (re_search usb.start_re usb_block) = Some 47%nat /\
  option_map m_end (re_search usb.start_re usb_block) = Some 50%nat /\
  usb.find_end 47 0 0 (drop 47 usb_block) = Some 47%nat /\
  usb.json_like_content usb_block = Some [] /\
  usb.find_end 49 0 0 (drop 49 usb_block) = Some 99%nat /\
  matching_brace_content usb_block = Some usb_body /\
  usb.clean_and_load_json usb_body
    = Ok (VDict [(b"host_manager", VDict [(b"num_connects", VInt 1)])]) /\
  snd (usb.parse_usb_manager_state (datetime := Z) (fun s => Ok s)
         (fun _ => Raise OutOfModel) (fun ms => Ok ms) (fun _ => Ok 0)
         (RawData_init usb_report))
  = Ok (Some {| usb.restrictor_state := [];
                usb.device_manager := None; usb.host_manager := None |}).
Proof. repeat split; vm_compute; reflexivity. Qed.

(** ** usb: [clean_and_load_json] on a block of [key = value] lines

    The seven passes are followed on the text of a block: passes 1, 2, 4,
    5 and 7 find no match, pass 3 rewrites every line and pass 6 adds the
    commas; the text is then read by the decoder of JSON.  That a pattern
    has no match is shown through a declarative reading of the patterns,
    for which the matcher is sound. *)

(** *** A declarative reading of the patterns *)

(** The cursor after reading [w], with [s] still to read. *)
Fixpoint consume (pv : option ascii) (i : nat) (w : bytes) (s : bytes) : cursor :=
  match w with
  | [] => {| prev := pv; idx := i; rest := s |}
  | c :: w' => consume (Some c) (S i) w' s
  end.

(** The character before the position reached after [w]. *)
Fixpoint last_or (pv : option ascii) (w : bytes) : option ascii :=
  match w with
  | [] => pv
  | c :: w' => last_or (Some c) w'
  end.

(** [lang r pv w s]: the pattern [r] can match the text [w] when the
    character before is [pv] and the text after is [s].  Priorities and
    groups play no part, and [^] without [re.MULTILINE] is not constrained,
    so this relation only serves to show that a pattern cannot match. *)
Inductive lang : regex -> option ascii -> bytes -> bytes -> Prop :=
| lang_eps pv s : lang Eps pv [] s
| lang_lit l pv s : lang (Lit l) pv l s
| lang_cls (p : ascii -> bool) pv c s : p c = true -> lang (Cls p) pv [c] s
| lang_rep g n (p : ascii -> bool) pv w s :
    Forall (fun c => p c = true) w -> (n <= length w)%nat -> lang (Rep g n p) pv w s
| lang_seq r1 r2 pv w1 w2 s :
    lang r1 pv w1 (w2 ++ s) -> lang r2 (last_or pv w1) w2 s ->
    lang (Seq r1 r2) pv (w1 ++ w2) s
| lang_alt_l r1 r2 pv w s : lang r1 pv w s -> lang (Alt r1 r2) pv w s
| lang_alt_r r1 r2 pv w s : lang r2 pv w s -> lang (Alt r1 r2) pv w s
| lang_group n r pv w s : lang r pv w s -> lang (Group n r) pv w s
| lang_bol pv s : lang Bol pv [] s
| lang_bolm pv s :
    at_bol_m {| prev := pv; idx := 0; rest := s |} = true -> lang BolM pv [] s
| lang_eol pv s :
    at_eol {| prev := pv; idx := 0; rest := s |} = true -> lang Eol pv [] s
| lang_eolm pv s :
    at_eol_m {| prev := pv; idx := 0; rest := s |} = true -> lang EolM pv [] s
| lang_endz pv : lang EndZ pv [] []
| lang_look r pv w s : lang r pv w s -> lang (Look r) pv [] (w ++ s).

Lemma consume_rest pv i w s : rest (consume pv i w s) = s.
Proof. revert pv i. induction w; intros; cbn; auto. Qed.

Lemma consume_idx pv i w s : idx (consume pv i w s) = (i + length w)%nat.
Proof. revert pv i. induction w as [|c w IH]; intros; cbn; [lia|]. rewrite IH. lia. Qed.

Lemma consume_prev pv i w s : prev (consume pv i w s) = last_or pv w.
Proof. revert pv i. induction w as [|c w IH]; intros pv i; cbn; auto. Qed.

Lemma consume_app pv i w1 w2 s :
  consume pv i (w1 ++ w2) s =
  consume (prev (consume pv i w1 (w2 ++ s))) (idx (consume pv i w1 (w2 ++ s))) w2 s.
Proof. revert pv i. induction w1 as [|c w1 IH]; intros; cbn; auto. Qed.

Lemma consume_eta (cu : cursor) : consume (prev cu) (idx cu) [] (rest cu) = cu.
Proof. destruct cu; reflexivity. Qed.

Lemma advance_by_consume (l : bytes) (cu : cursor) (s : bytes) :
  rest cu = l ++ s -> advance_by l cu = Some (consume (prev cu) (idx cu) l s).
Proof.
  revert cu. induction l as [|c l IH]; intros cu H; cbn in *.
  - rewrite <- H. destruct cu; reflexivity.
  - rewrite H, Ascii.eqb_refl. apply IH. reflexivity.
Qed.

Lemma advance_by_inv (l : bytes) (cu cu' : cursor) :
  advance_by l cu = Some cu' ->
  exists s, rest cu = l ++ s /\ cu' = consume (prev cu) (idx cu) l s.
Proof.
  revert cu. induction l as [|c l IH]; intros cu H; cbn in *.
  - injection H as <-. exists (rest cu). destruct cu; auto.
  - destruct (rest cu) as [|d s] eqn:Hr; [discriminate|].
    destruct (Ascii.eqb c d) eqn:E; [|discriminate].
    apply Ascii.eqb_eq in E. subst d.
    destruct (IH _ H) as (s' & Hs & ->). cbn in Hs. subst s. eauto.
Qed.

Lemma rep_greedy_lang {R : Type} (p : ascii -> bool) (s : bytes) :
  forall (min : nat) (pv : option ascii) (i : nat) (k : cursor -> option R) (res : R),
    rep_greedy p min pv i s k = Some res ->
    exists w s', s = w ++ s' /\ Forall (fun c => p c = true) w /\
                 (min <= length w)%nat /\ k (consume pv i w s') = Some res.
Proof.
  induction s as [|c s IH]; intros min pv i k res H; cbn [rep_greedy] in H.
  - destruct min; [|discriminate]. exists [], []. repeat split; auto.
  - assert (Hhere : match min with
                    | O => k {| prev := pv; idx := i; rest := c :: s |}
                    | S _ => None
                    end = Some res ->
                    exists w s', c :: s = w ++ s' /\ Forall (fun c => p c = true) w /\
                      (min <= length w)%nat /\ k (consume pv i w s') = Some res).
    { destruct min; [|discriminate]. intros Hk. exists [], (c :: s).
      repeat split; auto. }
    destruct (p c) eqn:Hc; [|auto].
    destruct (rep_greedy p (Nat.pred min) (Some c) (S i) s k) as [r|] eqn:E; [|auto].
    injection H as ->. destruct (IH _ _ _ _ _ E) as (w & s' & -> & Hw & Hmin & Hk).
    exists (c :: w), s'. repeat split; auto. cbn. lia.
Qed.

Lemma rep_lazy_lang {R : Type} (p : ascii -> bool) (s : bytes) :
  forall (min : nat) (pv : option ascii) (i : nat) (k : cursor -> option R) (res : R),
    rep_lazy p min pv i s k = Some res ->
    exists w s', s = w ++ s' /\ Forall (fun c => p c = true) w /\
                 (min <= length w)%nat /\ k (consume pv i w s') = Some res.
Proof.
  induction s as [|c s IH]; intros min pv i k res H; cbn [rep_lazy] in H.
  - destruct min; [|discriminate].
    destruct (k {| prev := pv; idx := i; rest := [] |}) eqn:E; [|discriminate].
    injection H as ->. exists [], []. repeat split; auto.
  - assert (Hmore : (if p c then rep_lazy p (Nat.pred min) (Some c) (S i) s k else None)
                    = Some res ->
                    exists w s', c :: s = w ++ s' /\ Forall (fun c => p c = true) w /\
                      (min <= length w)%nat /\ k (consume pv i w s') = Some res).
    { destruct (p c) eqn:Hc; [|discriminate]. intros E.
      destruct (IH _ _ _ _ _ E) as (w & s' & -> & Hw & Hmin & Hk).
      exists (c :: w), s'. repeat split; auto. cbn. lia. }
    destruct min; [|auto].
    destruct (k {| prev := pv; idx := i; rest := c :: s |}) eqn:E; [|auto].
    injection H as ->. exists [], (c :: s). repeat split; auto.
Qed.

(** Soundness of the matcher for [lang]. *)
Lemma rmatch_lang {R : Type} (r : regex) :
  forall (cu : cursor) (cs : captures) (k : cursor -> captures -> option R) (res : R),
    rmatch r cu cs k = Some res ->
    exists w s cs', rest cu = w ++ s /\ lang r (prev cu) w s /\
                    k (consume (prev cu) (idx cu) w s) cs' = Some res.
Proof.
  revert R.
  induction r as [|l|p|g n p|r1 IH1 r2 IH2|r1 IH1 r2 IH2|n r1 IH1| | | | | |r1 IH1];
    intros R cu cs k res H; cbn [rmatch] in H.
  - exists [], (rest cu), cs. rewrite consume_eta. repeat split; auto. constructor.
  - destruct (advance_by l cu) as [cu'|] eqn:E; [|discriminate].
    destruct (advance_by_inv _ _ _ E) as (s & Hs & ->).
    exists l, s, cs. repeat split; auto. constructor.
  - destruct (rest cu) as [|c s] eqn:Hr; [discriminate|].
    destruct (p c) eqn:Hc; [|discriminate].
    exists [c], s, cs. repeat split; auto. constructor. exact Hc.
  - destruct g.
    + destruct (rep_greedy_lang _ _ _ _ _ _ _ H) as (w & s' & Hs & Hw & Hmin & Hk).
      exists w, s', cs. repeat split; auto. constructor; auto.
    + destruct (rep_lazy_lang _ _ _ _ _ _ _ H) as (w & s' & Hs & Hw & Hmin & Hk).
      exists w, s', cs. repeat split; auto. constructor; auto.
  - destruct (IH1 _ _ _ _ _ H) as (w1 & s1 & cs1 & Hs1 & Hl1 & H1).
    destruct (IH2 _ _ _ _ _ H1) as (w2 & s2 & cs2 & Hs2 & Hl2 & H2).
    rewrite consume_rest in Hs2. rewrite consume_prev in Hl2.
    rewrite consume_prev, consume_idx in H2.
    exists (w1 ++ w2), s2, cs2. subst s1. repeat split.
    + rewrite Hs1, app_assoc. reflexivity.
    + constructor; assumption.
    + rewrite consume_app, consume_prev, consume_idx. exact H2.
  - destruct (rmatch r1 cu cs k) as [x|] eqn:E.
    + injection H as ->. destruct (IH1 _ _ _ _ _ E) as (w & s & cs' & ? & ? & ?).
      exists w, s, cs'. repeat split; auto. apply lang_alt_l. assumption.
    + destruct (IH2 _ _ _ _ _ H) as (w & s & cs' & ? & ? & ?).
      exists w, s, cs'. repeat split; auto. apply lang_alt_r. assumption.
  - destruct (IH1 _ _ _ _ _ H) as (w & s & cs' & ? & ? & ?).
    eexists w, s, _. repeat split; eauto. constructor. assumption.
  - destruct (bool_decide (idx cu = 0%nat)); [|discriminate].
    exists [], (rest cu), cs. rewrite consume_eta. repeat split; auto. constructor.
  - destruct (at_bol_m cu) eqn:E; [|discriminate].
    exists [], (rest cu), cs. rewrite consume_eta. repeat split; auto. constructor.
    exact E.
  - destruct (at_eol cu) eqn:E; [|discriminate].
    exists [], (rest cu), cs. rewrite consume_eta. repeat split; auto. constructor.
    exact E.
  - destruct (at_eol_m cu) eqn:E; [|discriminate].
    exists [], (rest cu), cs. rewrite consume_eta. repeat split; auto. constructor.
    exact E.
  - destruct (at_end cu) eqn:E; [|discriminate].
    exists [], (rest cu), cs. rewrite consume_eta. repeat split; auto.
    unfold at_end in E. destruct (rest cu); [constructor|discriminate].
  - destruct (rmatch r1 cu cs (fun _ cs' => Some cs')) as [cs1|] eqn:E; [|discriminate].
    destruct (IH1 _ _ _ _ _ E) as (w & s & cs' & Hs & Hl & _).
    exists [], (rest cu), cs1. rewrite consume_eta. repeat split; auto.
    rewrite Hs. constructor. exact Hl.
Qed.

Lemma match_at_lang (r : regex) (cu : cursor) (m : rmatch_result) :
  match_at r cu = Some m -> exists w s, rest cu = w ++ s /\ lang r (prev cu) w s.
Proof.
  unfold match_at. intros H. apply rmatch_lang in H.
  destruct H as (w & s & cs' & Hs & Hl & _). eauto.
Qed.

(** A pattern that cannot match here does not. *)
Lemma match_at_none (r : regex) (cu : cursor) :
  (forall w s, rest cu = w ++ s -> ~ lang r (prev cu) w s) -> match_at r cu = None.
Proof.
  intros H. destruct (match_at r cu) as [m|] eqn:E; [|reflexivity].
  destruct (match_at_lang _ _ _ E) as (w & s & Hs & Hl). destruct (H w s Hs Hl).
Qed.

(** ** [re.sub], step by step *)

Lemma sub_from_skip (r : regex) (repl : rmatch_result -> bytes) (x : bytes) :
  forall (pv : option ascii) (i : nat) (s : bytes),
    sub_from r repl pv i (length x) (x ++ s) =
    sub_from r repl (last_or pv x) (i + length x) 0 s.
Proof.
  induction x as [|c x IH]; intros pv i s.
  - cbn [length app last_or]. rewrite Nat.add_0_r. reflexivity.
  - cbn [length app last_or sub_from]. rewrite IH. f_equal. lia.
Qed.

Lemma sub_from_match (r : regex) (repl : rmatch_result -> bytes)
    (pv : option ascii) (i : nat) (x s : bytes) (m : rmatch_result) :
  match_at r {| prev := pv; idx := i; rest := x ++ s |} = Some m ->
  (m_end m - m_start m)%nat = length x -> x <> [] ->
  sub_from r repl pv i 0 (x ++ s) =
  repl m ++ sub_from r repl (last_or pv x) (i + length x) 0 s.
Proof.
  intros Hm Hlen Hx. destruct x as [|c x]; [congruence|].
  cbn [app sub_from]. cbn [app] in Hm. rewrite Hm, Hlen. cbn [length last_or].
  f_equal. rewrite sub_from_skip. f_equal. lia.
Qed.

Lemma sub_from_nomatch (r : regex) (repl : rmatch_result -> bytes) (u : bytes) :
  forall (pv : option ascii) (i : nat) (s : bytes),
    (forall u1 c u2, u = u1 ++ c :: u2 ->
       match_at r (consume pv i u1 (c :: u2 ++ s)) = None) ->
    sub_from r repl pv i 0 (u ++ s) =
    u ++ sub_from r repl (last_or pv u) (i + length u) 0 s.
Proof.
  induction u as [|c u IH]; intros pv i s H.
  - cbn [app length last_or]. rewrite Nat.add_0_r. reflexivity.
  - cbn [app sub_from]. pose proof (H [] c u eq_refl) as H0.
    cbn [consume app] in H0. rewrite H0. cbn [length last_or].
    f_equal. rewrite IH.
    + replace (S i + length u)%nat with (i + S (length u))%nat by lia. reflexivity.
    + intros u1 d u2 ->. apply (H (c :: u1) d u2). reflexivity.
Qed.

Lemma sub_from_end (r : regex) (repl : rmatch_result -> bytes)
    (pv : option ascii) (i : nat) :
  match_at r {| prev := pv; idx := i; rest := [] |} = None ->
  sub_from r repl pv i 0 [] = [].
Proof. intros H. cbn [sub_from]. rewrite H. reflexivity. Qed.

(** A pattern that matches nowhere leaves the text as it is. *)
Lemma sub_from_id (r : regex) (repl : rmatch_result -> bytes) (s : bytes) :
  forall (pv : option ascii) (i : nat),
    (forall u1 u2, s = u1 ++ u2 -> match_at r (consume pv i u1 u2) = None) ->
    sub_from r repl pv i 0 s = s.
Proof.
  intros pv i H.
  rewrite <- (app_nil_r s) at 1. rewrite sub_from_nomatch.
  - rewrite sub_from_end; [apply app_nil_r|].
    specialize (H s [] (eq_sym (app_nil_r s))).
    destruct (consume pv i s []) as [p j t] eqn:E.
    assert (Ht : t = []) by (pose proof (consume_rest pv i s []) as Hr;
                             rewrite E in Hr; exact Hr).
    assert (Hp : p = last_or pv s) by (pose proof (consume_prev pv i s []) as Hr;
                                       rewrite E in Hr; exact Hr).
    assert (Hj : j = (i + length s)%nat) by (pose proof (consume_idx pv i s []) as Hr;
                                             rewrite E in Hr; exact Hr).
    subst. exact H.
  - intros u1 c u2 ->. rewrite app_nil_r. apply H. reflexivity.
Qed.

Lemma re_sub_id (r : regex) (repl : rmatch_result -> bytes) (s : bytes) :
  (forall u1 w u2, s = u1 ++ w ++ u2 -> ~ lang r (last_or None u1) w u2) ->
  re_sub r repl s = s.
Proof.
  intros H. unfold re_sub. apply sub_from_id. intros u1 u2 ->.
  apply match_at_none. intros w s'. rewrite consume_rest, consume_prev.
  intros -> Hl. exact (H u1 w s' eq_refl Hl).
Qed.

(** ** Repetitions that succeed *)

Definition all (p : ascii -> bool) (w : bytes) : Prop := Forall (fun c => p c = true) w.

(** What follows does not continue the repetition. *)
Definition stops (p : ascii -> bool) (s : bytes) : Prop :=
  match s with
  | [] => True
  | c :: _ => p c = false
  end.

Lemma rep_greedy_here {R : Type} (p : ascii -> bool) (pv : option ascii) (i : nat)
    (s : bytes) (k : cursor -> option R) :
  stops p s ->
  rep_greedy p 0 pv i s k = k {| prev := pv; idx := i; rest := s |}.
Proof. destruct s as [|c s]; cbn; [reflexivity|]. intros ->. reflexivity. Qed.

Lemma rep_greedy_all {R : Type} (p : ascii -> bool) (w : bytes) :
  forall (min : nat) (pv : option ascii) (i : nat) (s : bytes)
         (k : cursor -> option R) (res : R),
    all p w -> stops p s -> (min <= length w)%nat ->
    k (consume pv i w s) = Some res ->
    rep_greedy p min pv i (w ++ s) k = Some res.
Proof.
  induction w as [|c w IH]; intros min pv i s k res Hw Hs Hmin Hk.
  - cbn in Hmin. assert (min = 0%nat) as -> by lia. cbn [app].
    rewrite rep_greedy_here by exact Hs. exact Hk.
  - apply Forall_cons in Hw as [Hc Hw]. cbn [app rep_greedy]. rewrite Hc.
    rewrite (IH (Nat.pred min) (Some c) (S i) s k res); auto. cbn in Hmin. lia.
Qed.

Lemma rep_lazy_first {R : Type} (p : ascii -> bool) (w : bytes) :
  forall (min : nat) (pv : option ascii) (i : nat) (s : bytes)
         (k : cursor -> option R) (res : R),
    all p w -> (min <= length w)%nat ->
    (forall w1 c w2, w = w1 ++ c :: w2 -> k (consume pv i w1 (c :: w2 ++ s)) = None) ->
    k (consume pv i w s) = Some res ->
    rep_lazy p min pv i (w ++ s) k = Some res.
Proof.
  induction w as [|c w IH]; intros min pv i s k res Hw Hmin Hno Hk.
  - cbn in Hmin. assert (min = 0%nat) as -> by lia. cbn [app].
    cbn in Hk. destruct s; cbn [rep_lazy]; rewrite Hk; reflexivity.
  - apply Forall_cons in Hw as [Hc Hw]. cbn [app rep_lazy]. rewrite Hc.
    assert (Hrec : rep_lazy p (Nat.pred min) (Some c) (S i) (w ++ s) k = Some res).
    { apply IH; auto.
      - cbn in Hmin. lia.
      - intros w1 d w2 ->. apply (Hno (c :: w1) d w2). reflexivity. }
    destruct min; [|exact Hrec].
    pose proof (Hno [] c w eq_refl) as H0. cbn [consume app] in H0.
    rewrite H0. exact Hrec.
Qed.

Lemma consume_eq (pv : option ascii) (i : nat) (w s : bytes) :
  consume pv i w s = {| prev := last_or pv w; idx := i + length w; rest := s |}.
Proof.
  pose proof (consume_prev pv i w s) as Hp. pose proof (consume_idx pv i w s) as Hi.
  pose proof (consume_rest pv i w s) as Hr.
  destruct (consume pv i w s) as [p j r]. cbn in Hp, Hi, Hr. subst. reflexivity.
Qed.

Lemma rep_greedy_span {R : Type} (p : ascii -> bool) (w s : bytes) (min : nat)
    (pv : option ascii) (i : nat) (k : cursor -> option R) (res : R) :
  all p w -> stops p s -> (min <= length w)%nat ->
  k {| prev := last_or pv w; idx := i + length w; rest := s |} = Some res ->
  rep_greedy p min pv i (w ++ s) k = Some res.
Proof. intros. apply rep_greedy_all; auto. rewrite consume_eq. assumption. Qed.

Lemma rep_lazy_span {R : Type} (p : ascii -> bool) (w s : bytes) (min : nat)
    (pv : option ascii) (i : nat) (k : cursor -> option R) (res : R) :
  all p w -> (min <= length w)%nat ->
  (forall w1 c w2, w = w1 ++ c :: w2 ->
     k {| prev := last_or pv w1; idx := i + length w1; rest := c :: w2 ++ s |} = None) ->
  k {| prev := last_or pv w; idx := i + length w; rest := s |} = Some res ->
  rep_lazy p min pv i (w ++ s) k = Some res.
Proof.
  intros Hw Hmin Hno Hk. apply rep_lazy_first; auto.
  - intros w1 c w2 E. rewrite consume_eq. apply Hno. exact E.
  - rewrite consume_eq. exact Hk.
Qed.

Lemma rmatch_none {R : Type} (r : regex) (cu : cursor) (cs : captures)
    (k : cursor -> captures -> option R) :
  (forall w s, rest cu = w ++ s -> ~ lang r (prev cu) w s) ->
  rmatch r cu cs k = None.
Proof.
  intros H. destruct (rmatch r cu cs k) as [res|] eqn:E; [|reflexivity].
  destruct (rmatch_lang _ _ _ _ _ E) as (w & s & cs' & Hs & Hl & _).
  destruct (H w s Hs Hl).
Qed.

Lemma take_span (i : nat) (w s : bytes) : take (i + length w - i) (w ++ s) = w.
Proof.
  replace (i + length w - i)%nat with (length w) by lia. apply take_app_length.
Qed.

(** ** Characters *)

(** The printable ASCII characters, from the space to the tilde. *)
Definition printable (c : ascii) : bool := in_range " " "~" c.

Ltac ascii_cases c :=
  destruct c as [[] [] [] [] [] [] [] []]; try discriminate; try reflexivity.

Lemma printable_uspace (c : ascii) :
  printable c = true -> is_uspace c = true -> c = " "%char.
Proof. intros H1 H2. revert H1 H2. ascii_cases c. Qed.

Lemma word_not_uspace (c : ascii) : is_word c = true -> is_uspace c = false.
Proof. intros H. revert H. ascii_cases c. Qed.

Lemma word_printable (c : ascii) : is_word c = true -> printable c = true.
Proof. intros H. revert H. ascii_cases c. Qed.

Lemma word_key_char (c : ascii) : is_word c = true -> usb.key_char c = true.
Proof. intros H. unfold usb.key_char. rewrite H. reflexivity. Qed.

Lemma printable_not_nl (c : ascii) : printable c = true -> Ascii.eqb c newline = false.
Proof. intros H. revert H. ascii_cases c. Qed.

(** ** Pass 3 on a line [key = value] *)

(** A key made of word characters. *)
Definition key_word (k : bytes) : Prop := k <> [] /\ all is_word k.

(** A right-hand side as pass 3 reads it whole: printable characters other
    than the opening brace and bracket, with no space at either end. *)
Definition raw_value (rv : bytes) : Prop :=
  rv <> [] /\ all (fun c => printable c && not_in (b"{[") c) rv /\
  head rv <> Some " "%char /\ last_or None rv <> Some " "%char.

(** What may follow a line: the end of the text, or a new line that begins
    with a character that is not white space. *)
Definition line_end (tail : bytes) : Prop :=
  tail = [] \/ exists c t, tail = newline :: c :: t /\ is_uspace c = false.

Lemma all_app (p : ascii -> bool) (x y : bytes) : all p x -> all p y -> all p (x ++ y).
Proof. unfold all. intros. apply Forall_app; auto. Qed.

Lemma last_or_app (pv : option ascii) (x y : bytes) :
  last_or pv (x ++ y) = last_or (last_or pv x) y.
Proof. revert pv. induction x as [|c x IH]; intros pv; cbn; auto. Qed.

Lemma last_or_in (pv : option ascii) (w : bytes) (c : ascii) :
  w <> [] -> last_or pv w = Some c -> In c w.
Proof.
  revert pv. induction w as [|d w IH]; intros pv Hne H; [congruence|].
  cbn in H. destruct w as [|e w].
  - cbn in H. injection H as ->. left. reflexivity.
  - right. apply (IH (Some d)); [discriminate|exact H].
Qed.

Lemma last_or_nonempty (pv : option ascii) (w : bytes) :
  w <> [] -> last_or pv w = last_or None w.
Proof.
  destruct w as [|c w]; [congruence|]. intros _. reflexivity.
Qed.

(** After a proper prefix of the value, [\s*$] does not hold. *)
Lemma value_not_cut (rv tail : bytes) (pv : option ascii) :
  raw_value rv -> line_end tail ->
  forall w1 c w2, rv = w1 ++ c :: w2 ->
  forall w s, c :: w2 ++ tail = w ++ s ->
    ~ lang (Star is_uspace +++ EolM) pv w s.
Proof.
  intros (Hne & Hall & Hh & Hl) Ht w1 c w2 E w s Es HL.
  inversion HL as [| | | |r1 r2 pv' x y s' H1 H2| | | | | | | | |]; subst.
  inversion H1 as [| | |g n p pv' x' s' Hx _| | | | | | | | | |]; subst.
  inversion H2 as [| | | | | | | | | | |pv' s' He| |]; subst.
  rewrite app_nil_r in Es.
  assert (Hc : forall d, In d (c :: w2) -> printable d = true).
  { intros d Hd. unfold all in Hall. rewrite List.Forall_forall in Hall.
    specialize (Hall d).
    assert (In d (w1 ++ c :: w2)) as Hin by (apply in_or_app; right; exact Hd).
    apply Hall in Hin. apply andb_true_iff in Hin. tauto. }
  change (c :: w2 ++ tail) with ((c :: w2) ++ tail) in Es.
  symmetry in Es. apply app_eq_app in Es. destruct Es as [l [[E1 E2]|[E1 E2]]].
  - (* the white space covers the rest of the value *)
    assert (Hlast : exists d, last_or None (w1 ++ c :: w2) = Some d /\ In d (c :: w2)).
    { rewrite last_or_app.
      destruct (last_or (last_or None w1) (c :: w2)) as [d|] eqn:Ed.
      - exists d. split; [reflexivity|]. eapply last_or_in; [discriminate|exact Ed].
      - exfalso. clear -Ed. revert Ed. generalize (last_or None w1).
        cbn. generalize c. induction w2; intros; cbn in *; [discriminate|eauto]. }
    destruct Hlast as (d & Hd1 & Hd2).
    assert (is_uspace d = true).
    { rewrite List.Forall_forall in Hx. apply Hx.
      rewrite E1. apply in_or_app. left. exact Hd2. }
    apply Hl. rewrite Hd1. f_equal. apply printable_uspace; auto.
  - (* the end of line would be inside the value, or at its first character *)
    destruct l as [|d l].
    + rewrite app_nil_r in E1. subst x.
      (* as above *)
      assert (Hlast : exists d, last_or None (w1 ++ c :: w2) = Some d /\ In d (c :: w2)).
      { rewrite last_or_app.
        destruct (last_or (last_or None w1) (c :: w2)) as [d|] eqn:Ed.
        - exists d. split; [reflexivity|]. eapply last_or_in; [discriminate|exact Ed].
        - exfalso. clear -Ed. revert Ed. generalize (last_or None w1).
          cbn. generalize c. induction w2; intros; cbn in *; [discriminate|eauto]. }
      destruct Hlast as (d & Hd1 & Hd2).
      assert (is_uspace d = true).
      { rewrite List.Forall_forall in Hx. apply Hx. exact Hd2. }
      apply Hl. rewrite Hd1. f_equal. apply printable_uspace; auto.
    + subst s. unfold at_eol_m in He. cbn in He.
      assert (printable d = true) as Hd.
      { apply Hc. rewrite E1. apply in_or_app. right. left. reflexivity. }
      apply printable_not_nl in Hd. congruence.
Qed.

Lemma star_eol_none {R : Type} (pv : option ascii) (i : nat) (s : bytes)
    (kf : cursor -> option R) :
  (forall w s', s = w ++ s' -> ~ lang (Star is_uspace +++ EolM) pv w s') ->
  rep_greedy is_uspace 0 pv i s (fun cu => if at_eol_m cu then kf cu else None) = None.
Proof.
  intros H.
  exact (rmatch_none (Star is_uspace +++ EolM) {| prev := pv; idx := i; rest := s |} []
           (fun cu _ => kf cu) H).
Qed.

(** The white space after the value stops before the end of the line. *)
Lemma star_eol_here {R : Type} (pv : option ascii) (i : nat) (tail : bytes)
    (kf : cursor -> option R) :
  line_end tail ->
  rep_greedy is_uspace 0 pv i tail (fun cu => if at_eol_m cu then kf cu else None) =
  kf {| prev := pv; idx := i; rest := tail |}.
Proof.
  intros [->|(c & t & -> & Hc)]; [reflexivity|].
  cbn [rep_greedy]. change (is_uspace newline) with true. cbn iota.
  rewrite Hc. cbn [Nat.pred at_eol_m rest].
  destruct (Ascii.eqb c newline) eqn:E.
  - apply Ascii.eqb_eq in E. subst c. discriminate Hc.
  - rewrite Ascii.eqb_refl. reflexivity.
Qed.

Lemma raw_value_head (rv tail : bytes) : raw_value rv -> stops is_uspace (rv ++ tail).
Proof.
  intros (Hne & Hall & Hh & _). destruct rv as [|c rv]; [congruence|]. cbn.
  inversion Hall as [|? ? Hc _]; subst. apply andb_true_iff in Hc. destruct Hc as [Hp _].
  destruct (is_uspace c) eqn:E; [|reflexivity].
  exfalso. apply Hh. cbn. f_equal. apply printable_uspace; assumption.
Qed.

Lemma pass3_match (pv : option ascii) (i : nat) (k rv tail : bytes) :
  at_bol_m {| prev := pv; idx := i; rest := [] |} = true ->
  key_word k -> raw_value rv -> line_end tail ->
  exists m,
    match_at usb.pass3_re
      {| prev := pv; idx := i; rest := k ++ " " :: "=" :: " " :: rv ++ tail |}%char = Some m /\
    (m_end m - m_start m)%nat = length (k ++ " " :: "=" :: " " :: rv)%char /\
    group m 1 = Some (k ++ [" "%char]) /\ group m 2 = Some rv.
Proof.
  intros Hbol (Hkne & Hk) Hrv Ht.
  unfold match_at, usb.pass3_re, Star, Plus, PlusLazy.
  cbn [rmatch prev idx rest].
  replace (at_bol_m {| prev := pv; idx := i; rest := k ++ " " :: "=" :: " " :: rv ++ tail |}%char)
    with true by (symmetry; exact Hbol).
  eexists. split.
  - rewrite rep_greedy_here.
    2:{ destruct k as [|c k]; [congruence|]. cbn. apply word_not_uspace.
        inversion Hk; assumption. }
    cbn [prev idx rest].
    change (k ++ " " :: "=" :: " " :: rv ++ tail)%char
      with (k ++ [" "%char] ++ ("=" :: " " :: rv ++ tail)%char).
    rewrite app_assoc.
    apply rep_greedy_span.
    { apply all_app.
      - unfold all in *. eapply Forall_impl; [exact Hk|]. intros c. apply word_key_char.
      - repeat constructor. }
    { reflexivity. }
    { rewrite length_app. cbn. lia. }
    cbn [prev idx rest]. rewrite rep_greedy_here by reflexivity.
    cbn [prev idx rest advance_by b list_ascii_of_string].
    rewrite Ascii.eqb_refl. unfold advance. cbn [prev idx rest].
    change (" " :: rv ++ tail)%char with ([" "%char] ++ (rv ++ tail)).
    apply rep_greedy_span.
    { repeat constructor. }
    { apply raw_value_head. exact Hrv. }
    { cbn. lia. }
    cbn [prev idx rest].
    apply rep_lazy_span.
    { destruct Hrv as (_ & Hall & _). unfold all in *. eapply Forall_impl; [exact Hall|].
      intros c Hc. apply andb_true_iff in Hc. tauto. }
    { destruct Hrv as (Hne & _). destruct rv; [congruence|cbn; lia]. }
    { intros w1 c w2 E. apply star_eol_none. intros w s'.
      eapply value_not_cut; eauto. }
    rewrite star_eol_here by exact Ht. cbn [prev idx rest].
    reflexivity.
  - cbn [m_end m_start group m_caps capture Nat.eqb].
    split; [|split].
    + rewrite !length_app. cbn [length]. lia.
    + f_equal. apply take_span.
    + f_equal.
      match goal with |- take ?n _ = _ => replace n with (length rv) by lia end.
      apply take_app_length.
Qed.

(** ** Numeric literals *)

Definition sign (neg : bool) : bytes := if neg then ["-"%char] else [].

Lemma digit_not (c d : ascii) :
  is_digit d = true -> is_digit c = false -> Ascii.eqb c d = false.
Proof.
  intros Hd Hc. destruct (Ascii.eqb c d) eqn:E; [|reflexivity].
  apply Ascii.eqb_eq in E. subst. congruence.
Qed.

Lemma lit_head_fail {R : Type} (c : ascii) (l : bytes) (pv : option ascii) (i : nat)
    (s : bytes) (cs : captures) (k : cursor -> captures -> option R) :
  match s with [] => True | d :: _ => Ascii.eqb c d = false end ->
  rmatch (Lit (c :: l)) {| prev := pv; idx := i; rest := s |} cs k = None.
Proof.
  intros H. cbn [rmatch advance_by rest]. destruct s as [|d s]; [reflexivity|].
  rewrite H. reflexivity.
Qed.

Lemma rmatch_seq {R : Type} (r1 r2 : regex) (cu : cursor) (cs : captures)
    (k : cursor -> captures -> option R) :
  rmatch (r1 +++ r2) cu cs k = rmatch r1 cu cs (fun cu' cs' => rmatch r2 cu' cs' k).
Proof. reflexivity. Qed.

(** An optional character that is there is taken. *)
Lemma opt_take {R : Type} (c : ascii) (s : bytes) (pv : option ascii) (i : nat)
    (cs : captures) (k : cursor -> captures -> option R) (res : R) :
  k {| prev := Some c; idx := S i; rest := s |} cs = Some res ->
  rmatch (Opt (Lit [c])) {| prev := pv; idx := i; rest := c :: s |} cs k = Some res.
Proof.
  intros H. unfold Opt. cbn [rmatch advance_by rest]. rewrite Ascii.eqb_refl.
  unfold advance. cbn [idx]. rewrite H. reflexivity.
Qed.

(** An optional character that is not there is passed. *)
Lemma opt_skip {R : Type} (c : ascii) (s : bytes) (pv : option ascii) (i : nat)
    (cs : captures) (k : cursor -> captures -> option R) :
  match s with [] => True | d :: _ => Ascii.eqb c d = false end ->
  rmatch (Opt (Lit [c])) {| prev := pv; idx := i; rest := s |} cs k =
  k {| prev := pv; idx := i; rest := s |} cs.
Proof.
  intros H. unfold Opt. cbn [rmatch advance_by rest].
  destruct s as [|d s]; [reflexivity|]. rewrite H. reflexivity.
Qed.

Lemma plus_span {R : Type} (p : ascii -> bool) (w s : bytes) (pv : option ascii)
    (i : nat) (cs : captures) (k : cursor -> captures -> option R) (res : R) :
  all p w -> w <> [] -> stops p s ->
  k {| prev := last_or pv w; idx := i + length w; rest := s |} cs = Some res ->
  rmatch (Plus p) {| prev := pv; idx := i; rest := w ++ s |} cs k = Some res.
Proof.
  intros Hw Hne Hs Hk. unfold Plus. cbn [rmatch prev idx rest].
  apply rep_greedy_span; auto. destruct w; [congruence|cbn; lia].
Qed.

Lemma star_span {R : Type} (p : ascii -> bool) (w s : bytes) (pv : option ascii)
    (i : nat) (cs : captures) (k : cursor -> captures -> option R) (res : R) :
  all p w -> stops p s ->
  k {| prev := last_or pv w; idx := i + length w; rest := s |} cs = Some res ->
  rmatch (Star p) {| prev := pv; idx := i; rest := w ++ s |} cs k = Some res.
Proof.
  intros Hw Hs Hk. unfold Star. cbn [rmatch prev idx rest].
  apply rep_greedy_span; auto. lia.
Qed.

(** [-?\d+] followed by [r], on a sign, digits, and a text that [r] matches. *)
Lemma signed_digits_match {R : Type} (r : regex) (neg : bool) (ds s : bytes)
    (pv : option ascii) (i : nat) (cs : captures)
    (k : cursor -> captures -> option R) (res : R) :
  all is_digit ds -> ds <> [] -> stops is_digit s ->
  rmatch r {| prev := last_or pv (sign neg ++ ds);
              idx := i + length (sign neg ++ ds); rest := s |} cs k = Some res ->
  rmatch (Opt (Lit ["-"%char]) +++ Plus is_digit +++ r)
    {| prev := pv; idx := i; rest := sign neg ++ ds ++ s |} cs k = Some res.
Proof.
  intros Hds Hne Hs Hk. rewrite rmatch_seq.
  destruct neg; cbn [sign app].
  - apply opt_take. rewrite rmatch_seq. apply plus_span; auto.
    cbn [sign app last_or length] in Hk.
    replace (S i + length ds)%nat with (i + S (length ds))%nat by lia. exact Hk.
  - rewrite opt_skip.
    2:{ destruct ds as [|d ds]; [congruence|]. cbn [app].
        inversion Hds as [|? ? Hdig _]; subst. apply (digit_not "-" d Hdig eq_refl). }
    rewrite rmatch_seq. apply plus_span; auto.
Qed.

(** The integer part and the fraction of a literal, as digits. *)
Definition frac (fs : option bytes) : bytes :=
  match fs with
  | Some f => "."%char :: f
  | None => []
  end.

Definition frac_ok (fs : option bytes) : Prop :=
  match fs with
  | Some f => all is_digit f /\ f <> []
  | None => True
  end.

(** What may follow a literal: neither a digit nor a point. *)
Definition stops_number (s : bytes) : Prop :=
  match s with
  | [] => True
  | c :: _ => is_digit c = false /\ Ascii.eqb "." c = false
  end.

Lemma usb_number_match {R : Type} (neg : bool) (ds : bytes) (fs : option bytes)
    (s : bytes) (pv : option ascii) (i : nat) (cs : captures)
    (k : cursor -> captures -> option R) (res : R) :
  all is_digit ds -> ds <> [] -> frac_ok fs -> stops_number s ->
  k {| prev := last_or pv (sign neg ++ ds ++ frac fs);
       idx := i + length (sign neg ++ ds ++ frac fs); rest := s |} cs = Some res ->
  rmatch usb.number_re
    {| prev := pv; idx := i; rest := (sign neg ++ ds ++ frac fs) ++ s |} cs k = Some res.
Proof.
  intros Hds Hne Hfs Hs Hk. unfold usb.number_re.
  rewrite <- !app_assoc.
  change (b"-") with ["-"%char]. change (b".") with ["."%char].
  apply signed_digits_match; auto.
  { destruct fs; cbn; [reflexivity|]. destruct s; cbn in *; tauto. }
  rewrite rmatch_seq.
  destruct fs as [f|]; cbn [frac app] in *.
  - destruct Hfs as (Hf & Hfne).
    apply opt_take. apply star_span; auto.
    { destruct s; cbn in *; tauto. }
    match goal with H : k ?c1 cs = _ |- k ?c2 cs = _ => replace c2 with c1; [exact H|] end.
    rewrite !app_assoc. change ("."%char :: f) with (["."%char] ++ f).
    rewrite !app_assoc. rewrite !last_or_app. rewrite !length_app. cbn [length last_or].
    f_equal; lia.
  - rewrite app_nil_r in Hk. rewrite opt_skip.
    2:{ destruct s; cbn in *; tauto. }
    unfold Star. cbn [rmatch prev idx rest].
    rewrite rep_greedy_here; [exact Hk|]. destruct s; cbn in *; tauto.
Qed.

(** ** Blocks of [key = value] lines *)

(** The right-hand side of a line: a keyword, a numeric literal (a sign,
    the digits of the integer part, the digits of the fraction if there
    is one), or a text. *)
Inductive rhs : Type :=
| RTrue
| RFalse
| RNull
| RNum (neg : bool) (ds : bytes) (fs : option bytes)
| RText (s : bytes).

(** The right-hand side as it is written in the block. *)
Definition render (v : rhs) : bytes :=
  match v with
  | RTrue => b"true"
  | RFalse => b"false"
  | RNull => b"null"
  | RNum neg ds fs => sign neg ++ ds ++ frac fs
  | RText s => s
  end.

Definition block_line (kv : bytes * rhs) : bytes := fst kv ++ b" = " ++ render (snd kv).
Definition block (kvs : list (bytes * rhs)) : bytes := join nl (map block_line kvs).

(** The value of a run of decimal digits. *)
Definition digits_value (ds : bytes) : Z :=
  fold_left (fun acc c => 10 * acc + digit_val c) ds 0.

(** The value expected for a right-hand side. *)
Definition expected (v : rhs) : pyval :=
  match v with
  | RTrue => VBool true
  | RFalse => VBool false
  | RNull => VNone
  | RNum neg ds None => VInt (if neg then - digits_value ds else digits_value ds)
  | RNum neg ds (Some f) => VFloat (render v)
  | RText s => VStr s
  end.

Definition expected_dict (kvs : list (bytes * rhs)) : list (bytes * pyval) :=
  fold_left (fun d kv => dict_set (fst kv) (expected (snd kv)) d) kvs [].

(** Keys: words that begin with no digit and with no keyword. *)
Definition key_ok (k : bytes) : bool :=
  match k with
  | [] => false
  | c :: _ => negb (is_digit c)
  end && forallb is_word k &&
  negb (existsb (fun w => startswith w k) [b"true"; b"false"; b"null"]).

(** The integer part of a literal of JSON: no leading zero. *)
Definition int_part_ok (ds : bytes) : bool :=
  forallb is_digit ds &&
  match ds with
  | [] => false
  | ["0"%char] => true
  | c :: _ => negb (Ascii.eqb c "0")
  end.

Definition frac_part_ok (fs : option bytes) : bool :=
  match fs with
  | Some f => forallb is_digit f && negb (bool_decide (f = []))
  | None => true
  end.

(** Texts: printable characters other than braces, brackets and the
    backslash, with no space at either end, that are neither a keyword nor
    a number for the pattern of the cleaner. *)
Definition text_char (c : ascii) : bool :=
  printable c && not_in ["{"; "["; "}"; "]"; "\"]%char c.

Definition text_ok (s : bytes) : bool :=
  forallb text_char s &&
  negb (bool_decide (s = [])) &&
  negb (bool_decide (head s = Some " "%char)) &&
  negb (bool_decide (last_or None s = Some " "%char)) &&
  negb (existsb (bytes_eqb s) [b"true"; b"false"; b"null"]) &&
  negb (bool_decide (is_Some (re_fullmatch usb.number_re s))).

Definition rhs_ok (v : rhs) : bool :=
  match v with
  | RNum _ ds fs => int_part_ok ds && frac_part_ok fs
  | RText s => text_ok s
  | _ => true
  end.

Definition line_ok (kv : bytes * rhs) : bool := key_ok (fst kv) && rhs_ok (snd kv).

(** *** The text after pass 3 *)

Definition escape_quotes (s : bytes) : bytes := replace [dq] ["\"; dq]%char s.

Definition out_value (v : rhs) : bytes :=
  match v with
  | RText s => dq :: escape_quotes s ++ [dq]
  | _ => render v
  end.

Definition out_line (kv : bytes * rhs) : bytes :=
  dq :: fst kv ++ dq :: ":"%char :: " "%char :: out_value (snd kv).

(** *** Well-formed lines, as facts *)

Lemma all_forallb (p : ascii -> bool) (w : bytes) : forallb p w = true <-> all p w.
Proof. unfold all. rewrite List.forallb_forall, List.Forall_forall. reflexivity. Qed.

Lemma key_ok_word (k : bytes) : key_ok k = true -> key_word k.
Proof.
  unfold key_ok, key_word. intros H.
  apply andb_true_iff in H. destruct H as [H _].
  apply andb_true_iff in H. destruct H as [H1 H2].
  split; [destruct k; [discriminate|discriminate]|]. apply all_forallb. exact H2.
Qed.

Lemma int_part_digits (ds : bytes) : int_part_ok ds = true -> all is_digit ds /\ ds <> [].
Proof.
  unfold int_part_ok. intros H. apply andb_true_iff in H. destruct H as [H1 H2].
  split; [apply all_forallb; exact H1|]. destruct ds; [discriminate|discriminate].
Qed.

Lemma frac_part_digits (fs : option bytes) : frac_part_ok fs = true -> frac_ok fs.
Proof.
  destruct fs as [f|]; cbn; [|tauto]. intros H.
  apply andb_true_iff in H. destruct H as [H1 H2]. split; [apply all_forallb; exact H1|].
  apply negb_true_iff in H2. apply bool_decide_eq_false in H2. exact H2.
Qed.

Lemma digit_raw (c : ascii) :
  is_digit c = true -> printable c && not_in (b"{[") c = true /\ c <> " "%char.
Proof. intros H. revert H. ascii_cases c; intros _; split; try reflexivity; discriminate. Qed.

(** The characters of keywords and numbers. *)
Definition scalar_char (c : ascii) : bool :=
  is_alpha c || is_digit c || one_of ["-"; "."]%char c.

Lemma scalar_char_facts (c : ascii) :
  scalar_char c = true ->
  printable c && not_in (b"{[") c = true /\ c <> " "%char /\ c <> dq /\
  is_uspace c = false.
Proof.
  intros H. revert H.
  ascii_cases c; intros _; repeat split; try reflexivity; discriminate.
Qed.

Lemma all_impl (p q : ascii -> bool) (w : bytes) :
  (forall c, p c = true -> q c = true) -> all p w -> all q w.
Proof. intros H Hw. unfold all in *. eapply Forall_impl; [exact Hw|]. exact H. Qed.

Lemma all_in (p : ascii -> bool) (w : bytes) (c : ascii) : all p w -> In c w -> p c = true.
Proof. unfold all. rewrite List.Forall_forall. auto. Qed.

Lemma all_ends (p : ascii -> bool) (w : bytes) (x : ascii) :
  all p w -> p x = false -> head w <> Some x /\ last_or None w <> Some x.
Proof.
  intros Hw Hx. split.
  - destruct w as [|c w]; [discriminate|]. cbn. intros [= ->].
    inversion Hw; subst. congruence.
  - destruct w as [|c w]; [discriminate|]. intros E.
    apply last_or_in in E; [|discriminate]. apply (all_in _ _ _ Hw) in E. congruence.
Qed.

Lemma render_scalar (v : rhs) :
  rhs_ok v = true -> (forall s, v <> RText s) ->
  all scalar_char (render v) /\ render v <> [].
Proof.
  intros Hok Hnt. destruct v as [| | |neg ds fs|s]; cbn [render].
  - split; [repeat constructor|discriminate].
  - split; [repeat constructor|discriminate].
  - split; [repeat constructor|discriminate].
  - cbn in Hok. apply andb_true_iff in Hok. destruct Hok as [H1 H2].
    apply int_part_digits in H1. destruct H1 as [H1 H1'].
    apply frac_part_digits in H2. split.
    + apply all_app; [destruct neg; repeat constructor|].
      apply all_app.
      * eapply all_impl; [|exact H1]. intros c Hc. unfold scalar_char. rewrite Hc.
        rewrite orb_true_r. reflexivity.
      * destruct fs as [f|]; cbn; [|constructor]. constructor; [reflexivity|].
        destruct H2 as [H2 _]. eapply all_impl; [|exact H2]. intros c Hc.
        unfold scalar_char. rewrite Hc. rewrite orb_true_r. reflexivity.
    + destruct neg; cbn; [discriminate|]. destruct ds; [congruence|discriminate].
  - destruct (Hnt s eq_refl).
Qed.

Lemma text_ok_facts (s : bytes) :
  text_ok s = true ->
  all text_char s /\ s <> [] /\ head s <> Some " "%char /\
  last_or None s <> Some " "%char /\
  existsb (bytes_eqb s) [b"true"; b"false"; b"null"] = false /\
  bool_decide (is_Some (re_fullmatch usb.number_re s)) = false.
Proof.
  unfold text_ok. intros H.
  repeat (apply andb_true_iff in H; let H' := fresh "H" in destruct H as [H H']).
  repeat match goal with
         | X : negb _ = true |- _ => apply negb_true_iff in X
         end.
  repeat split.
  - apply all_forallb. assumption.
  - eapply bool_decide_eq_false; eassumption.
  - eapply bool_decide_eq_false; eassumption.
  - eapply bool_decide_eq_false; eassumption.
  - assumption.
  - assumption.
Qed.

Lemma render_raw (v : rhs) : rhs_ok v = true -> raw_value (render v).
Proof.
  intros Hok. destruct v as [| | |neg ds fs|s].
  1-4: match goal with |- raw_value (render ?v) =>
         destruct (render_scalar v Hok) as [Ha Hne]; [discriminate|];
         split; [exact Hne|]; split;
         [eapply all_impl; [|exact Ha]; intros c Hc; apply scalar_char_facts; exact Hc|];
         apply (all_ends scalar_char); [exact Ha|reflexivity]
       end.
  cbn [render]. cbn in Hok. apply text_ok_facts in Hok.
  destruct Hok as (Ha & Hne & Hh & Hl & _).
  split; [exact Hne|]. split; [|split; assumption].
  eapply all_impl; [|exact Ha]. intros c. unfold text_char.
  revert c. intros c H. revert H. ascii_cases c.
Qed.

(** ** [strip] on texts with no white space at the ends *)

Lemma lstrip_by_stops (p : ascii -> bool) (w : bytes) : stops p w -> lstrip_by p w = w.
Proof. destruct w as [|c w]; cbn; [reflexivity|]. intros ->. reflexivity. Qed.

Lemma last_or_snoc (pv : option ascii) (w : bytes) (c : ascii) :
  last_or pv (w ++ [c]) = Some c.
Proof. rewrite last_or_app. reflexivity. Qed.

Lemma stops_rev (p : ascii -> bool) (w : bytes) :
  (forall c, last_or None w = Some c -> p c = false) -> stops p (rev w).
Proof.
  intros H. destruct (rev w) as [|c r] eqn:E; cbn; [exact I|].
  apply H. rewrite <- (rev_involutive w), E. cbn [rev]. apply last_or_snoc.
Qed.

Lemma rstrip_by_clean (p : ascii -> bool) (w : bytes) :
  (forall c, last_or None w = Some c -> p c = false) -> rstrip_by p w = w.
Proof.
  intros H. unfold rstrip_by. rewrite lstrip_by_stops by (apply stops_rev; exact H).
  apply rev_involutive.
Qed.

Lemma rstrip_by_one (p : ascii -> bool) (w : bytes) (x : ascii) :
  p x = true -> (forall c, last_or None w = Some c -> p c = false) ->
  rstrip_by p (w ++ [x]) = w.
Proof.
  intros Hx H. unfold rstrip_by. rewrite rev_app_distr. cbn [rev app lstrip_by].
  rewrite Hx. rewrite lstrip_by_stops by (apply stops_rev; exact H).
  apply rev_involutive.
Qed.

(** Characters that are not white space at both ends. *)
Definition trimmed (w : bytes) : Prop :=
  stops is_uspace w /\ forall c, last_or None w = Some c -> is_uspace c = false.

Lemma ustrip_trimmed (w : bytes) : trimmed w -> ustrip w = w.
Proof.
  intros [H1 H2]. unfold ustrip, strip_by. rewrite lstrip_by_stops by exact H1.
  apply rstrip_by_clean. exact H2.
Qed.

Lemma ustrip_trimmed_space (w : bytes) : w <> [] -> trimmed w -> ustrip (w ++ [" "%char]) = w.
Proof.
  intros Hne [H1 H2]. unfold ustrip, strip_by. rewrite lstrip_by_stops.
  - apply rstrip_by_one; [reflexivity|exact H2].
  - destruct w; [congruence|exact H1].
Qed.

Lemma all_trimmed (p : ascii -> bool) (w : bytes) :
  all p w -> (forall c, p c = true -> is_uspace c = false) -> trimmed w.
Proof.
  intros Hw Hp. split.
  - destruct w as [|c w]; cbn; [exact I|]. inversion Hw; subst. auto.
  - intros c Hc. destruct w as [|d w]; [discriminate|].
    apply last_or_in in Hc; [|discriminate]. apply Hp. eapply all_in; eauto.
Qed.

Lemma raw_value_trimmed (rv : bytes) : raw_value rv -> trimmed rv.
Proof.
  intros (Hne & Ha & Hh & Hl). split.
  - rewrite <- (app_nil_r rv). apply raw_value_head. repeat split; assumption.
  - intros c Hc. destruct (is_uspace c) eqn:E; [|reflexivity]. exfalso.
    apply Hl. rewrite Hc. f_equal. apply printable_uspace; [|exact E].
    apply last_or_in in Hc; [|exact Hne]. apply (all_in _ _ _ Ha) in Hc.
    apply andb_true_iff in Hc. tauto.
Qed.

(** ** The replacement of pass 3 *)

Lemma number_fullmatch (neg : bool) (ds : bytes) (fs : option bytes) :
  all is_digit ds -> ds <> [] -> frac_ok fs ->
  is_Some (re_fullmatch usb.number_re (sign neg ++ ds ++ frac fs)).
Proof.
  intros Hds Hne Hfs. unfold re_fullmatch, match_at, start_cursor.
  rewrite rmatch_seq. rewrite <- (app_nil_r (sign neg ++ ds ++ frac fs)) at 1.
  eexists. apply usb_number_match; auto. exact I.
Qed.

Lemma quote_line (m : rmatch_result) (k : bytes) (v : rhs) :
  key_ok k = true -> rhs_ok v = true ->
  group m 1 = Some (k ++ [" "%char]) -> group m 2 = Some (render v) ->
  usb.quote_values_if_string m = out_line (k, v).
Proof.
  intros Hk Hv H1 H2. unfold usb.quote_values_if_string, group_or_empty.
  rewrite H1, H2. cbn [from_option id]. cbv zeta.
  destruct (key_ok_word k Hk) as [Hkne Hkw].
  rewrite ustrip_trimmed_space;
    [|exact Hkne|apply (all_trimmed is_word); [exact Hkw|apply word_not_uspace]].
  rewrite (ustrip_trimmed (render v)) by (apply raw_value_trimmed, render_raw; exact Hv).
  unfold out_line. cbn [fst snd].
  destruct v as [| | |neg ds fs|s].
  - reflexivity.
  - reflexivity.
  - reflexivity.
  - cbn in Hv. apply andb_true_iff in Hv. destruct Hv as [Hd Hf].
    apply int_part_digits in Hd. destruct Hd as [Hd Hdne]. apply frac_part_digits in Hf.
    cbn [render out_value].
    rewrite (bool_decide_eq_true_2 _ (number_fullmatch neg ds fs Hd Hdne Hf)).
    rewrite orb_true_r. reflexivity.
  - cbn in Hv. apply text_ok_facts in Hv. destruct Hv as (_ & _ & _ & _ & He & Hn).
    cbn [render out_value]. rewrite He, Hn. reflexivity.
Qed.

(** ** Pass 3 on a block *)

Lemma pass3_not_bol (c : ascii) (i : nat) (s : bytes) :
  Ascii.eqb c newline = false ->
  match_at usb.pass3_re {| prev := Some c; idx := i; rest := s |} = None.
Proof.
  intros H. unfold match_at, usb.pass3_re. cbn [rmatch at_bol_m prev]. rewrite H.
  reflexivity.
Qed.

Lemma pass3_at_end (pv : option ascii) (i : nat) :
  match_at usb.pass3_re {| prev := pv; idx := i; rest := [] |} = None.
Proof.
  unfold match_at, usb.pass3_re. cbn [rmatch]. destruct (at_bol_m _); reflexivity.
Qed.

Lemma block_line_eq (kv : bytes * rhs) :
  block_line kv = (fst kv ++ " " :: "=" :: " " :: render (snd kv))%char.
Proof. reflexivity. Qed.

Lemma line_ok_facts (kv : bytes * rhs) :
  line_ok kv = true -> key_ok (fst kv) = true /\ rhs_ok (snd kv) = true.
Proof. unfold line_ok. intros H. apply andb_true_iff in H. exact H. Qed.

(** The last character of a line is not a newline. *)
Lemma block_line_last (pv : option ascii) (kv : bytes * rhs) :
  line_ok kv = true ->
  exists c, last_or pv (block_line kv) = Some c /\ Ascii.eqb c newline = false.
Proof.
  intros H. apply line_ok_facts in H. destruct H as [_ Hv].
  apply render_raw in Hv. destruct Hv as (Hne & Ha & _).
  rewrite block_line_eq.
  change (fst kv ++ " " :: "=" :: " " :: render (snd kv))%char
    with (fst kv ++ [" "; "="; " "]%char ++ render (snd kv)).
  rewrite !last_or_app.
  destruct (last_or (last_or (last_or pv (fst kv)) [" "; "="; " "]%char) (render (snd kv)))
    as [c|] eqn:E.
  - exists c. split; [reflexivity|]. apply last_or_in in E; [|exact Hne].
    apply (all_in _ _ _ Ha) in E. apply andb_true_iff in E. destruct E as [E _].
    apply printable_not_nl. exact E.
  - exfalso. destruct (render (snd kv)) as [|d w]; [congruence|].
    rewrite last_or_nonempty in E by discriminate.
    clear -E. cbn in E. revert d E. induction w; intros; cbn in *; [discriminate|eauto].
Qed.

Lemma block_line_end (kv : bytes * rhs) (kvs : list (bytes * rhs)) :
  line_ok kv = true -> line_end (nl ++ join nl (map block_line (kv :: kvs))).
Proof.
  intros H. apply line_ok_facts in H. destruct H as [Hk _].
  apply key_ok_word in Hk. destruct Hk as [Hne Hw].
  right. destruct (fst kv) as [|c k] eqn:E; [congruence|].
  assert (is_uspace c = false) as Hc.
  { apply word_not_uspace. inversion Hw; assumption. }
  cbn [map join]. rewrite block_line_eq, E.
  destruct (map block_line kvs); cbn [nl app]; eauto.
Qed.

Lemma pass3_lines (kvs : list (bytes * rhs)) :
  Forall (fun kv => line_ok kv = true) kvs ->
  forall (pv : option ascii) (i : nat),
    at_bol_m {| prev := pv; idx := i; rest := [] |} = true ->
    sub_from usb.pass3_re usb.quote_values_if_string pv i 0 (block kvs) =
    join nl (map out_line kvs).
Proof.
  unfold block. induction kvs as [|kv kvs IH]; intros Hok pv i Hbol.
  - cbn [map join]. apply sub_from_end. apply pass3_at_end.
  - inversion Hok as [|? ? Hkv Hrest]; subst.
    destruct (line_ok_facts kv Hkv) as [Hk Hv].
    assert (Hline : forall tail, line_end tail ->
      sub_from usb.pass3_re usb.quote_values_if_string pv i 0 (block_line kv ++ tail) =
      out_line kv ++
      sub_from usb.pass3_re usb.quote_values_if_string (last_or pv (block_line kv))
        (i + length (block_line kv)) 0 tail).
    { intros tail Ht.
      destruct (pass3_match pv i (fst kv) (render (snd kv)) tail Hbol
                  (key_ok_word _ Hk) (render_raw _ Hv) Ht) as (m & Hm & Hlen & G1 & G2).
      rewrite (sub_from_match _ _ pv i (block_line kv) tail m).
      - f_equal. rewrite (quote_line m (fst kv) (snd kv) Hk Hv G1 G2).
        destruct kv; reflexivity.
      - rewrite block_line_eq, <- app_assoc. exact Hm.
      - exact Hlen.
      - rewrite block_line_eq. destruct (fst kv); discriminate. }
    destruct kvs as [|kv' kvs].
    + cbn [map join]. rewrite <- (app_nil_r (block_line kv)) at 1.
      rewrite Hline by (left; reflexivity).
      rewrite sub_from_end by apply pass3_at_end. apply app_nil_r.
    + change (join nl (map block_line (kv :: kv' :: kvs)))
        with (block_line kv ++ nl ++ join nl (map block_line (kv' :: kvs))).
      change (join nl (map out_line (kv :: kv' :: kvs)))
        with (out_line kv ++ nl ++ join nl (map out_line (kv' :: kvs))).
      inversion Hrest as [|? ? Hkv' _]; subst.
      rewrite Hline by (apply block_line_end; exact Hkv').
      f_equal.
      destruct (block_line_last pv kv Hkv) as (c & -> & Hc).
      cbn [nl app sub_from]. rewrite pass3_not_bol by exact Hc.
      f_equal. apply IH; [exact Hrest|reflexivity].
Qed.

Lemma pass3_block (kvs : list (bytes * rhs)) :
  Forall (fun kv => line_ok kv = true) kvs ->
  re_sub usb.pass3_re usb.quote_values_if_string (block kvs) = join nl (map out_line kvs).
Proof. intros H. unfold re_sub. apply pass3_lines; [exact H|reflexivity]. Qed.

(** ** The passes that leave the text as it is *)

Ltac inv_lang :=
  repeat match goal with
         | H : lang (Seq _ _) _ _ _ |- _ => inversion H; subst; clear H
         | H : lang (Alt _ _) _ _ _ |- _ => inversion H; subst; clear H
         | H : lang (Group _ _) _ _ _ |- _ => inversion H; subst; clear H
         | H : lang (Lit _) _ _ _ |- _ => inversion H; subst; clear H
         | H : lang (Cls _) _ _ _ |- _ => inversion H; subst; clear H
         | H : lang (Rep _ _ _) _ _ _ |- _ => inversion H; subst; clear H
         | H : lang Eps _ _ _ |- _ => inversion H; subst; clear H
         | H : lang BolM _ _ _ |- _ => inversion H; subst; clear H
         | H : lang EolM _ _ _ |- _ => inversion H; subst; clear H
         end.

(** The characters of the lines, before and after pass 3. *)
Definition out_char (c : ascii) : bool :=
  printable c && not_in ["{"; "["; "}"; "]"]%char c.

Lemma all_join (p : ascii -> bool) (sep : bytes) (ls : list bytes) :
  all p sep -> Forall (all p) ls -> all p (join sep ls).
Proof.
  intros Hsep H. induction H as [|l ls Hl Hls IH]; [constructor|].
  destruct ls as [|l' ls]; [exact Hl|].
  change (join sep (l :: l' :: ls)) with (l ++ sep ++ join sep (l' :: ls)).
  apply all_app; [exact Hl|]. apply all_app; [exact Hsep|exact IH].
Qed.

Lemma text_out_char (c : ascii) : text_char c = true -> out_char c = true.
Proof. intros H. revert H. ascii_cases c. Qed.

Lemma word_out_char (c : ascii) : is_word c = true -> out_char c = true.
Proof. intros H. revert H. ascii_cases c. Qed.

Lemma scalar_out_char (c : ascii) : scalar_char c = true -> out_char c = true.
Proof. intros H. revert H. ascii_cases c. Qed.

Lemma out_char_printable (c : ascii) : out_char c = true -> printable c = true.
Proof. unfold out_char. intros H. apply andb_true_iff in H. tauto. Qed.

Lemma render_out_char (v : rhs) : rhs_ok v = true -> all out_char (render v).
Proof.
  intros Hok. destruct v as [| | |neg ds fs|s].
  1-4: match goal with |- all _ (render ?v) =>
         destruct (render_scalar v Hok) as [Ha _]; [discriminate|];
         eapply all_impl; [|exact Ha]; apply scalar_out_char
       end.
  cbn in *. apply text_ok_facts in Hok. destruct Hok as (Ha & _).
  eapply all_impl; [|exact Ha]. apply text_out_char.
Qed.

Lemma block_line_chars (kv : bytes * rhs) : line_ok kv = true -> all out_char (block_line kv).
Proof.
  intros H. apply line_ok_facts in H. destruct H as [Hk Hv].
  apply key_ok_word in Hk. destruct Hk as [_ Hk].
  unfold block_line. apply all_app; [eapply all_impl; [|exact Hk]; apply word_out_char|].
  apply all_app; [repeat constructor|]. apply render_out_char. exact Hv.
Qed.

Lemma replace_go_chars (p : ascii -> bool) (old new : bytes) (s : bytes) :
  all p new -> all p s -> forall n, all p (replace_go old new n s).
Proof.
  intros Hnew Hs. induction Hs as [|c s Hc Hs IH]; intros n; [constructor|].
  cbn [replace_go]. destruct n; [|apply IH].
  destruct (startswith old (c :: s)).
  - apply all_app; [exact Hnew|apply IH].
  - constructor; [exact Hc|apply IH].
Qed.

Lemma out_line_chars (kv : bytes * rhs) : line_ok kv = true -> all out_char (out_line kv).
Proof.
  intros H. apply line_ok_facts in H. destruct H as [Hk Hv].
  apply key_ok_word in Hk. destruct Hk as [_ Hk].
  unfold out_line. constructor; [reflexivity|].
  apply all_app; [eapply all_impl; [|exact Hk]; apply word_out_char|].
  repeat (constructor; [reflexivity|]).
  destruct (snd kv) as [| | |neg ds fs|s] eqn:E.
  1-4: rewrite <- E in *; replace (out_value (snd kv)) with (render (snd kv))
         by (rewrite E; reflexivity); apply render_out_char; exact Hv.
  cbn [out_value]. constructor; [reflexivity|].
  apply all_app; [|repeat constructor].
  apply replace_go_chars; [repeat constructor|].
  apply (render_out_char (RText s)). exact Hv.
Qed.

(** In a text that has none of the characters of a class, a pattern that
    needs one has no match. *)
Lemma all_split_in (p : ascii -> bool) (u1 w u2 : bytes) (c : ascii) :
  all p (u1 ++ w ++ u2) -> In c w -> p c = true.
Proof.
  intros H Hc. eapply all_in; [exact H|]. apply in_or_app. right. apply in_or_app.
  left. exact Hc.
Qed.

Definition line_or_nl (c : ascii) : bool := out_char c || Ascii.eqb c newline.

Lemma block_chars (kvs : list (bytes * rhs)) :
  Forall (fun kv => line_ok kv = true) kvs -> all line_or_nl (block kvs).
Proof.
  intros H. unfold block. apply all_join; [repeat constructor|].
  apply Forall_map. eapply Forall_impl; [exact H|]. intros kv Hkv. cbn.
  eapply all_impl; [|apply block_line_chars; exact Hkv].
  intros c Hc. unfold line_or_nl. rewrite Hc. reflexivity.
Qed.

Lemma pass1_block (kvs : list (bytes * rhs)) :
  Forall (fun kv => line_ok kv = true) kvs ->
  re_sub usb.pass1_re (fun _ => b"}, {") (block kvs) = block kvs.
Proof.
  intros H. apply re_sub_id. intros u1 w u2 E HL.
  unfold usb.pass1_re, Star in HL. inv_lang.
  pose proof (block_chars kvs H) as Hc. rewrite E in Hc.
  assert (line_or_nl "}" = true) as X; [|discriminate X].
  eapply all_split_in; [exact Hc|]. left. reflexivity.
Qed.

(** *** The beginnings of lines *)

Definition bol (pv : option ascii) : Prop :=
  at_bol_m {| prev := pv; idx := 0; rest := [] |} = true.

Lemma bol_inside (l : bytes) (u1 : bytes) :
  all printable l -> u1 <> [] -> (exists z, l = u1 ++ z) -> ~ bol (last_or None u1).
Proof.
  intros Hl Hne [z ->] Hb. unfold bol, at_bol_m in Hb. cbn [prev] in Hb.
  destruct (last_or None u1) as [c|] eqn:E.
  - apply last_or_in in E; [|exact Hne].
    assert (printable c = true) as Hp.
    { eapply all_in; [exact Hl|]. apply in_or_app. left. exact E. }
    apply printable_not_nl in Hp. congruence.
  - destruct u1 as [|d u1]; [congruence|]. clear -E. cbn in E.
    revert d E. induction u1; intros; cbn in *; [discriminate|eauto].
Qed.

(** At the beginning of a line of a text made of lines, what follows begins
    with one of the lines. *)
Lemma join_line_start (ls : list bytes) :
  Forall (all printable) ls -> ls <> [] ->
  forall u1 u2, join nl ls = u1 ++ u2 -> bol (last_or None u1) ->
  exists l t, In l ls /\ u2 = l ++ t.
Proof.
  intros H. induction H as [|l ls Hl Hls IH]; intros Hne u1 u2 E Hb; [congruence|].
  destruct u1 as [|c0 u1'].
  { cbn [app] in E. subst u2. destruct ls as [|l' ls].
    - exists l, []. split; [left; reflexivity|]. cbn. rewrite app_nil_r. reflexivity.
    - exists l, (nl ++ join nl (l' :: ls)). split; [left; reflexivity|reflexivity]. }
  remember (c0 :: u1') as u1 eqn:Eu.
  assert (u1 <> []) as Hu1 by (subst; discriminate).
  destruct ls as [|l' ls].
  - cbn [join] in E. exfalso. apply (bol_inside l u1 Hl Hu1); [exists u2; exact E|exact Hb].
  - change (join nl (l :: l' :: ls)) with (l ++ nl ++ join nl (l' :: ls)) in E.
    symmetry in E. apply app_eq_app in E. destruct E as [z [[E1 E2]|[E1 E2]]].
    + destruct z as [|d z].
      * rewrite app_nil_r in E1. exfalso. apply (bol_inside l u1 Hl Hu1).
        { exists []. rewrite app_nil_r. symmetry. exact E1. }
        exact Hb.
      * cbn [nl app] in E2. injection E2 as <- E2.
        destruct (IH ltac:(discriminate) z u2 E2) as (l0 & t & Hin & Hu2).
        { rewrite E1 in Hb. rewrite last_or_app in Hb. cbn [last_or] in Hb.
          destruct z as [|e z]; [reflexivity|]. exact Hb. }
        exists l0, t. split; [right; exact Hin|exact Hu2].
    + (* the position is inside the first line *)
      exfalso. apply (bol_inside l u1 Hl Hu1); [exists z; exact E1|exact Hb].
Qed.

Lemma block_line_start (kvs : list (bytes * rhs)) :
  Forall (fun kv => line_ok kv = true) kvs ->
  forall u1 u2, block kvs = u1 ++ u2 -> bol (last_or None u1) -> u2 <> [] ->
  exists kv t, line_ok kv = true /\ u2 = block_line kv ++ t.
Proof.
  intros H u1 u2 E Hb Hne. destruct kvs as [|kv0 kvs].
  { cbn in E. destruct u1; [|discriminate]. cbn in E. congruence. }
  assert (Forall (all printable) (map block_line (kv0 :: kvs))) as Hp.
  { apply Forall_map. eapply Forall_impl; [exact H|]. intros kv Hkv. cbn.
    eapply all_impl; [|apply block_line_chars; exact Hkv]. apply out_char_printable. }
  destruct (join_line_start _ Hp ltac:(discriminate) u1 u2 E Hb) as (l & t & Hin & Hu2).
  apply in_map_iff in Hin. destruct Hin as (kv & <- & Hin).
  exists kv, t. split; [|exact Hu2].
  rewrite List.Forall_forall in H. apply H. exact Hin.
Qed.

Lemma out_line_start (kvs : list (bytes * rhs)) :
  Forall (fun kv => line_ok kv = true) kvs ->
  forall u1 u2, join nl (map out_line kvs) = u1 ++ u2 -> bol (last_or None u1) ->
  u2 <> [] -> exists t, u2 = dq :: t.
Proof.
  intros H u1 u2 E Hb Hne. destruct kvs as [|kv0 kvs].
  { cbn in E. destruct u1; [|discriminate]. cbn in E. congruence. }
  assert (Forall (all printable) (map out_line (kv0 :: kvs))) as Hp.
  { apply Forall_map. eapply Forall_impl; [exact H|]. intros kv Hkv. cbn.
    eapply all_impl; [|apply out_line_chars; exact Hkv]. apply out_char_printable. }
  destruct (join_line_start _ Hp ltac:(discriminate) u1 u2 E Hb) as (l & t & Hin & Hu2).
  apply in_map_iff in Hin. destruct Hin as (kv & <- & Hin).
  rewrite Hu2. unfold out_line. cbn [app]. eauto.
Qed.

(** *** Passes 4 and 5: after pass 3 every line begins with a quote *)

Lemma key_prefix_block (r : regex) (repl : rmatch_result -> bytes)
    (kvs : list (bytes * rhs)) :
  Forall (fun kv => line_ok kv = true) kvs ->
  re_sub (BolM +++ Star is_uspace +++ Group 1 (Plus usb.key_char) +++ r) repl
    (join nl (map out_line kvs)) = join nl (map out_line kvs).
Proof.
  intros H. apply re_sub_id. intros u1 w u2 E HL.
  unfold Star, Plus in HL.
  inversion HL as [| | | |r1 r2 pv' x1 y1 s' L1 L2| | | | | | | | |]; subst; clear HL.
  inversion L1 as [| | | | | | | | |? ? Hb| | | |]; subst; clear L1.
  inversion L2 as [| | | |r1 r2 pv' x2 y2 s' L3 L4| | | | | | | | |]; subst; clear L2.
  inversion L3 as [| | |? ? ? ? ? ? Hws _| | | | | | | | | |]; subst; clear L3.
  inversion L4 as [| | | |r1 r2 pv' x3 y3 s' L5 L6| | | | | | | | |]; subst; clear L4.
  inversion L5 as [| | | | | | |? ? ? ? ? L7| | | | | |]; subst; clear L5.
  inversion L7 as [| | |? ? ? ? ? ? Hg Hlen| | | | | | | | | |]; subst; clear L7.
  cbn [app] in *.
  destruct (out_line_start kvs H u1 ((x2 ++ x3 ++ y3) ++ u2) E) as [t Ht].
  - exact Hb.
  - destruct x3; [cbn in Hlen; lia|]. destruct x2; discriminate.
  - destruct x2 as [|c x2].
    + destruct x3 as [|c x3]; [cbn in Hlen; lia|]. cbn in Ht. injection Ht as -> _.
      inversion Hg as [|? ? Hc _]; subst. discriminate Hc.
    + cbn in Ht. injection Ht as -> _. inversion Hws as [|? ? Hc _]; subst.
      discriminate Hc.
Qed.

Lemma pass4_block (kvs : list (bytes * rhs)) :
  Forall (fun kv => line_ok kv = true) kvs ->
  re_sub usb.pass4_re usb.quoted_key_template (join nl (map out_line kvs)) =
  join nl (map out_line kvs).
Proof. intros H. unfold usb.pass4_re. apply key_prefix_block. exact H. Qed.

Lemma pass5_block (kvs : list (bytes * rhs)) :
  Forall (fun kv => line_ok kv = true) kvs ->
  re_sub usb.pass5_re usb.quoted_key_template (join nl (map out_line kvs)) =
  join nl (map out_line kvs).
Proof. intros H. unfold usb.pass5_re. apply key_prefix_block. exact H. Qed.

(** *** Pass 7: no closing brace or bracket in the text *)

Definition comma_nl : bytes := ","%char :: nl.

Lemma pass7_block (kvs : list (bytes * rhs)) :
  Forall (fun kv => line_ok kv = true) kvs ->
  re_sub usb.pass7_re (fun m => group_or_empty m 1) (join comma_nl (map out_line kvs)) =
  join comma_nl (map out_line kvs).
Proof.
  intros H. apply re_sub_id. intros u1 w u2 E HL.
  unfold usb.pass7_re, Star in HL. inv_lang.
  assert (all line_or_nl (join comma_nl (map out_line kvs))) as Hc.
  { apply all_join; [repeat constructor|].
    apply Forall_map. eapply Forall_impl; [exact H|]. intros kv Hkv. cbn.
    eapply all_impl; [|apply out_line_chars; exact Hkv].
    intros c' Hc'. unfold line_or_nl. rewrite Hc'. reflexivity. }
  rewrite E in Hc.
  match goal with
  | X : one_of _ ?c = true |- _ =>
      assert (line_or_nl c = true) as Hl;
      [eapply all_split_in; [exact Hc|];
       apply in_or_app; right; apply in_or_app; right; left; reflexivity|];
      revert X Hl; clear; ascii_cases c
  end.
Qed.

(** *** Pass 2: a line begins with a key, which begins no scalar *)

Lemma lang_scalar_head (pv : option ascii) (x s : bytes) :
  lang usb.scalar_re pv x s ->
  x = b"true" \/ x = b"false" \/ x = b"null" \/
  exists c x', x = c :: x' /\ (c = "-"%char \/ is_digit c = true).
Proof.
  intros HL. unfold usb.scalar_re, usb.number_re, Opt, Plus, Star in HL.
  inversion HL as [| | | | |? ? ? ? ? L|? ? ? ? ? L| | | | | | |]; subst; clear HL.
  { inv_lang. auto. }
  inversion L as [| | | | |? ? ? ? ? L1|? ? ? ? ? L1| | | | | | |]; subst; clear L.
  { inv_lang. auto. }
  inversion L1 as [| | | | |? ? ? ? ? L2|? ? ? ? ? L2| | | | | | |]; subst; clear L1.
  { inv_lang. auto. }
  right. right. right.
  inversion L2 as [| | | |r1 r2 pv' x1 y1 s' L3 L4| | | | | | | | |]; subst; clear L2.
  inversion L4 as [| | | |r1 r2 pv' x2 y2 s' L5 L6| | | | | | | | |]; subst; clear L4.
  inversion L5 as [| | |? ? ? ? ? ? Hd Hlen| | | | | | | | | |]; subst; clear L5.
  inversion L3 as [| | | | |? ? ? ? ? L|? ? ? ? ? L| | | | | | |]; subst; clear L3.
  - inversion L; subst. cbn. eauto.
  - inversion L; subst. cbn [app].
    destruct x2 as [|d x2]; [cbn in Hlen; lia|].
    inversion Hd; subst. cbn. eauto.
Qed.

Lemma prefix_word (x u k t : bytes) :
  x ++ u = k ++ " "%char :: t -> all is_word x -> startswith x k = true.
Proof.
  revert k. induction x as [|a x IH]; intros k E Hx; [reflexivity|].
  inversion Hx as [|? ? Ha Hx']; subst.
  destruct k as [|c k]; cbn in E; injection E as -> E.
  - discriminate Ha.
  - cbn. rewrite Ascii.eqb_refl. cbn. eapply IH; eauto.
Qed.

Lemma key_no_scalar (pv : option ascii) (x u : bytes) (kv : bytes * rhs) (t : bytes) :
  line_ok kv = true -> lang usb.scalar_re pv x u -> x ++ u = block_line kv ++ t -> False.
Proof.
  intros Hkv HL E. apply line_ok_facts in Hkv. destruct Hkv as [Hk _].
  rewrite block_line_eq, <- app_assoc in E. cbn [app] in E.
  unfold key_ok in Hk. apply andb_true_iff in Hk. destruct Hk as [Hk Hkw].
  apply andb_true_iff in Hk. destruct Hk as [Hd Hw].
  apply negb_true_iff in Hkw. cbn [existsb] in Hkw.
  apply orb_false_iff in Hkw. destruct Hkw as [K1 Hkw].
  apply orb_false_iff in Hkw. destruct Hkw as [K2 Hkw].
  apply orb_false_iff in Hkw. destruct Hkw as [K3 _].
  destruct (lang_scalar_head _ _ _ HL) as [->|[->|[->|(c & x' & -> & Hc)]]].
  - apply prefix_word in E; [congruence|repeat constructor].
  - apply prefix_word in E; [congruence|repeat constructor].
  - apply prefix_word in E; [congruence|repeat constructor].
  - destruct (fst kv) as [|c0 k]; [discriminate|]. cbn in E. injection E as <- _.
    apply all_forallb in Hw. inversion Hw as [|? ? Hc0 _]; subst.
    destruct Hc as [->|Hc]; [discriminate Hc0|].
    rewrite Hc in Hd. discriminate.
Qed.

Lemma pass2_block (kvs : list (bytes * rhs)) (repl : rmatch_result -> bytes) :
  Forall (fun kv => line_ok kv = true) kvs ->
  re_sub usb.pass2_re repl (block kvs) = block kvs.
Proof.
  intros H. apply re_sub_id. intros u1 w u2 E HL.
  unfold usb.pass2_re, Star in HL.
  inversion HL as [| | | |r1 r2 pv' x1 y1 s' L1 L2| | | | | | | | |]; subst; clear HL.
  inversion L2 as [| | | |r1 r2 pv' x2 y2 s' L3 L4| | | | | | | | |]; subst; clear L2.
  inversion L4 as [| | | |r1 r2 pv' x3 y3 s' L5 L6| | | | | | | | |]; subst; clear L4.
  inversion L6 as [| | | |r1 r2 pv' x4 y4 s' L7 L8| | | | | | | | |]; subst; clear L6.
  inversion L5; subst; clear L5.
  inversion L7 as [| | |? ? ? ? ? ? Hws _| | | | | | | | | |]; subst; clear L7.
  inversion L8 as [| | | | | | |? ? ? ? ? L9| | | | | |]; subst; clear L8.
  assert (y4 <> []) as Hy4.
  { destruct (lang_scalar_head _ _ _ L9) as [->|[->|[->|(c & x' & -> & _)]]]; discriminate. }
  assert (E' : block kvs = (u1 ++ x1 ++ x2 ++ nl) ++ (x4 ++ y4 ++ u2)).
  { rewrite E. rewrite <- !app_assoc. reflexivity. }
  destruct (block_line_start kvs H _ _ E') as (kv & t & Hkv & Ht).
  - rewrite !app_assoc. unfold nl. rewrite last_or_snoc. reflexivity.
  - destruct x4; [destruct y4; [congruence|discriminate]|discriminate].
  - destruct x4 as [|c x4].
    + cbn [app] in Ht. eapply key_no_scalar; eauto.
    + (* white space at the beginning of a line *)
      apply line_ok_facts in Hkv. destruct Hkv as [Hk _].
      apply key_ok_word in Hk. destruct Hk as [Hne Hw].
      rewrite block_line_eq in Ht. destruct (fst kv) as [|c0 k]; [congruence|].
      cbn in Ht. injection Ht as -> _.
      inversion Hws as [|? ? Hc _]; subst. inversion Hw as [|? ? Hc0 _]; subst.
      apply word_not_uspace in Hc0. congruence.
Qed.

(** ** Pass 6: a comma at the end of every line but the last *)

(** A line after pass 3, without its first quote, is cut before its last
    token: the closing quote of a text, or the keyword or number. *)
Definition pre_line (kv : bytes * rhs) : bytes :=
  fst kv ++ [dq; ":"; " "]%char ++
  match snd kv with
  | RText s => dq :: escape_quotes s
  | _ => []
  end.

Definition last_token (kv : bytes * rhs) : bytes :=
  match snd kv with
  | RText _ => [dq]
  | v => render v
  end.

Definition body_line (kv : bytes * rhs) : bytes := pre_line kv ++ last_token kv.

Lemma out_line_body (kv : bytes * rhs) : out_line kv = dq :: body_line kv.
Proof.
  unfold out_line, body_line, pre_line, last_token. f_equal.
  rewrite <- !app_assoc. f_equal. cbn [app]. do 3 f_equal.
  destruct (snd kv); cbn [out_value]; reflexivity.
Qed.

Lemma join_cons (c : ascii) (sep : bytes) (ls : list bytes) :
  ls <> [] -> join sep (map (cons c) ls) = c :: join (sep ++ [c]) ls.
Proof.
  induction ls as [|l ls IH]; intros Hne; [congruence|].
  destruct ls as [|l' ls]; [reflexivity|].
  change (join sep (map (cons c) (l :: l' :: ls)))
    with ((c :: l) ++ sep ++ join sep (map (cons c) (l' :: ls))).
  change (join (sep ++ [c]) (l :: l' :: ls))
    with (l ++ (sep ++ [c]) ++ join (sep ++ [c]) (l' :: ls)).
  rewrite IH by discriminate. cbn [app]. f_equal. f_equal.
  rewrite <- app_assoc. reflexivity.
Qed.

(** *** Where pass 6 cannot match *)

Lemma lang_scalar_chars (pv : option ascii) (x s : bytes) :
  lang usb.scalar_re pv x s -> all scalar_char x.
Proof.
  intros HL. unfold usb.scalar_re, usb.number_re, Opt, Plus, Star in HL.
  inversion HL as [| | | | |? ? ? ? ? L|? ? ? ? ? L| | | | | | |]; subst; clear HL.
  { inv_lang. repeat constructor. }
  inversion L as [| | | | |? ? ? ? ? L1|? ? ? ? ? L1| | | | | | |]; subst; clear L.
  { inv_lang. repeat constructor. }
  inversion L1 as [| | | | |? ? ? ? ? L2|? ? ? ? ? L2| | | | | | |]; subst; clear L1.
  { inv_lang. repeat constructor. }
  assert (Hdig : forall w, Forall (fun c => is_digit c = true) w -> all scalar_char w).
  { intros w Hw. eapply all_impl; [|exact Hw]. intros c Hc. unfold scalar_char.
    rewrite Hc. rewrite orb_true_r. reflexivity. }
  inv_lang; repeat apply all_app; auto; repeat constructor.
Qed.

Definition not_nl (c : ascii) : bool := negb (Ascii.eqb c newline).

Lemma printable_not_nl' (c : ascii) : printable c = true -> not_nl c = true.
Proof. intros H. unfold not_nl. rewrite printable_not_nl by exact H. reflexivity. Qed.

Lemma first_nl (x l y z : bytes) :
  all not_nl x -> all not_nl l -> x ++ newline :: y = l ++ newline :: z -> x = l.
Proof.
  revert l. induction x as [|a x IH]; intros l Hx Hl E.
  - destruct l as [|c l]; [reflexivity|]. cbn in E. injection E as <- _.
    inversion Hl as [|? ? Hc _]; subst. discriminate Hc.
  - inversion Hx as [|? ? Ha Hx']; subst. destruct l as [|c l].
    + cbn in E. injection E as -> _. discriminate Ha.
    + cbn in E. injection E as -> E. inversion Hl; subst. f_equal. eapply IH; eauto.
Qed.

(** A run of characters up to its first newline. *)
Lemma cut_at_nl (w : bytes) :
  all not_nl w \/ exists a c, w = a ++ newline :: c /\ all not_nl a.
Proof.
  induction w as [|d w IH]; [left; constructor|].
  destruct (Ascii.eqb d newline) eqn:E.
  - apply Ascii.eqb_eq in E. subst. right. exists [], w. split; [reflexivity|constructor].
  - destruct IH as [IH|(a & c & -> & Ha)].
    + left. constructor; [unfold not_nl; rewrite E; reflexivity|exact IH].
    + right. exists (d :: a), c. split; [reflexivity|].
      constructor; [unfold not_nl; rewrite E; reflexivity|exact Ha].
Qed.

Lemma all_app_l (p : ascii -> bool) (x y : bytes) : all p (x ++ y) -> all p x.
Proof. unfold all. rewrite Forall_app. tauto. Qed.

Lemma all_app_r (p : ascii -> bool) (x y : bytes) : all p (x ++ y) -> all p y.
Proof. unfold all. rewrite Forall_app. tauto. Qed.

(** The text matched by pass 6 begins with the whole rest of the line. *)
Lemma pass6_shape (pv : option ascii) (w s l after : bytes) :
  lang usb.pass6_re pv w s -> all printable l ->
  l ++ newline :: after = w ++ s ->
  exists x a, l = x ++ a /\ all is_uspace a /\
    ((exists c, x = [c]) \/ all scalar_char x).
Proof.
  intros HL Hl E. unfold usb.pass6_re, Star in HL.
  inversion HL as [| | | |r1 r2 pv' x1 y1 s' L1 L2| | | | | | | | |]; subst; clear HL.
  inversion L2 as [| | | |r1 r2 pv' x2 y2 s' L3 L4| | | | | | | | |]; subst; clear L2.
  inversion L4 as [| | | |r1 r2 pv' x3 y3 s' L5 L6| | | | | | | | |]; subst; clear L4.
  inversion L5; subst; clear L5. clear L6.
  inversion L3 as [| | |? ? ? ? ? ? Hws _| | | | | | | | | |]; subst; clear L3.
  inversion L1 as [| | | | | | |? ? ? ? ? L7| | | | | |]; subst; clear L1.
  assert (Hx : ((exists c, x1 = [c]) \/ all scalar_char x1) /\ all not_nl x1).
  { inversion L7 as [| | | | |? ? ? ? ? L|? ? ? ? ? L| | | | | | |]; subst; clear L7.
    - inversion L as [| |? ? c ? Hc| | | | | | | | | | |]; subst. split; [eauto|].
      constructor; [|constructor]. revert Hc. clear. ascii_cases c.
    - apply lang_scalar_chars in L. split; [auto|]. eapply all_impl; [|exact L].
      intros c Hc. apply printable_not_nl'. apply scalar_char_facts in Hc.
      destruct Hc as (Hc & _). apply andb_true_iff in Hc. tauto. }
  destruct Hx as [Hx Hxn].
  assert (Hln : all not_nl l).
  { eapply all_impl; [|exact Hl]. apply printable_not_nl'. }
  unfold nl in E. rewrite <- !app_assoc in E. cbn [app] in E.
  destruct (cut_at_nl x2) as [Hn|(a & c & -> & Ha)].
  - exists x1, x2. split; [|split; [exact Hws|exact Hx]].
    rewrite app_assoc in E. apply first_nl in E; auto. apply all_app; assumption.
  - exists x1, a. split; [|split; [apply (all_app_l _ _ _ Hws)|exact Hx]].
    rewrite <- !app_assoc in E. cbn [app] in E. rewrite app_assoc in E.
    apply first_nl in E; auto. apply all_app; assumption.
Qed.

(** No match of pass 6 begins before the last token of a line. *)
Lemma pass6_no_match (u tok after : bytes) (pv : option ascii) (i : nat) :
  all printable (u ++ tok) -> tok <> [] ->
  (forall c, last_or None tok = Some c -> is_uspace c = false) ->
  (forall u1 c u2, u = u1 ++ c :: u2 -> ~ all scalar_char (c :: u2 ++ tok)) ->
  after = [] \/ (exists t, after = newline :: t) ->
  forall u1 c u2, u = u1 ++ c :: u2 ->
    match_at usb.pass6_re (consume pv i u1 (c :: u2 ++ tok ++ after)) = None.
Proof.
  intros Hp Hne Hlast Hbad Hafter u1 c u2 Eu. subst u.
  apply match_at_none. rewrite consume_rest. intros w s E HL.
  destruct Hafter as [->|[t ->]].
  - (* no newline is left *)
    rewrite app_nil_r in E.
    unfold usb.pass6_re, Star in HL.
    inversion HL as [| | | |r1 r2 pv' x1 y1 s' L1 L2| | | | | | | | |]; subst; clear HL.
    inversion L2 as [| | | |r1 r2 pv' x2 y2 s' L3 L4| | | | | | | | |]; subst; clear L2.
    inversion L4 as [| | | |r1 r2 pv' x3 y3 s' L5 L6| | | | | | | | |]; subst; clear L4.
    inversion L5; subst; clear L5.
    assert (In newline (c :: u2 ++ tok)) as Hin.
    { rewrite E. apply in_or_app. left. apply in_or_app. right. apply in_or_app. right.
      apply in_or_app. left. left. reflexivity. }
    assert (printable newline = true) as X; [|discriminate X].
    eapply all_in; [exact Hp|]. rewrite <- app_assoc. apply in_or_app. right. exact Hin.
  - assert (Hl : all printable (c :: u2 ++ tok)).
    { rewrite <- app_assoc in Hp. apply all_app_r in Hp. exact Hp. }
    change (c :: u2 ++ tok ++ newline :: t) with ((c :: u2) ++ tok ++ newline :: t) in E.
    rewrite app_assoc in E.
    destruct (pass6_shape _ _ _ _ _ HL Hl E) as (x & a & El & Ha & Hx).
    assert (a = []) as ->.
    { destruct a as [|d a]; [reflexivity|]. exfalso.
      assert (exists e, last_or None (c :: u2 ++ tok) = Some e /\ is_uspace e = true)
        as (e & He & Hue).
      { rewrite El. rewrite last_or_app.
        destruct (last_or (last_or None x) (d :: a)) as [e|] eqn:Ee.
        - exists e. split; [reflexivity|]. apply last_or_in in Ee; [|discriminate].
          eapply all_in; eauto.
        - exfalso. clear -Ee. revert Ee. generalize (last_or None x). cbn.
          generalize d. induction a; intros; cbn in *; [discriminate|eauto]. }
      change (c :: u2 ++ tok) with ((c :: u2) ++ tok) in He.
      rewrite last_or_app in He. rewrite last_or_nonempty in He by exact Hne.
      apply Hlast in He. congruence. }
    rewrite app_nil_r in El. cbn [app] in El. destruct Hx as [[d Hd]|Hx].
    + rewrite Hd in El. injection El as _ El. destruct u2; destruct tok; try discriminate.
      congruence.
    + rewrite <- El in Hx. exact (Hbad u1 c u2 eq_refl Hx).
Qed.

(** *** Where pass 6 matches: at the last token of a line that is followed
    by another line *)

Lemma lit_match {R : Type} (l s : bytes) (pv : option ascii) (i : nat) (cs : captures)
    (k : cursor -> captures -> option R) :
  rmatch (Lit l) {| prev := pv; idx := i; rest := l ++ s |} cs k =
  k {| prev := last_or pv l; idx := i + length l; rest := s |} cs.
Proof.
  cbn [rmatch].
  rewrite (advance_by_consume l {| prev := pv; idx := i; rest := l ++ s |} s eq_refl).
  cbn [prev idx].
  rewrite consume_eq. reflexivity.
Qed.

Lemma alt_first {R : Type} (r1 r2 : regex) (cu : cursor) (cs : captures)
    (k : cursor -> captures -> option R) (res : R) :
  rmatch r1 cu cs k = Some res -> rmatch (r1 <|> r2) cu cs k = Some res.
Proof. intros H. cbn [rmatch]. rewrite H. reflexivity. Qed.

Lemma alt_second {R : Type} (r1 r2 : regex) (cu : cursor) (cs : captures)
    (k : cursor -> captures -> option R) :
  rmatch r1 cu cs k = None -> rmatch (r1 <|> r2) cu cs k = rmatch r2 cu cs k.
Proof. intros H. cbn [rmatch]. rewrite H. reflexivity. Qed.

Lemma cls_fail {R : Type} (p : ascii -> bool) (c : ascii) (s : bytes)
    (pv : option ascii) (i : nat) (cs : captures) (k : cursor -> captures -> option R) :
  p c = false -> rmatch (Cls p) {| prev := pv; idx := i; rest := c :: s |} cs k = None.
Proof. intros H. cbn [rmatch rest]. rewrite H. reflexivity. Qed.

Lemma rmatch_group {R : Type} (n : nat) (r : regex) (cu : cursor) (cs : captures)
    (k : cursor -> captures -> option R) :
  rmatch (Group n r) cu cs k =
  rmatch r cu cs (fun cu' cs' => k cu' ((n, take (idx cu' - idx cu) (rest cu)) :: cs')).
Proof. reflexivity. Qed.

Lemma pass6_tail {R : Type} (pv : option ascii) (i : nat) (t : bytes) (cs : captures)
    (k : cursor -> captures -> option R) :
  rmatch (Star is_uspace +++ Lit nl +++ Star is_uspace +++ Lit [dq])
    {| prev := pv; idx := i; rest := newline :: dq :: t |} cs k =
  k {| prev := Some dq; idx := S (S i); rest := t |} cs.
Proof. reflexivity. Qed.

(** The first character of a number. *)
Lemma number_head (neg : bool) (ds : bytes) (fs : option bytes) :
  all is_digit ds -> ds <> [] ->
  exists c t, sign neg ++ ds ++ frac fs = c :: t /\ scalar_char c = true /\
    is_alpha c = false.
Proof.
  intros Hd Hne. destruct neg; cbn [sign app].
  - eauto.
  - destruct ds as [|d ds]; [congruence|]. inversion Hd as [|? ? Hc _]; subst.
    exists d, (ds ++ frac fs). split; [reflexivity|]. revert Hc. clear.
    ascii_cases d; intros _; split; reflexivity.
Qed.

Lemma not_alpha_not (c d : ascii) :
  is_alpha d = false -> is_alpha c = true -> Ascii.eqb c d = false.
Proof.
  intros Hd Hc. destruct (Ascii.eqb c d) eqn:E; [|reflexivity].
  apply Ascii.eqb_eq in E. subst. congruence.
Qed.

Definition closer : ascii -> bool := one_of [dq; "}"; "]"]%char.

Lemma scalar_not_closer (c : ascii) : scalar_char c = true -> closer c = false.
Proof. intros H. revert H. ascii_cases c. Qed.

(** The first group of pass 6 on the last token of a line. *)
Lemma token_match {R : Type} (kv : bytes * rhs) (s : bytes) (pv : option ascii)
    (i : nat) (cs : captures) (k : cursor -> captures -> option R) (res : R) :
  line_ok kv = true -> stops_number s ->
  k {| prev := last_or pv (last_token kv); idx := i + length (last_token kv);
       rest := s |} cs = Some res ->
  rmatch (Cls closer <|> usb.scalar_re)
    {| prev := pv; idx := i; rest := last_token kv ++ s |} cs k = Some res.
Proof.
  intros Hkv Hs Hk. apply line_ok_facts in Hkv. destruct Hkv as [_ Hv].
  unfold last_token in *. destruct (snd kv) as [| | |neg ds fs|t].
  - rewrite alt_second by reflexivity. unfold usb.scalar_re.
    apply alt_first. cbn [render]. rewrite lit_match. exact Hk.
  - rewrite alt_second by reflexivity. unfold usb.scalar_re.
    rewrite alt_second by reflexivity.
    apply alt_first. cbn [render]. rewrite lit_match. exact Hk.
  - rewrite alt_second by reflexivity. unfold usb.scalar_re.
    rewrite alt_second by reflexivity. rewrite alt_second by reflexivity.
    apply alt_first. cbn [render]. rewrite lit_match. exact Hk.
  - cbn in Hv. apply andb_true_iff in Hv. destruct Hv as [Hd Hf].
    apply int_part_digits in Hd. destruct Hd as [Hd Hdne]. apply frac_part_digits in Hf.
    cbn [render] in *.
    destruct (number_head neg ds fs Hd Hdne) as (c & t & E & Hc & Ha).
    rewrite alt_second.
    2:{ rewrite E. cbn [app]. apply cls_fail. apply scalar_not_closer. exact Hc. }
    unfold usb.scalar_re.
    rewrite alt_second.
    2:{ rewrite E. apply lit_head_fail. cbn [app]. apply not_alpha_not; auto. }
    rewrite alt_second.
    2:{ rewrite E. apply lit_head_fail. cbn [app]. apply not_alpha_not; auto. }
    rewrite alt_second.
    2:{ rewrite E. apply lit_head_fail. cbn [app]. apply not_alpha_not; auto. }
    apply usb_number_match; auto.
  - apply alt_first. cbn [app rmatch rest]. change (closer dq) with true. cbn iota.
    unfold advance. cbn [idx length last_or] in *.
    replace (S i) with (i + 1)%nat by lia. exact Hk.
Qed.

Lemma pass6_match (kv : bytes * rhs) (pv : option ascii) (i : nat) (t : bytes) :
  line_ok kv = true ->
  exists m,
    match_at usb.pass6_re
      {| prev := pv; idx := i; rest := (last_token kv ++ [newline; dq]) ++ t |} = Some m /\
    (m_end m - m_start m)%nat = length (last_token kv ++ [newline; dq]) /\
    group_or_empty m 1 = last_token kv.
Proof.
  intros Hkv. unfold match_at, usb.pass6_re. rewrite rmatch_seq, rmatch_group.
  fold closer. rewrite <- app_assoc. cbn [app].
  eexists. split.
  - apply token_match; [exact Hkv|split; reflexivity|].
    cbn [prev idx rest].
    rewrite pass6_tail. reflexivity.
  - cbn [m_end m_start m_caps group_or_empty group capture Nat.eqb from_option id
         prev idx rest].
    split.
    + rewrite length_app. cbn [length]. lia.
    + apply take_span.
Qed.

(** *** Pass 6 on a block *)

Definition repl6 (m : rmatch_result) : bytes := group_or_empty m 1 ++ b"," ++ nl ++ [dq].

Lemma pass6_needs_nl (pv : option ascii) (w s : bytes) :
  lang usb.pass6_re pv w s -> In newline w.
Proof.
  intros HL. unfold usb.pass6_re, Star in HL.
  inversion HL as [| | | |r1 r2 pv' x1 y1 s' L1 L2| | | | | | | | |]; subst; clear HL.
  inversion L2 as [| | | |r1 r2 pv' x2 y2 s' L3 L4| | | | | | | | |]; subst; clear L2.
  inversion L4 as [| | | |r1 r2 pv' x3 y3 s' L5 L6| | | | | | | | |]; subst; clear L4.
  inversion L5; subst; clear L5.
  apply in_or_app. right. apply in_or_app. right. apply in_or_app. left. left. reflexivity.
Qed.

Lemma pass6_one_line (s : bytes) (pv : option ascii) (i : nat) :
  all printable s -> sub_from usb.pass6_re repl6 pv i 0 s = s.
Proof.
  intros Hs. apply sub_from_id. intros u1 u2 E. apply match_at_none.
  rewrite consume_rest. intros w s' E' HL. apply pass6_needs_nl in HL.
  assert (printable newline = true) as X; [|discriminate X].
  eapply all_in; [exact Hs|]. rewrite E, E'. apply in_or_app. right. apply in_or_app.
  left. exact HL.
Qed.

Lemma last_token_facts (kv : bytes * rhs) :
  line_ok kv = true ->
  last_token kv <> [] /\
  (forall c, last_or None (last_token kv) = Some c -> is_uspace c = false).
Proof.
  intros H. apply line_ok_facts in H. destruct H as [_ Hv].
  unfold last_token. destruct (snd kv) as [| | |neg ds fs|s] eqn:E.
  1-4: rewrite <- E in *;
       destruct (render_scalar (snd kv) Hv) as [Ha Hne]; [rewrite E; discriminate|];
       split; [exact Hne|]; intros c Hc; apply last_or_in in Hc; [|exact Hne];
       apply (all_in _ _ _ Ha) in Hc; apply scalar_char_facts in Hc; tauto.
  split; [discriminate|]. intros c [= <-]. reflexivity.
Qed.

Lemma suffix_last (u u1 u2 : bytes) (c x : ascii) :
  u = u1 ++ c :: u2 -> last_or None u = Some x -> In x (c :: u2).
Proof.
  intros -> H. rewrite last_or_app in H. rewrite last_or_nonempty in H by discriminate.
  apply last_or_in in H; [exact H|discriminate].
Qed.

Lemma line_no_match (kv : bytes * rhs) (h after : bytes) (pv : option ascii) (i : nat) :
  line_ok kv = true -> all printable h ->
  after = [] \/ (exists t, after = newline :: t) ->
  forall u1 c u2, h ++ pre_line kv = u1 ++ c :: u2 ->
    match_at usb.pass6_re (consume pv i u1 (c :: u2 ++ last_token kv ++ after)) = None.
Proof.
  intros Hkv Hh Hafter. destruct (last_token_facts kv Hkv) as [Hne Hlast].
  apply pass6_no_match; auto.
  - rewrite <- app_assoc. apply all_app; [exact Hh|].
    pose proof (out_line_chars kv Hkv) as Hc. rewrite out_line_body in Hc.
    inversion Hc; subst. eapply all_impl; [|eassumption]. apply out_char_printable.
  - intros u1 c u2 E Hbad.
    pose proof (line_ok_facts kv Hkv) as [_ Hv].
    unfold pre_line, last_token in *. destruct (snd kv) as [| | |neg ds fs|s] eqn:Ev.
    1-4: rewrite app_nil_r in E;
         assert (In " "%char (c :: u2)) as Hin
           by (eapply suffix_last; [exact E|];
               change [dq; ":"; " "]%char with ([dq; ":"]%char ++ [" "%char]);
               rewrite !app_assoc; apply last_or_snoc);
         assert (scalar_char " " = true) as X;
         [eapply all_in; [exact Hbad|];
          change (c :: u2 ++ ?t) with ((c :: u2) ++ t);
          apply in_or_app; left; exact Hin|discriminate X].
    assert (scalar_char dq = true) as X; [|discriminate X].
    eapply all_in; [exact Hbad|].
    change (c :: u2 ++ [dq]) with ((c :: u2) ++ [dq]). apply in_or_app. right. left.
    reflexivity.
Qed.

Definition quote_nl : bytes := nl ++ [dq].
Definition quote_comma_nl : bytes := comma_nl ++ [dq].

Lemma body_line_printable (kv : bytes * rhs) : line_ok kv = true -> all printable (body_line kv).
Proof.
  intros Hkv. pose proof (out_line_chars kv Hkv) as Hc. rewrite out_line_body in Hc.
  inversion Hc; subst. eapply all_impl; [|eassumption]. apply out_char_printable.
Qed.

Lemma pass6_bodies (kvs : list (bytes * rhs)) :
  Forall (fun kv => line_ok kv = true) kvs -> kvs <> [] ->
  forall (h : bytes) (pv : option ascii) (i : nat),
    all printable h ->
    sub_from usb.pass6_re repl6 pv i 0 (h ++ join quote_nl (map body_line kvs)) =
    h ++ join quote_comma_nl (map body_line kvs).
Proof.
  induction kvs as [|kv kvs IH]; intros Hok Hne h pv i Hh; [congruence|].
  inversion Hok as [|? ? Hkv Hrest]; subst.
  destruct kvs as [|kv' kvs].
  - cbn [map join]. apply pass6_one_line. apply all_app; [exact Hh|].
    apply body_line_printable. exact Hkv.
  - change (join quote_nl (map body_line (kv :: kv' :: kvs)))
      with (body_line kv ++ quote_nl ++ join quote_nl (map body_line (kv' :: kvs))).
    change (join quote_comma_nl (map body_line (kv :: kv' :: kvs)))
      with (body_line kv ++ quote_comma_nl ++
            join quote_comma_nl (map body_line (kv' :: kvs))).
    set (T := join quote_nl (map body_line (kv' :: kvs))) in *.
    set (T' := join quote_comma_nl (map body_line (kv' :: kvs))) in *.
    unfold body_line at 1.
    replace (h ++ (pre_line kv ++ last_token kv) ++ quote_nl ++ T)
      with ((h ++ pre_line kv) ++ last_token kv ++ newline :: dq :: T)
      by (rewrite <- !app_assoc; reflexivity).
    rewrite sub_from_nomatch.
    2:{ intros u1 c u2 E. apply line_no_match with (h := h); eauto. }
    replace (last_token kv ++ newline :: dq :: T)
      with ((last_token kv ++ [newline; dq]) ++ T)
      by (rewrite <- !app_assoc; reflexivity).
    destruct (pass6_match kv (last_or pv (h ++ pre_line kv))
                (i + length (h ++ pre_line kv)) T Hkv) as (m & Hm & Hlen & Hg).
    rewrite (sub_from_match _ _ _ _ _ _ m Hm Hlen)
      by (destruct (last_token kv); discriminate).
    unfold T, T'. rewrite (IH Hrest ltac:(discriminate) [] _ _ ltac:(constructor)).
    cbn [app]. unfold repl6. rewrite Hg. unfold body_line, quote_comma_nl, comma_nl.
    rewrite <- !app_assoc. reflexivity.
Qed.

Lemma pass6_block (kvs : list (bytes * rhs)) :
  Forall (fun kv => line_ok kv = true) kvs ->
  re_sub usb.pass6_re (fun m => group_or_empty m 1 ++ b"," ++ nl ++ [dq])
    (join nl (map out_line kvs)) = join comma_nl (map out_line kvs).
Proof.
  intros H. destruct kvs as [|kv0 kvs]; [reflexivity|].
  assert (E : map out_line (kv0 :: kvs) = map (cons dq) (map body_line (kv0 :: kvs))).
  { rewrite map_map. apply map_ext. intros kv. apply out_line_body. }
  rewrite E. rewrite !join_cons by discriminate.
  unfold re_sub. fold repl6.
  apply (pass6_bodies (kv0 :: kvs) H ltac:(discriminate) [dq] None 0%nat).
  repeat constructor.
Qed.

(** ** Reading the cleaned text as JSON *)

(** *** Strings *)

Lemma out_char_code (c : ascii) : out_char c = true -> (N_of_ascii c <? 32)%N = false.
Proof. intros H. revert H. ascii_cases c. Qed.

(** A text without quote or backslash is read up to the closing quote. *)
Lemma scanstring_plain (w rest : bytes) :
  all out_char w -> all (fun c => negb (Ascii.eqb c dq) && negb (Ascii.eqb c "\")) w ->
  forall acc, json.scanstring acc (w ++ dq :: rest) = Ok (rev acc ++ w, rest).
Proof.
  intros Hw Hq. induction w as [|c w IH]; intros acc.
  - cbn. rewrite app_nil_r. reflexivity.
  - inversion Hw as [|? ? Hc Hw']; subst. inversion Hq as [|? ? Hcq Hq']; subst.
    apply andb_true_iff in Hcq. destruct Hcq as [H1 H2].
    apply negb_true_iff in H1, H2.
    cbn [app json.scanstring]. rewrite H1, H2.
    change (code c) with (N_of_ascii c). rewrite (out_char_code c Hc).
    rewrite IH by assumption. cbn [rev]. rewrite <- app_assoc. reflexivity.
Qed.

Lemma word_plain (c : ascii) :
  is_word c = true -> negb (Ascii.eqb c dq) && negb (Ascii.eqb c "\") = true.
Proof. intros H. revert H. ascii_cases c. Qed.

Lemma scanstring_key (k rest : bytes) :
  all is_word k -> json.scanstring [] (k ++ dq :: rest) = Ok (k, rest).
Proof.
  intros Hk. rewrite scanstring_plain.
  - reflexivity.
  - eapply all_impl; [|exact Hk]. apply word_out_char.
  - eapply all_impl; [|exact Hk]. apply word_plain.
Qed.

Lemma text_char_facts (c : ascii) :
  text_char c = true -> Ascii.eqb c "\" = false /\ (N_of_ascii c <? 32)%N = false.
Proof. intros H. revert H. ascii_cases c; intros _; split; reflexivity. Qed.

(** A text whose quotes were escaped is read back as it was. *)
Lemma scanstring_escaped (s rest : bytes) :
  all text_char s ->
  forall acc, json.scanstring acc (escape_quotes s ++ dq :: rest) = Ok (rev acc ++ s, rest).
Proof.
  intros Hs. unfold escape_quotes, replace.
  induction s as [|c s IH]; intros acc.
  - cbn. rewrite app_nil_r. reflexivity.
  - inversion Hs as [|? ? Hc Hs']; subst.
    destruct (text_char_facts c Hc) as [Hb Hcode].
    cbn [replace_go startswith length Nat.sub].
    destruct (Ascii.eqb dq c) eqn:E.
    + apply Ascii.eqb_eq in E. subst c. cbn [andb app json.scanstring].
      change (Ascii.eqb "\" dq) with false. change (Ascii.eqb "\" "\") with true.
      change (Ascii.eqb dq "u") with false. change (Ascii.eqb dq dq) with true.
      cbn iota. rewrite IH by assumption. cbn [rev]. rewrite <- app_assoc. reflexivity.
    + cbn [andb app json.scanstring]. rewrite Ascii.eqb_sym in E. rewrite E, Hb.
      change (code c) with (N_of_ascii c). rewrite Hcode.
      rewrite IH by assumption. cbn [rev]. rewrite <- app_assoc. reflexivity.
Qed.

(** *** Integers *)

Lemma int_digits_all (ds : bytes) :
  all is_digit ds ->
  forall acc, int_digits acc true ds = Some (fold_left (fun a c => 10 * a + digit_val c) ds acc).
Proof.
  intros H. induction H as [|c ds Hc Hds IH]; intros acc; [reflexivity|].
  cbn [int_digits fold_left]. rewrite Hc. apply IH.
Qed.

Lemma int_digits_value (ds : bytes) :
  all is_digit ds -> ds <> [] -> int_digits 0 false ds = Some (digits_value ds).
Proof.
  intros H Hne. destruct ds as [|c ds]; [congruence|]. inversion H as [|? ? Hc Hds]; subst.
  cbn [int_digits]. rewrite Hc. unfold digits_value. cbn [fold_left].
  apply int_digits_all. exact Hds.
Qed.

Lemma digit_not_space (c : ascii) : is_digit c = true -> is_space c = false.
Proof. intros H. revert H. ascii_cases c. Qed.

Lemma digit_not_sign (c : ascii) (A : Type) (x y z : A) :
  is_digit c = true ->
  match c with
  | "-"%char => x
  | "+"%char => y
  | _ => z
  end = z.
Proof. intros H. revert H. ascii_cases c. Qed.

Lemma py_int_literal (neg : bool) (ds : bytes) :
  all is_digit ds -> ds <> [] ->
  py_int (sign neg ++ ds) = Ok (if neg then - digits_value ds else digits_value ds).
Proof.
  intros H Hne. unfold py_int, py_int_with.
  assert (Hstrip : strip_by is_space (sign neg ++ ds) = sign neg ++ ds).
  { unfold strip_by. rewrite lstrip_by_stops.
    - apply rstrip_by_clean. intros c Hc.
      rewrite last_or_app in Hc. rewrite last_or_nonempty in Hc by exact Hne.
      apply last_or_in in Hc; [|exact Hne]. apply digit_not_space. eapply all_in; eauto.
    - destruct neg; cbn; [reflexivity|]. destruct ds as [|c ds]; [congruence|].
      cbn. inversion H; subst. apply digit_not_space. assumption. }
  rewrite Hstrip. destruct neg; cbn [sign app].
  - rewrite int_digits_value by assumption. reflexivity.
  - destruct ds as [|c ds]; [congruence|]. inversion H as [|? ? Hc _]; subst.
    rewrite (digit_not_sign c _ _ _ _ Hc).
    rewrite int_digits_value by assumption. reflexivity.
Qed.

(** *** Numbers *)

(** What follows a value in an object: a comma or the closing brace. *)
Definition value_end (s : bytes) : Prop :=
  exists c t, s = c :: t /\ (c = ","%char \/ c = "}"%char).

Lemma value_end_stops (s : bytes) :
  value_end s ->
  stops is_digit s /\ stops (one_of (b"eE")) s /\
  match s with [] => True | d :: _ => Ascii.eqb "." d = false end.
Proof. intros (c & t & -> & [->| ->]); repeat split; reflexivity. Qed.

Lemma opt_none {R : Type} (r : regex) (cu : cursor) (cs : captures)
    (k : cursor -> captures -> option R) :
  rmatch r cu cs k = None -> rmatch (Opt r) cu cs k = k cu cs.
Proof. intros H. unfold Opt. cbn [rmatch]. rewrite H. reflexivity. Qed.

Lemma cls_stops {R : Type} (p : ascii -> bool) (r : regex) (s : bytes)
    (pv : option ascii) (i : nat) (cs : captures) (k : cursor -> captures -> option R) :
  stops p s -> rmatch (Cls p +++ r) {| prev := pv; idx := i; rest := s |} cs k = None.
Proof.
  intros H. cbn [rmatch rest]. destruct s as [|c s]; [reflexivity|].
  cbn in H. rewrite H. reflexivity.
Qed.

Definition exponent : regex :=
  (Cls (one_of (b"eE")) +++ Opt (Cls (one_of (b"-+"))) +++ Plus is_digit)%re.

Lemma no_exponent {R : Type} (s : bytes) (pv : option ascii) (i : nat) (cs : captures)
    (k : cursor -> captures -> option R) :
  stops (one_of (b"eE")) s ->
  rmatch (Opt (Group 3 exponent)) {| prev := pv; idx := i; rest := s |} cs k =
  k {| prev := pv; idx := i; rest := s |} cs.
Proof.
  intros H. apply opt_none. rewrite rmatch_group. unfold exponent. apply cls_stops. exact H.
Qed.

Lemma nonzero_digit (c : ascii) :
  is_digit c = true -> Ascii.eqb c "0" = false ->
  in_range "1" "9" c = true /\ Ascii.eqb "0" c = false.
Proof. intros H1 H2. revert H1 H2. ascii_cases c; intros; split; reflexivity. Qed.

(** The integer part of a literal of JSON. *)
Lemma json_int_part {R : Type} (ds s : bytes) (pv : option ascii) (i : nat)
    (cs : captures) (k : cursor -> captures -> option R) (res : R) :
  int_part_ok ds = true -> stops is_digit s ->
  k {| prev := last_or pv ds; idx := i + length ds; rest := s |} cs = Some res ->
  rmatch (Lit (b"0") <|> (Cls (in_range "1" "9") +++ Star is_digit))
    {| prev := pv; idx := i; rest := ds ++ s |} cs k = Some res.
Proof.
  intros Hok Hs Hk. unfold int_part_ok in Hok.
  apply andb_true_iff in Hok. destruct Hok as [Hd Hz]. apply all_forallb in Hd.
  destruct ds as [|c ds]; [discriminate|].
  inversion Hd as [|? ? Hc Hds]; subst.
  destruct (Ascii.eqb c "0") eqn:E.
  - apply Ascii.eqb_eq in E. subst c. destruct ds as [|d ds]; [|discriminate].
    apply alt_first. change (b"0") with ["0"%char]. rewrite (lit_match ["0"%char]).
    exact Hk.
  - destruct (nonzero_digit c Hc E) as [Hr Hn].
    rewrite alt_second.
    2:{ apply lit_head_fail. cbn [app]. exact Hn. }
    rewrite rmatch_seq. cbn [app]. cbn [rmatch rest]. rewrite Hr.
    unfold advance. cbn [idx].
    change (rep_greedy is_digit 0 (prev {| prev := Some c; idx := S i; rest := ds ++ s |})
              (idx {| prev := Some c; idx := S i; rest := ds ++ s |})
              (rest {| prev := Some c; idx := S i; rest := ds ++ s |})
              (fun cu' => k cu' cs))
      with (rmatch (Star is_digit) {| prev := Some c; idx := S i; rest := ds ++ s |} cs k).
    apply star_span; auto.
    cbn [last_or length] in Hk. replace (S i + length ds)%nat with (i + S (length ds))%nat by lia.
    exact Hk.
Qed.

Lemma json_number_match (neg : bool) (ds : bytes) (fs : option bytes) (s : bytes) :
  int_part_ok ds = true -> frac_ok fs -> value_end s ->
  exists m,
    re_match json.number_re ((sign neg ++ ds ++ frac fs) ++ s) = Some m /\
    m_end m = length (sign neg ++ ds ++ frac fs) /\
    group m 1 = Some (sign neg ++ ds) /\
    group m 2 = match fs with Some f => Some ("."%char :: f) | None => None end /\
    group m 3 = None.
Proof.
  intros Hds Hfs Hs. destruct (value_end_stops s Hs) as (Hs1 & Hs2 & Hs3).
  destruct (int_part_digits ds Hds) as [Hd Hdne].
  unfold re_match, match_at, start_cursor, json.number_re.
  fold exponent.
  rewrite rmatch_seq, rmatch_group, rmatch_seq.
  change (b"-") with ["-"%char].
  assert (Hint : forall pv i cs (k : cursor -> captures -> option rmatch_result) res,
    k {| prev := last_or pv (sign neg ++ ds); idx := i + length (sign neg ++ ds);
         rest := frac fs ++ s |} cs = Some res ->
    rmatch (Opt (Lit ["-"%char]))
      {| prev := pv; idx := i; rest := (sign neg ++ ds ++ frac fs) ++ s |} cs
      (fun cu' cs' =>
         rmatch (Lit (b"0") <|> (Cls (in_range "1" "9") +++ Star is_digit)) cu' cs' k) =
    Some res).
  { intros pv i cs k res Hk. rewrite <- !app_assoc.
    assert (stops is_digit (frac fs ++ s)) as Hst.
    { destruct fs; cbn; [reflexivity|exact Hs1]. }
    destruct neg; cbn [sign app] in *.
    - apply opt_take. apply json_int_part; auto.
      cbn [last_or length] in Hk.
      replace (S i + length ds)%nat with (i + S (length ds))%nat by lia.
      exact Hk.
    - rewrite opt_skip.
      2:{ destruct ds as [|d ds]; [congruence|]. cbn [app].
          inversion Hd as [|? ? Hdig _]; subst. apply (digit_not "-" d Hdig eq_refl). }
      apply json_int_part; auto. }
  destruct fs as [f|].
  - destruct Hfs as [Hf Hfne]. eexists. split.
    + apply Hint. cbn [prev idx rest]. rewrite rmatch_seq. cbn [frac app].
      unfold Opt at 1. apply alt_first. rewrite rmatch_group, rmatch_seq.
      change (b".") with ["."%char].
      change ("."%char :: f ++ s) with (["."%char] ++ f ++ s). rewrite lit_match.
      apply plus_span; auto.
      cbn [prev idx rest]. rewrite no_exponent by exact Hs2. reflexivity.
    + cbn [m_end m_start m_caps group capture Nat.eqb prev idx rest frac].
      repeat split.
      * rewrite !length_app. cbn [length]. lia.
      * f_equal. rewrite <- !app_assoc. rewrite app_assoc. apply take_span.
      * f_equal.
        match goal with
        | |- take ?n _ = _ => replace n with (length ("."%char :: f)) by (cbn [length]; lia)
        end.
        change (["."%char] ++ f ++ s) with (("."%char :: f) ++ s). apply take_app_length.
  - eexists. split.
    + apply Hint. cbn [prev idx rest]. rewrite rmatch_seq. cbn [frac app].
      rewrite opt_none.
      2:{ rewrite rmatch_group, rmatch_seq. change (b".") with ["."%char].
          apply lit_head_fail. exact Hs3. }
      rewrite no_exponent by exact Hs2. reflexivity.
    + cbn [m_end m_start m_caps group capture Nat.eqb prev idx rest frac].
      repeat split.
      * rewrite app_nil_r. lia.
      * f_equal. rewrite <- !app_assoc. rewrite app_assoc. apply take_span.
Qed.

(** *** Values *)

Lemma scan_once_digit (f : nat) (d : ascii) (t : bytes) :
  is_digit d = true -> json.scan_once (S f) (d :: t) = json.scan_number (d :: t).
Proof. intros H. revert H. ascii_cases d; intros _; reflexivity. Qed.

Lemma scan_once_minus (f : nat) (d : ascii) (t : bytes) :
  is_digit d = true ->
  json.scan_once (S f) ("-"%char :: d :: t) = json.scan_number ("-"%char :: d :: t).
Proof. intros H. revert H. ascii_cases d; intros _; reflexivity. Qed.

Lemma scan_number_literal (neg : bool) (ds : bytes) (fs : option bytes) (tail : bytes) :
  rhs_ok (RNum neg ds fs) = true -> value_end tail ->
  json.scan_number (render (RNum neg ds fs) ++ tail) = Ok (expected (RNum neg ds fs), tail).
Proof.
  intros Hv Ht. cbn in Hv. apply andb_true_iff in Hv. destruct Hv as [Hd Hf].
  destruct (int_part_digits ds Hd) as [Hdig Hdne]. apply frac_part_digits in Hf.
  destruct (json_number_match neg ds fs tail Hd Hf Ht) as (m & Hm & Hend & G1 & G2 & G3).
  unfold json.scan_number. cbn [render]. rewrite Hm. unfold group_or_empty.
  rewrite G1, G2, G3, Hend. rewrite drop_app_length. cbn [from_option id].
  destruct fs as [f|].
  - cbn [expected render frac]. rewrite app_nil_r, <- app_assoc. reflexivity.
  - rewrite py_int_literal by assumption. reflexivity.
Qed.

Lemma scan_once_value (f : nat) (v : rhs) (tail : bytes) :
  rhs_ok v = true -> value_end tail ->
  json.scan_once (S f) (out_value v ++ tail) = Ok (expected v, tail).
Proof.
  intros Hv Ht. destruct v as [| | |neg ds fs|s].
  - reflexivity.
  - reflexivity.
  - reflexivity.
  - cbn [out_value]. rewrite <- scan_number_literal by assumption.
    cbn in Hv. apply andb_true_iff in Hv. destruct Hv as [Hd _].
    destruct (int_part_digits ds Hd) as [Hdig Hdne].
    destruct ds as [|d ds]; [congruence|]. inversion Hdig as [|? ? Hc _]; subst.
    cbn [render]. destruct neg; cbn [sign app].
    + apply scan_once_minus. exact Hc.
    + apply scan_once_digit. exact Hc.
  - cbn in Hv. apply text_ok_facts in Hv. destruct Hv as (Ha & _).
    cbn [out_value expected app]. rewrite <- app_assoc. cbn [app json.scan_once].
    change (Ascii.eqb dq dq) with true. cbn iota.
    rewrite scanstring_escaped by exact Ha. reflexivity.
Qed.

(** *** The members of the object *)

Lemma members_step (f : nat) (acc : list (bytes * pyval)) (k : bytes) (v : rhs)
    (tail : bytes) :
  key_ok k = true -> rhs_ok v = true -> value_end tail ->
  json.members (S (S f)) acc (k ++ dq :: ":"%char :: " "%char :: out_value v ++ tail) =
  match tail with
  | "}"%char :: t => Ok (VDict (dict_set k (expected v) acc), t)
  | ","%char :: t =>
      match json.skip_ws t with
      | c2 :: s3 =>
          if Ascii.eqb c2 dq then json.members (S f) (dict_set k (expected v) acc) s3
          else Raise ValueError
      | [] => Raise ValueError
      end
  | _ => Raise ValueError
  end.
Proof.
  intros Hk Hv Ht. destruct (key_ok_word k Hk) as [_ Hkw].
  cbn [json.members]. rewrite scanstring_key by exact Hkw.
  cbn [mbind outcome_bind obind fst snd].
  change (json.skip_ws (":"%char :: " "%char :: out_value v ++ tail))
    with (":"%char :: " "%char :: out_value v ++ tail).
  change (Ascii.eqb ":" ":") with true. cbn iota.
  assert (json.skip_ws (" "%char :: out_value v ++ tail) = out_value v ++ tail) as ->.
  { unfold json.skip_ws. cbn [lstrip_by]. change (json.is_ws " ") with true. cbn iota.
    apply lstrip_by_stops.
    destruct v as [| | |neg ds fs|s]; try reflexivity.
    cbn in Hv. apply andb_true_iff in Hv. destruct Hv as [Hd _].
    destruct (int_part_digits ds Hd) as [Hdig Hdne].
    destruct (number_head neg ds fs Hdig Hdne) as (c & t & E & Hc & _).
    cbn [out_value render]. rewrite E. cbn. revert Hc. clear. ascii_cases c. }
  rewrite scan_once_value by assumption.
  cbn [mbind outcome_bind obind fst snd].
  destruct Ht as (c & t & -> & [->| ->]); reflexivity.
Qed.

Lemma body_line_eq (kv : bytes * rhs) :
  body_line kv = fst kv ++ dq :: ":"%char :: " "%char :: out_value (snd kv).
Proof.
  pose proof (out_line_body kv) as H. unfold out_line in H. injection H as H.
  symmetry. exact H.
Qed.

Definition add_member (d : list (bytes * pyval)) (kv : bytes * rhs) : list (bytes * pyval) :=
  dict_set (fst kv) (expected (snd kv)) d.

Lemma members_bodies (kvs : list (bytes * rhs)) :
  Forall (fun kv => line_ok kv = true) kvs -> kvs <> [] ->
  forall (fuel : nat) (acc : list (bytes * pyval)),
    (length kvs < fuel)%nat ->
    json.members fuel acc (join quote_comma_nl (map body_line kvs) ++ b"}") =
    Ok (VDict (fold_left add_member kvs acc), []).
Proof.
  induction kvs as [|kv kvs IH]; intros Hok Hne fuel acc Hfuel; [congruence|].
  inversion Hok as [|? ? Hkv Hrest]; subst.
  destruct (line_ok_facts kv Hkv) as [Hk Hv].
  destruct fuel as [|[|f]]; cbn [length] in Hfuel; try lia.
  destruct kvs as [|kv' kvs].
  - cbn [map join fold_left]. rewrite body_line_eq.
    rewrite <- app_assoc. cbn [app]. change (b"}") with ["}"%char].
    rewrite members_step; auto.
    exists "}"%char, []. auto.
  - change (join quote_comma_nl (map body_line (kv :: kv' :: kvs)))
      with (body_line kv ++ quote_comma_nl ++
            join quote_comma_nl (map body_line (kv' :: kvs))).
    rewrite body_line_eq. rewrite <- !app_assoc. cbn [app].
    unfold quote_comma_nl at 1. unfold comma_nl, nl. cbn [app].
    rewrite members_step; auto.
    + cbn [quote_comma_nl comma_nl nl app]. cbn [json.skip_ws lstrip_by].
      unfold json.skip_ws. cbn [lstrip_by].
      change (json.is_ws newline) with true. change (json.is_ws dq) with false.
      cbn iota. change (Ascii.eqb dq dq) with true. cbn iota.
      cbn [fold_left]. apply IH; [exact Hrest|discriminate|cbn [length] in *; lia].
    + exists ","%char. eexists. split; [reflexivity|auto].
Qed.

Lemma length_join (sep : bytes) (ls : list bytes) :
  Forall (fun l => l <> []) ls -> (length ls <= length (join sep ls))%nat.
Proof.
  intros H. induction H as [|l ls Hl Hls IH]; [cbn; lia|].
  destruct ls as [|l' ls].
  - cbn. destruct l; [congruence|cbn; lia].
  - change (join sep (l :: l' :: ls)) with (l ++ sep ++ join sep (l' :: ls)).
    rewrite !length_app. destruct l; [congruence|]. cbn [length] in *. lia.
Qed.

(** The cleaned text of a block, between braces, is read as the object of
    its lines. *)
Lemma loads_lines (kvs : list (bytes * rhs)) :
  Forall (fun kv => line_ok kv = true) kvs ->
  json.loads (b"{" ++ join comma_nl (map out_line kvs) ++ b"}") =
  Ok (VDict (fold_left add_member kvs [])).
Proof.
  intros H. destruct kvs as [|kv0 kvs]; [reflexivity|].
  assert (E : map out_line (kv0 :: kvs) = map (cons dq) (map body_line (kv0 :: kvs))).
  { rewrite map_map. apply map_ext. intros kv. apply out_line_body. }
  rewrite E. rewrite join_cons by discriminate. fold quote_comma_nl.
  set (J := join quote_comma_nl (map body_line (kv0 :: kvs))).
  unfold json.loads.
  change (b"{" ++ (dq :: J) ++ b"}") with ("{"%char :: dq :: J ++ b"}").
  change (json.skip_ws ("{"%char :: dq :: J ++ b"}")) with ("{"%char :: dq :: J ++ b"}").
  cbn [json.scan_once]. change (Ascii.eqb "{" dq) with false.
  change (Ascii.eqb "{" "{") with true. cbn iota.
  change (json.skip_ws (dq :: J ++ b"}")) with (dq :: J ++ b"}").
  change (Ascii.eqb dq "}") with false. change (Ascii.eqb dq dq) with true. cbn iota.
  unfold J. rewrite members_bodies.
  - reflexivity.
  - exact H.
  - discriminate.
  - cbn [length]. rewrite length_app.
    assert (length (kv0 :: kvs) <= length J)%nat.
    { unfold J. rewrite <- (length_map body_line (kv0 :: kvs)). apply length_join.
      apply Forall_map. eapply Forall_impl; [exact H|]. intros kv Hkv. cbn.
      rewrite body_line_eq. destruct (fst kv); discriminate. }
    fold J. cbn [length] in *. lia.
Qed.

(** ** The cleaner on a block of lines *)

Lemma clean_block (kvs : list (bytes * rhs)) :
  Forall (fun kv => line_ok kv = true) kvs ->
  usb.clean (block kvs) = join comma_nl (map out_line kvs).
Proof.
  intros H. unfold usb.clean. cbv zeta.
  rewrite pass1_block, pass2_block, pass3_block, pass4_block, pass5_block,
    pass6_block, pass7_block by exact H.
  reflexivity.
Qed.

(** The value of a key in the expected object, when no key is repeated. *)
Lemma dict_get_set (k k' : bytes) (v : pyval) (d : list (bytes * pyval)) :
  dict_get k (dict_set k' v d) = if bytes_eqb k' k then Some v else dict_get k d.
Proof.
  induction d as [|[k0 v0] d IH]; cbn [dict_set dict_get].
  - destruct (bytes_eqb k' k); reflexivity.
  - destruct (bytes_eqb k0 k') eqn:E.
    + apply bool_decide_eq_true in E. subst k0. cbn [dict_get].
      destruct (bytes_eqb k' k); reflexivity.
    + cbn [dict_get]. destruct (bytes_eqb k0 k) eqn:E0.
      * apply bool_decide_eq_true in E0. subst k0.
        unfold bytes_eqb in *. rewrite bool_decide_eq_false in E.
        rewrite (bool_decide_eq_false_2 (k' = k)) by congruence. reflexivity.
      * exact IH.
Qed.

Lemma expected_dict_lookup (kvs : list (bytes * rhs)) (k : bytes) (v : rhs) :
  NoDup (map fst kvs) -> In (k, v) kvs ->
  dict_get k (expected_dict kvs) = Some (expected v).
Proof.
  unfold expected_dict. induction kvs as [|[k0 v0] kvs IH] using rev_ind; [intros _ []|].
  intros Hnd Hin. rewrite fold_left_app. cbn [fold_left fst snd].
  rewrite dict_get_set. rewrite map_app in Hnd. cbn [map fst] in Hnd.
  apply NoDup_app in Hnd. destruct Hnd as (Hnd & Hdis & _).
  apply in_app_or in Hin. destruct Hin as [Hin|[[= -> ->]|[]]].
  - unfold bytes_eqb. rewrite bool_decide_eq_false_2.
    + apply IH; assumption.
    + intros ->. apply (Hdis k).
      * apply list_elem_of_In. apply in_map_iff. exists (k, v). auto.
      * left.
  - unfold bytes_eqb. rewrite bool_decide_eq_true_2 by reflexivity. reflexivity.
Qed.


(** A block with a text that holds double quotes, an integer, a negative
    number with a fraction, a boolean and [null]. *)
Definition key_value_block : list (bytes * rhs) :=
  [ (b"product", RText (b"Pixel " ++ [dq] ++ b"7 Pro" ++ [dq]));
    (b"mode", RNum false (b"2") None);
    (b"offset", RNum true (b"12") (Some (b"50")));
    (b"connected", RTrue);
    (b"serial", RNull) ].



(** * Further properties of the parsers *)

(** ** helper: the lines of a report *)

Lemma split_on_not_nil (sep : ascii) (s : bytes) : split_on sep s <> [].
Proof.
  destruct s as [|c s]; cbn [split_on]; [discriminate|].
  destruct (Ascii.eqb c sep); [discriminate|].
  destruct (split_on sep s); discriminate.
Qed.

Lemma join_split_on (s : bytes) : join nl (split_on newline s) = s.
Proof.
  induction s as [|c s IH]; [reflexivity|]. cbn [split_on].
  destruct (Ascii.eqb c newline) eqn:E.
  - apply Ascii.eqb_eq in E. subst c.
    destruct (split_on newline s) as [|f fs] eqn:Es; [destruct (split_on_not_nil _ _ Es)|].
    change (join nl ([] :: f :: fs)) with ([] ++ nl ++ join nl (f :: fs)).
    rewrite IH. reflexivity.
  - destruct (split_on newline s) as [|f fs] eqn:Es; [destruct (split_on_not_nil _ _ Es)|].
    destruct fs as [|f2 fs].
    + cbn [join] in *. rewrite IH. reflexivity.
    + change (join nl ((c :: f) :: f2 :: fs)) with (c :: (f ++ nl ++ join nl (f2 :: fs))).
      change (join nl (f :: f2 :: fs)) with (f ++ nl ++ join nl (f2 :: fs)) in IH.
      rewrite IH. reflexivity.
Qed.

(** X1. The lines of a report are the stripped buffer cut at its newlines:
    there is always at least one line (an empty buffer has one empty line),
    no line holds a newline, and joining the lines with newlines gives the
    stripped buffer back. *)
Theorem RawData_lines_round_trip (r : bytes) :
  lines (RawData_init r) <> [] /\
  Forall (fun l => contains nl l = false) (lines (RawData_init r)) /\
  join nl (lines (RawData_init r)) = strip r /\
  raw (RawData_init r) = r.
Proof.
  cbn [lines raw RawData_init]. repeat split.
  - apply split_on_not_nil.
  - apply split_on_no_newline.
  - apply join_split_on.
Qed.

(** ** Patterns that match: the steps of the matcher on a text of the
    expected shape *)

Lemma strip_by_trimmed (p : ascii -> bool) (w : bytes) :
  stops p w -> (forall c, last_or None w = Some c -> p c = false) ->
  strip_by p w = w.
Proof.
  intros H1 H2. unfold strip_by. rewrite lstrip_by_stops by exact H1.
  apply rstrip_by_clean. exact H2.
Qed.

(** A lazy repetition followed by a character that the repeated text does
    not hold. *)
Lemma star_lazy_span {R : Type} (p : ascii -> bool) (w s : bytes) (pv : option ascii)
    (i : nat) (cs : captures) (k : cursor -> captures -> option R) (res : R) :
  all p w ->
  (forall w1 c w2, w = w1 ++ c :: w2 ->
     k {| prev := last_or pv w1; idx := i + length w1; rest := c :: w2 ++ s |} cs = None) ->
  k {| prev := last_or pv w; idx := i + length w; rest := s |} cs = Some res ->
  rmatch (StarLazy p) {| prev := pv; idx := i; rest := w ++ s |} cs k = Some res.
Proof.
  intros Hw Hno Hk. unfold StarLazy. cbn [rmatch prev idx rest].
  apply rep_lazy_span; auto. lia.
Qed.

Lemma cls_take {R : Type} (p : ascii -> bool) (c : ascii) (s : bytes)
    (pv : option ascii) (i : nat) (cs : captures) (k : cursor -> captures -> option R) :
  p c = true ->
  rmatch (Cls p) {| prev := pv; idx := i; rest := c :: s |} cs k =
  k {| prev := Some c; idx := S i; rest := s |} cs.
Proof. intros H. cbn [rmatch rest]. rewrite H. reflexivity. Qed.

(** A field: a non-empty text made of characters of a class. *)
Definition field (p : ascii -> bool) (w : bytes) : Prop := w <> [] /\ all p w.

Lemma field_span {R : Type} (p : ascii -> bool) (w s : bytes) (pv : option ascii)
    (i : nat) (cs : captures) (k : cursor -> captures -> option R) (res : R) :
  field p w -> stops p s ->
  k {| prev := last_or pv w; idx := i + length w; rest := s |} cs = Some res ->
  rmatch (Plus p) {| prev := pv; idx := i; rest := w ++ s |} cs k = Some res.
Proof. intros [Hne Hw] Hs Hk. apply plus_span; auto. Qed.

Lemma field_stops (p q : ascii -> bool) (w s : bytes) :
  field p w -> (forall c, p c = true -> q c = false) -> stops q (w ++ s).
Proof.
  intros [Hne Hw] Hpq. destruct w as [|c w]; [congruence|]. cbn.
  inversion Hw; subst. auto.
Qed.

Lemma space_not_space (c : ascii) : is_space c = true -> not_space c = false.
Proof. unfold not_space. intros ->. reflexivity. Qed.

Lemma not_space_space (c : ascii) : not_space c = true -> is_space c = false.
Proof. unfold not_space. intros H. apply negb_true_iff in H. exact H. Qed.

Lemma lit_match_end {R : Type} (l : bytes) (pv : option ascii) (i : nat) (cs : captures)
    (k : cursor -> captures -> option R) :
  rmatch (Lit l) {| prev := pv; idx := i; rest := l |} cs k =
  k {| prev := last_or pv l; idx := i + length l; rest := [] |} cs.
Proof. pose proof (lit_match l [] pv i cs k) as H. rewrite app_nil_r in H. exact H. Qed.

(** The next pattern of a sequence. *)
Ltac next := cbv beta; rewrite ?rmatch_seq, ?rmatch_group.

(** ** mount: a line of the expected shape *)

(** A line [device on path type fstype (options)], with the separator [sp]
    between its parts. *)
Definition mount_line (sp dev path fstype opts : bytes) : bytes :=
  dev ++ sp ++ b"on" ++ sp ++ path ++ sp ++ b"type" ++ sp ++ fstype ++ sp ++
  b"(" ++ opts ++ b")".

(** The text between the brackets: no closing bracket, no newline. *)
Definition option_char (c : ascii) : bool := not_newline c && negb (Ascii.eqb c ")").

Lemma mount_line_match (sp dev path fstype opts : bytes) :
  field is_space sp -> field not_space dev -> field not_space path ->
  field not_space fstype -> all option_char opts ->
  exists m,
    re_match mount.line_re (mount_line sp dev path fstype opts) = Some m /\
    group_or_empty m 1 = dev /\ group_or_empty m 2 = path /\
    group_or_empty m 3 = fstype /\ group_or_empty m 4 = opts.
Proof.
  intros Hsp Hdev Hpath Hfs Hopts.
  assert (Hsn : forall s, stops not_space (sp ++ s)).
  { intros s. apply (field_stops is_space); [exact Hsp|apply space_not_space]. }
  assert (Hns : forall w s, field not_space w -> stops is_space (w ++ s)).
  { intros w s Hw. apply (field_stops not_space); [exact Hw|apply not_space_space]. }
  unfold re_match, match_at, start_cursor, mount.line_re, mount_line.
  eexists. split.
  - next. apply field_span; [exact Hdev|apply Hsn|].
    next. apply field_span; [exact Hsp|reflexivity|].
    next. rewrite lit_match.
    next. apply field_span; [exact Hsp|apply Hns; exact Hpath|].
    next. apply field_span; [exact Hpath|apply Hsn|].
    next. apply field_span; [exact Hsp|reflexivity|].
    next. rewrite lit_match.
    next. apply field_span; [exact Hsp|apply Hns; exact Hfs|].
    next. apply field_span; [exact Hfs|apply Hsn|].
    next. apply field_span; [exact Hsp|reflexivity|].
    next. rewrite lit_match.
    next.
    apply star_lazy_span.
    + eapply all_impl; [|exact Hopts]. intros c Hc. unfold option_char in Hc.
      apply andb_true_iff in Hc. tauto.
    + intros w1 c w2 E. cbv beta.
      apply lit_head_fail. change (Ascii.eqb ")" c = false).
      assert (option_char c = true) as Hc.
      { eapply all_in; [exact Hopts|]. rewrite E. apply in_or_app. right. left. reflexivity. }
      unfold option_char in Hc. apply andb_true_iff in Hc. destruct Hc as [_ Hc].
      apply negb_true_iff in Hc. rewrite Ascii.eqb_sym. exact Hc.
    + cbv beta. rewrite lit_match_end. reflexivity.
  - unfold group_or_empty, group. cbn [m_caps capture Nat.eqb from_option id prev idx rest].
    repeat split.
    + rewrite Nat.add_0_l, Nat.sub_0_r. apply take_app_length.
    + apply take_span.
    + apply take_span.
    + apply take_span.
Qed.

Lemma mount_line_stripped (sp dev path fstype opts : bytes) :
  field not_space dev -> strip (mount_line sp dev path fstype opts) =
                         mount_line sp dev path fstype opts.
Proof.
  intros Hdev. apply strip_by_trimmed.
  - unfold mount_line. apply (field_stops not_space); [exact Hdev|apply not_space_space].
  - intros c Hc. unfold mount_line in Hc. rewrite !app_assoc in Hc.
    change (b")") with [")"%char] in Hc. rewrite last_or_snoc in Hc.
    injection Hc as <-. reflexivity.
Qed.

(** X2. [MountPoint.parse] on a line [device on path type fstype (options)]
    whose three first fields hold no white space, whose parts are
    separated by white space, and whose options hold no closing bracket:
    the record has the device, the path and the type, and its options are
    the stripped pieces of the text between the brackets, cut at the
    commas.  With nothing between the brackets the record has one empty
    option. *)
Theorem mount_line_fields (self : mount.MountPoint) (sp dev path fstype opts : bytes) :
  field is_space sp -> field not_space dev -> field not_space path ->
  field not_space fstype -> all option_char opts ->
  mount.MountPoint_parse self (mount_line sp dev path fstype opts) =
  {| mount.device := dev; mount.path := path; mount.mount_type := fstype;
     mount.options := map strip (split_on "," opts) |} /\
  (opts = [] ->
   mount.options (mount.MountPoint_parse self (mount_line sp dev path fstype opts)) = [[]]).
Proof.
  intros Hsp Hdev Hpath Hfs Hopts.
  destruct (mount_line_match sp dev path fstype opts Hsp Hdev Hpath Hfs Hopts)
    as (m & Hm & G1 & G2 & G3 & G4).
  assert (E : mount.MountPoint_parse self (mount_line sp dev path fstype opts) =
              {| mount.device := dev; mount.path := path; mount.mount_type := fstype;
                 mount.options := map strip (split_on "," opts) |}).
  { unfold mount.MountPoint_parse. rewrite mount_line_stripped by exact Hdev.
    rewrite Hm, G1, G2, G3, G4. reflexivity. }
  split; [exact E|]. intros ->. rewrite E. reflexivity.
Qed.

Lemma mount_line_fields_witness :
  mount.MountPoint_parse mount.MountPoint_default
    (b"/dev/block/dm-5 on /data type f2fs (rw, nosuid,noatime)") =
  {| mount.device := b"/dev/block/dm-5"; mount.path := b"/data";
     mount.mount_type := b"f2fs";
     mount.options := [b"rw"; b"nosuid"; b"noatime"] |}.
Proof.
  refine (proj1 (mount_line_fields mount.MountPoint_default (b" ") (b"/dev/block/dm-5")
                   (b"/data") (b"f2fs") (b"rw, nosuid,noatime") _ _ _ _ _));
    (split; [discriminate|]) || idtac; repeat constructor.
Defined.

(** ** lsmod: the fields of a line, and the lines of the section *)

Lemma split_ws_go_word (w : bytes) :
  all not_space w ->
  forall cur s, split_ws_go cur (w ++ s) = split_ws_go (rev w ++ cur) s.
Proof.
  intros H. induction H as [|c w Hc Hw IH]; intros cur s; [reflexivity|].
  cbn [app split_ws_go]. rewrite (not_space_space c Hc). rewrite IH.
  cbn [rev]. rewrite <- app_assoc. reflexivity.
Qed.

Lemma split_ws_go_spaces (sp : bytes) :
  all is_space sp -> forall s, split_ws_go [] (sp ++ s) = split_ws_go [] s.
Proof.
  intros H. induction H as [|c sp Hc Hsp IH]; intros s; [reflexivity|].
  cbn [app split_ws_go]. rewrite Hc. apply IH.
Qed.

Lemma split_ws_go_end (cur : bytes) : cur <> [] -> split_ws_go cur [] = [rev cur].
Proof. destruct cur; [congruence|reflexivity]. Qed.

Lemma split_ws_go_sep (sp : bytes) (cur s : bytes) :
  field is_space sp -> cur <> [] ->
  split_ws_go cur (sp ++ s) = rev cur :: split_ws_go [] s.
Proof.
  intros [Hne Hsp] Hcur. destruct sp as [|c sp]; [congruence|].
  inversion Hsp as [|? ? Hc Hsp']; subst. cbn [app split_ws_go]. rewrite Hc.
  destruct cur; [congruence|]. f_equal. apply split_ws_go_spaces. exact Hsp'.
Qed.

(** Fields without white space, joined by white space, are split back. *)
Lemma split_ws_join (sp : bytes) (ws : list bytes) :
  field is_space sp -> Forall (field not_space) ws -> split_ws (join sp ws) = ws.
Proof.
  intros Hsp H. unfold split_ws. induction H as [|w ws [Hne Hw] Hws IH]; [reflexivity|].
  assert (rev w <> []) as Hr.
  { intros E. apply Hne. rewrite <- (rev_involutive w), E. reflexivity. }
  destruct ws as [|w2 ws].
  - cbn [join]. rewrite <- (app_nil_r w) at 1. rewrite split_ws_go_word by exact Hw.
    rewrite app_nil_r, split_ws_go_end by exact Hr. rewrite rev_involutive. reflexivity.
  - change (join sp (w :: w2 :: ws)) with (w ++ sp ++ join sp (w2 :: ws)).
    rewrite split_ws_go_word by exact Hw. rewrite app_nil_r.
    rewrite split_ws_go_sep by assumption. rewrite rev_involutive, IH. reflexivity.
Qed.

Lemma join_ends (sp : bytes) (w : bytes) (ws : list bytes) :
  exists pre post, join sp (w :: ws) = w ++ post /\
    exists wl, last (w :: ws) = Some wl /\ join sp (w :: ws) = pre ++ wl.
Proof.
  revert w. induction ws as [|w2 ws IH]; intros w.
  - exists [], []. split; [cbn; rewrite app_nil_r; reflexivity|].
    exists w. split; reflexivity.
  - destruct (IH w2) as (pre & post & E1 & wl & Hl & E2).
    change (join sp (w :: w2 :: ws)) with (w ++ sp ++ join sp (w2 :: ws)).
    exists (w ++ sp ++ pre), (sp ++ join sp (w2 :: ws)). split; [reflexivity|].
    exists wl. split; [exact Hl|]. rewrite E2, <- !app_assoc. reflexivity.
Qed.

(** Such a line has no white space at its ends. *)
Lemma strip_join (sp : bytes) (ws : list bytes) :
  Forall (field not_space) ws -> strip (join sp ws) = join sp ws.
Proof.
  intros H. destruct ws as [|w ws]; [reflexivity|].
  destruct (join_ends sp w ws) as (pre & post & E1 & wl & Hl & E2).
  apply strip_by_trimmed.
  - rewrite E1. inversion H; subst.
    apply (field_stops not_space); [assumption|apply not_space_space].
  - intros c Hc. rewrite E2 in Hc.
    assert (field not_space wl) as [Hne Hw].
    { rewrite List.Forall_forall in H. apply H. apply list_elem_of_In.
      apply last_Some_elem_of. exact Hl. }
    rewrite last_or_app, last_or_nonempty in Hc by exact Hne.
    apply last_or_in in Hc; [|exact Hne]. apply not_space_space. eapply all_in; eauto.
Qed.

Lemma digit_is_not_space (c : ascii) : is_digit c = true -> not_space c = true.
Proof. intros H. unfold not_space. rewrite digit_not_space by exact H. reflexivity. Qed.



(** The lines that the loop of [parse_lsmod] gives to [LoadedModule.parse]. *)
Definition lsmod_kept (line : bytes) : bool :=
  nonblank line && negb (startswith (b"Module") line).

Lemma LoadedModule_parse_raises (self : lsmod.LoadedModule) (line : bytes) (e : exn) :
  lsmod.LoadedModule_parse self line = Raise e -> e = ValueError.
Proof.
  unfold lsmod.LoadedModule_parse. destruct line as [|c line]; [discriminate|].
  destruct (split_ws (strip (c :: line))) as [|p0 [|p1 [|p2 parts]]]; try discriminate.
  cbn [length Nat.ltb Nat.leb index nth_error mbind outcome_bind obind].
  unfold py_int, py_int_with.
  destruct (match strip_by is_space p1 with
            | "-"%char :: t' => option_map Z.opp (int_digits 0 false t')
            | "+"%char :: t' => int_digits 0 false t'
            | _ => int_digits 0 false (strip_by is_space p1)
            end) as [z|].
  - cbn [obind]. destruct parts; discriminate.
  - cbn [obind]. intros [= <-]. reflexivity.
Qed.

Lemma lsmod_parse_lines_spec (ls : list bytes) :
  (forall mods, lsmod.parse_lines ls = Ok mods <->
     Forall2 (fun line lm => lsmod.LoadedModule_parse lsmod.LoadedModule_default line = Ok lm)
       (List.filter lsmod_kept ls) mods) /\
  (forall e, lsmod.parse_lines ls = Raise e -> e = ValueError).
Proof.
  induction ls as [|line ls [IH1 IH2]].
  - split.
    + intros mods. cbn. split.
      * intros [= <-]. constructor.
      * intros H. inversion H. reflexivity.
    + discriminate.
  - cbn [lsmod.parse_lines List.filter]. fold (lsmod_kept line).
    destruct (lsmod_kept line); [|split; assumption].
    destruct (lsmod.LoadedModule_parse lsmod.LoadedModule_default line) as [lm|e0] eqn:E;
      cbn [mbind outcome_bind obind].
    + destruct (lsmod.parse_lines ls) as [rest|e1] eqn:E1; cbn [obind]; split.
      * intros mods. split.
        -- intros [= <-]. constructor; [exact E|]. apply IH1. reflexivity.
        -- intros H. inversion H as [|? ? ? ? H1 H2]; subst. rewrite E in H1.
           injection H1 as <-. apply IH1 in H2. injection H2 as <-. reflexivity.
      * discriminate.
      * intros mods. split; [discriminate|].
        intros H. inversion H as [|? ? ? ? H1 H2]; subst. apply IH1 in H2. discriminate.
      * intros e [= <-]. apply IH2. reflexivity.
    + split.
      * intros mods. split; [discriminate|].
        intros H. inversion H as [|? ? ? ? H1 H2]; subst. rewrite E in H1. discriminate.
      * intros e [= <-]. eapply LoadedModule_parse_raises. exact E.
Qed.

(** X4. In a located LSMOD section, [parse_lsmod] gives each line that is
    not blank and does not begin with ['Module'] to [LoadedModule.parse]:
    it returns a list exactly when every such line parses, with one record
    per line in the order of the lines, a line of fewer than three fields
    giving the record of defaults; the only exception it raises is the
    ValueError of a size that is not an integer. *)
Theorem lsmod_one_record_per_line (r : bytes) (m : rmatch_result) :
  re_search lsmod.section_re r = Some m ->
  let ls := List.filter lsmod_kept (split_on newline (strip (group_or_empty m 1))) in
  (forall mods, snd (lsmod.parse_lsmod (RawData_init r)) = Ok (Some mods) <->
     Forall2 (fun line lm => lsmod.LoadedModule_parse lsmod.LoadedModule_default line = Ok lm)
       ls mods) /\
  (forall e, snd (lsmod.parse_lsmod (RawData_init r)) = Raise e -> e = ValueError) /\
  (forall line, (length (split_ws (strip line)) < 3)%nat ->
     lsmod.LoadedModule_parse lsmod.LoadedModule_default line =
     Ok lsmod.LoadedModule_default).
Proof.
  intros Hm ls. unfold lsmod.parse_lsmod. cbn [snd raw RawData_init]. rewrite Hm.
  destruct (lsmod_parse_lines_spec (split_on newline (strip (group_or_empty m 1))))
    as [H1 H2].
  repeat split.
  - intros H. apply H1.
    destruct (lsmod.parse_lines _) as [x|e]; cbn [mbind outcome_bind obind] in H;
      [injection H as <-; reflexivity|discriminate].
  - intros H. apply H1 in H. rewrite H. reflexivity.
  - intros e H.
    destruct (lsmod.parse_lines _) as [x|e0] eqn:E; cbn [mbind outcome_bind obind] in H;
      [discriminate|]. injection H as <-. eapply H2. reflexivity.
  - intros line Hlen. unfold lsmod.LoadedModule_parse. destruct line; [reflexivity|].
    apply Nat.ltb_lt in Hlen. rewrite Hlen. reflexivity.
Qed.

Definition lsmod_report : bytes :=
  b"------ LSMOD (lsmod) ------" ++ nl ++
  b"Module Size Used by" ++ nl ++
  b"wlan 7340032 0" ++ nl ++
  b"(none)" ++ nl ++
  b"------ 0.01s was the duration of 'LSMOD' ------".

Definition lsmod_report_match : rmatch_result :=
  Eval vm_compute in
    match re_search lsmod.section_re lsmod_report with
    | Some m => m
    | None => {| m_start := 0; m_end := 0; m_caps := [] |}
    end.

Lemma lsmod_one_record_per_line_witness :
  snd (lsmod.parse_lsmod (RawData_init lsmod_report)) =
  Ok (Some [ {| lsmod.name := b"wlan"; lsmod.size := 7340032; lsmod.used_by := [] |};
             lsmod.LoadedModule_default ]).
Proof.
  assert (Hm : re_search lsmod.section_re lsmod_report = Some lsmod_report_match).
  { vm_compute. reflexivity. }
  apply (proj1 (lsmod_one_record_per_line lsmod_report lsmod_report_match Hm)).
  repeat constructor.
Defined.

(** ** process: the number of fields of a line *)

Lemma fresh_thread_pid :
  process.attr_int (process.setattr process.ThreadInfo_init "_parsers" VParsers) "pid" = 0.
Proof. vm_compute. reflexivity. Qed.

(** X5. A line of the ps table with fewer than 14 fields, or of the top
    table with fewer than 12, leaves the fresh [ThreadInfo] at its
    defaults, so its pid is 0 and the line adds nothing to the report.  A
    line of the ps table with 14 or 15 fields passes the test on the number
    of fields but cannot be unpacked into the 16 names of the assignment:
    ValueError is raised. *)
Theorem process_line_field_count (info : process.ProcessReport) (line : bytes) :
  let n := length (split_ws (strip line)) in
  ((n < 14)%nat -> process.add_line info line process.ps = Ok info) /\
  ((n < 12)%nat -> process.add_line info line process.top = Ok info) /\
  ((14 <= n <= 15)%nat -> process.add_line info line process.ps = Raise ValueError).
Proof.
  intros n. subst n. unfold process.add_line, process.ThreadInfo_parse.
  repeat split.
  - intros H. unfold process._parse_ps. apply Nat.ltb_lt in H. rewrite H.
    cbn [mbind outcome_bind obind]. rewrite fresh_thread_pid. reflexivity.
  - intros H. unfold process._parse_top. apply Nat.ltb_lt in H. rewrite H.
    cbn [mbind outcome_bind obind]. rewrite fresh_thread_pid. reflexivity.
  - intros [H1 H2]. unfold process._parse_ps.
    destruct (split_ws (strip line)) as [|? [|? [|? [|? [|? [|? [|? [|? [|? [|? [|?
              [|? [|? [|? [|? [|? ?]]]]]]]]]]]]]]]]; cbn [length] in H1, H2; try lia;
      reflexivity.
Qed.

Lemma process_line_field_count_witness :
  process.add_line process.ProcessReport_init (b"u:r:init:s0 root 1") process.ps =
    Ok process.ProcessReport_init /\
  process.add_line process.ProcessReport_init (b"  PID   TID USER") process.top =
    Ok process.ProcessReport_init /\
  process.add_line process.ProcessReport_init
    (b"u:r:init:s0 root 1 1 0 100 200 0 0 S 19 0 - 0") process.ps = Raise ValueError.
Proof.
  split; [|split].
  - apply (proj1 (process_line_field_count process.ProcessReport_init
                    (b"u:r:init:s0 root 1"))). vm_compute. lia.
  - apply (proj1 (proj2 (process_line_field_count process.ProcessReport_init
                           (b"  PID   TID USER")))). vm_compute. lia.
  - apply (proj2 (proj2 (process_line_field_count process.ProcessReport_init
                           (b"u:r:init:s0 root 1 1 0 100 200 0 0 S 19 0 - 0")))).
    vm_compute. lia.
Defined.

(** ** process: where the records are filed *)

(** A thread record with its two identifiers. *)
Definition has_ids (o : gmap string pyval) : Prop :=
  exists p t, o !! "pid"%string = Some (VInt p) /\ o !! "tid"%string = Some (VInt t).

Lemma has_ids_other (o : gmap string pyval) (k : string) (v : pyval) :
  k <> "pid"%string -> k <> "tid"%string -> has_ids o -> has_ids (process.setattr o k v).
Proof.
  intros H1 H2 (p & t & Hp & Ht). exists p, t. unfold process.setattr.
  rewrite !lookup_insert_ne by assumption. auto.
Qed.

Lemma has_ids_pid (o : gmap string pyval) (z : Z) :
  has_ids o -> has_ids (process.setattr o "pid" (VInt z)).
Proof.
  intros (p & t & Hp & Ht). exists z, t. unfold process.setattr.
  rewrite lookup_insert_eq, lookup_insert_ne by discriminate. auto.
Qed.

Lemma has_ids_tid (o : gmap string pyval) (z : Z) :
  has_ids o -> has_ids (process.setattr o "tid" (VInt z)).
Proof.
  intros (p & t & Hp & Ht). exists p, z. unfold process.setattr.
  rewrite lookup_insert_eq, lookup_insert_ne by discriminate. auto.
Qed.

Ltac has_ids_chain H0 :=
  repeat first [ apply has_ids_pid | apply has_ids_tid
               | apply has_ids_other; [discriminate|discriminate|] ];
  exact H0.

Lemma ThreadInfo_parse_ids (line : bytes) (src : process.source) (o : gmap string pyval) :
  process.ThreadInfo_parse process.ThreadInfo_init line src = Ok o -> has_ids o.
Proof.
  assert (H0 : has_ids (process.setattr process.ThreadInfo_init "_parsers" VParsers)).
  { exists 0, 0. split; vm_compute; reflexivity. }
  unfold process.ThreadInfo_parse.
  set (self := process.setattr process.ThreadInfo_init "_parsers" VParsers) in *.
  clearbody self. destruct src.
  - unfold process._parse_ps.
    destruct (length (split_ws (strip line)) <? 14)%nat; [intros [= <-]; exact H0|].
    destruct (split_ws (strip line)) as [|? [|? [|? [|? [|? [|? [|? [|? [|? [|? [|?
              [|? [|? [|? [|? [|? ?]]]]]]]]]]]]]]]]; try discriminate.
    cbv zeta. unfold mbind, outcome_bind. intros H.
    do 3 bind_step H. apply Ok_inj in H. subst o. has_ids_chain H0.
  - unfold process._parse_top.
    destruct (length (split_ws (strip line)) <? 12)%nat; [intros [= <-]; exact H0|].
    cbv zeta. unfold mbind, outcome_bind. intros H.
    do 3 bind_step H. apply Ok_inj in H. subst o. has_ids_chain H0.
  - intros [= <-]. exact H0.
Qed.

Lemma merge_attr_int (first second : gmap string pyval) (k : string) :
  (exists z, second !! k = Some (VInt z)) ->
  process.attr_int (process.merge first second) k = process.attr_int second k.
Proof.
  intros [z Hz]. unfold process.attr_int. rewrite merge_lookup, Hz. reflexivity.
Qed.

(** Every process is stored under its own pid, which is not 0, and every
    thread record under its own tid, in the process of its own pid. *)
Definition filed (info : process.ProcessReport) : Prop :=
  forall p proc, process.processes info !! p = Some proc ->
    p <> 0 /\ process.pid proc = p /\
    forall t o, process.threads proc !! t = Some o ->
      process.attr_int o "pid" = p /\ process.attr_int o "tid" = t.

Lemma add_line_filed (info info' : process.ProcessReport) (line : bytes)
    (src : process.source) :
  filed info -> process.add_line info line src = Ok info' -> filed info'.
Proof.
  intros Hf. unfold process.add_line.
  destruct (process.ThreadInfo_parse process.ThreadInfo_init line src) as [ti|e] eqn:E;
    cbn [mbind outcome_bind obind]; [|discriminate].
  destruct (ThreadInfo_parse_ids _ _ _ E) as (p0 & t0 & Hp0 & Ht0).
  destruct (process.attr_int ti "pid" =? 0) eqn:Ez; [intros [= <-]; exact Hf|].
  apply Z.eqb_neq in Ez. intros H. apply Ok_inj in H. subst info'.
  intros p proc. cbn [process.processes process.set_processes].
  destruct (decide (process.attr_int ti "pid" = p)) as [<-|Hne].
  - rewrite lookup_insert_eq. intros [= <-].
    set (p := process.attr_int ti "pid") in *.
    assert (Hold : forall proc0,
              match process.processes info !! p with
              | Some proc => proc
              | None => {| process.pid := p; process.user := process.attr_bytes ti "user";
                           process.name := process.attr_bytes ti "name";
                           process.threads := ∅ |}
              end = proc0 ->
              process.pid proc0 = p /\
              forall t o, process.threads proc0 !! t = Some o ->
                process.attr_int o "pid" = p /\ process.attr_int o "tid" = t).
    { intros proc0 Hproc0. destruct (process.processes info !! p) as [proc|] eqn:Ep.
      - subst proc0. destruct (Hf p proc Ep) as (_ & H1 & H2). auto.
      - subst proc0. split; [reflexivity|]. intros t o. cbn [process.threads].
        rewrite lookup_empty. discriminate. }
    destruct (Hold _ eq_refl) as [Hpid Hthreads].
    set (proc0 := match process.processes info !! p with
                  | Some proc => proc | None => _ end) in *.
    clearbody proc0. split; [exact Ez|]. unfold process.add_thread.
    destruct (process.threads proc0 !! process.attr_int ti "tid") as [first|] eqn:Et;
      cbn [process.pid process.threads]; (split; [exact Hpid|]); intros t o.
    + destruct (decide (process.attr_int ti "tid" = t)) as [<-|Hnt].
      * rewrite lookup_insert_eq. intros [= <-].
        rewrite !merge_attr_int by eauto. auto.
      * rewrite lookup_insert_ne by exact Hnt. apply Hthreads.
    + destruct (decide (process.attr_int ti "tid" = t)) as [<-|Hnt].
      * rewrite lookup_insert_eq. intros [= <-]. auto.
      * rewrite lookup_insert_ne by exact Hnt. apply Hthreads.
  - rewrite lookup_insert_ne by exact Hne. apply Hf.
Qed.

Lemma process_lines_filed (header : bytes) (src : process.source) (ls : list bytes) :
  forall (started : bool) (info info' : process.ProcessReport),
    filed info -> process.process_lines header src started info ls = Ok info' ->
    filed info'.
Proof.
  induction ls as [|line ls IH]; intros started info info' Hf; cbn [process.process_lines].
  - intros [= <-]. exact Hf.
  - destruct (startswith header (strip line)); [apply IH; exact Hf|].
    destruct started; [|apply IH; exact Hf].
    destruct (process.add_line info line src) as [info1|e] eqn:E;
      cbn [mbind outcome_bind obind]; [|discriminate].
    apply IH. eapply add_line_filed; eauto.
Qed.

Lemma summary_lines_processes (ls : list bytes) :
  forall info info', process.summary_lines info ls = Ok info' ->
    process.processes info' = process.processes info.
Proof.
  induction ls as [|line ls IH]; intros info info'; cbn [process.summary_lines].
  - intros [= <-]. reflexivity.
  - destruct (process.summary_line info line) as [info1|e] eqn:E;
      cbn [mbind outcome_bind obind]; [|discriminate].
    intros H. rewrite (IH _ _ H). clear H. unfold process.summary_line in E.
    repeat match type of E with
           | (if ?c then _ else _) = _ => destruct c
           end;
      try (injection E as <-; reflexivity).
    destruct (process.int_values _); cbn [mbind outcome_bind obind] in E;
      [injection E as <-; reflexivity|discriminate].
Qed.

(** X6. In the report that [parse_process_info] returns there is at least
    one process; every process is stored under its own pid, which is never
    0; and every thread record is stored under its own tid in the process
    whose pid it carries, also after a merge of the ps and top records. *)
Theorem process_records_filed (rd : RawData) (info : process.ProcessReport) :
  snd (process.parse_process_info rd) = Ok (Some info) ->
  process.processes info <> ∅ /\ filed info.
Proof.
  unfold process.parse_process_info. cbn [snd].
  set (st := fold_left process.gather_line (lines rd) _). clearbody st.
  intros H.
  destruct (match process.cpu_lines st with
            | Some ls => process._parse_top_content process.ProcessReport_init ls
            | None => Ok process.ProcessReport_init
            end) as [info1|e] eqn:E1; cbn [mbind outcome_bind obind] in H; [|discriminate].
  destruct (match process.ps_lines st with
            | Some ls => process._parse_ps_content info1 ls
            | None => Ok info1
            end) as [info2|e] eqn:E2; cbn [mbind outcome_bind obind] in H; [|discriminate].
  destruct (bool_decide (process.processes info2 = ∅)) eqn:Eb; [discriminate|].
  apply Ok_inj in H. injection H as <-.
  apply bool_decide_eq_false in Eb. split; [exact Eb|].
  assert (H0 : filed process.ProcessReport_init).
  { intros p proc. cbn. rewrite lookup_empty. discriminate. }
  assert (H1 : filed info1).
  { destruct (process.cpu_lines st) as [ls|]; [|injection E1 as <-; exact H0].
    unfold process._parse_top_content in E1.
    destruct (process.summary_lines process.ProcessReport_init ls) as [i0|e] eqn:Es;
      cbn [mbind outcome_bind obind] in E1; [|discriminate].
    eapply process_lines_filed; [|exact E1].
    intros p proc. rewrite (summary_lines_processes _ _ _ Es). apply H0. }
  destruct (process.ps_lines st) as [ls|]; [|injection E2 as <-; exact H1].
  eapply process_lines_filed; [exact H1|exact E2].
Qed.

Definition process_report_info : process.ProcessReport :=
  Eval vm_compute in
    match snd (process.parse_process_info (RawData_init process_report)) with
    | Ok (Some info) => info
    | _ => process.ProcessReport_init
    end.

Lemma process_records_filed_witness :
  process.processes process_report_info <> ∅ /\ filed process_report_info.
Proof.
  apply (process_records_filed (RawData_init process_report)). vm_compute. reflexivity.
Defined.

(** ** process: a process keeps the user and the name of its first line *)

Definition process_kept (proc proc' : process.Process) : Prop :=
  process.pid proc' = process.pid proc /\
  process.user proc' = process.user proc /\
  process.name proc' = process.name proc /\
  forall t, is_Some (process.threads proc !! t) -> is_Some (process.threads proc' !! t).

Lemma add_thread_kept (proc : process.Process) (ti : gmap string pyval) :
  process_kept proc (process.add_thread proc ti).
Proof.
  unfold process.add_thread.
  destruct (process.threads proc !! process.attr_int ti "tid") eqn:E;
    (repeat split; try reflexivity); intros t Ht; cbn [process.threads];
    (destruct (decide (process.attr_int ti "tid" = t)) as [<-|Hne];
     [rewrite lookup_insert_eq; eauto|rewrite lookup_insert_ne by exact Hne; exact Ht]).
Qed.

Lemma add_line_kept (info info' : process.ProcessReport) (line : bytes)
    (src : process.source) (p : Z) (proc : process.Process) :
  process.add_line info line src = Ok info' ->
  process.processes info !! p = Some proc ->
  exists proc', process.processes info' !! p = Some proc' /\ process_kept proc proc'.
Proof.
  assert (Hrefl : process_kept proc proc) by (repeat split; auto).
  unfold process.add_line.
  destruct (process.ThreadInfo_parse process.ThreadInfo_init line src) as [ti|e];
    cbn [mbind outcome_bind obind]; [|discriminate].
  destruct (process.attr_int ti "pid" =? 0); [intros [= <-]; eauto|].
  intros H Hp. apply Ok_inj in H. subst info'.
  cbn [process.processes process.set_processes].
  destruct (decide (process.attr_int ti "pid" = p)) as [<-|Hne].
  - rewrite lookup_insert_eq, Hp. eexists. split; [reflexivity|]. apply add_thread_kept.
  - rewrite lookup_insert_ne by exact Hne. eauto.
Qed.

Lemma process_kept_trans (a b c : process.Process) :
  process_kept a b -> process_kept b c -> process_kept a c.
Proof.
  intros (H1 & H2 & H3 & H4) (K1 & K2 & K3 & K4). repeat split; try congruence. auto.
Qed.

(** X7. A process keeps the pid, the user and the name it got from the
    first line that mentioned it: whatever lines of the same table follow,
    with whatever user or name, the process is still in the report with
    these three fields unchanged, and none of its threads is removed. *)
Theorem process_first_line_names (header : bytes) (src : process.source)
    (ls : list bytes) (started : bool) (info info' : process.ProcessReport)
    (p : Z) (proc : process.Process) :
  process.process_lines header src started info ls = Ok info' ->
  process.processes info !! p = Some proc ->
  exists proc', process.processes info' !! p = Some proc' /\ process_kept proc proc'.
Proof.
  revert started info proc.
  induction ls as [|line ls IH]; intros started info proc; cbn [process.process_lines].
  - intros [= <-] Hp. exists proc. split; [exact Hp|]. repeat split; auto.
  - destruct (startswith header (strip line)); [apply IH|].
    destruct started; [|apply IH].
    destruct (process.add_line info line src) as [info1|e] eqn:E;
      cbn [mbind outcome_bind obind]; [|discriminate].
    intros H Hp. destruct (add_line_kept _ _ _ _ _ _ E Hp) as (proc1 & Hp1 & Hk1).
    destruct (IH _ _ _ H Hp1) as (proc2 & Hp2 & Hk2).
    exists proc2. split; [exact Hp2|]. eapply process_kept_trans; eauto.
Qed.

Definition top_table : bytes := b"PID   TID".

Definition one_process : process.ProcessReport :=
  Eval vm_compute in
    match process.process_lines top_table process.top true process.ProcessReport_init
            [b" 1234  1234 root 20 0 12.5 S 10G 5M fg init init"] with
    | Ok info => info
    | Raise _ => process.ProcessReport_init
    end.

Definition one_process_more : process.ProcessReport :=
  Eval vm_compute in
    match process.process_lines top_table process.top true one_process
            [b" 1234  1301 shell 20 0 0.0 S 10G 5M fg sh worker"] with
    | Ok info => info
    | Raise _ => process.ProcessReport_init
    end.

Definition init_process : process.Process :=
  Eval vm_compute in
    match process.processes one_process !! 1234 with
    | Some proc => proc
    | None => {| process.pid := 0; process.user := []; process.name := [];
                 process.threads := ∅ |}
    end.

Lemma process_first_line_names_witness :
  process.user init_process = b"root" /\ process.name init_process = b"init" /\
  exists proc', process.processes one_process_more !! 1234 = Some proc' /\
                process_kept init_process proc'.
Proof.
  split; [reflexivity|]. split; [reflexivity|].
  apply (process_first_line_names top_table process.top
           [b" 1234  1301 shell 20 0 0.0 S 10G 5M fg sh worker"] true one_process).
  - vm_compute. reflexivity.
  - vm_compute. reflexivity.
Defined.

(** ** process: the two sections of the report *)

(** A line that is neither a header of one of the two sections nor the
    line that ends a section. *)
Definition table_line (l : bytes) : bool :=
  negb (startswith (b"----- CPU INFO") l) &&
  negb (startswith (b"------ PROCESSES AND THREADS") l) &&
  negb (startswith (b"------ ") l && contains (b"was the duration of") l).

Lemma gather_table_lines (A : list bytes) :
  Forall (fun l => table_line l = true) A ->
  forall (X : list bytes) (Y : option (list bytes)),
    fold_left process.gather_line A
      {| process.current_section := Some process.cpu_section;
         process.cpu_lines := Some X; process.ps_lines := Y |} =
    {| process.current_section := Some process.cpu_section;
       process.cpu_lines := Some (X ++ A); process.ps_lines := Y |} /\
    fold_left process.gather_line A
      {| process.current_section := Some process.ps_section;
         process.cpu_lines := Y; process.ps_lines := Some X |} =
    {| process.current_section := Some process.ps_section;
       process.cpu_lines := Y; process.ps_lines := Some (X ++ A) |}.
Proof.
  intros H. induction H as [|l A Hl HA IH]; intros X Y.
  - rewrite app_nil_r. split; reflexivity.
  - unfold table_line in Hl. apply andb_true_iff in Hl. destruct Hl as [Hl H3].
    apply andb_true_iff in Hl. destruct Hl as [H1 H2].
    apply negb_true_iff in H1, H2, H3.
    cbn [fold_left]. unfold process.gather_line at 2 4. rewrite H1, H2, H3.
    cbn [process.current_section process.cpu_lines process.ps_lines from_option id].
    destruct (IH (X ++ [l]) Y) as [E1 E2]. rewrite E1, E2, <- !app_assoc. split; reflexivity.
Qed.

Lemma ps_header_not_cpu (l : bytes) :
  startswith (b"------ PROCESSES AND THREADS") l = true ->
  startswith (b"----- CPU INFO") l = false.
Proof.
  intros H. unfold b in H. cbn [list_ascii_of_string] in H.
  do 6 (destruct l as [|? l]; [discriminate|]; cbn [startswith] in H;
        apply andb_true_iff in H; destruct H as [Hc H];
        apply Ascii.eqb_eq in Hc; subst).
  reflexivity.
Qed.

(** X8. The lines of the two tables are gathered whatever the order of the
    two sections in the report: with the CPU INFO section first or the
    PROCESSES AND THREADS section first, the same lines are parsed, the
    top table always before the ps table, and the result is the same.
    When a section header occurs again, the lines gathered after its first
    occurrence are dropped. *)
Theorem process_sections_order (r1 r2 : bytes) (hc hp : bytes) (A A' B : list bytes) :
  startswith (b"----- CPU INFO") hc = true ->
  startswith (b"------ PROCESSES AND THREADS") hp = true ->
  Forall (fun l => table_line l = true) A ->
  Forall (fun l => table_line l = true) A' ->
  Forall (fun l => table_line l = true) B ->
  process.parse_process_info {| raw := r1; lines := hc :: A ++ hp :: B |} =
  process.parse_process_info {| raw := r2; lines := hp :: B ++ hc :: A |} /\
  process.parse_process_info {| raw := r1; lines := hc :: A' ++ hc :: A ++ hp :: B |} =
  process.parse_process_info {| raw := r1; lines := hc :: A ++ hp :: B |}.
Proof.
  intros Hc Hp HA HA' HB.
  pose proof (ps_header_not_cpu hp Hp) as Hpc.
  assert (G1 : forall st, process.gather_line st hc =
            {| process.current_section := Some process.cpu_section;
               process.cpu_lines := Some []; process.ps_lines := process.ps_lines st |}).
  { intros st. unfold process.gather_line. rewrite Hc. reflexivity. }
  assert (G2 : forall st, process.gather_line st hp =
            {| process.current_section := Some process.ps_section;
               process.cpu_lines := process.cpu_lines st; process.ps_lines := Some [] |}).
  { intros st. unfold process.gather_line. rewrite Hpc, Hp. reflexivity. }
  unfold process.parse_process_info. cbn [lines].
  split; f_equal.
  - cbn [fold_left]. rewrite !fold_left_app. cbn [fold_left].
    repeat (progress
      (rewrite ?G1, ?G2, ?(proj1 (gather_table_lines A HA _ _)),
         ?(proj2 (gather_table_lines B HB _ _));
       cbn [process.ps_lines process.cpu_lines app])).
    reflexivity.
  - cbn [fold_left]. rewrite !fold_left_app. cbn [fold_left]. rewrite !fold_left_app.
    cbn [fold_left].
    repeat (progress
      (rewrite ?G1, ?G2, ?(proj1 (gather_table_lines A HA _ _)),
         ?(proj1 (gather_table_lines A' HA' _ _)),
         ?(proj2 (gather_table_lines B HB _ _));
       cbn [process.ps_lines process.cpu_lines app])).
    reflexivity.
Qed.

Lemma process_sections_order_witness :
  process.parse_process_info
    {| raw := []; lines := [ b"----- CPU INFO (top) -----";
                            b"  PID   TID USER PR NI %CPU S VIRT RES PCY CMD NAME";
                            b" 1234  1234 root 20 0 12.5 S 10G 5M fg init init";
                            b"------ PROCESSES AND THREADS (ps) ------";
                            b"LABEL USER PID TID" ] |} =
  process.parse_process_info
    {| raw := []; lines := [ b"------ PROCESSES AND THREADS (ps) ------";
                            b"LABEL USER PID TID";
                            b"----- CPU INFO (top) -----";
                            b"  PID   TID USER PR NI %CPU S VIRT RES PCY CMD NAME";
                            b" 1234  1234 root 20 0 12.5 S 10G 5M fg init init" ] |}.
Proof.
  apply (proj1 (process_sections_order [] [] (b"----- CPU INFO (top) -----")
                  (b"------ PROCESSES AND THREADS (ps) ------")
                  [ b"  PID   TID USER PR NI %CPU S VIRT RES PCY CMD NAME";
                    b" 1234  1234 root 20 0 12.5 S 10G 5M fg init init" ]
                  [] [ b"LABEL USER PID TID" ]
                  eq_refl eq_refl
                  ltac:(repeat constructor) ltac:(repeat constructor)
                  ltac:(repeat constructor))).
Defined.

(** ** account: the header line of a user *)

(** A search passes a position where the literal that begins the pattern
    is not found. *)
Lemma search_from_skip (l : bytes) (r : regex) (pv : option ascii) (i : nat) (c : ascii)
    (s : bytes) :
  startswith l (c :: s) = false ->
  search_from (Lit l +++ r) pv i (c :: s) = search_from (Lit l +++ r) (Some c) (S i) s.
Proof.
  intros H. cbn [search_from]. unfold match_at. cbn [rmatch].
  rewrite advance_by_startswith by exact H. reflexivity.
Qed.

Lemma search_from_here (r : regex) (pv : option ascii) (i : nat) (s : bytes)
    (m : rmatch_result) :
  match_at r {| prev := pv; idx := i; rest := s |} = Some m ->
  search_from r pv i s = Some m.
Proof. intros H. destruct s; cbn [search_from]; rewrite H; reflexivity. Qed.

Lemma not_in_stops (x : ascii) (s : bytes) : stops (not_in [x]) (x :: s).
Proof. cbn. unfold not_in. cbn. rewrite Ascii.eqb_refl. reflexivity. Qed.

Lemma digit_not_colon (c : ascii) : is_digit c = true -> Ascii.eqb c ":" = false.
Proof. intros H. revert H. ascii_cases c. Qed.

Definition user_header (uid nm flag tail : bytes) : bytes :=
  b"User UserInfo{" ++ uid ++ b":" ++ nm ++ b":" ++ flag ++ b"}" ++ tail.

Lemma userinfo_search (uid nm flag tail : bytes) :
  field is_digit uid -> field (not_in (b":")) nm -> field (not_in (b"}")) flag ->
  exists m, re_search account.userinfo_re (user_header uid nm flag tail) = Some m /\
    group_or_empty m 1 = uid /\ group_or_empty m 2 = nm /\ group_or_empty m 3 = flag.
Proof.
  intros Hid Hnm Hflag. unfold re_search, account.userinfo_re, user_header.
  change (b"User UserInfo{" ++ uid ++ b":" ++ nm ++ b":" ++ flag ++ b"}" ++ tail)
    with ("U" :: "s" :: "e" :: "r" :: " " ::
          b"UserInfo{" ++ uid ++ b":" ++ nm ++ b":" ++ flag ++ b"}" ++ tail)%char.
  do 5 (rewrite search_from_skip by reflexivity).
  eexists. split.
  - apply search_from_here. unfold match_at.
    next. rewrite lit_match.
    next. apply field_span; [exact Hid|reflexivity|].
    next. rewrite lit_match.
    next. apply field_span; [exact Hnm|apply (not_in_stops ":")|].
    next. rewrite lit_match.
    next. apply field_span; [exact Hflag|apply (not_in_stops "}")|].
    next. rewrite lit_match. reflexivity.
  - unfold group_or_empty, group. cbn [m_caps capture Nat.eqb from_option id prev idx rest].
    repeat split; apply take_span.
Qed.

Lemma split_once_first (sep : ascii) (x y : bytes) :
  all (fun c => negb (Ascii.eqb c sep)) x ->
  split_once sep (x ++ sep :: y) = [x; y].
Proof.
  intros H. induction H as [|c x Hc Hx IH]; cbn [app split_once].
  - rewrite Ascii.eqb_refl. reflexivity.
  - apply negb_true_iff in Hc. rewrite Hc, IH. reflexivity.
Qed.



(** ** account: the lines of the visibility section *)

Lemma assoc_set_set {K V : Type} `{EqDecision K} (k : K) (v w : V) (d : list (K * V)) :
  assoc_set k w (assoc_set k v d) = assoc_set k w d.
Proof.
  induction d as [|[k' v'] d IH]; cbn [assoc_set].
  - rewrite decide_True by reflexivity. reflexivity.
  - destruct (decide (k' = k)) as [->|Hne]; cbn [assoc_set].
    + rewrite decide_True by reflexivity. reflexivity.
    + rewrite decide_False by exact Hne. rewrite IH. reflexivity.
Qed.

(** A line of the section that no earlier branch of the loop takes: it has
    no surrounding white space, is not empty, and is neither one of the
    headers of the service, nor the header of a user, nor the title of a
    sub-section, nor a rule of dashes. *)
Definition account_plain (line : bytes) : bool :=
  bool_decide (strip line = line) && negb (bool_decide (line = [])) &&
  negb (startswith (b"Service host process PID:") line) &&
  negb (startswith (b"Threads in use:") line) &&
  negb (startswith (b"Client PIDs:") line) &&
  negb (startswith (b"User UserInfo") line) &&
  negb (contains (b"Accounts:") line) &&
  negb (contains (b"Accounts History") line) &&
  negb (contains (b"Active Sessions:") line) &&
  negb (contains (b"RegisteredServicesCache:") line) &&
  negb (contains (b"Account visibility:") line) &&
  negb (startswith (b"---------") line).

Definition with_visibility (u : account.UserAccount) (v : list (bytes * list bytes))
    : account.UserAccount :=
  {| account.user_info_raw := account.user_info_raw u;
     account.user_id := account.user_id u;
     account.user_name := account.user_name u;
     account.user_flag := account.user_flag u;
     account.accounts := account.accounts u;
     account.accounts_history := account.accounts_history u;
     account.active_sessions := account.active_sessions u;
     account.registered_services := account.registered_services u;
     account.account_visibility := v |}.

Lemma account_plain_step (st : account.state) (u : account.UserAccount) (line : bytes) :
  account_plain line = true ->
  account.current_user st = Some u ->
  account.parsing_section st = Some account.sec_visibility ->
  strip line = line /\ line <> [] /\
  account.step st line = Ok (account.section_line st u account.sec_visibility line).
Proof.
  unfold account_plain. intros H Hu Hs.
  repeat (apply andb_prop in H; destruct H as [H ?]).
  repeat match goal with
         | G : negb _ = true |- _ => apply negb_true_iff in G
         end.
  apply bool_decide_eq_true in H.
  match goal with G : bool_decide _ = false |- _ => apply bool_decide_eq_false in G end.
  split; [assumption|]. split; [assumption|].
  unfold account.step.
  repeat match goal with G : _ = false |- _ => rewrite G; clear G end.
  rewrite Hu, Hs. reflexivity.
Qed.

Lemma visibility_rest (ls : list bytes) :
  forall (a : account.AccountInfo) (u : account.UserAccount) (k : bytes) (vs : list bytes),
  k <> [] ->
  Forall (fun l => account_plain l = true) ls ->
  assoc_get k (account.account_visibility u) = Some vs ->
  account.loop
    {| account.account_info := a; account.current_user := Some u;
       account.parsing_section := Some account.sec_visibility;
       account.current_visibility_account := Some k |} ls =
  Ok {| account.account_info := a;
        account.current_user :=
          Some (with_visibility u
                  (match ls with
                   | [] => account.account_visibility u
                   | _ => assoc_set k (vs ++ ls) (account.account_visibility u)
                   end));
        account.parsing_section := Some account.sec_visibility;
        account.current_visibility_account := Some k |}.
Proof.
  induction ls as [|l ls IH]; intros a u k vs Hk Hls Hget.
  - cbn [account.loop]. destruct u; reflexivity.
  - apply Forall_cons in Hls as [Hl Hls].
    destruct (account_plain_step
                {| account.account_info := a; account.current_user := Some u;
                   account.parsing_section := Some account.sec_visibility;
                   account.current_visibility_account := Some k |} u l Hl eq_refl eq_refl)
      as (Hst & Hne & Hstep).
    cbn [account.loop]. rewrite Hst.
    destruct l as [|c l]; [congruence|].
    rewrite Hstep. cbn [mbind outcome_bind obind].
    destruct k as [|kc k]; [congruence|].
    cbn [account.section_line account.current_visibility_account account.set_user
         account.account_info account.parsing_section].
    rewrite Hst, Hget. cbn [from_option id]. unfold account.set_user.
    cbn [account.account_info account.parsing_section account.current_visibility_account].
    fold (with_visibility u
            (assoc_set (kc :: k) (vs ++ [c :: l]) (account.account_visibility u))).
    rewrite (IH a _ (kc :: k) (vs ++ [c :: l])); [| discriminate | exact Hls |].
    + f_equal. f_equal. f_equal. unfold with_visibility.
      cbn [account.user_info_raw account.user_id account.user_name account.user_flag
           account.accounts account.accounts_history account.active_sessions
           account.registered_services account.account_visibility].
      f_equal. destruct ls as [|l' ls]; [reflexivity|].
      rewrite assoc_set_set, <- app_assoc. reflexivity.
    + cbn [with_visibility account.account_visibility]. apply assoc_get_set_eq.
Qed.

(** X10. Inside the [Account visibility:] section of a user, with no
    account open yet, the first plain line opens an account and every plain
    line after it, whatever it says, is appended to the list of that same
    account: the loop never opens a second account, since the name of the
    open one is only reset by the header of a user. *)
Theorem account_visibility_one_key (a : account.AccountInfo) (u : account.UserAccount)
    (k : bytes) (ls : list bytes) :
  Forall (fun l => account_plain l = true) (k :: ls) ->
  account.loop
    {| account.account_info := a; account.current_user := Some u;
       account.parsing_section := Some account.sec_visibility;
       account.current_visibility_account := None |} (k :: ls) =
  Ok {| account.account_info := a;
        account.current_user :=
          Some (with_visibility u (assoc_set k ls (account.account_visibility u)));
        account.parsing_section := Some account.sec_visibility;
        account.current_visibility_account := Some k |}.
Proof.
  intros H. apply Forall_cons in H as [Hk Hls].
  destruct (account_plain_step
              {| account.account_info := a; account.current_user := Some u;
                 account.parsing_section := Some account.sec_visibility;
                 account.current_visibility_account := None |} u k Hk eq_refl eq_refl)
    as (Hst & Hne & Hstep).
  assert (Hsp : startswith (b" ") k = false).
  { destruct k as [|c k]; [reflexivity|].
    cbn [startswith]. unfold b. cbn [list_ascii_of_string startswith].
    destruct (Ascii.eqb " " c) eqn:E; [|reflexivity].
    apply Ascii.eqb_eq in E. subst c. exfalso.
    destruct (strip_by_substring is_space k) as (x & y & Hxy).
    change (strip (" "%char :: k)) with (strip_by is_space k) in Hst.
    rewrite Hst in Hxy. apply (f_equal (@length ascii)) in Hxy.
    rewrite !length_app in Hxy. cbn [length] in Hxy. lia. }
  cbn [account.loop]. rewrite Hst.
  destruct k as [|c k]; [congruence|].
  rewrite Hstep. cbn [mbind outcome_bind obind].
  cbn [account.section_line account.current_visibility_account account.account_info
       account.parsing_section].
  rewrite Hsp, Hst. cbn [negb].
  fold (with_visibility u (assoc_set (c :: k) [] (account.account_visibility u))).
  rewrite (visibility_rest ls a _ (c :: k) []); [| discriminate | exact Hls |].
  - f_equal. f_equal. f_equal. unfold with_visibility.
    cbn [account.user_info_raw account.user_id account.user_name account.user_flag
         account.accounts account.accounts_history account.active_sessions
         account.registered_services account.account_visibility].
    f_equal. destruct ls as [|l' ls]; [reflexivity|].
    rewrite assoc_set_set. reflexivity.
  - cbn [with_visibility account.account_visibility]. apply assoc_get_set_eq.
Qed.

Lemma account_visibility_one_key_witness :
  account.loop
    {| account.account_info := account.AccountInfo_init;
       account.current_user := Some account.UserAccount_init;
       account.parsing_section := Some account.sec_visibility;
       account.current_visibility_account := None |}
    [b"Account {name=a@x.org, type=com.google}"; b"com.android.vending, 1";
     b"Account {name=b@x.org, type=com.google}"; b"com.android.chrome, 2"] =
  Ok {| account.account_info := account.AccountInfo_init;
        account.current_user :=
          Some (with_visibility account.UserAccount_init
                  [(b"Account {name=a@x.org, type=com.google}",
                    [b"com.android.vending, 1";
                     b"Account {name=b@x.org, type=com.google}";
                     b"com.android.chrome, 2"])]);
        account.parsing_section := Some account.sec_visibility;
        account.current_visibility_account :=
          Some (b"Account {name=a@x.org, type=com.google}") |}.
Proof.
  refine (account_visibility_one_key account.AccountInfo_init account.UserAccount_init
            (b"Account {name=a@x.org, type=com.google}")
            [b"com.android.vending, 1"; b"Account {name=b@x.org, type=com.google}";
             b"com.android.chrome, 2"] _).
  repeat constructor.
Defined.

(** ** vm_traces: the [while] loop ends at the last line *)

Lemma anr_loop_enough (lines : list bytes) (fuel1 : nat) :
  forall (fuel2 : nat) (st : vm_traces.state),
  (length lines <= fuel1 + vm_traces.i st)%nat ->
  (length lines <= fuel2 + vm_traces.i st)%nat ->
  vm_traces.loop fuel1 lines st = vm_traces.loop fuel2 lines st.
Proof.
  induction fuel1 as [|fuel1 IH]; intros fuel2 st H1 H2.
  - cbn [vm_traces.loop]. destruct fuel2; cbn [vm_traces.loop]; [reflexivity|].
    destruct (Nat.ltb_spec (vm_traces.i st) (length lines)); [lia|reflexivity].
  - cbn [vm_traces.loop].
    destruct (Nat.ltb_spec (vm_traces.i st) (length lines)) as [Hlt|Hge].
    + destruct fuel2 as [|fuel2]; [lia|]. cbn [vm_traces.loop].
      destruct (Nat.ltb_spec (vm_traces.i st) (length lines)); [|lia].
      destruct (vm_traces.step lines st) as [st'|e] eqn:E; [|reflexivity].
      cbn [mbind outcome_bind obind].
      destruct (anr_step_seen lines st st' Hlt E) as [Hi _].
      apply IH; lia.
    + destruct fuel2; cbn [vm_traces.loop]; [reflexivity|].
      destruct (Nat.ltb_spec (vm_traces.i st) (length lines)); [lia|reflexivity].
Qed.

Lemma anr_loop_index (lines : list bytes) (fuel : nat) :
  forall st st' : vm_traces.state,
  (vm_traces.i st <= length lines)%nat ->
  (length lines <= fuel + vm_traces.i st)%nat ->
  vm_traces.loop fuel lines st = Ok st' ->
  vm_traces.i st' = length lines.
Proof.
  induction fuel as [|fuel IH]; intros st st' Hle Hfuel H.
  - cbn in H. apply Ok_inj in H. subst st'. lia.
  - cbn [vm_traces.loop] in H.
    destruct (Nat.ltb_spec (vm_traces.i st) (length lines)) as [Hlt|Hge].
    + obind_cases H. destruct (anr_step_seen lines st a Hlt E) as [Hi _].
      apply (IH a st'); [lia|lia|exact H].
    + apply Ok_inj in H. subst st'. lia.
Qed.

(** X11. The [while i < len(lines)] loop of [parse_anr_traces], whose body
    moves [i] itself on the look-ahead path ([i = j - 1]) before [i += 1]:
    every turn moves [i] forward, so [len(lines)] turns are enough, any
    larger number of turns gives the same outcome, and when the loop
    returns [i] is exactly [len(lines)]: no line is left unread and the
    look-ahead never carries [i] past the end. *)
Theorem anr_loop_reads_all_lines (lines : list bytes) (fuel : nat) :
  (length lines <= fuel)%nat ->
  vm_traces.loop fuel lines
    {| vm_traces.anr_trace := vm_traces.AnrTrace_init;
       vm_traces.current_thread := None; vm_traces.i := 0 |} = vm_traces.run lines /\
  (forall st, vm_traces.run lines = Ok st -> vm_traces.i st = length lines).
Proof.
  intros Hfuel. split.
  - unfold vm_traces.run. apply anr_loop_enough; cbn [vm_traces.i]; lia.
  - intros st H. unfold vm_traces.run in H.
    apply anr_loop_index in H; cbn [vm_traces.i]; [exact H|lia|lia].
Qed.

Lemma anr_loop_reads_all_lines_witness :
  vm_traces.loop 25 (split_on newline anr_content)
    {| vm_traces.anr_trace := vm_traces.AnrTrace_init;
       vm_traces.current_thread := None; vm_traces.i := 0 |} =
  vm_traces.run (split_on newline anr_content) /\
  (forall st, vm_traces.run (split_on newline anr_content) = Ok st ->
     vm_traces.i st = length (split_on newline anr_content)).
Proof.
  apply (anr_loop_reads_all_lines (split_on newline anr_content) 25).
  vm_compute. lia.
Defined.

(** ** vm_traces: a managed frame *)

Lemma search_from_skip_all (h : ascii) (l : bytes) (r : regex) (w : bytes) :
  forall (pv : option ascii) (i : nat) (s : bytes),
  all (not_in [h]) w ->
  search_from (Lit (h :: l) +++ r) pv i (w ++ s) =
  search_from (Lit (h :: l) +++ r) (last_or pv w) (i + length w) s.
Proof.
  induction w as [|c w IH]; intros pv i s Hw.
  - cbn [app last_or length]. rewrite Nat.add_0_r. reflexivity.
  - inversion Hw as [|? ? Hc Hw']; subst. cbn [app last_or length].
    rewrite search_from_skip.
    + rewrite IH by exact Hw'. f_equal. lia.
    + cbn [startswith]. unfold not_in in Hc. cbn [existsb] in Hc.
      rewrite orb_false_r in Hc. apply negb_true_iff in Hc.
      rewrite Ascii.eqb_sym, Hc. reflexivity.
Qed.

Lemma replace_go_absent (old new : bytes) (s : bytes) :
  contains old s = false -> replace_go old new 0 s = s.
Proof.
  induction s as [|c s IH]; intros H; [reflexivity|].
  apply contains_cons_false in H. destruct H as [H1 H2].
  cbn [replace_go]. rewrite H1, IH by exact H2. reflexivity.
Qed.

Lemma lstrip_by_all (p : ascii -> bool) (w s : bytes) :
  all p w -> lstrip_by p (w ++ s) = lstrip_by p s.
Proof.
  induction 1 as [|c w Hc _ IH]; [reflexivity|].
  cbn [app lstrip_by]. rewrite Hc. exact IH.
Qed.

(** The text of a frame after [at ]: a method, then a file and a line
    number in brackets. *)
Definition frame_text (meth file num : bytes) : bytes :=
  meth ++ b"(" ++ file ++ b":" ++ num ++ b")".

Lemma managed_search (meth file num : bytes) :
  all (not_in (b"(")) meth -> field (not_in (b":")) file -> all is_digit num ->
  exists m, re_search vm_traces.managed_re (frame_text meth file num) = Some m /\
    group_or_empty m 1 = file /\ group_or_empty m 2 = num.
Proof.
  intros Hm Hf Hn. unfold re_search, vm_traces.managed_re, frame_text.
  unfold b at 1. cbn [list_ascii_of_string].
  rewrite search_from_skip_all by exact Hm.
  eexists. split.
  - apply search_from_here. unfold match_at.
    next. rewrite lit_match.
    next. apply field_span; [exact Hf|apply (not_in_stops ":")|].
    next. apply opt_take.
    next. apply star_span; [exact Hn|reflexivity|].
    next. rewrite lit_match_end. reflexivity.
  - unfold group_or_empty, group. cbn [m_caps capture Nat.eqb from_option id prev idx rest].
    split.
    + apply take_span.
    + change (b":" ++ num ++ b")") with (":"%char :: num ++ b")").
      cbn [last_or length idx].
      replace (S (0 + length meth + length (b"(") + length file) + length num -
               S (0 + length meth + length (b"(") + length file))%nat
        with (0 + length num - 0)%nat by lia.
      apply take_span.
Qed.



(** ** vm_traces: the header line of a thread *)

Lemma space_not_digit (c : ascii) : is_space c = true -> is_digit c = false.
Proof. intros H. revert H. ascii_cases c. Qed.

(** The optional [daemon] word of a header, with the white space after it. *)
Definition daemon_word (daemon : bool) (sp : bytes) : bytes :=
  if daemon then b"daemon" ++ sp else [].

Definition thread_header (nm sp1 : bytes) (daemon : bool) (sp2 p sp3 t sp4 st : bytes)
    : bytes :=
  [dq] ++ nm ++ [dq] ++ sp1 ++ daemon_word daemon sp2 ++
  b"prio=" ++ p ++ sp3 ++ b"tid=" ++ t ++ sp4 ++ st.

(** A status: a non-empty text on one line with no white space at its ends. *)
Definition status_text (st : bytes) : Prop :=
  field not_newline st /\ stops is_space st /\
  (forall c, last_or None st = Some c -> is_space c = false).

Lemma header_search (nm sp1 : bytes) (daemon : bool) (sp2 p sp3 t sp4 st : bytes) :
  field (not_in [dq]) nm -> field is_space sp1 -> field is_space sp2 ->
  field is_digit p -> field is_space sp3 -> field is_digit t -> field is_space sp4 ->
  status_text st ->
  exists m,
    re_search vm_traces.header_re (thread_header nm sp1 daemon sp2 p sp3 t sp4 st) = Some m /\
    group_or_empty m 1 = nm /\ group_or_empty m 3 = p /\ group_or_empty m 4 = t /\
    group_or_empty m 5 = st.
Proof.
  intros Hnm H1 H2 Hp H3 Ht H4 (Hst & Hst1 & Hst2).
  unfold re_search, vm_traces.header_re, thread_header.
  assert (Hprio : forall s, stops is_space (b"prio=" ++ s)) by (intros s; reflexivity).
  assert (Htid : forall s, stops is_space (b"tid=" ++ s)) by (intros s; reflexivity).
  assert (Hsd : forall w s, field is_space w -> stops is_digit (w ++ s)).
  { intros w s Hw. eapply field_stops; [exact Hw|apply space_not_digit]. }
  destruct daemon; cbn [daemon_word]; eexists; (split; [apply search_from_here; unfold match_at|]).
  - next. rewrite lit_match.
    next. apply field_span; [exact Hnm|apply (not_in_stops dq)|].
    next. rewrite lit_match.
    next. apply field_span; [exact H1|reflexivity|].
    next. unfold Opt. apply alt_first.
    do 2 next. rewrite <- app_assoc, lit_match.
    next. apply field_span; [exact H2|apply Hprio|].
    next. rewrite lit_match.
    next. apply field_span; [exact Hp|apply Hsd; exact H3|].
    next. apply field_span; [exact H3|apply Htid|].
    next. rewrite lit_match.
    next. apply field_span; [exact Ht|apply Hsd; exact H4|].
    next. apply field_span;
      [exact H4|destruct st as [|c st]; [exact I|exact Hst1]|].
    next. rewrite <- (app_nil_r st) at 1.
    apply star_span; [apply Hst|exact I|]. reflexivity.
  - unfold group_or_empty, group.
    cbn [m_caps capture Nat.eqb from_option id prev idx rest].
    (split; [apply take_span|]); (split; [apply take_span|]);
      (split; [apply take_span|]).
    rewrite <- (app_nil_r st) at 2. apply take_span.
  - next. rewrite lit_match.
    next. apply field_span; [exact Hnm|apply (not_in_stops dq)|].
    next. rewrite lit_match.
    next. apply field_span; [exact H1|reflexivity|].
    next. cbn [app]. rewrite opt_none by reflexivity.
    next. rewrite lit_match.
    next. apply field_span; [exact Hp|apply Hsd; exact H3|].
    next. apply field_span; [exact H3|apply Htid|].
    next. rewrite lit_match.
    next. apply field_span; [exact Ht|apply Hsd; exact H4|].
    next. apply field_span;
      [exact H4|destruct st as [|c st]; [exact I|exact Hst1]|].
    next. rewrite <- (app_nil_r st) at 1.
    apply star_span; [apply Hst|exact I|]. reflexivity.
  - unfold group_or_empty, group.
    cbn [m_caps capture Nat.eqb from_option id prev idx rest].
    (split; [apply take_span|]); (split; [apply take_span|]);
      (split; [apply take_span|]).
    rewrite <- (app_nil_r st) at 2. apply take_span.
Qed.



(** ** package: two fields that no line fills *)

Lemma bol_start {R : Type} (pv : option ascii) (s : bytes) (cs : captures)
    (k : cursor -> captures -> option R) :
  rmatch Bol {| prev := pv; idx := 0; rest := s |} cs k =
  k {| prev := pv; idx := 0; rest := s |} cs.
Proof. reflexivity. Qed.

(** A capital letter, letters or white space, then a colon: the line is
    taken for the header of a section that the parser does not know. *)
Lemma other_header_match (c : ascii) (w rest : bytes) :
  is_upper c = true -> field (fun c => is_alpha c || is_space c) w ->
  exists m, re_match package.other_header_re (c :: w ++ b":" ++ rest) = Some m.
Proof.
  intros Hc Hw. unfold re_match, match_at, start_cursor, package.other_header_re.
  eexists. next. rewrite bol_start.
  next. rewrite cls_take by exact Hc.
  next. apply field_span; [exact Hw|reflexivity|].
  next. rewrite lit_match. reflexivity.
Qed.

Lemma required_is_header (line : bytes) :
  startswith (b"Required:") line = true ->
  re_match package.other_header_re line <> None.
Proof.
  intros H. apply startswith_prefix in H. destruct H as [rest ->].
  destruct (other_header_match "R" (b"equired") rest eq_refl) as [m Hm].
  - split; [discriminate|repeat constructor].
  - change (b"Required:" ++ rest) with ("R"%char :: b"equired" ++ b":" ++ rest).
    rewrite Hm. discriminate.
Qed.

Lemma using_is_header (line : bytes) :
  startswith (b"Using:") line = true ->
  re_match package.other_header_re line <> None.
Proof.
  intros H. apply startswith_prefix in H. destruct H as [rest ->].
  destruct (other_header_match "U" (b"sing") rest eq_refl) as [m Hm].
  - split; [discriminate|repeat constructor].
  - change (b"Using:" ++ rest) with ("U"%char :: b"sing" ++ b":" ++ rest).
    rewrite Hm. discriminate.
Qed.

(** The two fields of the result that the sections ['Verifiers:'] and
    ['Domain Verifier:'] are read for. *)
Definition verifier_fields (st : package.state) : list bytes * bytes :=
  (package.verifiers (package.package_info st),
   package.domain_verifier (package.package_info st)).

Ltac split_tests H :=
  repeat match type of H with
         | (if ?c then _ else _) = Ok _ =>
             match type of c with bool => destruct c end
         | match re_search ?r ?l with _ => _ end = Ok _ =>
             destruct (re_search r l)
         | match group ?m ?n with _ => _ end = Ok _ =>
             destruct (group m n)
         end.

Lemma package_attribute_verifiers (strptime : bytes -> outcome package.datetime)
    (st st' : package.state) (i : nat) (line : bytes) :
  package.package_attribute strptime st i line = Ok st' ->
  verifier_fields st' = verifier_fields st.
Proof.
  intros H. unfold package.package_attribute in H.
  split_tests H; obind_cases H; apply Ok_inj in H; subst st'; reflexivity.
Qed.

Lemma packages_line_verifiers (strptime : bytes -> outcome package.datetime)
    (st st' : package.state) (raw_line line : bytes) :
  package.packages_line strptime st raw_line line = Ok st' ->
  verifier_fields st' = verifier_fields st.
Proof.
  intros H. unfold package.packages_line in H.
  destruct (startswith (b"Package [") line);
    [apply Ok_inj in H; subst st'; reflexivity|].
  destruct (package.current_package st) as [i|];
    [|apply Ok_inj in H; subst st'; reflexivity].
  destruct (startswith (b"runtime permissions:") line);
    [apply Ok_inj in H; subst st'; reflexivity|].
  destruct (startswith (b"install permissions:") line);
    [apply Ok_inj in H; subst st'; reflexivity|].
  destruct (startswith (b"declared permissions:") line);
    [apply Ok_inj in H; subst st'; reflexivity|].
  set (st2 := if negb (startswith (b"      ") raw_line)
              then package.set_subsection st None else st) in H.
  assert (Hv : verifier_fields st2 = verifier_fields st).
  { unfold st2. destruct (negb _); reflexivity. }
  clearbody st2. rewrite <- Hv.
  destruct (package.current_package_subsection st2) as [[| |]|].
  - apply Ok_inj in H. subst st'. unfold package.runtime_permission_line.
    destruct (re_search package.runtime_re line); reflexivity.
  - apply Ok_inj in H. subst st'. unfold package.install_permission_line.
    destruct (re_search package.install_re line); reflexivity.
  - unfold package.declared_permission_line in H.
    split_tests H; try discriminate H; apply Ok_inj in H; subst st'; reflexivity.
  - eapply package_attribute_verifiers; eassumption.
Qed.

Lemma step_verifiers (strptime : bytes -> outcome package.datetime)
    (st st' : package.state) (raw_line : bytes) :
  package.step strptime st raw_line = Ok st' ->
  verifier_fields st' = verifier_fields st.
Proof.
  intros H. unfold package.step in H.
  split_tests H; obind_cases H;
    try (apply Ok_inj in H; subst st'; reflexivity).
  destruct (re_match package.other_header_re (strip raw_line)) eqn:Eh;
    [apply Ok_inj in H; subst st'; reflexivity|].
  destruct (package.current_section st) as [s|];
    [|apply Ok_inj in H; subst st'; reflexivity].
  destruct s; cbn [package.section_line] in H;
    try (eapply packages_line_verifiers; eassumption).
  - split_tests H; [|apply Ok_inj in H; subst st'; reflexivity].
    destruct (split_once ":" (strip raw_line)) as [|? [|? [|? ?]]];
      try discriminate H; apply Ok_inj in H; subst st'; reflexivity.
  - split_tests H; [|apply Ok_inj in H; subst st'; reflexivity].
    destruct (split_once ":" (strip raw_line)) as [|? [|? [|? ?]]];
      try discriminate H; apply Ok_inj in H; subst st'; reflexivity.
  - destruct (startswith (b"Required:") (strip raw_line)) eqn:Er.
    + apply required_is_header in Er. congruence.
    + apply Ok_inj in H; subst st'; reflexivity.
  - destruct (startswith (b"Using:") (strip raw_line)) eqn:Eu.
    + apply using_is_header in Eu. congruence.
    + apply Ok_inj in H; subst st'; reflexivity.
  - split_tests H; [|apply Ok_inj in H; subst st'; reflexivity].
    destruct (split_str_go (b"->") true 0 [] (strip raw_line)) as [|? [|? [|? ?]]];
      try discriminate H; apply Ok_inj in H; subst st'; reflexivity.
  - apply Ok_inj in H; subst st'; reflexivity.
Qed.

Lemma loop_verifiers (strptime : bytes -> outcome package.datetime) (ls : list bytes) :
  forall st st' : package.state,
  package.loop strptime st ls = Ok st' ->
  verifier_fields st' = verifier_fields st.
Proof.
  induction ls as [|l ls IH]; intros st st' H.
  - cbn in H. apply Ok_inj in H. subst st'. reflexivity.
  - cbn [package.loop] in H. destruct (strip l) as [|c s] eqn:El; [exact (IH _ _ H)|].
    obind_cases H. rewrite (IH _ _ H). eapply step_verifiers; eassumption.
Qed.

(** X14. No input makes [parse_package_info] fill [verifiers] or
    [domain_verifier]: whenever it returns a result, the first is the empty
    list and the second the empty bytes.  The lines that would fill them
    begin with ['Required:'] and ['Using:'], and such a line is taken
    before by the test for an unknown header, [^[A-Z][a-zA-Z\s]+:], which
    resets the section. *)
Theorem package_verifiers_never_filled (strptime : bytes -> outcome package.datetime)
    (dumpstate_content : RawData) (info : package.PackageInfo) :
  snd (package.parse_package_info strptime dumpstate_content) = Ok (Some info) ->
  package.verifiers info = [] /\ package.domain_verifier info = [].
Proof.
  unfold package.parse_package_info. cbn [snd]. intros H.
  destruct (package.collect false (lines dumpstate_content)) as [|l ls];
    [discriminate H|].
  obind_cases H. apply Ok_inj in H. injection H as <-.
  apply loop_verifiers in E. unfold verifier_fields in E. cbn in E.
  injection E as -> ->. split; reflexivity.
Qed.

Definition verifiers_report : bytes :=
  b"DUMP OF SERVICE package:" ++ nl ++
  b"Verifiers:" ++ nl ++
  b"  Required: com.android.vending (uid=10123)" ++ nl ++
  b"Domain Verifier:" ++ nl ++
  b"  Using: com.google.android.gms (uid=10120)" ++ nl ++
  b"Features:" ++ nl ++
  b"  android.hardware.camera" ++ nl ++
  b"--------- 0.1s was the duration of dumpsys package".

Definition verifiers_report_info : package.PackageInfo :=
  Eval vm_compute in
    match snd (package.parse_package_info package.strptime_ascii
                 (RawData_init verifiers_report)) with
    | Ok (Some info) => info
    | _ => package.PackageInfo_init
    end.

Lemma package_verifiers_never_filled_witness :
  package.features verifiers_report_info = [b"android.hardware.camera"] /\
  package.verifiers verifiers_report_info = [] /\
  package.domain_verifier verifiers_report_info = [].
Proof.
  split; [reflexivity|].
  apply (package_verifiers_never_filled package.strptime_ascii
           (RawData_init verifiers_report) verifiers_report_info).
  vm_compute. reflexivity.
Defined.

(** ** package: the lines of the section *)

Lemma startswith_shorter (p q s : bytes) :
  startswith p s = false -> startswith (p ++ q) s = false.
Proof.
  revert s. induction p as [|c p IH]; intros s H; [discriminate H|].
  destruct s as [|d s]; [reflexivity|]. cbn [app startswith] in *.
  destruct (Ascii.eqb c d); [apply IH; exact H|reflexivity].
Qed.

Definition is_package_header (line : bytes) : bool :=
  startswith (b"DUMP OF SERVICE package:") line.

Definition ends_section (line : bytes) : bool :=
  startswith (b"DUMP OF SERVICE") line || startswith (b"------") line.

Lemma not_end_not_header (line : bytes) :
  ends_section line = false -> is_package_header line = false.
Proof.
  unfold ends_section, is_package_header. intros H. apply orb_false_iff in H.
  destruct H as [H _].
  exact (startswith_shorter (b"DUMP OF SERVICE") (b" package:") line H).
Qed.

Lemma collect_before (pre rest : list bytes) :
  Forall (fun l => is_package_header l = false) pre ->
  package.collect false (pre ++ rest) = package.collect false rest.
Proof.
  induction 1 as [|l pre Hl _ IH]; [reflexivity|].
  cbn [app package.collect]. unfold is_package_header in Hl. rewrite Hl. exact IH.
Qed.

Lemma collect_body (body rest : list bytes) :
  Forall (fun l => ends_section l = false) body ->
  package.collect true (body ++ rest) = body ++ package.collect true rest.
Proof.
  induction 1 as [|l body Hl _ IH]; [reflexivity|].
  cbn [app package.collect].
  pose proof (not_end_not_header l Hl) as Hh. unfold is_package_header in Hh.
  unfold ends_section in Hl. rewrite Hh, Hl, IH. reflexivity.
Qed.

(** X15. The first loop of [parse_package_info]: the lines kept are those
    between the first line that begins with ['DUMP OF SERVICE package:']
    and the next line that begins with ['DUMP OF SERVICE'] or ['------'],
    or the end of the lines when there is none.  A second
    ['DUMP OF SERVICE package:'] line does not end the section, though it
    begins with ['DUMP OF SERVICE']: it is dropped and the lines after it
    are kept as well. *)
Theorem package_section_bounds (pre body post : list bytes) (hdr : bytes) :
  Forall (fun l => is_package_header l = false) pre ->
  is_package_header hdr = true ->
  Forall (fun l => ends_section l = false) body ->
  package.collect false (pre ++ hdr :: body) = body /\
  (forall term, is_package_header term = false -> ends_section term = true ->
     package.collect false (pre ++ hdr :: body ++ term :: post) = body) /\
  (forall again, is_package_header again = true ->
     package.collect false (pre ++ hdr :: body ++ again :: post) =
     body ++ package.collect true post).
Proof.
  intros Hpre Hhdr Hbody. unfold is_package_header in Hhdr.
  split; [|split].
  - rewrite (collect_before pre _ Hpre). cbn [package.collect]. rewrite Hhdr.
    rewrite <- (app_nil_r body) at 1. rewrite (collect_body body [] Hbody).
    apply app_nil_r.
  - intros term Hh Hterm. rewrite (collect_before pre _ Hpre).
    cbn [package.collect]. rewrite Hhdr, (collect_body body _ Hbody).
    cbn [package.collect]. unfold is_package_header in Hh.
    unfold ends_section in Hterm. rewrite Hh, Hterm. apply app_nil_r.
  - intros again Hh. rewrite (collect_before pre _ Hpre).
    cbn [package.collect]. rewrite Hhdr, (collect_body body _ Hbody).
    cbn [package.collect]. unfold is_package_header in Hh. rewrite Hh. reflexivity.
Qed.

Lemma package_section_bounds_witness :
  package.collect false
    ([b"== dumpstate"] ++ b"DUMP OF SERVICE package:" ::
     [b"Features:"; b"  android.hardware.nfc"]) =
  [b"Features:"; b"  android.hardware.nfc"] /\
  (forall term, is_package_header term = false -> ends_section term = true ->
     package.collect false
       ([b"== dumpstate"] ++ b"DUMP OF SERVICE package:" ::
        [b"Features:"; b"  android.hardware.nfc"] ++ term :: [b"Packages:"]) =
     [b"Features:"; b"  android.hardware.nfc"]) /\
  (forall again, is_package_header again = true ->
     package.collect false
       ([b"== dumpstate"] ++ b"DUMP OF SERVICE package:" ::
        [b"Features:"; b"  android.hardware.nfc"] ++ again :: [b"Packages:"]) =
     [b"Features:"; b"  android.hardware.nfc"] ++ package.collect true [b"Packages:"]).
Proof.
  apply (package_section_bounds [b"== dumpstate"]
           [b"Features:"; b"  android.hardware.nfc"] [b"Packages:"]
           (b"DUMP OF SERVICE package:")).
  - repeat constructor.
  - reflexivity.
  - repeat constructor.
Defined.

(** ** package: the users of a package *)

Lemma user_search (uid tl : bytes) :
  field is_digit uid ->
  exists m, re_search package.user_re (b"User " ++ uid ++ b":" ++ tl) = Some m /\
    group_or_empty m 1 = uid.
Proof.
  intros Hu. unfold re_search, package.user_re. eexists. split.
  - apply search_from_here. unfold match_at.
    next. rewrite lit_match.
    next. apply field_span; [exact Hu|reflexivity|].
    next. rewrite lit_match. reflexivity.
  - unfold group_or_empty, group. cbn [m_caps capture Nat.eqb from_option id prev idx rest].
    apply take_span.
Qed.


Definition one_package_state : package.state :=
  {| package.package_info :=
       package.set_packages package.PackageInfo_init [package.Package_init];
     package.current_section := Some package.sec_packages;
     package.current_package := Some 0%nat;
     package.current_package_subsection := None |}.


(** ** package: the names of the packages, in order *)

Definition names (st : package.state) : list bytes :=
  map package.name (package.packages (package.package_info st)).

Lemma names_alter (f : package.Package -> package.Package) (i : nat)
    (ps : list package.Package) :
  (forall p, package.name (f p) = package.name p) ->
  map package.name (alter f i ps) = map package.name ps.
Proof.
  intros Hf. revert i. induction ps as [|p ps IH]; intros i; [reflexivity|].
  destruct i as [|i]; cbn [alter list_alter map]; [rewrite Hf; reflexivity|].
  f_equal. apply IH.
Qed.

Lemma names_update (st : package.state) (i : nat)
    (f : package.Package -> package.Package) :
  (forall p, package.name (f p) = package.name p) ->
  names (package.update_package st i f) = names st.
Proof. intros Hf. unfold names, package.update_package. cbn. apply names_alter. exact Hf. Qed.

Lemma package_attribute_names (strptime : bytes -> outcome package.datetime)
    (st st' : package.state) (i : nat) (line : bytes) :
  package.package_attribute strptime st i line = Ok st' -> names st' = names st.
Proof.
  intros H. unfold package.package_attribute in H.
  split_tests H; obind_cases H; apply Ok_inj in H; subst st';
    first [reflexivity | apply names_update; intros p; reflexivity].
Qed.

Lemma packages_line_names (strptime : bytes -> outcome package.datetime)
    (st st' : package.state) (raw_line line : bytes) :
  package.packages_line strptime st raw_line line = Ok st' ->
  exists new, names st' = names st ++ new.
Proof.
  intros H. unfold package.packages_line in H.
  destruct (startswith (b"Package [") line).
  { apply Ok_inj in H. subst st'. unfold names. cbn. rewrite map_app. eauto. }
  exists []. rewrite app_nil_r.
  destruct (package.current_package st) as [i|];
    [|apply Ok_inj in H; subst st'; reflexivity].
  destruct (startswith (b"runtime permissions:") line);
    [apply Ok_inj in H; subst st'; reflexivity|].
  destruct (startswith (b"install permissions:") line);
    [apply Ok_inj in H; subst st'; reflexivity|].
  destruct (startswith (b"declared permissions:") line);
    [apply Ok_inj in H; subst st'; reflexivity|].
  set (st2 := if negb (startswith (b"      ") raw_line)
              then package.set_subsection st None else st) in H.
  assert (Hv : names st2 = names st).
  { unfold st2. destruct (negb _); reflexivity. }
  clearbody st2. rewrite <- Hv.
  destruct (package.current_package_subsection st2) as [[| |]|].
  - apply Ok_inj in H. subst st'. unfold package.runtime_permission_line.
    destruct (re_search package.runtime_re line);
      [apply names_update; intros p; reflexivity|reflexivity].
  - apply Ok_inj in H. subst st'. unfold package.install_permission_line.
    destruct (re_search package.install_re line);
      [apply names_update; intros p; reflexivity|reflexivity].
  - unfold package.declared_permission_line in H.
    split_tests H; try discriminate H; apply Ok_inj in H; subst st';
      [apply names_update; intros p; reflexivity|reflexivity].
  - eapply package_attribute_names; eassumption.
Qed.

Lemma step_names (strptime : bytes -> outcome package.datetime)
    (st st' : package.state) (raw_line : bytes) :
  package.step strptime st raw_line = Ok st' ->
  exists new, names st' = names st ++ new.
Proof.
  intros H. unfold package.step in H.
  split_tests H; obind_cases H;
    try (apply Ok_inj in H; subst st'; exists []; rewrite app_nil_r; reflexivity).
  destruct (re_match package.other_header_re (strip raw_line));
    [apply Ok_inj in H; subst st'; exists []; rewrite app_nil_r; reflexivity|].
  destruct (package.current_section st) as [s|];
    [|apply Ok_inj in H; subst st'; exists []; rewrite app_nil_r; reflexivity].
  destruct s; cbn [package.section_line] in H;
    try (eapply packages_line_names; eassumption);
    exists []; rewrite app_nil_r;
    repeat match type of H with
           | (if ?c then _ else _) = Ok _ =>
               match type of c with bool => destruct c end
           | match ?l with _ => _ end = Ok _ =>
               destruct l as [|? [|? [|? ?]]]
           end;
    try discriminate H; apply Ok_inj in H; subst st'; reflexivity.
Qed.

Lemma loop_names (strptime : bytes -> outcome package.datetime) (ls : list bytes) :
  forall st st' : package.state,
  package.loop strptime st ls = Ok st' ->
  exists new, names st' = names st ++ new.
Proof.
  induction ls as [|l ls IH]; intros st st' H.
  - cbn in H. apply Ok_inj in H. subst st'. exists []. rewrite app_nil_r. reflexivity.
  - cbn [package.loop] in H. destruct (strip l) as [|c s] eqn:El; [exact (IH _ _ H)|].
    obind_cases H. destruct (step_names _ _ _ _ E) as [n1 H1].
    destruct (IH _ _ H) as [n2 H2]. exists (n1 ++ n2).
    rewrite H2, H1, app_assoc. reflexivity.
Qed.

(** X17. The names of the packages are settled when their
    ['Package ['] lines are read: whatever the lines that follow, when the
    loop returns, the names it had recorded after any first part of the
    lines are still there, in the same order and at the same indices, and
    the later packages come after them.  No line renames, removes or
    reorders a package. *)
Theorem package_names_settled (strptime : bytes -> outcome package.datetime)
    (first_lines later_lines : list bytes) (st st' : package.state) :
  package.loop strptime package.init_state first_lines = Ok st ->
  package.loop strptime package.init_state (first_lines ++ later_lines) = Ok st' ->
  exists new, names st' = names st ++ new.
Proof.
  intros H1 H2. rewrite loop_app, H1 in H2. cbn [mbind outcome_bind obind] in H2.
  eapply loop_names. exact H2.
Qed.

Definition two_packages : list bytes :=
  [b"Packages:"; b"  Package [com.a] (1f):"; b"    appId=10001"].

Definition two_packages_more : list bytes :=
  [b"  Package [com.b] (2e):"; b"    Package [x] is not a name line";
   b"    dataDir=/data/user/0/com.b"].

Definition state_after (ls : list bytes) : package.state :=
  match package.loop package.strptime_ascii package.init_state ls with
  | Ok st => st
  | Raise _ => package.init_state
  end.

Lemma package_names_settled_witness :
  names (state_after two_packages) = [b"com.a"] /\
  exists new,
    names (state_after (two_packages ++ two_packages_more)) =
    names (state_after two_packages) ++ new.
Proof.
  split; [vm_compute; reflexivity|].
  apply (package_names_settled package.strptime_ascii two_packages two_packages_more);
    vm_compute; reflexivity.
Defined.

(** ** usb: the connections of the host manager *)

(** X18. The loop of [UsbHostManager.extract_data] over the connections:
    the connections that parse are appended in order, and the first one
    whose [parse] raises ends the loop with that exception.  The object
    then still holds the connections read before it, and the connections
    after it are not read. *)
Theorem usb_connections_until_error {datetime : Type}
    (int_of_float : bytes -> outcome Z) (fromtimestamp : Z -> outcome datetime)
    (self : usb.UsbHostManager) (good : list pyval)
    (ucs : list (usb.UsbConnection (datetime := datetime)))
    (bad : pyval) (e : exn) (others : list pyval) :
  Forall2 (fun c uc =>
             usb.UsbConnection_parse int_of_float fromtimestamp
               usb.UsbConnection_init c = Ok uc) good ucs ->
  usb.UsbConnection_parse int_of_float fromtimestamp usb.UsbConnection_init bad =
    Raise e ->
  usb.add_connections int_of_float fromtimestamp self good =
    ({| usb.num_connects := usb.num_connects self;
        usb.connections := usb.connections self ++ ucs |}, None) /\
  usb.add_connections int_of_float fromtimestamp self (good ++ bad :: others) =
    ({| usb.num_connects := usb.num_connects self;
        usb.connections := usb.connections self ++ ucs |}, Some e).
Proof.
  intros Hgood Hbad. revert self.
  induction Hgood as [|c uc good ucs Hc _ IH]; intros self.
  - cbn [app usb.add_connections]. rewrite Hbad, app_nil_r.
    destruct self; split; reflexivity.
  - cbn [app usb.add_connections]. rewrite Hc.
    destruct (IH {| usb.num_connects := usb.num_connects self;
                    usb.connections := usb.connections self ++ [uc] |}) as [H1 H2].
    rewrite H1, H2. cbn [usb.num_connects usb.connections].
    rewrite <- app_assoc. split; reflexivity.
Qed.

Lemma usb_connections_until_error_witness :
  usb.add_connections (datetime := Z) (fun _ => Raise OutOfModel) (fun ms => Ok ms)
    usb.UsbHostManager_init [VDict [(b"mode", VInt 1)]] =
    ({| usb.num_connects := VInt 0;
        usb.connections :=
          [] ++ [ {| usb.device_address := VNone; usb.mode := 1; usb.timestamp := None;
                     usb.manufacturer := VNone; usb.product := VNone |} ] |}, None) /\
  usb.add_connections (datetime := Z) (fun _ => Raise OutOfModel) (fun ms => Ok ms)
    usb.UsbHostManager_init ([VDict [(b"mode", VInt 1)]] ++ VInt 5 :: [VDict []]) =
    ({| usb.num_connects := VInt 0;
        usb.connections :=
          [] ++ [ {| usb.device_address := VNone; usb.mode := 1; usb.timestamp := None;
                     usb.manufacturer := VNone; usb.product := VNone |} ] |},
     Some AttributeError).
Proof.
  apply (usb_connections_until_error (datetime := Z) (fun _ => Raise OutOfModel)
           (fun ms => Ok ms) usb.UsbHostManager_init [VDict [(b"mode", VInt 1)]]
           [ {| usb.device_address := VNone; usb.mode := 1; usb.timestamp := None;
                usb.manufacturer := VNone; usb.product := VNone |} ]
           (VInt 5) AttributeError [VDict []]).
  - repeat constructor.
  - reflexivity.
Defined.

(** ** usb: the details of a UEVENT *)

Lemma startswith_within (a u s : bytes) :
  startswith a (u ++ s) = true -> (length a <= length u)%nat -> startswith a u = true.
Proof.
  revert u. induction a as [|c a IH]; intros u H Hlen; [reflexivity|].
  destruct u as [|d u]; [cbn in Hlen; lia|].
  cbn [app startswith] in *. apply andb_true_iff in H as [Hcd H].
  rewrite Hcd. apply IH; [exact H|cbn in Hlen; lia].
Qed.

(** A search passes a text [pre] in which the literal that begins the
    pattern does not start: no occurrence of [c :: l] lies in [pre]
    followed by the first characters [l'] of the next one. *)
Lemma search_from_skip_text (c : ascii) (l : bytes) (r : regex) (x s : bytes)
    (pre : bytes) :
  length x = length l ->
  forall (pv : option ascii) (i : nat),
  contains (c :: l) (pre ++ x) = false ->
  search_from (Lit (c :: l) +++ r) pv i (pre ++ x ++ s) =
  search_from (Lit (c :: l) +++ r) (last_or pv pre) (i + length pre) (x ++ s).
Proof.
  intros Hx. induction pre as [|d pre IH]; intros pv i H.
  - cbn [app last_or length]. rewrite Nat.add_0_r. reflexivity.
  - cbn [app] in H. apply contains_cons_false in H as [Hd H].
    cbn [app last_or length]. rewrite search_from_skip.
    + rewrite IH by exact H. f_equal. lia.
    + destruct (startswith (c :: l) (d :: pre ++ x ++ s)) eqn:E; [|reflexivity].
      rewrite <- Hd. symmetry.
      apply (startswith_within (c :: l) (d :: pre ++ x) s).
      * cbn [app]. rewrite <- app_assoc. exact E.
      * cbn [length]. rewrite length_app. lia.
Qed.

Lemma split_on_one (sep : ascii) (l : bytes) :
  all (fun c => negb (Ascii.eqb c sep)) l -> split_on sep l = [l].
Proof.
  induction 1 as [|c l Hc _ IH]; [reflexivity|].
  cbn [split_on]. apply negb_true_iff in Hc. rewrite Hc, IH. reflexivity.
Qed.

Lemma split_on_join_sep (sep : ascii) (ls : list bytes) :
  ls <> [] -> Forall (all (fun c => negb (Ascii.eqb c sep))) ls ->
  split_on sep (join [sep] ls) = ls.
Proof.
  assert (Hline : forall (l s : bytes),
            all (fun c => negb (Ascii.eqb c sep)) l ->
            split_on sep (l ++ [sep] ++ s) = l :: split_on sep s).
  { intros l s. induction 1 as [|c l Hc _ IH].
    - cbn [app split_on]. rewrite Ascii.eqb_refl. reflexivity.
    - cbn [app split_on] in *. apply negb_true_iff in Hc. rewrite Hc, IH. reflexivity. }
  induction ls as [|l ls IH]; intros Hne Hall; [congruence|].
  apply Forall_cons in Hall as [Hl Hall].
  destruct ls as [|l2 ls].
  - cbn [join]. apply split_on_one. exact Hl.
  - change (join [sep] (l :: l2 :: ls)) with (l ++ [sep] ++ join [sep] (l2 :: ls)).
    rewrite (Hline l _ Hl). f_equal. apply IH; [discriminate|exact Hall].
Qed.

(** White space inside a line, and the characters of a key or a value. *)
Definition is_blank (c : ascii) : bool := is_uspace c && not_newline c.
Definition uevent_char (c : ascii) : bool :=
  negb (is_uspace c || one_of (b",=}") c).

(** [key=value], with white space before the key. *)
Definition uevent_item (it : bytes * bytes * bytes) : bytes :=
  let '(sp, key, value) := it in sp ++ key ++ b"=" ++ value.

Definition item_ok (it : bytes * bytes * bytes) : Prop :=
  let '(sp, key, value) := it in
  all is_blank sp /\ field uevent_char key /\ field uevent_char value.

Definition uevent_content (items : list (bytes * bytes * bytes)) : bytes :=
  join (b",") (map uevent_item items).

Lemma uevent_char_facts (c : ascii) :
  uevent_char c = true ->
  is_uspace c = false /\ Ascii.eqb c "," = false /\ Ascii.eqb c "=" = false /\
  Ascii.eqb c "}" = false /\ not_newline c = true.
Proof. intros H. revert H. ascii_cases c; intros _; repeat split. Qed.

Lemma is_blank_facts (c : ascii) :
  is_blank c = true ->
  is_uspace c = true /\ Ascii.eqb c "," = false /\ Ascii.eqb c "=" = false /\
  Ascii.eqb c "}" = false /\ not_newline c = true.
Proof. intros H. revert H. ascii_cases c; intros _; repeat split. Qed.

Definition item_char (c : ascii) : bool :=
  negb (Ascii.eqb c ",") && negb (Ascii.eqb c "}") && not_newline c.

Lemma uevent_item_chars (it : bytes * bytes * bytes) :
  item_ok it -> all item_char (uevent_item it).
Proof.
  destruct it as [[sp key] value]. intros (Hsp & [_ Hk] & [_ Hv]).
  cbn [uevent_item]. repeat apply all_app.
  - eapply all_impl; [|exact Hsp]. intros c Hc. apply is_blank_facts in Hc.
    destruct Hc as (_ & H1 & _ & H2 & H3). unfold item_char. rewrite H1, H2, H3.
    reflexivity.
  - eapply all_impl; [|exact Hk]. intros c Hc. apply uevent_char_facts in Hc.
    destruct Hc as (_ & H1 & _ & H2 & H3). unfold item_char. rewrite H1, H2, H3.
    reflexivity.
  - repeat constructor.
  - eapply all_impl; [|exact Hv]. intros c Hc. apply uevent_char_facts in Hc.
    destruct Hc as (_ & H1 & _ & H2 & H3). unfold item_char. rewrite H1, H2, H3.
    reflexivity.
Qed.

Lemma uevent_content_chars (items : list (bytes * bytes * bytes)) :
  Forall item_ok items ->
  all (fun c => negb (Ascii.eqb c "}") && not_newline c) (uevent_content items).
Proof.
  intros H. unfold uevent_content. apply all_join.
  - repeat constructor.
  - apply Forall_fmap. eapply Forall_impl; [exact H|].
    intros it Hit. cbn. eapply all_impl; [|apply uevent_item_chars; exact Hit].
    intros c Hc. unfold item_char in Hc.
    apply andb_true_iff in Hc as [Hc H3]. apply andb_true_iff in Hc as [_ H2].
    rewrite H2, H3. reflexivity.
Qed.

Lemma uevent_search (pre sp0 : bytes) (items : list (bytes * bytes * bytes))
    (post : bytes) :
  contains (b"UEVENT:") (pre ++ b"UEVENT") = false ->
  all is_uspace sp0 -> Forall item_ok items ->
  exists m,
    re_search usb.uevent_re
      (pre ++ b"UEVENT:" ++ sp0 ++ b"{" ++ uevent_content items ++ b"}" ++ post) = Some m /\
    group_or_empty m 1 = uevent_content items.
Proof.
  intros Hpre Hsp Hitems. unfold re_search, usb.uevent_re.
  change (b"UEVENT:" ++ sp0 ++ b"{" ++ uevent_content items ++ b"}" ++ post)
    with (b"UEVENT" ++ b":" ++ sp0 ++ b"{" ++ uevent_content items ++ b"}" ++ post).
  unfold b at 1. cbn [list_ascii_of_string].
  rewrite (search_from_skip_text "U" (b"EVENT:") _ (b"UEVENT")) by
    (reflexivity || exact Hpre).
  change (b"UEVENT" ++ b":" ++ sp0 ++ b"{" ++ uevent_content items ++ b"}" ++ post)
    with (b"UEVENT:" ++ sp0 ++ b"{" ++ uevent_content items ++ b"}" ++ post).
  pose proof (uevent_content_chars items Hitems) as Hc.
  eexists. split.
  - apply search_from_here. unfold match_at.
    next. rewrite (lit_match (b"UEVENT:")).
    next. apply star_span; [exact Hsp|reflexivity|].
    next. rewrite lit_match.
    next. apply star_lazy_span.
    + eapply all_impl; [|exact Hc]. intros c H.
      apply andb_true_iff in H as [_ H]. exact H.
    + intros w1 c w2 Hw. apply lit_head_fail.
      rewrite Hw in Hc. apply all_app_r in Hc. inversion Hc as [|? ? Hcc _]; subst.
      apply andb_true_iff in Hcc as [Hcc _]. apply negb_true_iff in Hcc.
      rewrite Ascii.eqb_sym. exact Hcc.
    + cbv beta. rewrite lit_match. reflexivity.
  - unfold group_or_empty, group. cbn [m_caps capture Nat.eqb from_option id prev idx rest].
    apply take_span.
Qed.

Lemma uevent_pair (it : bytes * bytes * bytes) :
  item_ok it ->
  contains (b"=") (uevent_item it) = true /\
  map ustrip (split_once "=" (uevent_item it)) = [snd (fst it); snd it].
Proof.
  destruct it as [[sp key] value]. intros (Hsp & Hk & Hv). cbn [uevent_item fst snd].
  split.
  - apply substring_contains. exists (sp ++ key), value.
    rewrite <- !app_assoc. reflexivity.
  - change (b"=" ++ value) with ("="%char :: value). rewrite app_assoc.
    rewrite (split_once_first "=" (sp ++ key) value).
    + cbn [map]. f_equal; [|f_equal].
      * unfold ustrip, strip_by. rewrite lstrip_by_all by
          (eapply all_impl; [|exact Hsp]; intros c Hc; apply is_blank_facts in Hc; tauto).
        apply ustrip_trimmed. eapply all_trimmed; [exact (proj2 Hk)|].
        intros c Hc. apply uevent_char_facts in Hc. tauto.
      * apply ustrip_trimmed. eapply all_trimmed; [exact (proj2 Hv)|].
        intros c Hc. apply uevent_char_facts in Hc. tauto.
    + apply all_app.
      * eapply all_impl; [|exact Hsp]. intros c Hc. apply is_blank_facts in Hc.
        destruct Hc as (_ & _ & -> & _). reflexivity.
      * eapply all_impl; [|exact (proj2 Hk)]. intros c Hc. apply uevent_char_facts in Hc.
        destruct Hc as (_ & _ & -> & _). reflexivity.
Qed.

Lemma uevent_fold (items : list (bytes * bytes * bytes)) :
  Forall item_ok items ->
  forall props : list (bytes * pyval),
  fold_left
    (fun props pair =>
       if contains (b"=") pair
       then match split_once "=" pair with
            | [key; value] => dict_set (ustrip key) (VStr (ustrip value)) props
            | _ => props
            end
       else props)
    (map uevent_item items) props =
  fold_left (fun props it => dict_set (snd (fst it)) (VStr (snd it)) props) items props.
Proof.
  induction 1 as [|it items Hit _ IH]; intros props; [reflexivity|].
  cbn [map fold_left]. destruct (uevent_pair it Hit) as [Hc Hs].
  rewrite Hc. destruct (split_once "=" (uevent_item it)) as [|x [|y [|z l]]];
    try discriminate Hs.
  cbn [map] in Hs. injection Hs as Hx Hy. rewrite Hx, Hy. apply IH.
Qed.


